(** * e-json and e-xml: a shallow embedding of the two header-only libraries

    The development follows [e-json.h] (namespace [ejson], struct [JSON]) and
    [e-xml.h] (namespace [exml], struct [Node]).

    - text ([std::string]) is a [string] of 8-bit characters;
    - a thrown exception is the [Throw] case of [result];
    - [std::map<std::string, T>] is an association list kept in the order of
      [std::less<std::string>] (byte-wise lexicographic, bytes unsigned);
    - [double] is an IEEE-754 binary64 value, [spec_float];
    - a cursor [size_t& idx] into a buffer [s] is the suffix of [s] that
      starts at [idx]; the byte offset that the parsers paste into their
      messages is not modelled;
    - loops whose trip count is bounded by the length of a text carry a
      [fuel] argument, and running out of it is the distinct outcome
      [out_of_fuel], never a parse error;
    - [std::vector::resize] allocates and may throw: [EJson] has its two
      callers, the mutable [operator[]] and [set_path], on a machine that
      grants every allocation, and [Growth] has them with the failure in
      them;
    - an [int] or a [size_t] that counts characters or elements is a [nat]:
      the indents of [dump] are taken from 0 on and small enough for their
      sums to fit an [int]. *)

From Stdlib Require Import Bool Arith ZArith List String Ascii Lia Sorted.
From Stdlib Require Import Floats.SpecFloat Numbers.DecimalString Numbers.DecimalPos.
Import ListNotations.
Set Warnings "-register-all".
Open Scope string_scope.
Open Scope Z_scope.

(* ===================================================================== *)
(** * Part I: definitions                                                  *)
(* ===================================================================== *)

(** ** Exceptions *)

Inductive exn : Type :=
| JSONParseError (msg : string)
| XMLParseError (msg : string)
| invalid_argument (msg : string)
| out_of_range (msg : string)
| out_of_fuel.

Inductive result (A : Type) : Type :=
| Ok (a : A)
| Throw (e : exn).

Arguments Ok {A} a.
Arguments Throw {A} e.

Definition bind {A B : Type} (r : result A) (k : A -> result B) : result B :=
  match r with
  | Ok a => k a
  | Throw e => Throw e
  end.

Notation "x <- r ;; k" := (bind r (fun x => k))
  (at level 61, r at next level, right associativity).
Notation "' p <- r ;; k" := (bind r (fun x => let p := x in k))
  (at level 61, p pattern, r at next level, right associativity).

Definition is_ok {A : Type} (r : result A) : bool :=
  match r with Ok _ => true | Throw _ => false end.

(** ** Characters and text *)

Module Text.

(** The value of a byte as [unsigned char]. *)
Definition code (c : ascii) : Z := Z.of_N (N_of_ascii c).

(** [static_cast<char>(n)]: the low eight bits. *)
Definition chr (n : Z) : ascii := ascii_of_N (Z.to_N (n mod 256)).

(** The value of a [char] after integral promotion.  Whether plain [char]
    is signed is left to the platform by the language; [char_signed] says
    which. *)
Definition char_value (char_signed : bool) (c : ascii) : Z :=
  if char_signed && (128 <=? code c) then code c - 256 else code c.

Definition dquote : ascii := "034"%char.
Definition squote : ascii := "039"%char.
Definition backslash : ascii := "092"%char.
Definition newline : ascii := "010"%char.

Definition str1 (c : ascii) : string := String c EmptyString.

(** <cctype> in the "C" locale. *)
Definition isspace (c : ascii) : bool :=
  ((9 <=? code c) && (code c <=? 13)) || (code c =? 32).
Definition isdigit (c : ascii) : bool := (48 <=? code c) && (code c <=? 57).
Definition isalpha (c : ascii) : bool :=
  ((65 <=? code c) && (code c <=? 90)) || ((97 <=? code c) && (code c <=? 122)).
Definition isalnum (c : ascii) : bool := isalpha c || isdigit c.

(** [while (idx < s.size() && p(s[idx])) idx++]: the characters passed over
    and the text left. *)
Fixpoint span (p : ascii -> bool) (s : string) : string * string :=
  match s with
  | EmptyString => (EmptyString, EmptyString)
  | String c s' =>
      if p c then let '(a, b) := span p s' in (String c a, b)
      else (EmptyString, s)
  end.

Definition skip_ws (s : string) : string := snd (span isspace s).

(** [s.find(c)]: the text before the first [c] and the text after it. *)
Fixpoint find_char (c : ascii) (s : string) : option (string * string) :=
  match s with
  | EmptyString => None
  | String d s' =>
      if Ascii.eqb d c then Some (EmptyString, s')
      else match find_char c s' with
           | Some (a, b) => Some (String d a, b)
           | None => None
           end
  end.

(** [std::string(n, ' ')]. *)
Fixpoint spaces (n : nat) : string :=
  match n with
  | O => EmptyString
  | S n' => String " " (spaces n')
  end.

Definition is_empty (s : string) : bool :=
  match s with EmptyString => true | _ => false end.

(** [idx < s.size() && s[idx] == c]. *)
Definition starts (c : ascii) (s : string) : bool :=
  match s with
  | String d _ => Ascii.eqb d c
  | EmptyString => false
  end.

(** [idx++] on a cursor that may already stand at the end. *)
Definition advance (s : string) : string :=
  match s with
  | String _ rest => rest
  | EmptyString => EmptyString
  end.

(** [s.substr(0, n) == p], with [n] the length of [p]. *)
Fixpoint starts_with (p s : string) : option string :=
  match p, s with
  | EmptyString, _ => Some s
  | String a p', String b s' => if Ascii.eqb a b then starts_with p' s' else None
  | String _ _, EmptyString => None
  end.

(** Every character of a string satisfies [p]. *)
Fixpoint all (p : ascii -> bool) (s : string) : bool :=
  match s with
  | EmptyString => true
  | String c s' => p c && all p s'
  end.

(** The head of a text, when it has one, fails [p]. *)
Definition stops (p : ascii -> bool) (s : string) : bool :=
  match s with
  | EmptyString => true
  | String c _ => negb (p c)
  end.

(** *** Integers to text *)

(** [os << n] for an integer in decimal. *)
Definition dec_of_Z (n : Z) : string := NilZero.string_of_int (Z.to_int n).

Definition hex_digit (n : Z) : ascii :=
  if n <? 10 then chr (48 + n) else chr (87 + n).

Fixpoint hex_of_Z_aux (fuel : nat) (n : Z) (acc : string) : string :=
  match fuel with
  | O => acc
  | S f =>
      let acc' := String (hex_digit (n mod 16)) acc in
      if n / 16 =? 0 then acc' else hex_of_Z_aux f (n / 16) acc'
  end.

(** [os << std::hex << n] for an [int]: lower-case digits of the 32-bit
    two's complement pattern. *)
Definition hex_of_int (n : Z) : string :=
  hex_of_Z_aux 8 (n mod 2 ^ 32) EmptyString.

(** [std::setw(w) << std::setfill('0')] in front of a field. *)
Definition pad_zero (w : nat) (s : string) : string :=
  (fix pad (k : nat) : string :=
     match k with O => s | S k' => String "0" (pad k') end)
    (w - String.length s)%nat.

(** *** Text to integers: [std::stoi] *)

Definition digit_value (c : ascii) : option Z :=
  if isdigit c then Some (code c - 48)
  else if (97 <=? code c) && (code c <=? 122) then Some (code c - 87)
  else if (65 <=? code c) && (code c <=? 90) then Some (code c - 55)
  else None.

(** The longest run of digits of the base at the head of [s], accumulated
    into a number; [None] when there is no digit. *)
Fixpoint read_digits (base : Z) (acc : option Z) (s : string) : option Z :=
  match s with
  | EmptyString => acc
  | String c s' =>
      match digit_value c with
      | Some d =>
          if d <? base
          then read_digits base
                 (Some (match acc with Some a => a * base + d | None => d end)) s'
          else acc
      | None => acc
      end
  end.

Definition INT_MAX : Z := 2147483647.
Definition INT_MIN : Z := -2147483648.

(** [std::stoi(s, nullptr, base)] for base 10 or 16, after [strtol]:
    leading white space, an optional sign, for base 16 an optional [0x]
    prefix, then as many digits as there are.  No digit at all throws
    [std::invalid_argument]; a value that does not fit an [int] throws
    [std::out_of_range].  Text after the digits is ignored. *)
Definition stoi (s : string) (base : Z) : result Z :=
  let s := skip_ws s in
  let '(neg, s) :=
    match s with
    | String sign s' =>
        if Ascii.eqb sign "-" then (true, s')
        else if Ascii.eqb sign "+" then (false, s')
        else (false, s)
    | EmptyString => (false, s)
    end in
  let magnitude :=
    match s with
    | String zero (String x s') =>
        if (base =? 16) && Ascii.eqb zero "0" && (Ascii.eqb x "x" || Ascii.eqb x "X")
        then match read_digits base None s' with
             | Some v => Some v
             | None => Some 0
             end
        else read_digits base None s
    | _ => read_digits base None s
    end in
  match magnitude with
  | None => Throw (invalid_argument "stoi")
  | Some m =>
      let v := if neg then - m else m in
      if (INT_MIN <=? v) && (v <=? INT_MAX) then Ok v
      else Throw (out_of_range "stoi")
  end.

End Text.
Import Text.

(** ** [std::map<std::string, T>] *)

Module StdMap.

(** The entries in iteration order.  [std::map] keeps them sorted by
    [std::less<std::string>], which compares byte-wise with bytes taken as
    [unsigned char]: this is [String.compare]. *)
Definition t (V : Type) : Type := list (string * V).

Definition key_lt (a b : string) : Prop := String.compare a b = Lt.

(** [m.find(k)]. *)
Fixpoint find {V : Type} (k : string) (m : t V) : option V :=
  match m with
  | [] => None
  | (k', v) :: m' =>
      match String.compare k k' with
      | Eq => Some v
      | Lt => None
      | Gt => find k m'
      end
  end.

(** [m[k] = v]: overwrite the entry of [k], or insert one at its place. *)
Fixpoint assign {V : Type} (k : string) (v : V) (m : t V) : t V :=
  match m with
  | [] => [(k, v)]
  | (k', v') :: m' =>
      match String.compare k k' with
      | Eq => (k, v) :: m'
      | Lt => (k, v) :: m
      | Gt => (k', v') :: assign k v m'
      end
  end.

(** [m[k]] read as an lvalue: a missing entry is inserted with the default
    value [dflt] first.  The map afterwards and the value referred to. *)
Definition subscript {V : Type} (dflt : V) (k : string) (m : t V) : t V * V :=
  match find k m with
  | Some v => (m, v)
  | None => (assign k dflt m, dflt)
  end.

(** [m.erase(k)]. *)
Fixpoint erase {V : Type} (k : string) (m : t V) : t V :=
  match m with
  | [] => []
  | (k', v) :: m' =>
      match String.compare k k' with
      | Eq => m'
      | Lt => m
      | Gt => (k', v) :: erase k m'
      end
  end.

Definition keys {V : Type} (m : t V) : list string := map fst m.

(** The representation invariant: keys strictly increasing. *)
Inductive sorted {V : Type} : t V -> Prop :=
| sorted_nil : sorted []
| sorted_one : forall k v, sorted [(k, v)]
| sorted_cons : forall k v k' v' m,
    key_lt k k' -> sorted ((k', v') :: m) -> sorted ((k, v) :: (k', v') :: m).

(** The head of a map, when it has one, lies above [k]. *)
Definition above {V : Type} (k : string) (m : t V) : Prop :=
  match m with
  | [] => True
  | (k', _) :: _ => key_lt k k'
  end.

End StdMap.

(** ** [double] *)

Module Double.

(** IEEE-754 binary64. *)
Definition prec : Z := 53.
Definition emax : Z := 1024.

Definition double : Type := spec_float.

(** [a == b] on doubles. *)
Definition eqb (a b : double) : bool := SFeqb a b.

Definition is_nan (d : double) : bool :=
  match d with S754_nan => true | _ => false end.
Definition is_finite (d : double) : bool :=
  match d with S754_zero _ | S754_finite _ _ _ => true | _ => false end.

(** The value [(-1)^s * m * 10^e] rounded to nearest, ties to even. *)
Definition of_decimal (s : bool) (m : Z) (e : Z) : double :=
  if m =? 0 then S754_zero s
  else if 0 <=? e then
    binary_normalize prec emax (if s then - (m * 10 ^ e) else m * 10 ^ e) 0 s
  else
    let '(q, e', l) := SFdiv_core_binary prec emax m 0 (10 ^ (- e)) 0 in
    binary_round_aux prec emax s q e' l.

(** Whether [d] is exactly [m * 10^e] in magnitude. *)
Definition exactly (d : double) (m : Z) (e : Z) : bool :=
  match d with
  | S754_zero _ => m =? 0
  | S754_finite _ dm de =>
      let '(n1, d1) := if 0 <=? de then (Zpos dm * 2 ^ de, 1) else (Zpos dm, 2 ^ (- de)) in
      let '(n2, d2) := if 0 <=? e then (m * 10 ^ e, 1) else (m, 10 ^ (- e)) in
      n1 * d2 =? n2 * d1
  | _ => false
  end.

Definition is_subnormal (d : double) : bool :=
  match d with
  | S754_finite _ m _ => negb (Zpos (digits2_pos m) =? prec)
  | _ => false
  end.

Definition decimal_value (digits : string) : Z :=
  match read_digits 10 None digits with Some v => v | None => 0 end.

(** [std::stod(s)] on a decimal literal: an optional [-], digits, an
    optional [.] and digits, an optional exponent.  This is every string
    [parse_number] passes to it.  The conversion rounds to nearest; when the
    result overflows, or is tiny and inexact, [strtod] reports [ERANGE] and
    [std::stod] throws [std::out_of_range].  A string with no digit throws
    [std::invalid_argument]. *)
Definition stod (s : string) : result double :=
  let '(neg, s) :=
    match s with
    | String "-" s' => (true, s')
    | String "+" s' => (false, s')
    | _ => (false, s)
    end in
  let '(int_digits, s) := span isdigit s in
  let '(frac_digits, s) :=
    match s with
    | String "." s' => span isdigit s'
    | _ => (EmptyString, s)
    end in
  if is_empty int_digits && is_empty frac_digits
  then Throw (invalid_argument "stod")
  else
    let exponent :=
      match s with
      | String c s' =>
          if Ascii.eqb c "e" || Ascii.eqb c "E" then
            let '(eneg, s'') :=
              match s' with
              | String "-" t => (true, t)
              | String "+" t => (false, t)
              | _ => (false, s')
              end in
            match read_digits 10 None s'' with
            | Some v => if eneg then - v else v
            | None => 0
            end
          else 0
      | EmptyString => 0
      end in
    let m := decimal_value (int_digits ++ frac_digits) in
    let e := exponent - Z.of_nat (String.length frac_digits) in
    let d := of_decimal neg m e in
    let tiny :=
      match d with
      | S754_zero _ => negb (m =? 0)
      | _ => is_subnormal d
      end in
    match d with
    | S754_infinity _ => Throw (out_of_range "stod")
    | _ => if tiny && negb (exactly d m e) then Throw (out_of_range "stod") else Ok d
    end.

(** The integer a double holds, when it holds one. *)
Definition integral_value (d : double) : option Z :=
  match d with
  | S754_zero _ => Some 0
  | S754_finite s m e =>
      let v :=
        if 0 <=? e then Some (Zpos m * 2 ^ e)
        else if Zpos m mod 2 ^ (- e) =? 0 then Some (Zpos m / 2 ^ (- e))
        else None in
      match v with
      | Some z => Some (if s then - z else z)
      | None => None
      end
  | _ => None
  end.

Definition LLONG_MIN : Z := - 2 ^ 63.
Definition LLONG_MAX : Z := 2 ^ 63 - 1.

(** The test [num == static_cast<long long>(num) && num >= LLONG_MIN &&
    num <= LLONG_MAX] of [dump], with the integer when it holds.  The cast
    of a value outside the range of [long long] has no defined result; it
    is taken to differ from [num], as it does where the conversion yields
    [LLONG_MIN]. *)
Definition as_long_long (d : double) : option Z :=
  match integral_value d with
  | Some z => if (LLONG_MIN <=? z) && (z <=? LLONG_MAX) then Some z else None
  | None => None
  end.

(** The largest [k] with [d * 10^k <= n], searched upwards from [k]. *)
Fixpoint log10_up (fuel : nat) (n d : Z) (k : Z) : Z :=
  match fuel with
  | O => k
  | S f => if d * 10 ^ (k + 1) <=? n then log10_up f n d (k + 1) else k
  end.

(** The largest negative [k] with [d <= n * 10^(-k)], searched downwards. *)
Fixpoint log10_down (fuel : nat) (n d : Z) (k : Z) : Z :=
  match fuel with
  | O => k
  | S f => if d <=? n * 10 ^ (- k) then k else log10_down f n d (k - 1)
  end.

(** The decimal exponent of the positive rational [n / d]. *)
Definition log10_floor (n d : Z) : Z :=
  if d <=? n then log10_up 400 n d 0 else log10_down 400 n d (-1).

(** [n / d] rounded to the nearest integer, ties to even. *)
Definition round_div (n d : Z) : Z :=
  let q := n / d in
  let r := n mod d in
  match Z.compare (2 * r) d with
  | Lt => q
  | Gt => q + 1
  | Eq => if Z.even q then q else q + 1
  end.

Fixpoint strip_zeros (s : string) : string :=
  match s with
  | EmptyString => EmptyString
  | String c r =>
      let r' := strip_zeros r in
      if Ascii.eqb c "0" && is_empty r' then EmptyString else String c r'
  end.

Fixpoint zeros (n : nat) : string :=
  match n with
  | O => EmptyString
  | S n' => String "0" (zeros n')
  end.

Definition with_point (int_part frac_part : string) : string :=
  let f := strip_zeros frac_part in
  if is_empty f then int_part else int_part ++ "." ++ f.

(** [os << std::setprecision(p) << std::noshowpoint << d] with the float
    field unset: the [%g] conversion.  [p] significant digits ([1] when [p]
    is [0]), fixed notation when the decimal exponent [x] satisfies
    [-4 <= x < p] and scientific notation otherwise, trailing zeros
    removed. *)
Definition put_double (p : Z) (d : double) : string :=
  match d with
  | S754_nan => "nan"
  | S754_infinity s => if s then "-inf" else "inf"
  | S754_zero s => if s then "-0" else "0"
  | S754_finite s m e =>
      let p := Z.max 1 p in
      let '(n, dn) := if 0 <=? e then (Zpos m * 2 ^ e, 1) else (Zpos m, 2 ^ (- e)) in
      let x := log10_floor n dn in
      let scale := p - 1 - x in
      let q := if 0 <=? scale then round_div (n * 10 ^ scale) dn
               else round_div n (dn * 10 ^ (- scale)) in
      let '(q, x) := if 10 ^ p <=? q then (q / 10, x + 1) else (q, x) in
      let digits := dec_of_Z q in
      let body :=
        if (-4 <=? x) && (x <? p) then
          if 0 <=? x then
            with_point (substring 0 (Z.to_nat (x + 1)) digits)
                       (substring (Z.to_nat (x + 1)) (Z.to_nat (p - 1 - x)) digits)
          else
            with_point "0" (zeros (Z.to_nat (- x - 1)) ++ digits)
        else
          with_point (substring 0 1 digits) (substring 1 (Z.to_nat (p - 1)) digits)
          ++ "e" ++ (if x <? 0 then "-" else "+")
          ++ pad_zero 2 (dec_of_Z (Z.abs x)) in
      (if s then "-" else "") ++ body
  end.

End Double.

(** ** The JSON value model ([struct JSON]) *)

Module EJson.
Import Double.

(** [JSONValue]: the variant over null, bool, double, string, vector and
    map, in the order of its alternatives. *)
Inductive JSON : Type :=
| JNull
| JBool (b : bool)
| JNumber (num : double)
| JString (s : string)
| JArray (arr : list JSON)
| JObject (obj : StdMap.t JSON).

Definition is_null (j : JSON) : bool := match j with JNull => true | _ => false end.
Definition is_bool (j : JSON) : bool := match j with JBool _ => true | _ => false end.
Definition is_number (j : JSON) : bool := match j with JNumber _ => true | _ => false end.
Definition is_string (j : JSON) : bool := match j with JString _ => true | _ => false end.
Definition is_array (j : JSON) : bool := match j with JArray _ => true | _ => false end.
Definition is_object (j : JSON) : bool := match j with JObject _ => true | _ => false end.

(** [operator==]: the comparison of the variants, which compares vectors
    element by element, maps entry by entry in iteration order, and doubles
    with [==]. *)
Fixpoint equal (a b : JSON) {struct a} : bool :=
  match a, b with
  | JNull, JNull => true
  | JBool x, JBool y => Bool.eqb x y
  | JNumber x, JNumber y => Double.eqb x y
  | JString x, JString y => String.eqb x y
  | JArray xs, JArray ys =>
      (fix all2 (l1 l2 : list JSON) {struct l1} : bool :=
         match l1, l2 with
         | [], [] => true
         | x :: l1', y :: l2' => equal x y && all2 l1' l2'
         | _, _ => false
         end) xs ys
  | JObject xs, JObject ys =>
      (fix all2 (l1 l2 : StdMap.t JSON) {struct l1} : bool :=
         match l1, l2 with
         | [], [] => true
         | (k1, x) :: l1', (k2, y) :: l2' =>
             String.eqb k1 k2 && equal x y && all2 l1' l2'
         | _, _ => false
         end) xs ys
  | _, _ => false
  end.

(** The invariant every [JSON] holds by construction: each map in the tree
    has its keys strictly increasing. *)
Inductive wf : JSON -> Prop :=
| wf_null : wf JNull
| wf_bool : forall b, wf (JBool b)
| wf_number : forall d, wf (JNumber d)
| wf_string : forall s, wf (JString s)
| wf_array : forall arr, Forall wf arr -> wf (JArray arr)
| wf_object : forall obj,
    StdMap.sorted obj -> Forall (fun kv => wf (snd kv)) obj -> wf (JObject obj).

(** *** Array and object access *)

(** [arr.resize(n)] when [n] exceeds the size: new elements are Null. *)
Definition resize (n : nat) (arr : list JSON) : list JSON :=
  arr ++ repeat JNull (n - List.length arr).

(** [arr[i] = v] for [i] in range. *)
Fixpoint store (i : nat) (v : JSON) (arr : list JSON) {struct arr} : list JSON :=
  match arr, i with
  | [], _ => []
  | _ :: arr', O => v :: arr'
  | x :: arr', S i' => x :: store i' v arr'
  end.

(** [JSON& operator[](size_t idx)]: the receiver afterwards and the element
    referred to. *)
Definition subscript_index (idx : nat) (j : JSON) : result (JSON * JSON) :=
  let j := if is_null j then JArray [] else j in
  match j with
  | JArray arr =>
      let arr := if (List.length arr <=? idx)%nat then resize (S idx) arr else arr in
      Ok (JArray arr, nth idx arr JNull)
  | _ => Throw (JSONParseError "Not an array")
  end.

(** [const JSON& operator[](size_t idx) const]. *)
Definition const_subscript_index (idx : nat) (j : JSON) : result JSON :=
  match j with
  | JArray arr =>
      match nth_error arr idx with
      | Some v => Ok v
      | None => Throw (JSONParseError "Array index out of bounds")
      end
  | _ => Throw (JSONParseError "Not an array")
  end.

(** [JSON& operator[](const std::string& key)]. *)
Definition subscript_key (key : string) (j : JSON) : result (JSON * JSON) :=
  let j := if is_null j then JObject [] else j in
  match j with
  | JObject obj =>
      let '(obj', v) := StdMap.subscript JNull key obj in Ok (JObject obj', v)
  | _ => Throw (JSONParseError "Not an object")
  end.

(** [const JSON& operator[](const std::string& key) const]. *)
Definition const_subscript_key (key : string) (j : JSON) : result JSON :=
  match j with
  | JObject obj =>
      match StdMap.find key obj with
      | Some v => Ok v
      | None => Throw (JSONParseError ("Key not found: " ++ key))
      end
  | _ => Throw (JSONParseError "Not an object")
  end.

(** [contains]. *)
Definition contains (key : string) (j : JSON) : bool :=
  match j with
  | JObject obj => match StdMap.find key obj with Some _ => true | None => false end
  | _ => false
  end.

(** [keys]. *)
Definition keys (j : JSON) : list string :=
  match j with
  | JObject obj => StdMap.keys obj
  | _ => []
  end.

Definition push_back (item : JSON) (j : JSON) : result JSON :=
  let j := if is_null j then JArray [] else j in
  match j with
  | JArray arr => Ok (JArray (arr ++ [item]))
  | _ => Throw (JSONParseError "Not an array")
  end.

Definition push_front (item : JSON) (j : JSON) : result JSON :=
  let j := if is_null j then JArray [] else j in
  match j with
  | JArray arr => Ok (JArray (item :: arr))
  | _ => Throw (JSONParseError "Not an array")
  end.

Definition pop_back (j : JSON) : result JSON :=
  match j with
  | JArray arr =>
      match arr with
      | [] => Throw (JSONParseError "Array is empty")
      | _ => Ok (JArray (removelast arr))
      end
  | _ => Throw (JSONParseError "Not an array")
  end.

Definition insert (index : nat) (item : JSON) (j : JSON) : result JSON :=
  match j with
  | JArray arr =>
      if (List.length arr <? index)%nat then Throw (JSONParseError "Index out of bounds")
      else Ok (JArray (firstn index arr ++ item :: skipn index arr))
  | _ => Throw (JSONParseError "Not an array")
  end.

Definition erase_index (index : nat) (j : JSON) : result JSON :=
  match j with
  | JArray arr =>
      if (List.length arr <=? index)%nat then Throw (JSONParseError "Index out of bounds")
      else Ok (JArray (firstn index arr ++ skipn (S index) arr))
  | _ => Throw (JSONParseError "Not an array")
  end.

Definition erase_key (key : string) (j : JSON) : result JSON :=
  match j with
  | JObject obj => Ok (JObject (StdMap.erase key obj))
  | _ => Throw (JSONParseError "Not an object")
  end.

Definition clear (j : JSON) : JSON :=
  match j with
  | JArray _ => JArray []
  | JObject _ => JObject []
  | _ => JNull
  end.

(** [merge]: every entry of [other] is assigned into the receiver. *)
Definition merge (other : JSON) (j : JSON) : result JSON :=
  match j, other with
  | JObject obj, JObject other_obj =>
      Ok (JObject (fold_left (fun acc kv => StdMap.assign (fst kv) (snd kv) acc) other_obj obj))
  | _, _ => Throw (JSONParseError "Can only merge objects")
  end.

(** [JSON(std::initializer_list<std::pair<std::string, JSON>>)]. *)
Definition object (list : list (string * JSON)) : JSON :=
  JObject (fold_left (fun acc kv => StdMap.assign (fst kv) (snd kv) acc) list []).

(** *** Path operations *)

(** One step of a path: [{key, -1}] or [{"", idx}] in [path_parts]. *)
Definition path_part : Type := (string * Z)%type.

Definition isident_start (c : ascii) : bool := isalpha c || Ascii.eqb c "_".
Definition isident (c : ascii) : bool := isalnum c || Ascii.eqb c "_".

(** [at_path]: the loop over the path, [current] being the value reached.
    Each round either skips a dot, takes an identifier and descends into an
    object, or takes a bracketed index and descends into an array. *)
Fixpoint at_path_loop (fuel : nat) (current : JSON) (path : string) : result JSON :=
  match path with
  | EmptyString => Ok current
  | String c rest =>
      match fuel with
      | O => Throw out_of_fuel
      | S fuel' =>
          if Ascii.eqb c "." then at_path_loop fuel' current rest
          else if isident_start c then
            let '(key, rest') := span isident path in
            match current with
            | JObject obj =>
                match StdMap.find key obj with
                | Some v => at_path_loop fuel' v rest'
                | None => Ok JNull
                end
            | _ => Ok JNull
            end
          else if Ascii.eqb c "[" then
            let '(digits, rest') := span isdigit rest in
            match rest' with
            | String close rest'' =>
                if Ascii.eqb close "]" then
                  idx <- stoi digits 10 ;;
                  match current with
                  | JArray arr =>
                      if (idx <? 0) || (Z.of_nat (List.length arr) <=? idx) then Ok JNull
                      else at_path_loop fuel' (nth (Z.to_nat idx) arr JNull) rest''
                  | _ => Ok JNull
                  end
                else Throw (JSONParseError "Expected closing bracket")
            | EmptyString => Throw (JSONParseError "Expected closing bracket")
            end
          else Throw (JSONParseError ("Invalid character in path: " ++ str1 c))
      end
  end.

Definition at_path (path : string) (j : JSON) : result JSON :=
  at_path_loop (String.length path) j path.

(** [has_path]. *)
Definition has_path (path : string) (j : JSON) : result bool :=
  v <- at_path path j ;; Ok (negb (is_null v)).

(** [set_path], first loop: the path split into [path_parts]. *)
Fixpoint path_parts (fuel : nat) (path : string) : result (list path_part) :=
  match path with
  | EmptyString => Ok []
  | String c rest =>
      match fuel with
      | O => Throw out_of_fuel
      | S fuel' =>
          if Ascii.eqb c "." then path_parts fuel' rest
          else if isident_start c then
            let '(key, rest') := span isident path in
            parts <- path_parts fuel' rest' ;;
            Ok ((key, -1) :: parts)
          else if Ascii.eqb c "[" then
            let '(digits, rest') := span isdigit rest in
            match rest' with
            | String close rest'' =>
                if Ascii.eqb close "]" then
                  idx <- stoi digits 10 ;;
                  parts <- path_parts fuel' rest'' ;;
                  Ok ((EmptyString, idx) :: parts)
                else Throw (JSONParseError "Expected closing bracket")
            | EmptyString => Throw (JSONParseError "Expected closing bracket")
            end
          else Throw (JSONParseError ("Invalid character in path: " ++ str1 c))
      end
  end.

(** [set_path], second loop: the walk along [path_parts] from [current].
    The receiver is changed in place while the walk goes on, so the value
    it holds afterwards is returned whether or not the walk threw. *)
Fixpoint set_parts (parts : list path_part) (val : JSON) (current : JSON)
  : JSON * option exn :=
  match parts with
  | [] => (current, None)
  | (key, index) :: parts' =>
      let is_last := match parts' with [] => true | _ => false end in
      if index =? -1 then
        let current := if is_null current then JObject [] else current in
        match current with
        | JObject obj =>
            if is_last then (JObject (StdMap.assign key val obj), None)
            else
              let '(obj, child) := StdMap.subscript JNull key obj in
              let '(child', e) := set_parts parts' val child in
              (JObject (StdMap.assign key child' obj), e)
        | _ => (current, Some (JSONParseError "Expected object in path"))
        end
      else
        let current := if is_null current then JArray [] else current in
        match current with
        | JArray arr =>
            let i := Z.to_nat index in
            let arr := if (List.length arr <=? i)%nat then resize (S i) arr else arr in
            if is_last then (JArray (store i val arr), None)
            else
              let '(child', e) := set_parts parts' val (nth i arr JNull) in
              (JArray (store i child' arr), e)
        | _ => (current, Some (JSONParseError "Expected array in path"))
        end
  end.

Definition set_path (path : string) (val : JSON) (j : JSON) : JSON * option exn :=
  match path_parts (String.length path) path with
  | Throw e => (j, Some e)
  | Ok parts => set_parts parts val j
  end.

(** *** Sequences of mutations *)

(** One call of the mutating interface on a value, possibly reached
    through the references that the mutable [operator[]] returns:
    [Through_key k m] is [m] applied to the reference that [operator[](k)]
    returns, and [Reference] takes a reference and does nothing with
    it. *)
Inductive mutation : Type :=
| Reference
| Assign (v : JSON)
| Through_key (key : string) (m : mutation)
| Through_index (idx : nat) (m : mutation)
| Push_back (item : JSON)
| Push_front (item : JSON)
| Pop_back
| Insert (index : nat) (item : JSON)
| Erase_index (index : nat)
| Erase_key (key : string)
| Clear
| Merge (other : JSON)
| Set_path (path : string) (val : JSON).

(** A call that throws before it changes anything leaves the receiver as
    it was. *)
Definition settle (r : result JSON) (j : JSON) : JSON * option exn :=
  match r with
  | Ok j' => (j', None)
  | Throw e => (j, Some e)
  end.

(** The receiver after a mutation, and what the mutation threw. *)
Fixpoint mutate (m : mutation) (j : JSON) : JSON * option exn :=
  match m with
  | Reference => (j, None)
  | Assign v => (v, None)
  | Through_key key m' =>
      match subscript_key key j with
      | Throw e => (j, Some e)
      | Ok (j', child) =>
          let '(child', e) := mutate m' child in
          (match j' with
           | JObject obj => JObject (StdMap.assign key child' obj)
           | _ => j'
           end, e)
      end
  | Through_index idx m' =>
      match subscript_index idx j with
      | Throw e => (j, Some e)
      | Ok (j', child) =>
          let '(child', e) := mutate m' child in
          (match j' with
           | JArray arr => JArray (store idx child' arr)
           | _ => j'
           end, e)
      end
  | Push_back item => settle (push_back item j) j
  | Push_front item => settle (push_front item j) j
  | Pop_back => settle (pop_back j) j
  | Insert index item => settle (insert index item j) j
  | Erase_index index => settle (erase_index index j) j
  | Erase_key key => settle (erase_key key j) j
  | Clear => (clear j, None)
  | Merge other => settle (merge other j) j
  | Set_path path val => set_path path val j
  end.

(** A sequence of mutations, each applied to what the one before left,
    whether or not it threw. *)
Definition run (ms : list mutation) (j : JSON) : JSON :=
  fold_left (fun j m => fst (mutate m j)) ms j.

(** The values a mutation brings in are values: their maps are sorted. *)
Fixpoint mutation_wf (m : mutation) : Prop :=
  match m with
  | Assign v | Push_back v | Push_front v | Insert _ v | Merge v | Set_path _ v => wf v
  | Through_key _ m' | Through_index _ m' => mutation_wf m'
  | _ => True
  end.

(** *** Serialization and parsing *)

Section Platform.

(** Whether plain [char] is signed on the target. *)
Variable char_signed : bool.

(** [c < 32] for a [char c]. *)
Definition below_32 (c : ascii) : bool := char_value char_signed c <? 32.

(** The [switch] of [dump] over one character of a string. *)
Definition escape_char (c : ascii) : string :=
  if Ascii.eqb c dquote then String backslash (str1 dquote)
  else if Ascii.eqb c backslash then String backslash (str1 backslash)
  else if Ascii.eqb c "008" then String backslash "b"
  else if Ascii.eqb c "012" then String backslash "f"
  else if Ascii.eqb c "010" then String backslash "n"
  else if Ascii.eqb c "013" then String backslash "r"
  else if Ascii.eqb c "009" then String backslash "t"
  else if below_32 c || (char_value char_signed c =? 127)
       then String backslash "u" ++ pad_zero 4 (hex_of_int (char_value char_signed c))
       else str1 c.

Fixpoint escape_string (s : string) : string :=
  match s with
  | EmptyString => EmptyString
  | String c s' => escape_char c ++ escape_string s'
  end.

(** The number branch of [dump]. *)
Definition dump_number (max_precision : Z) (num : double) : string :=
  match as_long_long num with
  | Some n => dec_of_Z n
  | None => put_double max_precision num
  end.

(** [dump(pretty, indent, indent_size, max_precision)]. *)
Fixpoint dump (pretty : bool) (indent indent_size : nat) (max_precision : Z)
  (j : JSON) {struct j} : string :=
  match j with
  | JNull => "null"
  | JBool b => if b then "true" else "false"
  | JNumber num => dump_number max_precision num
  | JString s => String dquote (escape_string s ++ str1 dquote)
  | JArray arr =>
      "[" ++
      (fix elements (first : bool) (l : list JSON) {struct l} : string :=
         match l with
         | [] => EmptyString
         | el :: l' =>
             (if first then EmptyString else ",") ++
             (if pretty then String newline (spaces (indent + indent_size))
              else EmptyString) ++
             dump pretty (indent + indent_size) indent_size max_precision el ++
             elements false l'
         end) true arr ++
      (if pretty && negb (match arr with [] => true | _ => false end)
       then String newline (spaces indent) else EmptyString) ++
      "]"
  | JObject obj =>
      "{" ++
      (fix members (first : bool) (l : StdMap.t JSON) {struct l} : string :=
         match l with
         | [] => EmptyString
         | kv :: l' =>
             (if first then EmptyString else ",") ++
             (if pretty then String newline (spaces (indent + indent_size))
              else EmptyString) ++
             String dquote (fst kv) ++ String dquote ":" ++
             (if pretty then " " else EmptyString) ++
             dump pretty (indent + indent_size) indent_size max_precision (snd kv) ++
             members false l'
         end) true obj ++
      (if pretty && negb (match obj with [] => true | _ => false end)
       then String newline (spaces indent) else EmptyString) ++
      "}"
  end.

Definition dump_minified (j : JSON) : string := dump false 0 2 6 j.
Definition dump_pretty (indent_size : nat) (j : JSON) : string :=
  dump true 0 indent_size 6 j.

(** [encode_utf8]. *)
Definition encode_utf8 (res : string) (codepoint : Z) : string :=
  if codepoint <=? 127 then res ++ str1 (chr codepoint)
  else if codepoint <=? 2047 then
    res ++ String (chr (Z.lor 192 (Z.shiftr codepoint 6)))
             (str1 (chr (Z.lor 128 (Z.land codepoint 63))))
  else if codepoint <=? 65535 then
    res ++ String (chr (Z.lor 224 (Z.shiftr codepoint 12)))
             (String (chr (Z.lor 128 (Z.land (Z.shiftr codepoint 6) 63)))
                (str1 (chr (Z.lor 128 (Z.land codepoint 63)))))
  else if codepoint <=? 1114111 then
    res ++ String (chr (Z.lor 240 (Z.shiftr codepoint 18)))
             (String (chr (Z.lor 128 (Z.land (Z.shiftr codepoint 12) 63)))
                (String (chr (Z.lor 128 (Z.land (Z.shiftr codepoint 6) 63)))
                   (str1 (chr (Z.lor 128 (Z.land codepoint 63))))))
  else res.

Definition str4 (a b c d : ascii) : string :=
  String a (String b (String c (str1 d))).

Definition is_high_surrogate (codepoint : Z) : bool :=
  (55296 <=? codepoint) && (codepoint <=? 56319).
Definition is_low_surrogate (codepoint : Z) : bool :=
  (56320 <=? codepoint) && (codepoint <=? 57343).

(** [0x10000 + ((codepoint - 0xD800) << 10 | (low_surrogate - 0xDC00))]. *)
Definition combine_surrogates (codepoint low_surrogate : Z) : Z :=
  65536 + Z.lor (Z.shiftl (codepoint - 55296) 10) (low_surrogate - 56320).

(** The loop of [parse_string], entered after the opening quote; [res] is
    the text decoded so far.  The loop also ends when the input does: the
    test [idx > s.size()] that follows it never holds. *)
Fixpoint parse_string_loop (res : string) (s : string) {struct s}
  : result (string * string) :=
  match s with
  | EmptyString => Ok (res, EmptyString)
  | String c s1 =>
      if Ascii.eqb c dquote then Ok (res, s1)
      else if Ascii.eqb c backslash then
        match s1 with
        | EmptyString =>
            Throw (JSONParseError "Invalid escape: unexpected end of string")
        | String esc s2 =>
            if Ascii.eqb esc dquote then parse_string_loop (res ++ str1 dquote) s2
            else if Ascii.eqb esc backslash then parse_string_loop (res ++ str1 backslash) s2
            else if Ascii.eqb esc "/" then parse_string_loop (res ++ "/") s2
            else if Ascii.eqb esc "b" then parse_string_loop (res ++ str1 "008") s2
            else if Ascii.eqb esc "f" then parse_string_loop (res ++ str1 "012") s2
            else if Ascii.eqb esc "n" then parse_string_loop (res ++ str1 "010") s2
            else if Ascii.eqb esc "r" then parse_string_loop (res ++ str1 "013") s2
            else if Ascii.eqb esc "t" then parse_string_loop (res ++ str1 "009") s2
            else if Ascii.eqb esc "u" then
              match s2 with
              | String a (String b (String c' (String d s3))) =>
                  (* everything thrown inside the [try] is rethrown under
                     one message *)
                  let rethrown := JSONParseError "Invalid unicode escape sequence" in
                  match stoi (str4 a b c' d) 16 with
                  | Throw _ => Throw rethrown
                  | Ok codepoint =>
                      if is_high_surrogate codepoint then
                        match s3 with
                        | String b0 (String u0 (String l1 (String l2 (String l3 (String l4 s4))))) =>
                            if Ascii.eqb b0 backslash && Ascii.eqb u0 "u" then
                              match stoi (str4 l1 l2 l3 l4) 16 with
                              | Throw _ => Throw rethrown
                              | Ok low_surrogate =>
                                  if (low_surrogate <? 56320) || (57343 <? low_surrogate)
                                  then Throw rethrown
                                  else parse_string_loop
                                         (encode_utf8 res (combine_surrogates codepoint low_surrogate))
                                         s4
                              end
                            else Throw rethrown
                        | _ => Throw rethrown
                        end
                      else if is_low_surrogate codepoint then Throw rethrown
                      else parse_string_loop (encode_utf8 res codepoint) s3
                  end
              | _ => Throw (JSONParseError "Invalid unicode escape")
              end
            else Throw (JSONParseError ("Unknown escape sequence: " ++ String backslash (str1 esc)))
        end
      else if below_32 c then
        Throw (JSONParseError "Unescaped control character in string")
      else parse_string_loop (res ++ str1 c) s1
  end.

(** [parse_string]. *)
Definition parse_string (s : string) : result (JSON * string) :=
  match s with
  | String c s' =>
      if Ascii.eqb c dquote then
        '(res, rest) <- parse_string_loop EmptyString s' ;; Ok (JString res, rest)
      else Throw (JSONParseError "Expected string")
  | EmptyString => Throw (JSONParseError "Expected string")
  end.

(** [parse_null]. *)
Definition parse_null (s : string) : result (JSON * string) :=
  match starts_with "null" s with
  | Some rest => Ok (JNull, rest)
  | None => Throw (JSONParseError "Invalid null")
  end.

(** [parse_bool]. *)
Definition parse_bool (s : string) : result (JSON * string) :=
  match starts_with "true" s with
  | Some rest => Ok (JBool true, rest)
  | None =>
      match starts_with "false" s with
      | Some rest => Ok (JBool false, rest)
      | None => Throw (JSONParseError "Invalid boolean")
      end
  end.

(** [parse_number], the integer part: the characters matched and the text
    left.  A leading [0] is matched alone. *)
Definition number_integer (s : string) : result (string * string) :=
  match s with
  | String c s' =>
      if isdigit c then
        if Ascii.eqb c "0" then Ok ("0", s') else Ok (span isdigit s)
      else Throw (JSONParseError "Invalid number")
  | EmptyString => Throw (JSONParseError "Invalid number")
  end.

(** [parse_number], the optional fraction. *)
Definition number_fraction (s : string) : result (string * string) :=
  if starts "." s then
    match advance s with
    | String d _ =>
        if isdigit d then
          let '(ds, rest) := span isdigit (advance s) in Ok ("." ++ ds, rest)
        else Throw (JSONParseError "Invalid number: missing digits after decimal point")
    | EmptyString =>
        Throw (JSONParseError "Invalid number: missing digits after decimal point")
    end
  else Ok (EmptyString, s).

(** [parse_number], the optional exponent. *)
Definition number_exponent (s : string) : result (string * string) :=
  match s with
  | String e s' =>
      if Ascii.eqb e "e" || Ascii.eqb e "E" then
        let '(sign, s'') :=
          match s' with
          | String g t =>
              if Ascii.eqb g "+" || Ascii.eqb g "-" then (str1 g, t) else (EmptyString, s')
          | EmptyString => (EmptyString, s')
          end in
        match s'' with
        | String d _ =>
            if isdigit d then
              let '(ds, rest) := span isdigit s'' in Ok (str1 e ++ sign ++ ds, rest)
            else Throw (JSONParseError "Invalid number: missing digits in exponent")
        | EmptyString => Throw (JSONParseError "Invalid number: missing digits in exponent")
        end
      else Ok (EmptyString, s)
  | EmptyString => Ok (EmptyString, s)
  end.

(** The scan of [parse_number]: [s.substr(start, idx - start)] and the text
    left. *)
Definition number_lexeme (s : string) : result (string * string) :=
  let '(minus, s0) := if starts "-" s then ("-", advance s) else (EmptyString, s) in
  '(int_part, s1) <- number_integer s0 ;;
  '(frac_part, s2) <- number_fraction s1 ;;
  '(exp_part, s3) <- number_exponent s2 ;;
  Ok (minus ++ int_part ++ frac_part ++ exp_part, s3).

(** [parse_number]. *)
Definition parse_number (s : string) : result (JSON * string) :=
  '(lexeme, rest) <- number_lexeme s ;;
  match stod lexeme with
  | Ok num => Ok (JNumber num, rest)
  | Throw _ => Throw (JSONParseError "Invalid number format")
  end.

(** The [while (true)] of [parse_array]; [value] is [parse_value]. *)
Fixpoint parse_array_loop (value : string -> result (JSON * string)) (fuel : nat)
  (arr : list JSON) (s : string) : result (JSON * string) :=
  match fuel with
  | O => Throw out_of_fuel
  | S fuel' =>
      '(el, s1) <- value s ;;
      let arr := (arr ++ [el])%list in
      match skip_ws s1 with
      | EmptyString => Throw (JSONParseError "Expected ',' or ']'")
      | String c s2 =>
          if Ascii.eqb c "," then parse_array_loop value fuel' arr (skip_ws s2)
          else if Ascii.eqb c "]" then Ok (JArray arr, s2)
          else Throw (JSONParseError ("Unexpected character in array: " ++ str1 c))
      end
  end.

(** [parse_array]. *)
Definition parse_array (value : string -> result (JSON * string)) (fuel : nat)
  (s : string) : result (JSON * string) :=
  if starts "[" s then
    let s1 := skip_ws (advance s) in
    if starts "]" s1 then Ok (JArray [], advance s1)
    else parse_array_loop value fuel [] s1
  else Throw (JSONParseError "Expected '['").

(** The [while (true)] of [parse_object]. *)
Fixpoint parse_object_loop (value : string -> result (JSON * string)) (fuel : nat)
  (obj : StdMap.t JSON) (s : string) : result (JSON * string) :=
  match fuel with
  | O => Throw out_of_fuel
  | S fuel' =>
      let s0 := skip_ws s in
      if starts dquote s0 then
        '(key, s1) <- parse_string s0 ;;
        let s1 := skip_ws s1 in
        if starts ":" s1 then
          '(val, s3) <- value (advance s1) ;;
          let obj :=
            match key with
            | JString k => StdMap.assign k val obj
            | _ => obj
            end in
          match skip_ws s3 with
          | EmptyString => Throw (JSONParseError "Expected ',' or '}' in object")
          | String c s4 =>
              if Ascii.eqb c "," then parse_object_loop value fuel' obj (skip_ws s4)
              else if Ascii.eqb c "}" then Ok (JObject obj, s4)
              else Throw (JSONParseError ("Unexpected character in object: " ++ str1 c))
          end
        else Throw (JSONParseError "Expected ':' after key in object")
      else Throw (JSONParseError "Expected string key in object")
  end.

(** [parse_object]. *)
Definition parse_object (value : string -> result (JSON * string)) (fuel : nat)
  (s : string) : result (JSON * string) :=
  if starts "{" s then
    let s1 := skip_ws (advance s) in
    if starts "}" s1 then Ok (JObject [], advance s1)
    else parse_object_loop value fuel [] s1
  else Throw (JSONParseError "Expected '{'").

(** [parse_value]: dispatch on the first character after white space. *)
Fixpoint parse_value (fuel : nat) (s : string) : result (JSON * string) :=
  match fuel with
  | O => Throw out_of_fuel
  | S fuel' =>
      let s := skip_ws s in
      match s with
      | EmptyString => Throw (JSONParseError "Unexpected end of input")
      | String c _ =>
          if Ascii.eqb c "n" then parse_null s
          else if Ascii.eqb c "t" || Ascii.eqb c "f" then parse_bool s
          else if Ascii.eqb c dquote then parse_string s
          else if Ascii.eqb c "[" then parse_array (parse_value fuel') fuel' s
          else if Ascii.eqb c "{" then parse_object (parse_value fuel') fuel' s
          else if Ascii.eqb c "-" || isdigit c then parse_number s
          else Throw (JSONParseError ("Unexpected character: " ++ str1 c))
      end
  end.

(** [e.what()]. *)
Definition what (e : exn) : string :=
  match e with
  | JSONParseError msg => "JSON Parse Error: " ++ msg
  | XMLParseError msg => "XML Parse Error: " ++ msg
  | invalid_argument msg => msg
  | out_of_range msg => msg
  | out_of_fuel => EmptyString
  end.

(** [parse]: a value, then nothing but white space; whatever is thrown on
    the way is rethrown as a [JSONParseError]. *)
Definition parse (s : string) : result JSON :=
  let attempt :=
    '(result, rest) <- parse_value (S (String.length s)) s ;;
    match skip_ws rest with
    | EmptyString => Ok result
    | _ => Throw (JSONParseError "Extra characters after JSON")
    end in
  match attempt with
  | Ok result => Ok result
  | Throw out_of_fuel => Throw out_of_fuel
  | Throw e => Throw (JSONParseError ("Parse error: " ++ what e))
  end.

(** [is_valid]. *)
Definition is_valid (s : string) : bool := is_ok (parse s).

End Platform.

(** *** Safe access with defaults *)

Definition is_primitive (j : JSON) : bool :=
  is_null j || is_bool j || is_number j || is_string j.

Definition as_bool (default_val : bool) (j : JSON) : bool :=
  match j with JBool b => b | _ => default_val end.

Definition as_number (default_val : double) (j : JSON) : double :=
  match j with JNumber num => num | _ => default_val end.

(** [const std::string& as_string() const]. *)
Definition as_string (j : JSON) : result string :=
  match j with
  | JString s => Ok s
  | _ => Throw (JSONParseError "Not a string")
  end.

(** [std::string as_string(const std::string& default_val) const]. *)
Definition as_string_or (default_val : string) (j : JSON) : string :=
  match j with JString s => s | _ => default_val end.

Definition as_array (j : JSON) : result (list JSON) :=
  match j with
  | JArray arr => Ok arr
  | _ => Throw (JSONParseError "Not an array")
  end.

Definition as_object (j : JSON) : result (StdMap.t JSON) :=
  match j with
  | JObject obj => Ok obj
  | _ => Throw (JSONParseError "Not an object")
  end.

(** [at(key, default_val)]. *)
Definition at_key (key : string) (default_val : JSON) (j : JSON) : JSON :=
  match j with
  | JObject obj =>
      match StdMap.find key obj with
      | Some v => v
      | None => default_val
      end
  | _ => default_val
  end.

(** [size]. *)
Definition size (j : JSON) : nat :=
  match j with
  | JArray arr => List.length arr
  | JObject obj => List.length obj
  | JString s => String.length s
  | _ => 0%nat
  end.

(** [empty]. *)
Definition empty (j : JSON) : bool :=
  match j with
  | JArray arr => match arr with [] => true | _ => false end
  | JObject obj => match obj with [] => true | _ => false end
  | JString s => is_empty s
  | _ => is_null j
  end.

(** [get<T>()] for [bool], [double] and [std::string]: the accessor called
    with its default argument. *)
Definition get_bool (j : JSON) : result bool := Ok (as_bool false j).
Definition get_double (j : JSON) : result double := Ok (as_number (S754_zero false) j).
Definition get_string (j : JSON) : result string := as_string j.

(** [get_or<T>(default_val)]: [get<T>()] inside [try], the default in the
    handler. *)
Definition get_or {T : Type} (get : JSON -> result T) (default_val : T) (j : JSON) : T :=
  match get j with
  | Ok v => v
  | Throw _ => default_val
  end.

(** [type_name]. *)
Definition type_name (j : JSON) : string :=
  match j with
  | JNull => "null"
  | JBool _ => "boolean"
  | JNumber _ => "number"
  | JString _ => "string"
  | JArray _ => "array"
  | JObject _ => "object"
  end.

(** *** Flattening *)

(** [result[key] = val], through the mutable [operator[]]. *)
Definition assign_key (key : string) (val : JSON) (j : JSON) : result JSON :=
  '(j', _) <- subscript_key key j ;;
  match j' with
  | JObject obj => Ok (JObject (StdMap.assign key val obj))
  | _ => Ok j'
  end.

(** [flatten_recursive(obj, prefix, result, sep)]: [result] afterwards. *)
Fixpoint flatten_recursive (obj : JSON) (prefix : string) (res : JSON) (sep : string)
  {struct obj} : result JSON :=
  match obj with
  | JObject entries =>
      (fix each (l : StdMap.t JSON) (res : JSON) {struct l} : result JSON :=
         match l with
         | [] => Ok res
         | kv :: l' =>
             let new_key :=
               if is_empty prefix then fst kv else prefix ++ sep ++ fst kv in
             res' <- (if is_object (snd kv) || is_array (snd kv)
                      then flatten_recursive (snd kv) new_key res sep
                      else assign_key new_key (snd kv) res) ;;
             each l' res'
         end) entries res
  | JArray arr =>
      (fix each (i : nat) (l : list JSON) (res : JSON) {struct l} : result JSON :=
         match l with
         | [] => Ok res
         | el :: l' =>
             let new_key := prefix ++ "[" ++ dec_of_Z (Z.of_nat i) ++ "]" in
             res' <- (if is_object el || is_array el
                      then flatten_recursive el new_key res sep
                      else assign_key new_key el res) ;;
             each (S i) l' res'
         end) 0%nat arr res
  | _ => assign_key prefix obj res
  end.

(** [flattened(separator)]. *)
Definition flattened (separator : string) (j : JSON) : result JSON :=
  flatten_recursive j EmptyString (JObject []) separator.

End EJson.

(** ** Arrays that may fail to grow *)

Module Growth.
Import EJson.

(** What [std::vector<JSON>::resize] throws: [std::length_error] when the
    size asked for exceeds [max_size()], [std::bad_alloc] when the
    allocation fails.  Either way the vector is left as it was. *)
Inductive alloc_error : Type :=
| length_error
| bad_alloc.

(** What a call raises: an exception the library throws itself or passes
    on from [std::stoi], or a failure to allocate. *)
Inductive raised : Type :=
| thrown (e : exn)
| alloc (a : alloc_error).

(** How a call ends: with a result, with an exception, or in a state the
    language does not define. *)
Inductive outcome (A : Type) : Type :=
| returns (a : A)
| raises (r : raised)
| undefined.

Arguments returns {A} a.
Arguments raises {A} r.
Arguments undefined {A}.

Section Machine.

(** Whether the machine at hand refuses a [resize] to [n] elements, and
    with what. *)
Variable refuses : nat -> option alloc_error.

(** The greatest [size_t]. *)
Variable SIZE_MAX : nat.

(** [JSON& operator[](size_t idx)], with the [resize] in it that may throw:
    the receiver afterwards and how the call ends.  At [SIZE_MAX] the size
    asked for, [idx + 1], wraps to 0: the array is emptied and the element
    returned lies past its end. *)
Definition subscript_index (idx : nat) (j : JSON) : JSON * outcome JSON :=
  let j := if is_null j then JArray [] else j in
  match j with
  | JArray arr =>
      if (List.length arr <=? idx)%nat then
        if (idx =? SIZE_MAX)%nat then (JArray [], undefined)
        else
          match refuses (S idx) with
          | Some a => (JArray arr, raises (alloc a))
          | None =>
              let arr := resize (S idx) arr in
              (JArray arr, returns (nth idx arr JNull))
          end
      else (JArray arr, returns (nth idx arr JNull))
  | _ => (j, raises (thrown (JSONParseError "Not an array")))
  end.

(** [set_path], second loop, with the [resize] in it that may throw.  An
    index of the path is an [int] and [size_t] is taken to be wider, so
    [index + 1] does not wrap. *)
Fixpoint set_parts (parts : list path_part) (val : JSON) (current : JSON)
  : JSON * option raised :=
  match parts with
  | [] => (current, None)
  | (key, index) :: parts' =>
      let is_last := match parts' with [] => true | _ => false end in
      if index =? -1 then
        let current := if is_null current then JObject [] else current in
        match current with
        | JObject obj =>
            if is_last then (JObject (StdMap.assign key val obj), None)
            else
              let '(obj, child) := StdMap.subscript JNull key obj in
              let '(child', e) := set_parts parts' val child in
              (JObject (StdMap.assign key child' obj), e)
        | _ => (current, Some (thrown (JSONParseError "Expected object in path")))
        end
      else
        let current := if is_null current then JArray [] else current in
        match current with
        | JArray arr =>
            let i := Z.to_nat index in
            let grown :=
              if (List.length arr <=? i)%nat then
                match refuses (S i) with
                | Some a => inr a
                | None => inl (resize (S i) arr)
                end
              else inl arr in
            match grown with
            | inr a => (JArray arr, Some (alloc a))
            | inl arr =>
                if is_last then (JArray (store i val arr), None)
                else
                  let '(child', e) := set_parts parts' val (nth i arr JNull) in
                  (JArray (store i child' arr), e)
            end
        | _ => (current, Some (thrown (JSONParseError "Expected array in path")))
        end
  end.

(** [set_path]: the split of the path, then the walk. *)
Definition set_path (path : string) (val : JSON) (j : JSON) : JSON * option raised :=
  match path_parts (String.length path) path with
  | Throw e => (j, Some (thrown e))
  | Ok parts => set_parts parts val j
  end.

End Machine.

(** A machine that refuses a [resize] to more than [max_size] elements. *)
Definition up_to (max_size : nat) (n : nat) : option alloc_error :=
  if (max_size <? n)%nat then Some length_error else None.

End Growth.

(** ** The XML node model ([struct Node]) *)

Module EXml.

Inductive Node : Type :=
| mkNode (name : string) (text_content : string)
         (attributes : StdMap.t string) (child_nodes : list Node).

Definition name (n : Node) : string := let '(mkNode x _ _ _) := n in x.
Definition text_content (n : Node) : string := let '(mkNode _ x _ _) := n in x.
Definition attributes (n : Node) : StdMap.t string := let '(mkNode _ _ x _) := n in x.
Definition child_nodes (n : Node) : list Node := let '(mkNode _ _ _ x) := n in x.

(** [Node(name)] and [Node(name, text)]. *)
Definition node (name : string) : Node := mkNode name EmptyString [] [].
Definition node_text (name text : string) : Node := mkNode name text [] [].

(** *** Attributes, text, children *)

Definition has_attribute (key : string) (n : Node) : bool :=
  match StdMap.find key (attributes n) with Some _ => true | None => false end.

Definition attribute (key : string) (n : Node) : option string :=
  StdMap.find key (attributes n).

Definition set_attribute (key value : string) (n : Node) : Node :=
  mkNode (name n) (text_content n) (StdMap.assign key value (attributes n)) (child_nodes n).

Definition remove_attribute (key : string) (n : Node) : Node :=
  mkNode (name n) (text_content n) (StdMap.erase key (attributes n)) (child_nodes n).

Definition set_text (text : string) (n : Node) : Node :=
  mkNode (name n) text (attributes n) (child_nodes n).

Definition add_child (child : Node) (n : Node) : Node :=
  mkNode (name n) (text_content n) (attributes n) (child_nodes n ++ [child]).

Definition clear (n : Node) : Node := mkNode (name n) EmptyString [] [].

(** The [for] loop of both [operator[]]: the position of the first child
    with the given name. *)
Fixpoint first_named (child_name : string) (children : list Node) : option nat :=
  match children with
  | [] => None
  | child :: rest =>
      if String.eqb (name child) child_name then Some O
      else match first_named child_name rest with
           | Some i => Some (S i)
           | None => None
           end
  end.

(** [Node& operator[](const std::string& child_name)]: the receiver
    afterwards and the position in its [child_nodes] of the node the
    returned reference denotes. *)
Definition subscript (child_name : string) (n : Node) : Node * nat :=
  match first_named child_name (child_nodes n) with
  | Some i => (n, i)
  | None =>
      (mkNode (name n) (text_content n) (attributes n)
              (child_nodes n ++ [node child_name]),
       List.length (child_nodes n))
  end.

(** [const Node& operator[](const std::string& child_name) const]. *)
Definition const_subscript (child_name : string) (n : Node) : result Node :=
  match first_named child_name (child_nodes n) with
  | Some i => Ok (nth i (child_nodes n) (node EmptyString))
  | None => Throw (XMLParseError ("Child node not found: " ++ child_name))
  end.

(** [children(name)]. *)
Definition children (child_name : string) (n : Node) : list Node :=
  filter (fun child => String.eqb (name child) child_name) (child_nodes n).

(** The invariant every [Node] holds by construction: the attributes of
    each node in the tree have their keys strictly increasing. *)
Inductive wf : Node -> Prop :=
| wf_node : forall name text attrs kids,
    StdMap.sorted attrs -> Forall wf kids -> wf (mkNode name text attrs kids).

(** *** Sequences of mutations *)

(** One call of the mutating interface on a node, possibly reached through
    the reference that the mutable [operator[]] returns. *)
Inductive mutation : Type :=
| Reference
| Set_attribute (key value : string)
| Remove_attribute (key : string)
| Set_text (text : string)
| Add_child (child : Node)
| Clear
| Through (child_name : string) (m : mutation).

(** [child_nodes[i] = c] for [i] in range. *)
Fixpoint replace (i : nat) (c : Node) (l : list Node) {struct l} : list Node :=
  match l, i with
  | [], _ => []
  | _ :: l', O => c :: l'
  | x :: l', S i' => x :: replace i' c l'
  end.

Fixpoint mutate (m : mutation) (n : Node) : Node :=
  match m with
  | Reference => n
  | Set_attribute key value => set_attribute key value n
  | Remove_attribute key => remove_attribute key n
  | Set_text text => set_text text n
  | Add_child child => add_child child n
  | Clear => clear n
  | Through child_name m' =>
      let '(n', i) := subscript child_name n in
      mkNode (name n') (text_content n') (attributes n')
             (replace i (mutate m' (nth i (child_nodes n') (node EmptyString)))
                      (child_nodes n'))
  end.

Definition run (ms : list mutation) (n : Node) : Node :=
  fold_left (fun n m => mutate m n) ms n.

Fixpoint mutation_wf (m : mutation) : Prop :=
  match m with
  | Add_child child => wf child
  | Through _ m' => mutation_wf m'
  | _ => True
  end.

(** *** Serialization *)

(** [encode_text]. *)
Fixpoint encode_text (text : string) : string :=
  match text with
  | EmptyString => EmptyString
  | String c rest =>
      (if Ascii.eqb c "<" then "&lt;"
       else if Ascii.eqb c ">" then "&gt;"
       else if Ascii.eqb c "&" then "&amp;"
       else if Ascii.eqb c dquote then "&quot;"
       else if Ascii.eqb c squote then "&apos;"
       else str1 c) ++ encode_text rest
  end.

(** The loop of [dump_recursive] over [attributes], writing to [oss]. *)
Definition dump_attributes (oss : string) (attrs : StdMap.t string) : string :=
  fold_left
    (fun oss kv =>
       oss ++ " " ++ fst kv ++ "=" ++ str1 dquote ++ encode_text (snd kv) ++ str1 dquote)
    attrs oss.

(** [dump_recursive]: the stream [oss] after the node has been written to
    it. *)
Fixpoint dump_recursive (oss : string) (pretty : bool) (indent_level indent_size : nat)
  (n : Node) {struct n} : string :=
  match n with
  | mkNode name text_content attributes child_nodes =>
      let indent := if pretty then spaces (indent_level * indent_size) else EmptyString in
      let oss := oss ++ indent ++ "<" ++ name in
      let oss := dump_attributes oss attributes in
      let is_empty :=
        is_empty text_content && match child_nodes with [] => true | _ => false end in
      if is_empty then oss ++ " />" ++ (if pretty then str1 newline else EmptyString)
      else
        let oss := oss ++ ">" in
        let has_children := match child_nodes with [] => false | _ => true end in
        let oss := if pretty && has_children then oss ++ str1 newline else oss in
        let oss :=
          if negb (Text.is_empty text_content) then
            oss ++ (if pretty && has_children
                    then spaces ((indent_level + 1) * indent_size) else EmptyString)
                ++ encode_text text_content
                ++ (if pretty && has_children then str1 newline else EmptyString)
          else oss in
        let oss :=
          (fix each (oss : string) (l : list Node) {struct l} : string :=
             match l with
             | [] => oss
             | child :: l' =>
                 each (dump_recursive oss pretty (indent_level + 1) indent_size child) l'
             end) oss child_nodes in
        let oss := if pretty && has_children then oss ++ indent else oss in
        oss ++ "</" ++ name ++ ">" ++ (if pretty then str1 newline else EmptyString)
  end.

(** [dump(pretty, indent_level, indent_size)]. *)
Definition dump (pretty : bool) (indent_level indent_size : nat) (n : Node) : string :=
  dump_recursive EmptyString pretty indent_level indent_size n.

(** *** Parsing *)

(** [skip_ws_and_prolog]. *)
Fixpoint skip_ws_and_prolog (fuel : nat) (s : string) : result string :=
  match s with
  | EmptyString => Ok s
  | String _ _ =>
      match fuel with
      | O => Throw out_of_fuel
      | S fuel' =>
          let s1 := skip_ws s in
          match s1 with
          | String lt (String c _) =>
              if Ascii.eqb lt "<" && (Ascii.eqb c "?" || Ascii.eqb c "!") then
                match find_char ">" s1 with
                | Some (_, rest) => skip_ws_and_prolog fuel' rest
                | None => Throw (XMLParseError "Unclosed prolog/comment")
                end
              else Ok s1
          | _ => Ok s1
          end
      end
  end.

(** [parse_entity]. *)
Definition parse_entity (entity : string) : string :=
  if String.eqb entity "lt" then "<"
  else if String.eqb entity "gt" then ">"
  else if String.eqb entity "amp" then "&"
  else if String.eqb entity "quot" then str1 dquote
  else if String.eqb entity "apos" then str1 squote
  else "&" ++ entity ++ ";".

(** The loop of [decode_text]; a round consumes at least one character. *)
Fixpoint decode_text_loop (fuel : nat) (text : string) : string :=
  match text with
  | EmptyString => EmptyString
  | String c rest =>
      match fuel with
      | O => EmptyString
      | S fuel' =>
          if Ascii.eqb c "&" then
            match find_char ";" rest with
            | Some (entity, after) => parse_entity entity ++ decode_text_loop fuel' after
            | None => "&" ++ decode_text_loop fuel' rest
            end
          else String c (decode_text_loop fuel' rest)
      end
  end.

(** [decode_text]. *)
Definition decode_text (text : string) : string :=
  decode_text_loop (String.length text) text.

Definition isname (c : ascii) : bool :=
  isalnum c || Ascii.eqb c "_" || Ascii.eqb c ":" || Ascii.eqb c "-".
Definition isattr (c : ascii) : bool :=
  isalnum c || Ascii.eqb c "_" || Ascii.eqb c ":".

(** [parse_node], the loop over the attributes. *)
Fixpoint parse_attributes (fuel : nat) (attrs : StdMap.t string) (s : string)
  : result (StdMap.t string * string) :=
  match s with
  | EmptyString => Ok (attrs, s)
  | String c _ =>
      if Ascii.eqb c ">" || Ascii.eqb c "/" then Ok (attrs, s)
      else
        match fuel with
        | O => Throw out_of_fuel
        | S fuel' =>
            let '(key, s1) := span isattr s in
            match skip_ws s1 with
            | String eq s2 =>
                if Ascii.eqb eq "=" then
                  match skip_ws s2 with
                  | String quote s3 =>
                      if Ascii.eqb quote dquote || Ascii.eqb quote squote then
                        let '(val, s4) := span (fun c => negb (Ascii.eqb c quote)) s3 in
                        parse_attributes fuel' (StdMap.assign key (decode_text val) attrs)
                          (skip_ws (advance s4))
                      else Throw (XMLParseError "Attribute value must be quoted")
                  | EmptyString => Throw (XMLParseError "Attribute value must be quoted")
                  end
                else Throw (XMLParseError "Expected '=' after attribute key")
            | EmptyString => Throw (XMLParseError "Expected '=' after attribute key")
            end
        end
  end.

(** [text_content += decode_text(s.substr(content_start, idx -
    content_start))], done when [idx > content_start]. *)
Definition append_run (text run : string) : string :=
  if is_empty run then text else text ++ decode_text run.

(** [idx + 1 < s.size() && s[idx] == '<' && s[idx+1] == '/']. *)
Definition closes (s : string) : bool :=
  match s with
  | String lt (String slash _) => Ascii.eqb lt "<" && Ascii.eqb slash "/"
  | _ => false
  end.

(** [parse_node], the closing tag. *)
Definition parse_closing (n : Node) (s : string) : result (Node * string) :=
  if closes s then
    let '(close_name, s2) := span (fun c => negb (Ascii.eqb c ">")) (advance (advance s)) in
    if String.eqb close_name (name n) then Ok (n, advance s2)
    else Throw (XMLParseError ("Mismatched closing tag: expected " ++ name n))
  else Throw (XMLParseError "Expected closing tag").

(** [parse_node], and the loop over its content.  The loop keeps the text
    and children gathered so far, and [run], the characters between
    [content_start] and [idx]; it ends before a closing tag or at the end
    of the input. *)
Fixpoint parse_node (fuel : nat) (s : string) {struct fuel} : result (Node * string) :=
  match fuel with
  | O => Throw out_of_fuel
  | S fuel' =>
      match skip_ws s with
      | String lt s1 =>
          if Ascii.eqb lt "<" then
            let '(tag, s2) := span isname s1 in
            '(attrs, s3) <- parse_attributes fuel' [] (skip_ws s2) ;;
            match s3 with
            | EmptyString => Throw (XMLParseError "Unclosed tag")
            | String c s4 =>
                if Ascii.eqb c "/" then
                  match s4 with
                  | String gt s5 =>
                      if Ascii.eqb gt ">" then Ok (mkNode tag EmptyString attrs [], s5)
                      else Throw (XMLParseError "Expected '>' for self-closing tag")
                  | EmptyString => Throw (XMLParseError "Expected '>' for self-closing tag")
                  end
                else if Ascii.eqb c ">" then
                  '(text, kids, run, s5) <- parse_content fuel' EmptyString [] EmptyString s4 ;;
                  parse_closing (mkNode tag (append_run text run) attrs kids) s5
                else Throw (XMLParseError "Expected '>' to close tag opening")
            end
          else Throw (XMLParseError "Expected '<' to start a node")
      | EmptyString => Throw (XMLParseError "Expected '<' to start a node")
      end
  end
with parse_content (fuel : nat) (text : string) (kids : list Node) (run : string)
  (s : string) {struct fuel} : result (string * list Node * string * string) :=
  match s with
  | EmptyString => Ok (text, kids, run, s)
  | String _ _ =>
      match fuel with
      | O => Throw out_of_fuel
      | S fuel' =>
          let '(ws, s1) := span isspace s in
          let run := run ++ ws in
          match s1 with
          | String c s2 =>
              if Ascii.eqb c "<" then
                if closes s1 then Ok (text, kids, run, s1)
                else
                  '(child, s3) <- parse_node fuel' s1 ;;
                  parse_content fuel' (append_run text run) (kids ++ [child]) EmptyString s3
              else parse_content fuel' text kids (run ++ str1 c) s2
          | EmptyString => Ok (text, kids, run, EmptyString)
          end
      end
  end.

(** [parse]. *)
Definition parse (s : string) : result Node :=
  s0 <- skip_ws_and_prolog (S (String.length s)) s ;;
  '(root, rest) <- parse_node (2 * String.length s + 2) s0 ;;
  match skip_ws rest with
  | EmptyString => Ok root
  | _ => Throw (XMLParseError "Extra characters after root element")
  end.

(** *** Attributes with a default, and the text *)

Definition attribute_or (key default_val : string) (n : Node) : string :=
  match attribute key n with
  | Some v => v
  | None => default_val
  end.

Definition text (n : Node) : string := text_content n.

End EXml.

(** ** Vocabulary of the statements *)

Module Words.
Import EJson.

(** A JSON string literal: [body] between double quotes. *)
Definition quoted (body : string) : string := String dquote (body ++ str1 dquote).

(** The escape made of a backslash, [u] and the four characters
    [a b c d], in front of [rest]. *)
Definition uescape (a b c d : ascii) (rest : string) : string :=
  String backslash (String "u" (String a (String b (String c (String d rest))))).

(** [rest] starts with a [\uXXXX] escape whose digits denote a low
    surrogate. *)
Definition low_follows (rest : string) : bool :=
  match rest with
  | String b0 (String u0 (String l1 (String l2 (String l3 (String l4 _))))) =>
      Ascii.eqb b0 backslash && Ascii.eqb u0 "u" &&
      match stoi (str4 l1 l2 l3 l4) 16 with
      | Ok low => is_low_surrogate low
      | Throw _ => false
      end
  | _ => false
  end.

(** The outcome is a [JSONParseError], whatever its message. *)
Definition is_parse_error {A : Type} (r : result A) : Prop :=
  exists msg, r = Throw (JSONParseError msg).

(** The outcome is a [Number]. *)
Definition is_number_result (r : result JSON) : Prop :=
  exists num, r = Ok (JNumber num).

(** A text that [at_path] reads as a single identifier. *)
Definition is_identifier (key : string) : bool :=
  match key with
  | String c rest => isident_start c && all isident rest
  | EmptyString => false
  end.

(** *** The layout of a serialized node, after the serializer's
    description *)

Fixpoint concat_all (l : list string) : string :=
  match l with
  | [] => EmptyString
  | s :: l' => s ++ concat_all l'
  end.

(** The open tag up to, not including, its closing bracket: the name, then
    the attributes in the order of the map. *)
Definition open_tag (n : EXml.Node) : string :=
  "<" ++ EXml.name n ++
  concat_all
    (map (fun kv => " " ++ fst kv ++ "=" ++ str1 dquote
                    ++ EXml.encode_text (snd kv) ++ str1 dquote)
         (EXml.attributes n)).

Definition has_children (n : EXml.Node) : bool :=
  match EXml.child_nodes n with [] => false | _ => true end.

(** The serialization as the code lays it out.  A node with no text and no
    child is a self-closing tag.  Otherwise: the open tag, the encoded text
    when there is some, the children one level deeper, the closing tag.
    In pretty mode every tag is indented by its depth and ends its line,
    and, when the node has children, the open tag ends its line, the text
    stands on a line of its own one level deeper, and the closing tag is
    indented like the open tag.  A node with text and no child stays on
    one line. *)
Fixpoint render (pretty : bool) (depth indent_size : nat) (n : EXml.Node) : string :=
  let pad := if pretty then spaces (depth * indent_size) else EmptyString in
  let eol := if pretty then str1 newline else EmptyString in
  let broken := pretty && has_children n in
  match n with
  | EXml.mkNode name text attrs kids =>
      if is_empty text && negb (has_children n)
      then pad ++ open_tag n ++ " />" ++ eol
      else
        pad ++ open_tag n ++ ">" ++
        (if broken then str1 newline else EmptyString) ++
        (if is_empty text then EmptyString
         else (if broken then spaces ((depth + 1) * indent_size) else EmptyString)
              ++ EXml.encode_text text
              ++ (if broken then str1 newline else EmptyString)) ++
        concat_all (map (render pretty (depth + 1) indent_size) kids) ++
        (if broken then pad else EmptyString) ++
        "</" ++ name ++ ">" ++ eol
  end.

(** The serialization as the description has it: in pretty mode the open
    tag of every node that is not self-closing ends its line and the text
    is indented, whether or not the node has children. *)
Fixpoint render_as_described (pretty : bool) (depth indent_size : nat) (n : EXml.Node)
  : string :=
  let pad := if pretty then spaces (depth * indent_size) else EmptyString in
  let eol := if pretty then str1 newline else EmptyString in
  match n with
  | EXml.mkNode name text attrs kids =>
      if is_empty text && negb (has_children n)
      then pad ++ open_tag n ++ " />" ++ eol
      else
        pad ++ open_tag n ++ ">" ++ eol ++
        (if is_empty text then EmptyString
         else (if pretty then spaces ((depth + 1) * indent_size) else EmptyString)
              ++ EXml.encode_text text ++ eol) ++
        concat_all (map (render_as_described pretty (depth + 1) indent_size) kids) ++
        pad ++ "</" ++ name ++ ">" ++ eol
  end.

(** *** The content of an element, as text runs and child elements *)

(** A child element, given by its source text and the node it parses to,
    and the text run that follows it. *)
Definition segment : Type := (string * EXml.Node * string)%type.

Definition segment_source (g : segment) : string := fst (fst g).
Definition segment_node (g : segment) : EXml.Node := snd (fst g).
Definition segment_run (g : segment) : string := snd g.

(** The source of a content: after a first run, each child and its run. *)
Fixpoint content_source (segs : list segment) : string :=
  match segs with
  | [] => EmptyString
  | g :: segs' => segment_source g ++ segment_run g ++ content_source segs'
  end.

(** A text run: no [<] in it. *)
Definition is_run (r : string) : bool := all (fun c => negb (Ascii.eqb c "<")) r.

(** [src] is the source of a child element that parses to [n]: it starts
    with [<] and not with a closing tag, and [parse_node], given fuel for
    it, reads exactly [src] and returns [n], whatever text follows. *)
Definition element_source (src : string) (n : EXml.Node) : Prop :=
  (exists c rest, src = String "<" (String c rest) /\ Ascii.eqb c "/" = false)
  /\ forall fuel rest, (2 * String.length src <= fuel)%nat ->
       EXml.parse_node fuel (src ++ rest) = Ok (n, rest).

(** The text a node has gathered and the run still open once the content
    loop has read the segments, from the text and the run before them. *)
Fixpoint gathered (text run : string) (segs : list segment) : string * string :=
  match segs with
  | [] => (text, run)
  | g :: segs' => gathered (EXml.append_run text run) (segment_run g) segs'
  end.

(** The element named [tag], without attributes, around a content. *)
Definition element (tag : string) (content : string) : string :=
  "<" ++ tag ++ ">" ++ content ++ "</" ++ tag ++ ">".

(** *** The entries of an object in a serialization *)

(** What [dump] writes for one entry of an object. *)
Definition entry_text (char_signed pretty : bool) (indent indent_size : nat)
  (max_precision : Z) (kv : string * EJson.JSON) : string :=
  (if pretty then String newline (spaces (indent + indent_size)) else EmptyString) ++
  String dquote (fst kv) ++ String dquote ":" ++
  (if pretty then " " else EmptyString) ++
  EJson.dump char_signed pretty (indent + indent_size) indent_size max_precision (snd kv).

(** The serialization of an object as its entries in the order of a list,
    separated by commas. *)
Definition object_text (char_signed pretty : bool) (indent indent_size : nat)
  (max_precision : Z) (entries : list (string * EJson.JSON)) : string :=
  "{" ++
  String.concat "," (map (entry_text char_signed pretty indent indent_size max_precision) entries) ++
  (if pretty && negb (match entries with [] => true | _ => false end)
   then String newline (spaces indent) else EmptyString) ++
  "}".

(** Strictly increasing in the order of [std::less<std::string>]. *)
Definition increasing (keys : list string) : Prop :=
  Sorted.StronglySorted StdMap.key_lt keys.

(** *** Values that survive a compact serialization *)

(** A Number survives on its own: [parse_number] reads the whole of what
    [dump] writes for it, and returns a double equal to it. *)
Definition number_round_trips (num : Double.double) : bool :=
  match EJson.parse_number (EJson.dump_number 6 num) with
  | Ok (EJson.JNumber num', EmptyString) => Double.eqb num' num
  | _ => false
  end.

(** A character [dump] writes, escaped, in a form that [parse_string]
    reads back: any character where [char] is unsigned, a character
    below 128 where it is signed. *)
Definition string_char_ok (char_signed : bool) (c : ascii) : bool :=
  negb (char_signed && (128 <=? code c)).

(** A character of a key that [parse_string] reads back from the raw form
    [dump] writes keys in: not a quote, not a backslash, and not below 32
    as a [char]. *)
Definition key_char_ok (char_signed : bool) (c : ascii) : bool :=
  negb (Ascii.eqb c dquote) && negb (Ascii.eqb c backslash)
  && negb (EJson.below_32 char_signed c).

(** A Number [dump] writes in full, as a [long long]: a binary64 value,
    mantissa and exponent in their canonical form, that holds an integer
    from [LLONG_MIN] to [LLONG_MAX]. *)
Definition is_long_long (num : Double.double) : bool :=
  valid_binary Double.prec Double.emax num
  && match Double.as_long_long num with Some _ => true | None => false end.

(** A value the compact serialization of which is read back: its Numbers
    are written as a [long long] or survive their six digits, its Strings
    and keys are made of the characters above. *)
Fixpoint printable (char_signed : bool) (j : EJson.JSON) {struct j} : bool :=
  match j with
  | EJson.JNull | EJson.JBool _ => true
  | EJson.JNumber num => is_long_long num || number_round_trips num
  | EJson.JString s => all (string_char_ok char_signed) s
  | EJson.JArray arr => forallb (printable char_signed) arr
  | EJson.JObject obj =>
      forallb (fun kv => all (key_char_ok char_signed) (fst kv)
                         && printable char_signed (snd kv)) obj
  end.

(** The fuel [parse_value] needs for the serialization of a value: one
    unit for each value in the tree. *)
Fixpoint weight (j : EJson.JSON) {struct j} : nat :=
  match j with
  | EJson.JArray arr => S (list_sum (map weight arr))
  | EJson.JObject obj => S (list_sum (map (fun kv => weight (snd kv)) obj))
  | _ => 1%nat
  end.

(** What may follow a value in a serialization: nothing, a comma, or a
    closing bracket or brace. *)
Definition terminated (rest : string) : bool :=
  match rest with
  | EmptyString => true
  | String c _ => Ascii.eqb c "," || Ascii.eqb c "]" || Ascii.eqb c "}"
  end.

(** A character that can continue a number. *)
Definition isnumber (c : ascii) : bool :=
  isdigit c || Ascii.eqb c "." || Ascii.eqb c "e" || Ascii.eqb c "E".

(** *** Reading a serialization back *)

(** What the serialization says about one value: in front of anything that
    may follow a value, [parse_value] with fuel [f] reads it back, up to
    [==]. *)
Definition reads_back (char_signed : bool) (f : nat) (text : string) (x : EJson.JSON) : Prop :=
  forall rest, terminated rest = true ->
    exists x', EJson.parse_value char_signed f (text ++ rest) = Ok (x', rest)
               /\ EJson.equal x' x = true.

(** The texts of the elements after the first, each behind its comma. *)
Definition more (texts : list string) : string :=
  concat_all (map (fun y => "," ++ y) texts).

(** The text of an entry of a compact object: the key between quotes, a
    colon, the text of the value. *)
Definition entry (k text : string) : string :=
  String dquote (k ++ String dquote (":" ++ text)).

(** Every key of [acc] is before [k]. *)
Definition below (acc : StdMap.t EJson.JSON) (k : string) : Prop :=
  Forall (fun k0 => StdMap.key_lt k0 k) (StdMap.keys acc).

(** *** Reading along a path *)

(** The value a list of path steps leads to from [j], Null as soon as a
    step finds no entry of its key, no element at its index, or a value
    that is not a container of its kind. *)
Fixpoint resolve (parts : list EJson.path_part) (j : EJson.JSON) : EJson.JSON :=
  match parts with
  | [] => j
  | (key, index) :: parts' =>
      if index =? -1 then
        match j with
        | EJson.JObject obj =>
            match StdMap.find key obj with
            | Some v => resolve parts' v
            | None => EJson.JNull
            end
        | _ => EJson.JNull
        end
      else
        match j with
        | EJson.JArray arr =>
            match nth_error arr (Z.to_nat index) with
            | Some v => resolve parts' v
            | None => EJson.JNull
            end
        | _ => EJson.JNull
        end
  end.

(** The value a list of path steps reaches from [j] when every step finds
    the entry of its key or the element at its index, be it Null; nothing
    when a step finds none. *)
Fixpoint follow (parts : list EJson.path_part) (j : EJson.JSON) : option EJson.JSON :=
  match parts with
  | [] => Some j
  | (key, index) :: parts' =>
      if index =? -1 then
        match j with
        | EJson.JObject obj =>
            match StdMap.find key obj with
            | Some v => follow parts' v
            | None => None
            end
        | _ => None
        end
      else
        match j with
        | EJson.JArray arr =>
            match nth_error arr (Z.to_nat index) with
            | Some v => follow parts' v
            | None => None
            end
        | _ => None
        end
  end.

(** The steps of a path that stand in front of the place where the split
    of the path fails: all its steps when the split succeeds. *)
Fixpoint steps_before (fuel : nat) (path : string) : list EJson.path_part :=
  match path with
  | EmptyString => []
  | String c rest =>
      match fuel with
      | O => []
      | S fuel' =>
          if Ascii.eqb c "." then steps_before fuel' rest
          else if EJson.isident_start c then
            let '(key, rest') := span EJson.isident path in
            (key, -1) :: steps_before fuel' rest'
          else if Ascii.eqb c "[" then
            let '(digits, rest') := span isdigit rest in
            match rest' with
            | String close rest'' =>
                if Ascii.eqb close "]" then
                  match stoi digits 10 with
                  | Ok idx => (EmptyString, idx) :: steps_before fuel' rest''
                  | Throw _ => []
                  end
                else []
            | EmptyString => []
            end
          else []
      end
  end.

(** *** Vocabulary of the further properties *)

(** The value of the last pair of a list that has the key [k]. *)
Fixpoint last_value {V : Type} (k : string) (l : list (string * V)) : option V :=
  match l with
  | [] => None
  | kv :: l' =>
      match last_value k l' with
      | Some v => Some v
      | None => if String.eqb (fst kv) k then Some (snd kv) else None
      end
  end.

(** A character that ends a text run or an attribute value in the source
    of a document. *)
Definition is_markup (c : ascii) : bool :=
  Ascii.eqb c "<" || Ascii.eqb c ">" || Ascii.eqb c dquote || Ascii.eqb c squote.

(** A text without the character [c]. *)
Definition lacks (c : ascii) (s : string) : bool :=
  all (fun d => negb (Ascii.eqb d c)) s.

(** One of the five entity names [parse_entity] knows. *)
Definition is_known_entity (entity : string) : bool :=
  String.eqb entity "lt" || String.eqb entity "gt" || String.eqb entity "amp"
  || String.eqb entity "quot" || String.eqb entity "apos".
(** A node [dump] writes in a form [parse] reads: the name of every node
    in the tree is made of name characters, and the key of every attribute
    of attribute-name characters. *)
Fixpoint well_named (n : EXml.Node) : bool :=
  match n with
  | EXml.mkNode name _ attrs kids =>
      all EXml.isname name
      && forallb (fun kv => all EXml.isattr (fst kv)) attrs
      && forallb well_named kids
  end.

(** What [dump] writes for the attributes. *)
Definition attributes_text (attrs : StdMap.t string) : string :=
  concat_all
    (map (fun kv => " " ++ fst kv ++ "=" ++ str1 dquote
                    ++ EXml.encode_text (snd kv) ++ str1 dquote) attrs).
(** A NaN somewhere in the tree. *)
Fixpoint has_nan (j : EJson.JSON) {struct j} : bool :=
  match j with
  | EJson.JNumber num => Double.is_nan num
  | EJson.JArray arr => existsb has_nan arr
  | EJson.JObject obj => existsb (fun kv => has_nan (snd kv)) obj
  | _ => false
  end.

(** What a serialization with white space in it says about one value: in
    front of white space and then anything that may follow a value,
    [parse_value] with fuel [f] reads it back, up to [==]. *)
Definition reads_back_spaced (char_signed : bool) (f : nat) (text : string) (x : EJson.JSON)
  : Prop :=
  forall rest, terminated (skip_ws rest) = true ->
    exists x', EJson.parse_value char_signed f (text ++ rest) = Ok (x', rest)
               /\ EJson.equal x' x = true.

(** How deep a value nests: 0 for a value that is no container or an
    empty one, and one more than its deepest element otherwise.  In a
    pretty serialization from indent 0 the widest indent written, and the
    greatest [indent + indent_size] computed, is [indent_size] times the
    depth. *)
Fixpoint depth (j : EJson.JSON) {struct j} : nat :=
  match j with
  | EJson.JArray arr =>
      match arr with
      | [] => 0%nat
      | _ => S (list_max (map depth arr))
      end
  | EJson.JObject obj =>
      match obj with
      | [] => 0%nat
      | _ => S (list_max (map (fun kv => depth (snd kv)) obj))
      end
  | _ => 0%nat
  end.

(** An Object all of whose values are primitives, with its keys sorted. *)
Definition flat (m : StdMap.t EJson.JSON) : Prop :=
  StdMap.sorted m /\ Forall (fun kv => EJson.is_primitive (snd kv) = true) m.

(** An outcome of a parser on the text [s] that is either a result that
    leaves less than [s] to read, or a [JSONParseError]. *)
Definition progress {A : Type} (s : string) (r : result (A * string)) : Prop :=
  match r with
  | Ok (_, rest) => (String.length rest < String.length s)%nat
  | Throw e => exists msg, e = JSONParseError msg
  end.

(** The same for a loop that may start at the end of the text. *)
Definition no_regress {A : Type} (s : string) (r : result (A * string)) : Prop :=
  match r with
  | Ok (_, rest) => (String.length rest <= String.length s)%nat
  | Throw e => exists msg, e = JSONParseError msg
  end.

(** An outcome of a parser that runs on [fuel]: a result that leaves less
    than [s] to read, a [JSONParseError], or the fuel running out, which
    takes a text at least as long as the fuel. *)
Definition bounded {A : Type} (fuel : nat) (s : string) (r : result (A * string)) : Prop :=
  match r with
  | Ok (_, rest) => (String.length rest < String.length s)%nat
  | Throw e =>
      (e = out_of_fuel /\ (fuel <= String.length s)%nat) \/ exists msg, e = JSONParseError msg
  end.

(** An outcome that is not the model running out of fuel. *)
Definition settled {A : Type} (r : result A) : Prop := r <> Throw out_of_fuel.

End Words.
Import Words.

(* ===================================================================== *)
(** * Part II: properties                                                  *)
(* ===================================================================== *)

(** ** Text *)

Module TextFacts.

Lemma append_nil_r (s : string) : s ++ EmptyString = s.
Proof. induction s as [|c s IH]; simpl; [reflexivity | now rewrite IH]. Qed.

Lemma append_assoc (a b c : string) : (a ++ b) ++ c = a ++ (b ++ c).
Proof. induction a as [|x a IH]; simpl; [reflexivity | now rewrite IH]. Qed.

Lemma length_append (a b : string) :
  String.length (a ++ b) = (String.length a + String.length b)%nat.
Proof. induction a as [|x a IH]; simpl; [reflexivity | now rewrite IH]. Qed.

Lemma span_all (p : ascii -> bool) (a rest : string) :
  all p a = true -> stops p rest = true -> span p (a ++ rest) = (a, rest).
Proof.
  induction a as [|c a IH]; simpl; intros Ha Hr.
  - destruct rest as [|d rest]; simpl in *; [reflexivity|].
    apply negb_true_iff in Hr. now rewrite Hr.
  - apply andb_true_iff in Ha as [Hc Ha]. rewrite Hc, (IH Ha Hr). reflexivity.
Qed.

Lemma span_all_nil (p : ascii -> bool) (a : string) :
  all p a = true -> span p a = (a, EmptyString).
Proof.
  intros Ha. rewrite <- (append_nil_r a) at 1. now apply span_all.
Qed.

Lemma span_stops (p : ascii -> bool) (s : string) :
  stops p s = true -> span p s = (EmptyString, s).
Proof. intros H. exact (span_all p EmptyString s eq_refl H). Qed.

Lemma span_length (p : ascii -> bool) (s : string) :
  (String.length (snd (span p s)) <= String.length s)%nat.
Proof.
  induction s as [|c s IH]; simpl; [lia|].
  destruct (p c); simpl; [|lia].
  destruct (span p s) as [a b]; simpl in *. lia.
Qed.

Lemma span_split (p : ascii -> bool) (s : string) :
  fst (span p s) ++ snd (span p s) = s.
Proof.
  induction s as [|c s IH]; simpl; [reflexivity|].
  destruct (p c); simpl; [|reflexivity].
  destruct (span p s) as [a b]; simpl in *. now rewrite IH.
Qed.

Lemma span_stops_snd (p : ascii -> bool) (s : string) :
  stops p (snd (span p s)) = true.
Proof.
  induction s as [|c s IH]; simpl; [reflexivity|].
  destruct (p c) eqn:Hc; simpl.
  - destruct (span p s) as [a b]; simpl in *. exact IH.
  - now rewrite Hc.
Qed.

Lemma skip_ws_stops (s : string) : stops isspace s = true -> skip_ws s = s.
Proof. intros H. unfold skip_ws. now rewrite span_stops. Qed.

Lemma skip_ws_length (s : string) :
  (String.length (skip_ws s) <= String.length s)%nat.
Proof. apply span_length. Qed.

End TextFacts.
Import TextFacts.

(** ** JSON strings: [\u] escapes and surrogate pairs *)

Module StringEscapes.
Import EJson.

Section Platform.
Variable char_signed : bool.

Let rethrown : exn := JSONParseError "Invalid unicode escape sequence".

(** A [\u] escape that denotes a low surrogate, met on its own. *)
Lemma lone_low_surrogate a b c d cp res rest :
  stoi (str4 a b c d) 16 = Ok cp -> is_low_surrogate cp = true ->
  parse_string_loop char_signed res (uescape a b c d rest) = Throw rethrown.
Proof.
  intros Hs Hl. unfold uescape.
  cbn -[stoi is_low_surrogate is_high_surrogate encode_utf8].
  rewrite Hs, Hl.
  assert (is_high_surrogate cp = false) as ->
    by (unfold is_high_surrogate, is_low_surrogate in *; lia).
  reflexivity.
Qed.

(** A [\u] escape that denotes a high surrogate with no low surrogate
    escape right behind it. *)
Lemma lone_high_surrogate a b c d cp res rest :
  stoi (str4 a b c d) 16 = Ok cp -> is_high_surrogate cp = true ->
  low_follows rest = false ->
  parse_string_loop char_signed res (uescape a b c d rest) = Throw rethrown.
Proof.
  intros Hs Hh Hr. unfold uescape.
  cbn -[stoi is_low_surrogate is_high_surrogate encode_utf8].
  rewrite Hs, Hh.
  destruct rest as [|b0 [|u0 [|l1 [|l2 [|l3 [|l4 s4]]]]]]; try reflexivity.
  unfold low_follows, is_low_surrogate in Hr.
  destruct (Ascii.eqb b0 backslash); [|reflexivity].
  destruct (Ascii.eqb u0 "u"); [|reflexivity]. cbn [andb] in Hr.
  destruct (stoi (str4 l1 l2 l3 l4) 16) as [low|]; [|reflexivity].
  destruct (low <? 56320) eqn:E1; [reflexivity|].
  destruct (57343 <? low) eqn:E2; [reflexivity|]. lia.
Qed.

(** A high surrogate escape followed by a low surrogate escape. *)
Lemma surrogate_pair a b c d l1 l2 l3 l4 hi lo res rest :
  stoi (str4 a b c d) 16 = Ok hi -> is_high_surrogate hi = true ->
  stoi (str4 l1 l2 l3 l4) 16 = Ok lo -> is_low_surrogate lo = true ->
  parse_string_loop char_signed res (uescape a b c d (uescape l1 l2 l3 l4 rest)) =
  parse_string_loop char_signed (encode_utf8 res (combine_surrogates hi lo)) rest.
Proof.
  intros Hs Hh Hl Hlo. unfold uescape.
  cbn -[stoi is_low_surrogate is_high_surrogate encode_utf8 combine_surrogates].
  rewrite Hs, Hh, Hl. unfold is_low_surrogate in Hlo.
  destruct (lo <? 56320) eqn:E1; [lia|].
  destruct (57343 <? lo) eqn:E2; [lia|]. reflexivity.
Qed.

(** The combination of a pair lies in the supplementary planes, which
    [encode_utf8] writes as four bytes. *)
Lemma combine_surrogates_range hi lo :
  is_high_surrogate hi = true -> is_low_surrogate lo = true ->
  65536 <= combine_surrogates hi lo <= 1114111.
Proof.
  unfold is_high_surrogate, is_low_surrogate, combine_surrogates. intros Hh Hl.
  assert (H1 : 0 <= hi - 55296 < 1024) by lia.
  assert (H2 : 0 <= lo - 56320 < 1024) by lia.
  rewrite Z.shiftl_mul_pow2 by lia.
  assert (Hland : Z.land ((hi - 55296) * 2 ^ 10) (lo - 56320) = 0).
  { apply Z.bits_inj'. intros n Hn. rewrite Z.land_spec, Z.bits_0.
    destruct (Z.ltb_spec n 10).
    - rewrite Z.mul_pow2_bits_low by lia. reflexivity.
    - rewrite (Z.bits_above_log2 (lo - 56320) n); [apply andb_false_r|lia|].
      destruct (Z.eq_dec (lo - 56320) 0) as [->|Hne]; [simpl; lia|].
      apply Z.lt_le_trans with 10; [|lia].
      apply Z.log2_lt_pow2; lia. }
  assert (Hd : Z.lor ((hi - 55296) * 2 ^ 10) (lo - 56320)
               = (hi - 55296) * 2 ^ 10 + (lo - 56320)).
  { rewrite <- (Z.lxor_lor _ _ Hland). symmetry. now apply Z.add_nocarry_lxor. }
  rewrite Hd. lia.
Qed.

End Platform.

(** C2.  The literal made of the escapes for D83D and DE00 parses to the String whose bytes are
    F0 9F 98 80, the UTF-8 encoding of U+1F600, which is the combination
    of the two surrogates; the literals of the lone escapes for D800 and
    for DC00 raise a
    parse error.  More generally, anywhere inside a string literal a high
    surrogate escape followed by a low surrogate escape contributes the
    encoding of their combination, a code point between U+10000 and
    U+10FFFF, while a high surrogate escape not followed by a low
    surrogate escape, and a low surrogate escape met first, are errors. *)
Theorem surrogate_pairs_decode_and_lone_surrogates_fail :
  forall char_signed : bool,
    (parse char_signed (quoted (uescape "D" "8" "3" "D" (uescape "D" "E" "0" "0" EmptyString)))
       = Ok (JString (encode_utf8 EmptyString 128512))
     /\ combine_surrogates 55357 56832 = 128512
     /\ encode_utf8 EmptyString 128512
        = String "240" (String "159" (String "152" (String "128" EmptyString))))
    /\ is_parse_error (parse char_signed (quoted (uescape "D" "8" "0" "0" EmptyString)))
    /\ is_parse_error (parse char_signed (quoted (uescape "D" "C" "0" "0" EmptyString)))
    /\ (forall a b c d l1 l2 l3 l4 hi lo res rest,
          stoi (str4 a b c d) 16 = Ok hi -> is_high_surrogate hi = true ->
          stoi (str4 l1 l2 l3 l4) 16 = Ok lo -> is_low_surrogate lo = true ->
          parse_string_loop char_signed res (uescape a b c d (uescape l1 l2 l3 l4 rest))
            = parse_string_loop char_signed (encode_utf8 res (combine_surrogates hi lo)) rest
          /\ 65536 <= combine_surrogates hi lo <= 1114111)
    /\ (forall a b c d cp res rest,
          stoi (str4 a b c d) 16 = Ok cp -> is_high_surrogate cp = true ->
          low_follows rest = false ->
          is_parse_error (parse_string_loop char_signed res (uescape a b c d rest)))
    /\ (forall a b c d cp res rest,
          stoi (str4 a b c d) 16 = Ok cp -> is_low_surrogate cp = true ->
          is_parse_error (parse_string_loop char_signed res (uescape a b c d rest))).
Proof.
  intros char_signed.
  split; [|split; [|split; [|split; [|split]]]].
  - destruct char_signed; vm_compute; repeat split; reflexivity.
  - destruct char_signed; eexists; vm_compute; reflexivity.
  - destruct char_signed; eexists; vm_compute; reflexivity.
  - intros a b c d l1 l2 l3 l4 hi lo res rest Hs Hh Hl Hlo. split.
    + now apply surrogate_pair.
    + now apply combine_surrogates_range.
  - intros. eexists. eapply lone_high_surrogate; eassumption.
  - intros. eexists. eapply lone_low_surrogate; eassumption.
Qed.

(** The general parts of C2 at the pair D83D DE00, at D800 before a
    quote, and at DFFF. *)
Lemma surrogate_pairs_witness :
  (parse_string_loop true EmptyString
     (uescape "D" "8" "3" "D" (uescape "D" "E" "0" "0" (str1 dquote)))
   = parse_string_loop true (encode_utf8 EmptyString (combine_surrogates 55357 56832))
       (str1 dquote)
   /\ 65536 <= combine_surrogates 55357 56832 <= 1114111)
  /\ is_parse_error (parse_string_loop true EmptyString (uescape "D" "8" "0" "0" (str1 dquote)))
  /\ is_parse_error (parse_string_loop true EmptyString (uescape "D" "F" "F" "F" (str1 dquote))).
Proof.
  destruct (surrogate_pairs_decode_and_lone_surrogates_fail true)
    as (_ & _ & _ & Hpair & Hhigh & Hlow).
  split; [|split].
  - apply (Hpair "D" "8" "3" "D" "D" "E" "0" "0")%char; reflexivity.
  - apply (Hhigh "D" "8" "0" "0" 55296)%char; reflexivity.
  - apply (Hlow "D" "F" "F" "F" 57343)%char; reflexivity.
Defined.

End StringEscapes.

(** ** JSON numbers: the grammar of [parse_number] *)

Module NumberGrammar.
Import EJson.

(** Case analysis over the 256 characters. *)
Ltac each_char c := destruct c as [[] [] [] [] [] [] [] []].

Lemma number_fraction_no_point (c : ascii) (rest : string) :
  Ascii.eqb c "." = false ->
  number_fraction (String c rest) = Ok (EmptyString, String c rest).
Proof. unfold number_fraction. cbn [starts]. now intros ->. Qed.

Lemma number_exponent_no_e (c : ascii) (rest : string) :
  Ascii.eqb c "e" || Ascii.eqb c "E" = false ->
  number_exponent (String c rest) = Ok (EmptyString, String c rest).
Proof. unfold number_exponent. now intros ->. Qed.

Lemma isdigit_not_point (c : ascii) : isdigit c = true -> Ascii.eqb c "." = false.
Proof. each_char c; intros H; try discriminate H; reflexivity. Qed.

Lemma isdigit_not_e (c : ascii) :
  isdigit c = true -> Ascii.eqb c "e" || Ascii.eqb c "E" = false.
Proof. each_char c; intros H; try discriminate H; reflexivity. Qed.

Lemma isdigit_not_space (c : ascii) : isdigit c = true -> isspace c = false.
Proof. each_char c; intros H; try discriminate H; reflexivity. Qed.

(** After a leading [0] the scan stops, whatever digit comes next. *)
Lemma number_lexeme_leading_zero (d : ascii) (rest : string) :
  isdigit d = true ->
  number_lexeme (String "0" (String d rest)) = Ok ("0", String d rest).
Proof.
  intros Hd. unfold number_lexeme. cbn [starts].
  change (Ascii.eqb "0" "-") with false. cbv iota. cbn [number_integer bind].
  change (isdigit "0") with true. cbn [Ascii.eqb Bool.eqb andb bind].
  rewrite number_fraction_no_point by now apply isdigit_not_point.
  cbn [bind]. rewrite number_exponent_no_e by now apply isdigit_not_e.
  reflexivity.
Qed.

Section Platform.
Variable char_signed : bool.

(** A digit after a leading zero is left over, and [parse] rejects it. *)
Lemma leading_zero_rejected (d : ascii) (rest : string) :
  isdigit d = true ->
  parse char_signed (String "0" (String d rest))
  = Throw (JSONParseError "Parse error: JSON Parse Error: Extra characters after JSON").
Proof.
  intros Hd. unfold parse.
  cbn [String.length parse_value].
  change (skip_ws (String "0" (String d rest))) with (String "0" (String d rest)).
  cbv beta iota zeta.
  change (Ascii.eqb "0" "n") with false.
  change (Ascii.eqb "0" "t" || Ascii.eqb "0" "f") with false.
  change (Ascii.eqb "0" dquote) with false.
  change (Ascii.eqb "0" "[") with false.
  change (Ascii.eqb "0" "{") with false.
  change (Ascii.eqb "0" "-" || isdigit "0") with true.
  cbv beta iota.
  unfold parse_number. rewrite number_lexeme_leading_zero by assumption.
  cbn [bind]. change (Double.stod "0") with (Ok (S754_zero false) : result Double.double).
  cbv beta iota. cbn [bind].
  rewrite skip_ws_stops by (cbn [stops]; now rewrite isdigit_not_space).
  reflexivity.
Qed.

End Platform.

(** C3.  [01], [1.], [.5] and [1e] raise a parse error, while [-0], [3.14]
    and [1e10] parse to Numbers (minus zero, and the doubles nearest to
    3.14 and to ten to the tenth).  The rules behind the four failures
    hold in general: a digit after a leading zero is rejected, and a
    decimal point or an exponent mark not followed by a digit is
    rejected. *)
Theorem strict_number_grammar :
  forall char_signed : bool,
    (is_parse_error (parse char_signed "01")
     /\ is_parse_error (parse char_signed "1.")
     /\ is_parse_error (parse char_signed ".5")
     /\ is_parse_error (parse char_signed "1e"))
    /\ (parse char_signed "-0" = Ok (JNumber (S754_zero true))
        /\ parse char_signed "3.14" = Ok (JNumber (S754_finite false 7070651414971679 (-51)))
        /\ parse char_signed "1e10" = Ok (JNumber (S754_finite false 5242880000000000 (-19))))
    /\ (forall d rest, isdigit d = true ->
          is_parse_error (parse char_signed (String "0" (String d rest))))
    /\ (forall rest, stops isdigit rest = true ->
          is_parse_error (number_fraction (String "." rest)))
    /\ (forall e rest, Ascii.eqb e "e" || Ascii.eqb e "E" = true ->
          stops isdigit rest = true ->
          is_parse_error (number_exponent (String e (String "+" rest)))
          /\ is_parse_error (number_exponent (String e (String "-" rest)))
          /\ (stops (fun c => Ascii.eqb c "+" || Ascii.eqb c "-") rest = true ->
              is_parse_error (number_exponent (String e rest)))).
Proof.
  intros char_signed.
  split; [|split; [|split; [|split]]].
  - repeat split; destruct char_signed; eexists; vm_compute; reflexivity.
  - repeat split; destruct char_signed; vm_compute; reflexivity.
  - intros d rest Hd. eexists. now apply leading_zero_rejected.
  - intros [|c rest] H; cbn [stops] in H; unfold number_fraction;
      cbn [starts advance]; change (Ascii.eqb "." ".") with true; cbv iota.
    + eexists; reflexivity.
    + apply negb_true_iff in H. rewrite H. eexists; reflexivity.
  - intros e rest He Hr.
    assert (Hsigned : forall g, Ascii.eqb g "+" || Ascii.eqb g "-" = true ->
              is_parse_error (number_exponent (String e (String g rest)))).
    { intros g Hg. unfold number_exponent. rewrite He, Hg.
      destruct rest as [|c rest]; [eexists; reflexivity|].
      cbn [stops] in Hr. apply negb_true_iff in Hr. rewrite Hr.
      eexists; reflexivity. }
    split; [apply Hsigned; reflexivity|].
    split; [apply Hsigned; reflexivity|].
    intros Hs. unfold number_exponent. rewrite He.
    destruct rest as [|c rest]; [eexists; reflexivity|].
    cbn [stops] in Hr, Hs. apply negb_true_iff in Hr, Hs. rewrite Hs, Hr.
    eexists; reflexivity.
Qed.

(** The general rules of C3 at [09], at a point before [x], and at [E]
    before [x]. *)
Lemma strict_number_grammar_witness :
  is_parse_error (parse true "09")
  /\ is_parse_error (number_fraction ".x")
  /\ is_parse_error (number_exponent "Ex").
Proof.
  destruct (strict_number_grammar true) as (_ & _ & Hzero & Hfrac & Hexp).
  split; [|split].
  - apply (Hzero "9"%char EmptyString). reflexivity.
  - apply (Hfrac "x"). reflexivity.
  - apply (Hexp "E"%char "x"); reflexivity.
Defined.

End NumberGrammar.

(** ** Paths: [at_path], [set_path], [has_path] *)

Module Paths.
Import EJson.
Import NumberGrammar.

Lemma isident_start_not_dot (c : ascii) :
  isident_start c = true -> Ascii.eqb c "." = false.
Proof. each_char c; intros H; try discriminate H; reflexivity. Qed.

Lemma isident_start_isident (c : ascii) :
  isident_start c = true -> isident c = true.
Proof. each_char c; intros H; try discriminate H; reflexivity. Qed.

(** A path that is one identifier reads the entry of that key. *)
Lemma at_path_identifier (key : string) (obj : StdMap.t JSON) :
  is_identifier key = true ->
  at_path key (JObject obj)
  = match StdMap.find key obj with Some v => Ok v | None => Ok JNull end.
Proof.
  destruct key as [|c rest]; [discriminate|].
  cbn [is_identifier]. intros H. apply andb_true_iff in H as [Hc Hrest].
  unfold at_path. cbn [String.length at_path_loop].
  rewrite (isident_start_not_dot c Hc), Hc.
  rewrite span_all_nil
    by (cbn [all]; now rewrite (isident_start_isident c Hc), Hrest).
  destruct (StdMap.find (String c rest) obj); [|reflexivity].
  destruct (String.length rest); reflexivity.
Qed.

(** C4.  From Null, [set_path("a.b[1]", x)] does not throw and leaves the
    Object whose key [a] holds the Object whose key [b] holds the Array
    [[Null, x]]; [at_path("a.b[1]")] then returns [x].  So [a] and [a.b]
    are an Object and an Array of length two whose index 0 is Null. *)
Theorem set_path_autovivifies_then_at_path_reads :
  forall x : JSON,
    set_path "a.b[1]" x JNull
    = (JObject [("a", JObject [("b", JArray [JNull; x])])], None)
    /\ at_path "a.b[1]" (fst (set_path "a.b[1]" x JNull)) = Ok x
    /\ (exists a_val arr,
          const_subscript_key "a" (fst (set_path "a.b[1]" x JNull)) = Ok a_val
          /\ is_object a_val = true
          /\ const_subscript_key "b" a_val = Ok (JArray arr)
          /\ (2 <= List.length arr)%nat
          /\ const_subscript_index 0 (JArray arr) = Ok JNull).
Proof.
  intros x. split; [reflexivity|]. split; [reflexivity|].
  exists (JObject [("b", JArray [JNull; x])]), [JNull; x].
  repeat split; cbn; lia.
Qed.

(** C10.  [has_path] is [at_path] followed by the test for non-Null: it
    returns true exactly when [at_path] returns a non-Null value, false
    exactly when [at_path] returns Null, and throws what [at_path] throws.
    So a key that is present and holds Null is reported like a missing
    one: [has_path] is false for both, though [contains] tells them
    apart. *)
Theorem has_path_is_at_path_non_null :
  forall (path : string) (j : JSON),
    (has_path path j = Ok true <-> exists v, at_path path j = Ok v /\ is_null v = false)
    /\ (has_path path j = Ok false <-> at_path path j = Ok JNull)
    /\ (forall e, has_path path j = Throw e <-> at_path path j = Throw e)
    /\ (forall obj, is_identifier path = true ->
          (StdMap.find path obj = Some JNull ->
             contains path (JObject obj) = true
             /\ at_path path (JObject obj) = Ok JNull
             /\ has_path path (JObject obj) = Ok false)
          /\ (StdMap.find path obj = None ->
                contains path (JObject obj) = false
                /\ at_path path (JObject obj) = Ok JNull
                /\ has_path path (JObject obj) = Ok false)).
Proof.
  intros path j. unfold has_path.
  split; [|split; [|split]].
  - destruct (at_path path j) as [v|e]; cbn [bind]; split.
    + intros H. exists v. split; [reflexivity|].
      injection H as H. now apply negb_true_iff in H.
    + intros (v' & Hv & Hn). injection Hv as <-. now rewrite Hn.
    + discriminate.
    + intros (v' & Hv & _). discriminate.
  - destruct (at_path path j) as [v|e]; cbn [bind]; split.
    + intros H. injection H as H. apply negb_false_iff in H.
      destruct v; try discriminate. reflexivity.
    + intros H. injection H as ->. reflexivity.
    + discriminate.
    + discriminate.
  - intros e. destruct (at_path path j) as [v|e']; cbn [bind]; split;
      try discriminate; intros H; injection H as ->; reflexivity.
  - intros obj Hid. split; intros Hfind;
      rewrite (at_path_identifier path obj Hid); cbn [contains];
      rewrite Hfind; cbn [bind is_null negb]; auto.
Qed.

(** C10 at the object whose key [a] holds Null, and at the empty object. *)
Lemma has_path_null_witness :
  (contains "a" (JObject [("a", JNull)]) = true
   /\ at_path "a" (JObject [("a", JNull)]) = Ok JNull
   /\ has_path "a" (JObject [("a", JNull)]) = Ok false)
  /\ (contains "a" (JObject []) = false
      /\ at_path "a" (JObject []) = Ok JNull
      /\ has_path "a" (JObject []) = Ok false).
Proof.
  destruct (has_path_is_at_path_non_null "a" JNull) as (_ & _ & _ & H).
  split.
  - apply (H [("a", JNull)]); reflexivity.
  - apply (H []); reflexivity.
Defined.

(** *** Well-formed and malformed paths *)

Lemma digit_value_nonneg (c : ascii) (d : Z) : digit_value c = Some d -> 0 <= d.
Proof.
  each_char c; cbn; intros H; try discriminate H; injection H as <-; lia.
Qed.

Lemma read_digits_nonneg (base : Z) (s : string) :
  forall acc v,
    0 <= base ->
    match acc with Some a => 0 <= a | None => True end ->
    read_digits base acc s = Some v -> 0 <= v.
Proof.
  induction s as [|c s IH]; intros acc v Hb Hacc H; cbn [read_digits] in H.
  - subst acc. exact Hacc.
  - destruct (digit_value c) as [d|] eqn:Ed; [|subst acc; exact Hacc].
    destruct (d <? base); [|subst acc; exact Hacc].
    apply digit_value_nonneg in Ed.
    apply (IH _ v Hb) in H; [exact H|].
    destruct acc as [a|]; [nia | exact Ed].
Qed.

(** What [stoi] throws is one of its two exceptions. *)
Lemma stoi_throws (s : string) (base : Z) (e : exn) :
  stoi s base = Throw e -> e = invalid_argument "stoi" \/ e = out_of_range "stoi".
Proof.
  unfold stoi.
  destruct (match skip_ws s with
            | EmptyString => _
            | String sign s' => _
            end) as [neg s0].
  destruct (match s0 with
            | EmptyString => _
            | String zero s1 => _
            end) as [m|].
  - destruct ((INT_MIN <=? (if neg then - m else m)) && ((if neg then - m else m) <=? INT_MAX));
      intros H; [discriminate H | injection H as <-; now right].
  - intros H. injection H as <-. now left.
Qed.

(** In base 10, on a text of digits, [stoi] never returns a negative
    number. *)
Lemma stoi_digits_nonneg (digits : string) (v : Z) :
  all isdigit digits = true -> stoi digits 10 = Ok v -> 0 <= v.
Proof.
  intros Hd. unfold stoi.
  assert (Hws : skip_ws digits = digits).
  { destruct digits as [|c ds]; [reflexivity|].
    cbn [all] in Hd. apply andb_true_iff in Hd as [Hc _].
    apply skip_ws_stops. cbn [stops]. now rewrite (isdigit_not_space c Hc). }
  rewrite Hws.
  assert (Hsign : match digits with
                  | EmptyString => (false, digits)
                  | String sign s' =>
                      if Ascii.eqb sign "-" then (true, s')
                      else if Ascii.eqb sign "+" then (false, s')
                      else (false, digits)
                  end = (false, digits)).
  { destruct digits as [|c ds]; [reflexivity|].
    cbn [all] in Hd. apply andb_true_iff in Hd as [Hc _].
    revert Hc. clear. each_char c; intros H; try discriminate H; reflexivity. }
  rewrite Hsign. change (10 =? 16) with false. cbn [andb].
  assert (Hmag : match digits with
                 | String _ (String _ _) => read_digits 10 None digits
                 | _ => read_digits 10 None digits
                 end = read_digits 10 None digits)
    by (destruct digits as [|? [|? ?]]; reflexivity).
  rewrite Hmag.
  destruct (read_digits 10 None digits) as [m|] eqn:Em; [|discriminate].
  apply read_digits_nonneg in Em; [|lia|exact I].
  destruct ((INT_MIN <=? m) && (m <=? INT_MAX)); [|discriminate].
  intros H. injection H as <-. exact Em.
Qed.

Lemma span_all_fst (p : ascii -> bool) (s : string) : all p (fst (span p s)) = true.
Proof.
  induction s as [|c s IH]; cbn [span]; [reflexivity|].
  destruct (p c) eqn:Hc; [|reflexivity].
  destruct (span p s) as [a b]. cbn [fst all] in *. now rewrite Hc, IH.
Qed.

(** The value [at_path] reads at an index, in the words of [resolve]. *)
Lemma nth_in_range (arr : list JSON) (idx : Z) :
  0 <= idx ->
  (if (idx <? 0) || (Z.of_nat (List.length arr) <=? idx) then None
   else Some (nth (Z.to_nat idx) arr JNull))
  = nth_error arr (Z.to_nat idx).
Proof.
  intros Hidx. destruct (idx <? 0) eqn:E1; [lia|]. cbn [orb].
  destruct (Z.of_nat (List.length arr) <=? idx) eqn:E2.
  - symmetry. apply nth_error_None. lia.
  - symmetry. apply nth_error_nth'. lia.
Qed.

(** On a path that [path_parts] splits, [at_path] returns the value the
    parts lead to. *)
Lemma at_path_loop_resolves (fuel : nat) :
  forall path j parts,
    path_parts fuel path = Ok parts ->
    at_path_loop fuel j path = Ok (resolve parts j).
Proof.
  induction fuel as [|f IH]; intros [|c rest] j parts H;
    cbn [path_parts at_path_loop] in *;
    try (injection H as <-; reflexivity); try discriminate H.
  destruct (Ascii.eqb c "."); [now apply IH|].
  destruct (isident_start c).
  - destruct (span isident (String c rest)) as [key rest'].
    destruct (path_parts f rest') as [parts'|e] eqn:Ep; [|discriminate H].
    cbn [bind] in H. injection H as <-. cbn [resolve]. change (-1 =? -1) with true.
    cbv iota. destruct j; try reflexivity.
    destruct (StdMap.find key obj); [now apply IH | reflexivity].
  - destruct (Ascii.eqb c "["); [|discriminate H].
    pose proof (span_all_fst isdigit rest) as Hdigits.
    destruct (span isdigit rest) as [digits rest']. cbn [fst] in Hdigits.
    destruct rest' as [|close rest'']; [discriminate H|].
    destruct (Ascii.eqb close "]"); [|discriminate H].
    destruct (stoi digits 10) as [idx|e] eqn:Es; [|discriminate H].
    cbn [bind] in H |- *.
    destruct (path_parts f rest'') as [parts'|e] eqn:Ep; [|discriminate H].
    cbn [bind] in H. injection H as <-.
    pose proof (stoi_digits_nonneg digits idx Hdigits Es) as Hidx.
    cbn [resolve]. destruct (idx =? -1) eqn:E; [lia|].
    destruct j; try reflexivity.
    rewrite <- (nth_in_range arr idx Hidx).
    destruct ((idx <? 0) || (Z.of_nat (List.length arr) <=? idx)); [reflexivity|].
    now apply IH.
Qed.

(** [resolve] is [follow], with Null where a step finds nothing. *)
Lemma resolve_follow (parts : list path_part) :
  forall j, resolve parts j = match follow parts j with Some v => v | None => JNull end.
Proof.
  induction parts as [|[key index] parts IH]; intros j; cbn [resolve follow]; [reflexivity|].
  destruct (index =? -1).
  - destruct j; try reflexivity. destruct (StdMap.find key obj); [apply IH | reflexivity].
  - destruct j; try reflexivity.
    destruct (nth_error arr (Z.to_nat index)); [apply IH | reflexivity].
Qed.

(** On a path that [path_parts] splits, the steps in front of the failure
    are all the steps. *)
Lemma steps_before_all (fuel : nat) :
  forall path parts, path_parts fuel path = Ok parts -> steps_before fuel path = parts.
Proof.
  induction fuel as [|f IH]; intros [|c rest] parts H;
    cbn [path_parts steps_before] in *;
    try (injection H as <-; reflexivity); try discriminate H.
  destruct (Ascii.eqb c "."); [now apply IH|].
  destruct (isident_start c).
  - destruct (span isident (String c rest)) as [key rest'].
    destruct (path_parts f rest') as [parts'|e] eqn:Ep; [|discriminate H].
    cbn [bind] in H. injection H as <-. f_equal. now apply IH.
  - destruct (Ascii.eqb c "["); [|discriminate H].
    destruct (span isdigit rest) as [digits rest'].
    destruct rest' as [|close rest'']; [discriminate H|].
    destruct (Ascii.eqb close "]"); [|discriminate H].
    destruct (stoi digits 10) as [idx|e] eqn:Es; [|discriminate H].
    cbn [bind] in H.
    destruct (path_parts f rest'') as [parts'|e] eqn:Ep; [|discriminate H].
    cbn [bind] in H. injection H as <-. f_equal. now apply IH.
Qed.

(** On a path that [path_parts] rejects, [at_path] throws the same
    exception when the steps in front of the malformed place all find
    their entry or element, and has returned Null when one of them does
    not. *)
Lemma at_path_loop_rejected (fuel : nat) :
  forall path j e,
    path_parts fuel path = Throw e ->
    at_path_loop fuel j path
    = match follow (steps_before fuel path) j with
      | Some _ => Throw e
      | None => Ok JNull
      end.
Proof.
  induction fuel as [|f IH]; intros [|c rest] j e H;
    cbn [path_parts at_path_loop steps_before] in *; try discriminate H.
  - injection H as <-. reflexivity.
  - destruct (Ascii.eqb c "."); [now apply IH|].
    destruct (isident_start c).
    + destruct (span isident (String c rest)) as [key rest'].
      destruct (path_parts f rest') as [parts'|e'] eqn:Ep; [discriminate H|].
      cbn [bind] in H. injection H as <-.
      cbn [follow]. change (-1 =? -1) with true. cbv iota.
      destruct j; try reflexivity.
      destruct (StdMap.find key obj); [now apply IH | reflexivity].
    + destruct (Ascii.eqb c "["); [|injection H as <-; reflexivity].
      pose proof (span_all_fst isdigit rest) as Hdigits.
      destruct (span isdigit rest) as [digits rest']. cbn [fst] in Hdigits.
      destruct rest' as [|close rest'']; [injection H as <-; reflexivity|].
      destruct (Ascii.eqb close "]"); [|injection H as <-; reflexivity].
      destruct (stoi digits 10) as [idx|e'] eqn:Es; [|injection H as <-; reflexivity].
      cbn [bind] in H |- *.
      destruct (path_parts f rest'') as [parts'|e'] eqn:Ep; [discriminate H|].
      cbn [bind] in H. injection H as <-.
      pose proof (stoi_digits_nonneg digits idx Hdigits Es) as Hidx.
      cbn [follow]. destruct (idx =? -1) eqn:E; [lia|].
      destruct j; try reflexivity.
      rewrite <- (nth_in_range arr idx Hidx).
      destruct ((idx <? 0) || (Z.of_nat (List.length arr) <=? idx)); [reflexivity|].
      now apply IH.
Qed.

(** With fuel for its length, the split of a path does not run out of
    fuel. *)
Lemma path_parts_fuel (fuel : nat) :
  forall path, (String.length path <= fuel)%nat -> path_parts fuel path <> Throw out_of_fuel.
Proof.
  induction fuel as [|f IH]; intros [|c rest] Hlen; cbn [path_parts String.length] in *;
    try discriminate; try lia.
  destruct (Ascii.eqb c "."); [apply IH; lia|].
  destruct (isident_start c) eqn:Hc.
  - cbn [span]. rewrite (isident_start_isident c Hc).
    pose proof (span_length isident rest) as Hs.
    destruct (span isident rest) as [key rest']. cbn [snd] in Hs.
    pose proof (IH rest' ltac:(lia)) as Hr.
    destruct (path_parts f rest'); cbn [bind]; [discriminate|].
    intros H. apply Hr. exact H.
  - destruct (Ascii.eqb c "["); [|discriminate].
    pose proof (span_length isdigit rest) as Hs.
    destruct (span isdigit rest) as [digits rest']. cbn [snd] in Hs.
    destruct rest' as [|close rest'']; [discriminate|].
    destruct (Ascii.eqb close "]"); [|discriminate].
    destruct (stoi digits 10) as [idx|e] eqn:Es; cbn [bind].
    + cbn [String.length] in Hs.
      pose proof (IH rest'' ltac:(lia)) as Hr.
      destruct (path_parts f rest''); cbn [bind]; [discriminate|].
      intros H. apply Hr. exact H.
    + intros H. injection H as ->.
      destruct (stoi_throws _ _ _ Es); discriminate.
Qed.

(** What the claim says and the code does not: a path with an unterminated
    bracket is read without an error when the step before the bracket
    already fails on the receiver. *)
Lemma at_path_malformed_path_returns_null :
  path_parts (String.length "a[") "a[" = Throw (JSONParseError "Expected closing bracket")
  /\ at_path "a[" JNull = Ok JNull
  /\ at_path "a[" (JObject [("a", JNull)]) = Throw (JSONParseError "Expected closing bracket").
Proof. repeat split. Qed.

(** C5, as amended.  A path is well formed when [set_path]'s split of it
    succeeds: dots, identifiers, and bracketed digit strings that [stoi]
    converts.  On a well-formed path [at_path] never throws: it returns
    the value the steps lead to, which is Null as soon as a step finds no
    entry, no element or the wrong kind of value.  On a malformed path
    [at_path] throws the exception of the split exactly when every step in
    front of the malformed place finds its entry or element in the
    receiver, an entry that holds Null being found; when one of these
    steps finds nothing it returns Null, without an error.  [at_path]
    throws in no other case. *)
Theorem at_path_best_effort :
  forall (path : string) (j : JSON),
    (forall parts, path_parts (String.length path) path = Ok parts ->
       at_path path j = Ok (resolve parts j)
       /\ resolve parts j = match follow parts j with Some v => v | None => JNull end
       /\ steps_before (String.length path) path = parts)
    /\ (forall e, path_parts (String.length path) path = Throw e ->
          e <> out_of_fuel
          /\ at_path path j
             = match follow (steps_before (String.length path) path) j with
               | Some _ => Throw e
               | None => Ok JNull
               end)
    /\ (forall e, at_path path j = Throw e ->
          path_parts (String.length path) path = Throw e /\ e <> out_of_fuel
          /\ follow (steps_before (String.length path) path) j <> None).
Proof.
  intros path j. unfold at_path.
  assert (Hfuel := path_parts_fuel (String.length path) path (le_n _)).
  split; [|split].
  - intros parts H. split; [now apply at_path_loop_resolves|].
    split; [apply resolve_follow | now apply steps_before_all].
  - intros e H. split; [intros ->; contradiction|].
    now apply at_path_loop_rejected.
  - intros e H.
    destruct (path_parts (String.length path) path) as [parts|e'] eqn:Ep.
    + rewrite (at_path_loop_resolves _ _ j _ Ep) in H. discriminate H.
    + rewrite (at_path_loop_rejected _ _ j _ Ep) in H.
      destruct (follow (steps_before (String.length path) path) j); [|discriminate H].
      injection H as <-. split; [reflexivity|]. split; [intros ->; contradiction | discriminate].
Qed.

(** C5 at the path [a.b[1]] on an object whose [a] is a string; at the
    path [a[x], whose step [a] that object has and Null has not; and at
    the path [a.b[x], whose step [b] the object has not. *)
Lemma at_path_best_effort_witness :
  at_path "a.b[1]" (JObject [("a", JString "s")]) = Ok JNull
  /\ at_path "a[x" (JObject [("a", JString "s")])
     = Throw (JSONParseError "Expected closing bracket")
  /\ at_path "a[x" JNull = Ok JNull
  /\ at_path "a.b[x" (JObject [("a", JString "s")]) = Ok JNull.
Proof.
  destruct (at_path_best_effort "a.b[1]" (JObject [("a", JString "s")])) as (Hwell & _ & _).
  destruct (at_path_best_effort "a[x" (JObject [("a", JString "s")])) as (_ & Hbad1 & _).
  destruct (at_path_best_effort "a[x" JNull) as (_ & Hbad2 & _).
  destruct (at_path_best_effort "a.b[x" (JObject [("a", JString "s")])) as (_ & Hbad3 & _).
  split; [|split; [|split]].
  - apply (Hwell [("a", -1); ("b", -1); (EmptyString, 1)]). reflexivity.
  - apply (Hbad1 (JSONParseError "Expected closing bracket")). reflexivity.
  - apply (Hbad2 (JSONParseError "Expected closing bracket")). reflexivity.
  - apply (Hbad3 (JSONParseError "Expected closing bracket")). reflexivity.
Defined.

End Paths.

(** ** XML nodes: access by name, and serialization *)

Module XmlNodes.
Import EXml.

(** Induction over a node with the hypothesis for each child. *)
Lemma Node_induction (P : Node -> Prop) :
  (forall name text attrs kids, Forall P kids -> P (mkNode name text attrs kids)) ->
  forall n, P n.
Proof.
  intros step.
  fix IH 1. intros [name text attrs kids]. apply step.
  induction kids as [|k kids IHk]; constructor; [apply IH | exact IHk].
Qed.

(** [first_named] returns a position that holds a child of that name, with
    no such child before it. *)
Lemma first_named_some (k : string) (l : list Node) (i : nat) :
  first_named k l = Some i ->
  exists c,
    nth_error l i = Some c /\ name c = k
    /\ forall j c', (j < i)%nat -> nth_error l j = Some c' -> name c' <> k.
Proof.
  revert i. induction l as [|x l IH]; cbn [first_named]; intros i H; [discriminate|].
  destruct (String.eqb (name x) k) eqn:E.
  - injection H as <-. exists x. split; [reflexivity|]. split.
    + now apply String.eqb_eq.
    + intros j c' Hj. lia.
  - destruct (first_named k l) as [i'|]; [|discriminate].
    injection H as <-. destruct (IH i' eq_refl) as (c & Hn & Hc & Hmin).
    exists c. split; [exact Hn|]. split; [exact Hc|].
    intros [|j] c' Hj Hn'; cbn [nth_error] in Hn'.
    + injection Hn' as <-. now apply String.eqb_neq.
    + apply (Hmin j c'); [lia | exact Hn'].
Qed.

Lemma first_named_none (k : string) (l : list Node) :
  first_named k l = None <-> (forall c, In c l -> name c <> k).
Proof.
  induction l as [|x l IH]; cbn [first_named]; split.
  - intros _ c [].
  - reflexivity.
  - destruct (String.eqb (name x) k) eqn:E; [discriminate|].
    destruct (first_named k l) eqn:F; [discriminate|].
    intros _ c [<-|Hc]; [now apply String.eqb_neq | now apply IH].
  - intros H. destruct (String.eqb (name x) k) eqn:E.
    + apply String.eqb_eq in E. exfalso. apply (H x); [now left | exact E].
    + assert (F : first_named k l = None) by (apply IH; intros c Hc; apply H; now right).
      now rewrite F.
Qed.

(** C9.  When some child is named [k], the mutable accessor leaves the
    node as it is and refers to the first child of that name, the one the
    const accessor returns.  When no child is named [k], the mutable
    accessor appends an empty node named [k] to [child_nodes], which grows
    by one, and refers to it, while the const accessor throws. *)
Theorem subscript_finds_first_or_appends :
  forall (n : Node) (k : string),
    ((exists c, In c (child_nodes n) /\ name c = k) ->
       exists i c,
         subscript k n = (n, i)
         /\ nth_error (child_nodes n) i = Some c
         /\ name c = k
         /\ (forall j c', (j < i)%nat -> nth_error (child_nodes n) j = Some c' -> name c' <> k)
         /\ const_subscript k n = Ok c)
    /\ ((forall c, In c (child_nodes n) -> name c <> k) ->
          subscript k n
          = (mkNode (name n) (text_content n) (attributes n) (child_nodes n ++ [node k]),
             List.length (child_nodes n))
          /\ nth_error (child_nodes (fst (subscript k n))) (snd (subscript k n))
             = Some (mkNode k EmptyString [] [])
          /\ List.length (child_nodes (fst (subscript k n)))
             = S (List.length (child_nodes n))
          /\ const_subscript k n = Throw (XMLParseError ("Child node not found: " ++ k))).
Proof.
  intros n k. split.
  - intros (c0 & Hin & Hname).
    destruct (first_named k (child_nodes n)) as [i|] eqn:F.
    + destruct (first_named_some k _ i F) as (c & Hn & Hc & Hmin).
      exists i, c. unfold subscript, const_subscript. rewrite F.
      repeat split; try assumption.
      now rewrite (nth_error_nth _ _ _ Hn).
    + exfalso. apply (proj1 (first_named_none k _) F c0 Hin Hname).
  - intros Hnone. apply first_named_none in Hnone.
    unfold subscript, const_subscript. rewrite Hnone. cbn [fst snd child_nodes].
    repeat split.
    + rewrite nth_error_app2 by lia. now rewrite Nat.sub_diag.
    + rewrite length_app. cbn. lia.
Qed.

(** C9 at a node with children [b], [c], [b], asked for [b] and for [z]. *)
Lemma subscript_witness :
  (exists i c,
     subscript "b" (mkNode "a" EmptyString [] [node_text "b" "1"; node "c"; node_text "b" "2"])
     = (mkNode "a" EmptyString [] [node_text "b" "1"; node "c"; node_text "b" "2"], i)
     /\ nth_error [node_text "b" "1"; node "c"; node_text "b" "2"] i = Some c
     /\ name c = "b"
     /\ (forall j c', (j < i)%nat ->
           nth_error [node_text "b" "1"; node "c"; node_text "b" "2"] j = Some c' ->
           name c' <> "b")
     /\ const_subscript "b"
          (mkNode "a" EmptyString [] [node_text "b" "1"; node "c"; node_text "b" "2"])
        = Ok c)
  /\ const_subscript "z" (mkNode "a" EmptyString [] [node "c"])
     = Throw (XMLParseError "Child node not found: z").
Proof.
  split.
  - apply (subscript_finds_first_or_appends
             (mkNode "a" EmptyString [] [node_text "b" "1"; node "c"; node_text "b" "2"]) "b").
    exists (node_text "b" "1"). split; [now left | reflexivity].
  - apply (subscript_finds_first_or_appends (mkNode "a" EmptyString [] [node "c"]) "z").
    intros c [<-|[]]. discriminate.
Defined.

(** *** The layout of [dump] *)

Lemma dump_attributes_app (oss : string) (attrs : StdMap.t string) :
  dump_attributes oss attrs
  = oss ++ concat_all
             (map (fun kv => " " ++ fst kv ++ "=" ++ str1 dquote
                             ++ encode_text (snd kv) ++ str1 dquote) attrs).
Proof.
  unfold dump_attributes. revert oss.
  induction attrs as [|kv attrs IH]; intros oss; cbn [fold_left map concat_all].
  - now rewrite append_nil_r.
  - rewrite IH. now rewrite !append_assoc.
Qed.

(** Reassociate every append to the right. *)
Ltac right_assoc := repeat rewrite append_assoc; cbn [append].

Lemma dump_recursive_render (n : Node) :
  forall oss pretty depth indent_size,
    dump_recursive oss pretty depth indent_size n
    = oss ++ render pretty depth indent_size n.
Proof.
  induction n as [name text attrs kids IH] using Node_induction.
  intros oss pretty depth indent_size.
  cbn [dump_recursive render]. rewrite dump_attributes_app.
  unfold open_tag, has_children. cbn [EXml.name EXml.attributes EXml.child_nodes].
  set (attrs_text := concat_all (map _ attrs)).
  set (pad := if pretty then spaces (depth * indent_size) else EmptyString).
  assert (Hkids : forall oss0,
             (fix each (oss : string) (l : list Node) {struct l} : string :=
                match l with
                | [] => oss
                | child :: l' =>
                    each (dump_recursive oss pretty (depth + 1)%nat indent_size child) l'
                end) oss0 kids
             = oss0 ++ concat_all (map (render pretty (depth + 1) indent_size) kids)).
  { clear -IH. induction IH as [|k kids Hk _ IHk]; intros oss0; cbn [map concat_all].
    - now rewrite append_nil_r.
    - rewrite IHk, Hk. now rewrite append_assoc. }
  destruct kids as [|k kids].
  - destruct text as [|c text]; cbn [is_empty andb negb].
    + now right_assoc.
    + rewrite andb_false_r. cbn [map concat_all]. now right_assoc.
  - rewrite andb_false_r, andb_true_r. cbn [negb]. rewrite Hkids.
    destruct text as [|c text]; cbn [is_empty negb];
      destruct pretty; now right_assoc.
Qed.

(** What the description says and the code does not: a pretty-printed node
    with text and no child is written on one line, with no line break after
    its open tag and no indentation of its text. *)
Lemma dump_text_only_node_stays_on_one_line :
  dump true 0 2 (node_text "a" "x") = "<a>x</a>" ++ str1 newline
  /\ render_as_described true 0 2 (node_text "a" "x")
     = "<a>" ++ str1 newline ++ "  x" ++ str1 newline ++ "</a>" ++ str1 newline
  /\ dump true 0 2 (node_text "a" "x") <> render_as_described true 0 2 (node_text "a" "x").
Proof. repeat split. vm_compute. discriminate. Qed.

(** C8, as amended.  [dump] writes a node with empty text and no children
    as a self-closing tag, and any other node as its open tag with the
    attributes in the order of the map, its encoded text when there is
    some, its children one level deeper and its closing tag.  In pretty
    mode each tag is indented by its level and the closing tag ends its
    line; the line break after the open tag, the indentation and line
    break of the text, and the indentation of the closing tag are written
    only when the node has children. *)
Theorem dump_layout :
  forall (pretty : bool) (indent_level indent_size : nat) (n : Node),
    dump pretty indent_level indent_size n = render pretty indent_level indent_size n
    /\ (text_content n = EmptyString -> child_nodes n = [] ->
          dump pretty indent_level indent_size n
          = (if pretty then spaces (indent_level * indent_size) else EmptyString)
            ++ open_tag n ++ " />" ++ (if pretty then str1 newline else EmptyString))
    /\ (text_content n <> EmptyString -> child_nodes n = [] ->
          dump pretty indent_level indent_size n
          = (if pretty then spaces (indent_level * indent_size) else EmptyString)
            ++ open_tag n ++ ">" ++ encode_text (text_content n)
            ++ "</" ++ name n ++ ">" ++ (if pretty then str1 newline else EmptyString))
    /\ (child_nodes n <> [] ->
          dump true indent_level indent_size n
          = spaces (indent_level * indent_size) ++ open_tag n ++ ">" ++ str1 newline
            ++ (if is_empty (text_content n) then EmptyString
                else spaces ((indent_level + 1) * indent_size)
                     ++ encode_text (text_content n) ++ str1 newline)
            ++ concat_all (map (dump true (indent_level + 1) indent_size) (child_nodes n))
            ++ spaces (indent_level * indent_size) ++ "</" ++ name n ++ ">" ++ str1 newline).
Proof.
  intros pretty depth indent_size n.
  assert (Hd : forall p d m, dump p d indent_size m = render p d indent_size m).
  { intros p d m. unfold dump. now rewrite dump_recursive_render. }
  split; [apply Hd|]. rewrite !Hd.
  destruct n as [name text attrs kids]. cbn [text_content child_nodes EXml.name].
  split; [|split].
  - intros -> ->. reflexivity.
  - intros Ht ->. destruct text as [|c text]; [contradiction|].
    cbn [render has_children child_nodes is_empty andb negb map concat_all].
    rewrite !andb_false_r. now right_assoc.
  - intros Hk. destruct kids as [|k kids]; [contradiction|].
    rewrite (map_ext _ _ (Hd true (depth + 1)%nat)).
    cbn [render has_children child_nodes]. rewrite andb_false_r. cbn [andb].
    destruct text; cbn [is_empty]; now right_assoc.
Qed.

(** C8 at an empty node, a node with text only, and a node with text and a
    child, in pretty mode. *)
Lemma dump_layout_witness :
  dump true 1 2 (node "e") = "  <e />" ++ str1 newline
  /\ dump true 1 2 (node_text "t" "x<y") = "  <t>x&lt;y</t>" ++ str1 newline
  /\ dump true 0 2 (mkNode "p" "x" [] [node "e"])
     = "<p>" ++ str1 newline ++ "  x" ++ str1 newline
       ++ "  <e />" ++ str1 newline ++ "</p>" ++ str1 newline.
Proof.
  split; [|split].
  - apply (dump_layout true 1 2 (node "e")); reflexivity.
  - apply (dump_layout true 1 2 (node_text "t" "x<y")); [discriminate | reflexivity].
  - apply (dump_layout true 0 2 (mkNode "p" "x" [] [node "e"])). discriminate.
Defined.

End XmlNodes.

(** ** XML parsing: text runs and children *)

Module XmlContent.
Import EXml.
Import NumberGrammar.

Lemma parse_attributes_mono (f : nat) :
  forall attrs s r,
    parse_attributes f attrs s = Ok r -> parse_attributes (S f) attrs s = Ok r.
Proof.
  induction f as [|f IH]; intros attrs s r H.
  - destruct s as [|c s]; [exact H|]. cbn [parse_attributes] in H |- *.
    destruct (Ascii.eqb c ">" || Ascii.eqb c "/"); [exact H | discriminate].
  - destruct s as [|c s]; [exact H|].
    remember (S f) as f1 eqn:Ef1 in |- *.
    cbn [parse_attributes] in H |- *.
    destruct (Ascii.eqb c ">" || Ascii.eqb c "/"); [exact H|].
    destruct (span isattr (String c s)) as [key s1].
    destruct (skip_ws s1) as [|eq s2]; [exact H|].
    destruct (Ascii.eqb eq "="); [|exact H].
    destruct (skip_ws s2) as [|quote s3]; [exact H|].
    destruct (Ascii.eqb quote dquote || Ascii.eqb quote squote); [|exact H].
    destruct (span _ s3) as [val s4].
    subst f1. now apply IH.
Qed.

Lemma parse_mono (f : nat) :
  (forall s r, parse_node f s = Ok r -> parse_node (S f) s = Ok r)
  /\ (forall text kids run s r,
        parse_content f text kids run s = Ok r ->
        parse_content (S f) text kids run s = Ok r).
Proof.
  induction f as [|f [IHn IHc]]; split.
  - intros s r H. discriminate H.
  - intros text kids run [|c s] r H; [exact H | discriminate H].
  - intros s r H. remember (S f) as f1 eqn:Ef1 in |- *.
    cbn [parse_node] in H |- *.
    destruct (skip_ws s) as [|lt s1]; [exact H|].
    destruct (Ascii.eqb lt "<"); [|exact H].
    destruct (span isname s1) as [tag s2].
    destruct (parse_attributes f [] (skip_ws s2)) as [[attrs s3]|e] eqn:Ea;
      [|discriminate H].
    subst f1. rewrite (parse_attributes_mono f _ _ _ Ea). cbn [bind] in H |- *.
    destruct s3 as [|c s4]; [exact H|].
    destruct (Ascii.eqb c "/"); [exact H|].
    destruct (Ascii.eqb c ">"); [|exact H].
    destruct (parse_content f EmptyString [] EmptyString s4) as [[[[text kids] run] s5]|e] eqn:Ec;
      [|discriminate H].
    rewrite (IHc _ _ _ _ _ Ec). exact H.
  - intros text kids run s r H. destruct s as [|c0 s0]; [exact H|].
    remember (S f) as f1 eqn:Ef1 in |- *.
    cbn [parse_content] in H |- *.
    destruct (span isspace (String c0 s0)) as [ws s1].
    destruct s1 as [|c s2]; [exact H|].
    destruct (Ascii.eqb c "<").
    + destruct (closes (String c s2)); [exact H|].
      destruct (parse_node f (String c s2)) as [[child s3]|e] eqn:En; [|discriminate H].
      subst f1. rewrite (IHn _ _ En). cbn [bind] in H |- *. now apply IHc.
    + subst f1. now apply IHc.
Qed.

Lemma parse_content_mono (f k : nat) text kids run s r :
  parse_content f text kids run s = Ok r ->
  parse_content (k + f) text kids run s = Ok r.
Proof.
  intros H. induction k as [|k IH]; [exact H|].
  cbn [Nat.add]. now apply (proj2 (parse_mono (k + f))).
Qed.

(** One round of the content loop over a white-space character. *)
Lemma parse_content_space (f : nat) text kids run (c : ascii) (s : string) :
  isspace c = true ->
  parse_content (S f) text kids run (String c s)
  = parse_content (S f) text kids (run ++ str1 c) s.
Proof.
  intros Hc. cbn [parse_content span]. rewrite Hc.
  destruct s as [|d s'].
  - cbn [span]. reflexivity.
  - destruct (span isspace (String d s')) as [ws s1] eqn:E.
    rewrite append_assoc. reflexivity.
Qed.

(** One round of the content loop over a character of a text run that is
    not white space. *)
Lemma parse_content_char (f : nat) text kids run (c : ascii) (s : string) :
  isspace c = false -> Ascii.eqb c "<" = false ->
  parse_content (S f) text kids run (String c s)
  = parse_content f text kids (run ++ str1 c) s.
Proof.
  intros Hc Hlt. cbn [parse_content span]. rewrite Hc, Hlt.
  now rewrite append_nil_r.
Qed.

(** The content loop runs over a text run, adding it to [run]. *)
Lemma parse_content_run (r : string) :
  is_run r = true ->
  forall f text kids run t x,
    parse_content f text kids (run ++ r) t = Ok x ->
    parse_content (String.length r + f) text kids run (r ++ t) = Ok x.
Proof.
  induction r as [|c r IH]; intros Hr f text kids run t x H.
  - rewrite append_nil_r in H. exact H.
  - cbn [is_run all] in Hr. apply andb_true_iff in Hr as [Hc Hr].
    apply negb_true_iff in Hc.
    assert (H' : parse_content f text kids ((run ++ str1 c) ++ r) t = Ok x)
      by (rewrite append_assoc; exact H).
    specialize (IH Hr f text kids (run ++ str1 c) t x H').
    cbn [String.length Nat.add append].
    destruct (isspace c) eqn:Hs.
    + rewrite parse_content_space by assumption.
      now apply (proj2 (parse_mono _)).
    + rewrite parse_content_char by assumption. exact IH.
Qed.

Lemma lt_not_space : isspace "<" = false.
Proof. reflexivity. Qed.

(** The content loop stops in front of a closing tag. *)
Lemma parse_content_closing (f : nat) text kids run (t : string) :
  closes t = true ->
  parse_content (S f) text kids run t = Ok (text, kids, run, t).
Proof.
  intros Ht. destruct t as [|lt [|slash t]]; try discriminate Ht.
  cbn [closes] in Ht. apply andb_true_iff in Ht as [Hlt Hslash].
  apply Ascii.eqb_eq in Hlt. subst lt.
  cbn [parse_content span]. rewrite lt_not_space.
  cbn [closes Ascii.eqb Bool.eqb andb]. rewrite Hslash.
  now rewrite append_nil_r.
Qed.

(** [append_run] is an append: decoding an empty run gives no text. *)
Lemma append_run_app (text run : string) :
  append_run text run = text ++ decode_text run.
Proof.
  unfold append_run. destruct run; cbn [is_empty]; [|reflexivity].
  now rewrite append_nil_r.
Qed.

Lemma gathered_text (segs : list segment) :
  forall text run,
    append_run (fst (gathered text run segs)) (snd (gathered text run segs))
    = text ++ concat_all (map decode_text (run :: map segment_run segs)).
Proof.
  induction segs as [|g segs IH]; intros text run; cbn [gathered map concat_all fst snd].
  - rewrite append_run_app. now rewrite append_nil_r.
  - rewrite IH. cbn [map concat_all]. rewrite append_run_app.
    now rewrite append_assoc.
Qed.

Lemma content_source_length (g : segment) (segs : list segment) :
  String.length (content_source (g :: segs))
  = (String.length (segment_source g) + String.length (segment_run g)
     + String.length (content_source segs))%nat.
Proof. cbn [content_source]. rewrite !length_append. lia. Qed.

(** The content loop over a run and the segments after it, up to the
    closing tag. *)
Lemma parse_content_segments (segs : list segment) :
  Forall (fun g => element_source (segment_source g) (segment_node g)
                   /\ is_run (segment_run g) = true) segs ->
  forall r text kids run fuel tail,
    is_run r = true -> closes tail = true ->
    (2 * (String.length r + String.length (content_source segs)) + 1 <= fuel)%nat ->
    parse_content fuel text kids run (r ++ content_source segs ++ tail)
    = Ok (fst (gathered text (run ++ r) segs),
          (kids ++ map segment_node segs)%list,
          snd (gathered text (run ++ r) segs), tail).
Proof.
  induction 1 as [|g segs [[Hhead Hparse] Hrun] _ IH];
    intros r text kids run fuel tail Hr Htail Hfuel.
  - cbn [content_source gathered map fst snd append] in *. rewrite app_nil_r.
    replace fuel with (String.length r + (fuel - String.length r))%nat by lia.
    apply parse_content_run; [exact Hr|].
    destruct (fuel - String.length r)%nat as [|f] eqn:E; [lia|].
    now apply parse_content_closing.
  - rewrite content_source_length in Hfuel.
    cbn [content_source gathered map].
    replace fuel with (String.length r + (fuel - String.length r))%nat by lia.
    apply parse_content_run; [exact Hr|].
    destruct (fuel - String.length r)%nat as [|f] eqn:E; [lia|].
    destruct Hhead as (c & rest & Hsrc & Hc).
    assert (Hlen : (2 <= String.length (segment_source g))%nat)
      by (rewrite Hsrc; cbn [String.length]; lia).
    rewrite !append_assoc.
    specialize (Hparse f (segment_run g ++ content_source segs ++ tail)).
    rewrite Hsrc in Hparse |- *. cbn [append] in Hparse |- *.
    cbn [parse_content span]. rewrite lt_not_space.
    cbn [closes Ascii.eqb Bool.eqb andb]. rewrite Hc.
    rewrite Hparse by (rewrite <- Hsrc; lia). cbn [bind].
    rewrite append_nil_r.
    rewrite (IH (segment_run g) (append_run text (run ++ r)) (kids ++ [segment_node g])%list
               EmptyString f tail Hrun Htail) by lia.
    cbn [append]. now rewrite <- app_assoc.
Qed.

Lemma isname_not_gt (c : ascii) : isname c = true -> Ascii.eqb c ">" = false.
Proof. each_char c; intros H; try discriminate H; reflexivity. Qed.

Lemma isname_not_mark (c : ascii) :
  isname c = true -> Ascii.eqb c "?" || Ascii.eqb c "!" = false.
Proof. each_char c; intros H; try discriminate H; reflexivity. Qed.

Lemma all_isname_no_gt (tag : string) :
  all isname tag = true -> all (fun c => negb (Ascii.eqb c ">")) tag = true.
Proof.
  induction tag as [|c tag IH]; cbn [all]; [reflexivity|].
  intros H. apply andb_true_iff in H as [Hc Ht].
  now rewrite (isname_not_gt c Hc), IH.
Qed.

(** [parse_node] on an element without attributes whose content is a run
    and segments. *)
Lemma parse_node_element (tag r : string) (segs : list segment) :
  all isname tag = true -> is_run r = true ->
  Forall (fun g => element_source (segment_source g) (segment_node g)
                   /\ is_run (segment_run g) = true) segs ->
  forall fuel rest,
    (2 * String.length (element tag (r ++ content_source segs)) <= fuel)%nat ->
    parse_node fuel (element tag (r ++ content_source segs) ++ rest)
    = Ok (mkNode tag (concat_all (map decode_text (r :: map segment_run segs)))
                 [] (map segment_node segs),
          rest).
Proof.
  intros Htag Hr Hsegs fuel rest Hfuel.
  unfold element in *. cbn [append] in Hfuel |- *.
  repeat (rewrite length_append in Hfuel || cbn [String.length append] in Hfuel).
  destruct fuel as [|f]; [lia|].
  cbn [parse_node]. rewrite skip_ws_stops by reflexivity.
  change (Ascii.eqb "<" "<") with true. cbv iota.
  rewrite !append_assoc. cbn [append].
  rewrite (span_all isname tag) by (cbn [stops]; auto).
  rewrite skip_ws_stops by reflexivity.
  destruct f as [|f]; [lia|].
  cbn [parse_attributes]. change (Ascii.eqb ">" ">" || Ascii.eqb ">" "/") with true.
  cbv iota. cbn [bind].
  change (Ascii.eqb ">" "/") with false. change (Ascii.eqb ">" ">") with true. cbv iota.
  pose proof (parse_content_segments segs Hsegs r EmptyString [] EmptyString (S f)
                (String "<" (String "/" (tag ++ String ">" rest))) Hr eq_refl) as Hc.
  cbn [append] in Hc. repeat (rewrite append_assoc; cbn [append]).
  rewrite Hc by lia. cbn [bind app].
  unfold parse_closing. cbn [closes advance].
  change (Ascii.eqb "<" "<" && Ascii.eqb "/" "/") with true. cbv iota.
  rewrite (span_all _ tag (String ">" rest)) by (auto using all_isname_no_gt).
  cbn [name]. rewrite String.eqb_refl. cbn [advance].
  rewrite gathered_text. reflexivity.
Qed.

(** C7.  An element whose content is a text run, then children each
    followed by a text run, parses to a node whose children are the
    children in order and whose text is the concatenation, in order, of
    the decoded runs: the first run, then the run after each child.  The
    node keeps no trace of where the children stood among the runs: the
    same runs around the same children, placed differently, give the same
    node.  The element so parsed is again the source of a child
    element. *)
Theorem text_runs_are_concatenated_in_order :
  forall (tag r : string) (segs : list segment),
    all isname tag = true -> is_run r = true ->
    Forall (fun g => element_source (segment_source g) (segment_node g)
                     /\ is_run (segment_run g) = true) segs ->
    parse (element tag (r ++ content_source segs))
    = Ok (mkNode tag (concat_all (map decode_text (r :: map segment_run segs)))
                 [] (map segment_node segs))
    /\ (tag <> EmptyString ->
        element_source (element tag (r ++ content_source segs))
          (mkNode tag (concat_all (map decode_text (r :: map segment_run segs)))
                  [] (map segment_node segs)))
    /\ (parse "<a>x<b/>y</a>" = Ok (mkNode "a" "xy" [] [node "b"])
        /\ parse "<a><b/>xy</a>" = Ok (mkNode "a" "xy" [] [node "b"])
        /\ parse "<a>xy<b/></a>" = Ok (mkNode "a" "xy" [] [node "b"])).
Proof.
  intros tag r segs Htag Hr Hsegs.
  pose proof (parse_node_element tag r segs Htag Hr Hsegs) as Hnode.
  split; [|split].
  - unfold parse.
    set (src := element tag (r ++ content_source segs)) in *.
    assert (Hprolog : skip_ws_and_prolog (S (String.length src)) src = Ok src).
    { subst src. unfold element. cbn [append skip_ws_and_prolog].
      rewrite skip_ws_stops by reflexivity.
      destruct tag as [|c tag]; cbn [append]; [reflexivity|].
      cbn [all] in Htag. apply andb_true_iff in Htag as [Hc _].
      now rewrite (isname_not_mark c Hc). }
    rewrite Hprolog. cbn [bind].
    specialize (Hnode (2 * String.length src + 2)%nat EmptyString).
    rewrite append_nil_r in Hnode. rewrite Hnode by lia. reflexivity.
  - intros Hne. split; [|exact Hnode].
    unfold element. destruct tag as [|c tag]; [contradiction|].
    cbn [append]. exists c, (tag ++ ">" ++ (r ++ content_source segs) ++ "</" ++ String c tag ++ ">").
    split; [reflexivity|].
    cbn [all] in Htag. apply andb_true_iff in Htag as [Hc _].
    revert Hc. clear. each_char c; intros H; try discriminate H; reflexivity.
  - repeat split.
Qed.

(** C7 at the element [p] with content [a &amp; b], child [<i/>], run
    [ c ], child [<q>t</q>] and no last run; the second child is itself
    obtained from the theorem. *)
Lemma text_runs_witness :
  parse "<p>a &amp; b<i/> c <q>t</q></p>"
  = Ok (mkNode "p" "a & b c " [] [node "i"; node_text "q" "t"]).
Proof.
  assert (Hi : element_source "<i/>" (node "i")).
  { split; [exists "i"%char, "/>"; split; reflexivity|].
    intros [|[|f]] rest H; cbn [String.length] in H; try lia. reflexivity. }
  assert (Hq : element_source "<q>t</q>" (node_text "q" "t")).
  { apply (text_runs_are_concatenated_in_order "q" "t" []);
      [reflexivity | reflexivity | constructor | discriminate]. }
  apply (text_runs_are_concatenated_in_order "p" "a &amp; b"
           [("<i/>", node "i", " c "); ("<q>t</q>", node_text "q" "t", EmptyString)]);
    [reflexivity | reflexivity |].
  apply Forall_cons; [split; [exact Hi | reflexivity]|].
  apply Forall_cons; [split; [exact Hq | reflexivity]|].
  apply Forall_nil.
Defined.

End XmlContent.

(** ** The order of [std::map] *)

Module MapOrder.
Import StdMap.

Lemma ascii_compare_refl (c : ascii) : Ascii.compare c c = Eq.
Proof. unfold Ascii.compare. apply N.compare_refl. Qed.

Lemma ascii_compare_lt_trans (a b c : ascii) :
  Ascii.compare a b = Lt -> Ascii.compare b c = Lt -> Ascii.compare a c = Lt.
Proof.
  unfold Ascii.compare. rewrite !N.compare_lt_iff. apply N.lt_trans.
Qed.

Lemma compare_refl (s : string) : String.compare s s = Eq.
Proof.
  induction s as [|c s IH]; cbn [String.compare]; [reflexivity|].
  now rewrite ascii_compare_refl.
Qed.

Lemma compare_gt_lt (a b : string) : String.compare a b = Gt -> String.compare b a = Lt.
Proof.
  intros H. rewrite String.compare_antisym, H. reflexivity.
Qed.

Lemma key_lt_trans (a b c : string) : key_lt a b -> key_lt b c -> key_lt a c.
Proof.
  unfold key_lt. revert b c.
  induction a as [|x a IH]; intros [|y b] [|z c]; cbn [String.compare];
    try discriminate; try reflexivity.
  destruct (Ascii.compare x y) eqn:Exy; try discriminate;
    destruct (Ascii.compare y z) eqn:Eyz; try discriminate; intros H1 H2.
  - apply Ascii.compare_eq_iff in Exy, Eyz. subst y z.
    rewrite ascii_compare_refl. now apply (IH b c).
  - apply Ascii.compare_eq_iff in Exy. subst y. now rewrite Eyz.
  - apply Ascii.compare_eq_iff in Eyz. subst z. now rewrite Exy.
  - now rewrite (ascii_compare_lt_trans x y z).
Qed.

Lemma key_lt_irrefl (a : string) : ~ key_lt a a.
Proof. unfold key_lt. now rewrite compare_refl. Qed.

Lemma sorted_cons_iff {V : Type} (k : string) (v : V) (m : t V) :
  sorted ((k, v) :: m) <-> above k m /\ sorted m.
Proof.
  split.
  - intros H. inversion H; subst; cbn [above]; split; auto; constructor.
  - intros [Ha Hs]. destruct m as [|[k' v'] m]; [constructor|].
    now constructor.
Qed.

Lemma assign_above {V : Type} (k0 k : string) (v : V) (m : t V) :
  above k0 m -> key_lt k0 k -> above k0 (assign k v m).
Proof.
  destruct m as [|[k' v'] m]; cbn [assign above]; intros Ha Hk; [exact Hk|].
  destruct (String.compare k k'); cbn [above]; assumption.
Qed.

(** [m[k] = v] keeps the keys increasing. *)
Lemma assign_sorted {V : Type} (k : string) (v : V) (m : t V) :
  sorted m -> sorted (assign k v m).
Proof.
  induction m as [|[k' v'] m IH]; cbn [assign]; intros Hs; [constructor|].
  apply sorted_cons_iff in Hs as [Ha Hs].
  destruct (String.compare k k') eqn:E.
  - apply String.compare_eq_iff in E. subst k'. now apply sorted_cons_iff.
  - apply sorted_cons_iff. split; [exact E|]. now apply sorted_cons_iff.
  - apply sorted_cons_iff. split; [|now apply IH].
    apply assign_above; [exact Ha | now apply compare_gt_lt].
Qed.

Lemma erase_above {V : Type} (k0 k : string) (m : t V) :
  sorted m -> above k0 m -> above k0 (erase k m).
Proof.
  destruct m as [|[k' v'] m]; cbn [erase above]; intros Hs Ha; [exact I|].
  destruct (String.compare k k'); cbn [above]; try assumption.
  apply sorted_cons_iff in Hs as [Ha' _].
  destruct m as [|[k'' v''] m]; cbn [above] in *; [exact I|].
  now apply (key_lt_trans k0 k' k'').
Qed.

(** [m.erase(k)] keeps the keys increasing. *)
Lemma erase_sorted {V : Type} (k : string) (m : t V) :
  sorted m -> sorted (erase k m).
Proof.
  induction m as [|[k' v'] m IH]; cbn [erase]; intros Hs; [constructor|].
  pose proof Hs as Hs0. apply sorted_cons_iff in Hs as [Ha Hs].
  destruct (String.compare k k') eqn:E; try assumption.
  apply sorted_cons_iff. split; [|now apply IH].
  now apply erase_above.
Qed.

Lemma subscript_sorted {V : Type} (dflt : V) (k : string) (m : t V) :
  sorted m -> sorted (fst (subscript dflt k m)).
Proof.
  intros Hs. unfold subscript. destruct (find k m); cbn [fst]; [exact Hs|].
  now apply assign_sorted.
Qed.

Lemma fold_assign_sorted {V : Type} (l : list (string * V)) :
  forall m, sorted m -> sorted (fold_left (fun acc kv => assign (fst kv) (snd kv) acc) l m).
Proof.
  induction l as [|kv l IH]; intros m Hs; cbn [fold_left]; [exact Hs|].
  apply IH. now apply assign_sorted.
Qed.

Lemma above_trans {V : Type} (k k' : string) (m : t V) :
  key_lt k k' -> above k' m -> above k m.
Proof.
  destruct m as [|[k'' v''] m]; cbn [above]; [auto|].
  intros. now apply (key_lt_trans k k' k'').
Qed.

Lemma above_all {V : Type} (m : t V) :
  forall k, sorted m -> above k m -> Forall (key_lt k) (keys m).
Proof.
  unfold keys.
  induction m as [|[k' v'] m IH]; intros k Hs Ha; cbn [map fst]; [constructor|].
  apply sorted_cons_iff in Hs as [Ha' Hs]. cbn [above] in Ha.
  constructor; [exact Ha|]. apply IH; [exact Hs|].
  now apply (above_trans k k').
Qed.

(** A sorted map lists its keys in strictly increasing order. *)
Lemma sorted_keys_increasing {V : Type} (m : t V) :
  sorted m -> increasing (keys m).
Proof.
  unfold increasing.
  induction m as [|[k v] m IH]; intros Hs; [constructor|].
  apply sorted_cons_iff in Hs as [Ha Hs].
  change (keys ((k, v) :: m)) with (k :: keys m).
  constructor; [now apply IH | now apply above_all].
Qed.

End MapOrder.

(** ** JSON objects keep their keys sorted *)

Module JsonOrder.
Import EJson.
Import MapOrder.

(** Induction over a value with the hypothesis for each element and each
    entry. *)
Lemma JSON_induction (P : JSON -> Prop) :
  P JNull -> (forall b, P (JBool b)) -> (forall d, P (JNumber d)) ->
  (forall s, P (JString s)) ->
  (forall arr, Forall P arr -> P (JArray arr)) ->
  (forall obj, Forall (fun kv => P (snd kv)) obj -> P (JObject obj)) ->
  forall j, P j.
Proof.
  intros Hnull Hbool Hnum Hstr Harr Hobj.
  fix IH 1.
  intros [| b | d | s | arr | obj];
    [exact Hnull | apply Hbool | apply Hnum | apply Hstr | | ].
  - apply Harr. induction arr as [|x arr IHa]; constructor; [apply IH | exact IHa].
  - apply Hobj. induction obj as [|[k v] obj IHo]; constructor; [apply IH | exact IHo].
Qed.

Lemma wf_array_iff (arr : list JSON) : wf (JArray arr) <-> Forall wf arr.
Proof. split; [now inversion 1 | now constructor]. Qed.

Lemma wf_object_iff (obj : StdMap.t JSON) :
  wf (JObject obj) <-> StdMap.sorted obj /\ Forall (fun kv => wf (snd kv)) obj.
Proof. split; [now inversion 1 | intros []; now constructor]. Qed.

Lemma assign_values (k : string) (v : JSON) (m : StdMap.t JSON) :
  wf v -> Forall (fun kv => wf (snd kv)) m ->
  Forall (fun kv => wf (snd kv)) (StdMap.assign k v m).
Proof.
  intros Hv. induction m as [|[k' v'] m IH]; cbn [StdMap.assign]; intros Hm.
  - now constructor.
  - inversion Hm as [|? ? Hv' Hm']; subst.
    destruct (String.compare k k'); constructor; auto.
Qed.

Lemma erase_values (k : string) (m : StdMap.t JSON) :
  Forall (fun kv => wf (snd kv)) m ->
  Forall (fun kv => wf (snd kv)) (StdMap.erase k m).
Proof.
  induction m as [|[k' v'] m IH]; cbn [StdMap.erase]; intros Hm; [constructor|].
  inversion Hm as [|? ? Hv' Hm']; subst.
  destruct (String.compare k k'); auto.
Qed.

Lemma find_value (k : string) (m : StdMap.t JSON) (v : JSON) :
  Forall (fun kv => wf (snd kv)) m -> StdMap.find k m = Some v -> wf v.
Proof.
  induction m as [|[k' v'] m IH]; cbn [StdMap.find]; intros Hm H; [discriminate|].
  inversion Hm as [|? ? Hv' Hm']; subst.
  destruct (String.compare k k'); try discriminate.
  - injection H as <-. exact Hv'.
  - now apply IH.
Qed.

Lemma assign_wf (k : string) (v : JSON) (obj : StdMap.t JSON) :
  wf v -> wf (JObject obj) -> wf (JObject (StdMap.assign k v obj)).
Proof.
  intros Hv Ho. apply wf_object_iff in Ho as [Hs Hm]. apply wf_object_iff.
  split; [now apply assign_sorted | now apply assign_values].
Qed.

Lemma fold_assign_wf (l : list (string * JSON)) :
  Forall (fun kv => wf (snd kv)) l ->
  forall obj, wf (JObject obj) ->
    wf (JObject (fold_left (fun acc kv => StdMap.assign (fst kv) (snd kv) acc) l obj)).
Proof.
  induction 1 as [|kv l Hkv _ IH]; intros obj Ho; cbn [fold_left]; [exact Ho|].
  apply IH. now apply assign_wf.
Qed.

Lemma subscript_wf (k : string) (obj : StdMap.t JSON) :
  wf (JObject obj) ->
  wf (JObject (fst (StdMap.subscript JNull k obj)))
  /\ wf (snd (StdMap.subscript JNull k obj)).
Proof.
  intros Ho. unfold StdMap.subscript.
  destruct (StdMap.find k obj) as [v|] eqn:E; cbn [fst snd].
  - split; [exact Ho|]. apply wf_object_iff in Ho as [_ Hm]. now apply (find_value k obj).
  - split; [|constructor]. apply assign_wf; [constructor | exact Ho].
Qed.

Lemma store_wf (i : nat) (v : JSON) (arr : list JSON) :
  wf v -> Forall wf arr -> Forall wf (store i v arr).
Proof.
  intros Hv Ha. revert i. induction Ha as [|x arr Hx Ha IH]; intros i; cbn [store].
  - constructor.
  - destruct i; constructor; auto.
Qed.

Lemma resize_wf (n : nat) (arr : list JSON) : Forall wf arr -> Forall wf (resize n arr).
Proof.
  intros Ha. unfold resize. apply Forall_app. split; [exact Ha|].
  apply Forall_forall. intros x Hx. apply repeat_spec in Hx. subst x. constructor.
Qed.

Lemma nth_wf (i : nat) (arr : list JSON) : Forall wf arr -> wf (nth i arr JNull).
Proof.
  intros Ha. destruct (nth_in_or_default i arr JNull) as [Hin | ->]; [|constructor].
  rewrite Forall_forall in Ha. now apply Ha.
Qed.

Lemma vivify_object_wf (j : JSON) : wf j -> wf (if is_null j then JObject [] else j).
Proof. intros H. destruct j; cbn [is_null]; auto. repeat constructor. Qed.

Lemma vivify_array_wf (j : JSON) : wf j -> wf (if is_null j then JArray [] else j).
Proof. intros H. destruct j; cbn [is_null]; auto. repeat constructor. Qed.

(** The walk of [set_path] keeps every map sorted, also when it throws. *)
Lemma set_parts_wf (parts : list path_part) (val : JSON) :
  wf val -> forall current, wf current -> wf (fst (set_parts parts val current)).
Proof.
  intros Hval. induction parts as [|[key index] parts IH]; intros current Hc;
    cbn [set_parts fst]; [exact Hc|].
  destruct (index =? -1).
  - pose proof (vivify_object_wf current Hc) as Hv.
    destruct (if is_null current then JObject [] else current) as [| | | | |obj];
      try exact Hv.
    destruct parts as [|p parts]; [cbn [fst]; now apply assign_wf|].
    destruct (subscript_wf key obj Hv) as [Ho Hchild].
    destruct (StdMap.subscript JNull key obj) as [obj' child]. cbn [fst snd] in *.
    specialize (IH child Hchild).
    destruct (set_parts (p :: parts) val child) as [child' e]. cbn [fst] in *.
    now apply assign_wf.
  - pose proof (vivify_array_wf current Hc) as Hv.
    destruct (if is_null current then JArray [] else current) as [| | | |arr|];
      try exact Hv.
    apply wf_array_iff in Hv.
    set (i := Z.to_nat index).
    assert (Ha : Forall wf (if (List.length arr <=? i)%nat then resize (S i) arr else arr))
      by (destruct (List.length arr <=? i)%nat; [now apply resize_wf | exact Hv]).
    destruct parts as [|p parts]; [cbn [fst]; apply wf_array_iff; now apply store_wf|].
    specialize (IH _ (nth_wf i _ Ha)).
    destruct (set_parts (p :: parts) val _) as [child' e]. cbn [fst] in *.
    apply wf_array_iff. now apply store_wf.
Qed.

Lemma set_path_wf (path : string) (val j : JSON) :
  wf val -> wf j -> wf (fst (set_path path val j)).
Proof.
  intros Hv Hj. unfold set_path.
  destruct (path_parts (String.length path) path); [now apply set_parts_wf | exact Hj].
Qed.

Lemma settle_wf (r : result JSON) (j : JSON) :
  (forall j', r = Ok j' -> wf j') -> wf j -> wf (fst (settle r j)).
Proof. intros Hr Hj. destruct r; cbn [settle fst]; auto. Qed.

Lemma Forall_removelast (P : JSON -> Prop) (l : list JSON) :
  Forall P l -> Forall P (removelast l).
Proof.
  induction 1 as [|x l Hx Hl IH]; cbn [removelast]; [constructor|].
  destruct l; [constructor | now constructor].
Qed.

Lemma Forall_firstn (P : JSON -> Prop) (n : nat) (l : list JSON) :
  Forall P l -> Forall P (firstn n l).
Proof.
  intros Hl. revert n. induction Hl as [|x l Hx Hl IH]; intros [|n]; cbn [firstn];
    constructor; auto.
Qed.

Lemma Forall_skipn (P : JSON -> Prop) (n : nat) (l : list JSON) :
  Forall P l -> Forall P (skipn n l).
Proof.
  intros Hl. revert n. induction Hl as [|x l Hx Hl IH]; intros [|n]; cbn [skipn];
    auto.
Qed.

(** Every mutation keeps every map sorted, also when it throws. *)
Lemma mutate_wf (m : mutation) :
  mutation_wf m -> forall j, wf j -> wf (fst (mutate m j)).
Proof.
  induction m as [ | v | key m IH | idx m IH | item | item | | index item | index
                   | key | | other | path val ];
    cbn [mutation_wf mutate]; intros Hm j Hj.
  - exact Hj.
  - exact Hm.
  - unfold subscript_key. pose proof (vivify_object_wf j Hj) as Hv.
    destruct (if is_null j then JObject [] else j) as [| | | | |obj]; try exact Hj.
    destruct (subscript_wf key obj Hv) as [Ho Hchild].
    destruct (StdMap.subscript JNull key obj) as [obj' child]. cbn [fst snd] in *.
    specialize (IH Hm child Hchild).
    destruct (mutate m child) as [child' e]. cbn [fst] in *. now apply assign_wf.
  - unfold subscript_index. pose proof (vivify_array_wf j Hj) as Hv.
    destruct (if is_null j then JArray [] else j) as [| | | |arr|]; try exact Hj.
    apply wf_array_iff in Hv.
    assert (Ha : Forall wf (if (List.length arr <=? idx)%nat then resize (S idx) arr else arr))
      by (destruct (List.length arr <=? idx)%nat; [now apply resize_wf | exact Hv]).
    specialize (IH Hm _ (nth_wf idx _ Ha)).
    destruct (mutate m _) as [child' e]. cbn [fst] in *.
    apply wf_array_iff. now apply store_wf.
  - apply settle_wf; [|exact Hj]. unfold push_back. intros j' H.
    pose proof (vivify_array_wf j Hj) as Hv.
    destruct (if is_null j then JArray [] else j); try discriminate H.
    injection H as <-. apply wf_array_iff in Hv. apply wf_array_iff.
    apply Forall_app. split; [exact Hv | now constructor].
  - apply settle_wf; [|exact Hj]. unfold push_front. intros j' H.
    pose proof (vivify_array_wf j Hj) as Hv.
    destruct (if is_null j then JArray [] else j); try discriminate H.
    injection H as <-. apply wf_array_iff in Hv. apply wf_array_iff. now constructor.
  - apply settle_wf; [|exact Hj]. unfold pop_back. intros j' H.
    destruct j as [| | | |arr|]; try discriminate H.
    destruct arr as [|x arr]; [discriminate H|]. injection H as <-.
    apply wf_array_iff in Hj. apply wf_array_iff.
    exact (Forall_removelast wf (x :: arr) Hj).
  - apply settle_wf; [|exact Hj]. unfold insert. intros j' H.
    destruct j as [| | | |arr|]; try discriminate H.
    destruct (List.length arr <? index)%nat; [discriminate H|]. injection H as <-.
    apply wf_array_iff in Hj. apply wf_array_iff. apply Forall_app. split.
    + now apply Forall_firstn.
    + constructor; [exact Hm | now apply Forall_skipn].
  - apply settle_wf; [|exact Hj]. unfold erase_index. intros j' H.
    destruct j as [| | | |arr|]; try discriminate H.
    destruct (List.length arr <=? index)%nat; [discriminate H|]. injection H as <-.
    apply wf_array_iff in Hj. apply wf_array_iff. apply Forall_app. split.
    + now apply Forall_firstn.
    + exact (Forall_skipn wf (S index) arr Hj).
  - apply settle_wf; [|exact Hj]. unfold erase_key. intros j' H.
    destruct j as [| | | | |obj]; try discriminate H. injection H as <-.
    apply wf_object_iff in Hj as [Hs Hv]. apply wf_object_iff.
    split; [now apply erase_sorted | now apply erase_values].
  - cbn [fst]. destruct j; cbn [clear]; repeat constructor.
  - apply settle_wf; [|exact Hj]. unfold merge. intros j' H.
    destruct j as [| | | | |obj]; try discriminate H.
    destruct other as [| | | | |other_obj]; try discriminate H. injection H as <-.
    apply wf_object_iff in Hm as [_ Hvals]. now apply fold_assign_wf.
  - now apply set_path_wf.
Qed.

Lemma run_wf (ms : list mutation) :
  Forall mutation_wf ms -> forall j, wf j -> wf (run ms j).
Proof.
  unfold run. induction 1 as [|m ms Hm _ IH]; intros j Hj; cbn [fold_left]; [exact Hj|].
  apply IH. now apply mutate_wf.
Qed.

Lemma object_wf (list : list (string * JSON)) :
  Forall (fun kv => wf (snd kv)) list -> wf (object list).
Proof.
  intros H. unfold object. apply fold_assign_wf; [exact H|]. repeat constructor.
Qed.

Section Platform.
Variable char_signed : bool.

(** What the loops of [parse_array] and [parse_object] return is sorted
    when what [value] returns is. *)
Lemma parse_array_loop_wf (value : string -> result (JSON * string)) :
  (forall s v rest, value s = Ok (v, rest) -> wf v) ->
  forall fuel arr s v rest,
    Forall wf arr -> parse_array_loop value fuel arr s = Ok (v, rest) -> wf v.
Proof.
  intros Hvalue. induction fuel as [|f IH]; intros arr s v rest Ha H;
    cbn [parse_array_loop] in H; [discriminate H|].
  destruct (value s) as [[el s1]|e] eqn:Ev; [|discriminate H]. cbn [bind] in H.
  assert (Ha' : Forall wf (arr ++ [el]))
    by (apply Forall_app; split; [exact Ha | constructor; [now apply (Hvalue s el s1) | constructor]]).
  destruct (skip_ws s1) as [|c s2]; [discriminate H|].
  destruct (Ascii.eqb c ","); [now apply (IH _ _ _ _ Ha' H)|].
  destruct (Ascii.eqb c "]"); [|discriminate H].
  injection H as <- <-. now apply wf_array_iff.
Qed.

Lemma parse_object_loop_wf (value : string -> result (JSON * string)) :
  (forall s v rest, value s = Ok (v, rest) -> wf v) ->
  forall fuel obj s v rest,
    wf (JObject obj) -> parse_object_loop char_signed value fuel obj s = Ok (v, rest) -> wf v.
Proof.
  intros Hvalue. induction fuel as [|f IH]; intros obj s v rest Ho H;
    cbn [parse_object_loop] in H; [discriminate H|].
  cbv zeta in H.
  destruct (starts dquote (skip_ws s)); [|discriminate H].
  destruct (parse_string char_signed (skip_ws s)) as [[key s1]|e]; [|discriminate H].
  cbn [bind] in H.
  destruct (starts ":" (skip_ws s1)); [|discriminate H].
  destruct (value (advance (skip_ws s1))) as [[val s3]|e] eqn:Ev; [|discriminate H].
  cbn [bind] in H.
  assert (Ho' : wf (JObject match key with
                            | JString k => StdMap.assign k val obj
                            | _ => obj
                            end)).
  { destruct key; try exact Ho. apply assign_wf; [exact (Hvalue _ val s3 Ev) | exact Ho]. }
  destruct (skip_ws s3) as [|c s4]; [discriminate H|].
  destruct (Ascii.eqb c ","); [now apply (IH _ _ _ _ Ho' H)|].
  destruct (Ascii.eqb c "}"); [|discriminate H].
  injection H as <- <-. exact Ho'.
Qed.

(** Whatever [parse_value] returns has its maps sorted. *)
Lemma parse_value_wf (fuel : nat) :
  forall s v rest, parse_value char_signed fuel s = Ok (v, rest) -> wf v.
Proof.
  induction fuel as [|f IH]; intros s v rest H; cbn [parse_value] in H; [discriminate H|].
  destruct (skip_ws s) as [|c s0] eqn:Es; [discriminate H|].
  destruct (Ascii.eqb c "n").
  { unfold parse_null in H. destruct (starts_with "null" _); [|discriminate H].
    injection H as <- <-. constructor. }
  destruct (Ascii.eqb c "t" || Ascii.eqb c "f").
  { unfold parse_bool in H. destruct (starts_with "true" _).
    - injection H as <- <-. constructor.
    - destruct (starts_with "false" _); [|discriminate H]. injection H as <- <-. constructor. }
  destruct (Ascii.eqb c dquote).
  { unfold parse_string in H. destruct (Ascii.eqb c dquote); [|discriminate H].
    destruct (parse_string_loop _ _ _) as [[res r]|e]; [|discriminate H].
    cbn [bind] in H. injection H as <- <-. constructor. }
  destruct (Ascii.eqb c "[").
  { unfold parse_array in H. cbv zeta in H.
    destruct (starts "[" (String c s0)); [|discriminate H].
    destruct (starts "]" _).
    - injection H as <- <-. repeat constructor.
    - eapply (parse_array_loop_wf _ IH f []); [constructor | exact H]. }
  destruct (Ascii.eqb c "{").
  { unfold parse_object in H. cbv zeta in H.
    destruct (starts "{" (String c s0)); [|discriminate H].
    destruct (starts "}" _).
    - injection H as <- <-. repeat constructor.
    - eapply (parse_object_loop_wf _ IH f []); [repeat constructor | exact H]. }
  destruct (Ascii.eqb c "-" || isdigit c); [|discriminate H].
  unfold parse_number in H.
  destruct (number_lexeme _) as [[lexeme r]|e]; [|discriminate H]. cbn [bind] in H.
  destruct (Double.stod lexeme); [|discriminate H]. injection H as <- <-. constructor.
Qed.

Lemma parse_wf (s : string) (j : JSON) : parse char_signed s = Ok j -> wf j.
Proof.
  unfold parse.
  destruct (parse_value char_signed (S (String.length s)) s) as [[v rest]|e] eqn:Ev;
    cbn [bind].
  - destruct (skip_ws rest); intros H; [|discriminate H]. injection H as <-.
    now apply (parse_value_wf _ _ _ _ Ev).
  - destruct e; discriminate.
Qed.

End Platform.

End JsonOrder.

(** ** XML attributes keep their keys sorted *)

Module XmlOrder.
Import EXml.
Import MapOrder.

Lemma wf_iff (name text : string) (attrs : StdMap.t string) (kids : list Node) :
  wf (mkNode name text attrs kids) <-> StdMap.sorted attrs /\ Forall wf kids.
Proof. split; [now inversion 1 | intros []; now constructor]. Qed.

Lemma wf_parts (n : Node) : wf n <-> StdMap.sorted (attributes n) /\ Forall wf (child_nodes n).
Proof. destruct n. apply wf_iff. Qed.

Lemma replace_wf (i : nat) (c : Node) (l : list Node) :
  wf c -> Forall wf l -> Forall wf (replace i c l).
Proof.
  intros Hc Hl. revert i. induction Hl as [|x l Hx Hl IH]; intros i; cbn [replace].
  - constructor.
  - destruct i; constructor; auto.
Qed.

Lemma node_nth_wf (i : nat) (l : list Node) : Forall wf l -> wf (nth i l (node EmptyString)).
Proof.
  intros Hl. destruct (nth_in_or_default i l (node EmptyString)) as [Hin | ->].
  - rewrite Forall_forall in Hl. now apply Hl.
  - repeat constructor.
Qed.

Lemma node_subscript_wf (k : string) (n : Node) : wf n -> wf (fst (subscript k n)).
Proof.
  intros Hn. unfold subscript. destruct (first_named k (child_nodes n)); cbn [fst];
    [exact Hn|].
  apply wf_parts in Hn as [Hs Hk]. apply wf_iff. split; [exact Hs|].
  apply Forall_app. split; [exact Hk|]. repeat constructor.
Qed.

(** Every mutation keeps the attributes of every node sorted. *)
Lemma node_mutate_wf (m : mutation) :
  mutation_wf m -> forall n, wf n -> wf (mutate m n).
Proof.
  induction m as [ | key value | key | text | child | | child_name m IH];
    cbn [mutation_wf mutate]; intros Hm n Hn.
  - exact Hn.
  - apply wf_parts in Hn as [Hs Hk]. apply wf_iff. split; [now apply assign_sorted | exact Hk].
  - apply wf_parts in Hn as [Hs Hk]. apply wf_iff. split; [now apply erase_sorted | exact Hk].
  - apply wf_parts in Hn as [Hs Hk]. now apply wf_iff.
  - apply wf_parts in Hn as [Hs Hk]. apply wf_iff. split; [exact Hs|].
    apply Forall_app. split; [exact Hk | now constructor].
  - repeat constructor.
  - pose proof (node_subscript_wf child_name n Hn) as Hsub.
    destruct (subscript child_name n) as [n' i]. cbn [fst] in Hsub.
    apply wf_parts in Hsub as [Hs Hk]. apply wf_iff. split; [exact Hs|].
    apply replace_wf; [|exact Hk]. apply IH; [exact Hm | now apply node_nth_wf].
Qed.

Lemma node_run_wf (ms : list mutation) :
  Forall mutation_wf ms -> forall n, wf n -> wf (run ms n).
Proof.
  unfold run. induction 1 as [|m ms Hm _ IH]; intros n Hn; cbn [fold_left]; [exact Hn|].
  apply IH. now apply node_mutate_wf.
Qed.

Lemma parse_attributes_sorted (fuel : nat) :
  forall attrs s attrs' rest,
    StdMap.sorted attrs -> parse_attributes fuel attrs s = Ok (attrs', rest) ->
    StdMap.sorted attrs'.
Proof.
  induction fuel as [|f IH]; intros attrs [|c s] attrs' rest Hs H;
    cbn [parse_attributes] in H.
  - injection H as <- <-. exact Hs.
  - destruct (Ascii.eqb c ">" || Ascii.eqb c "/"); [|discriminate H].
    injection H as <- <-. exact Hs.
  - injection H as <- <-. exact Hs.
  - destruct (Ascii.eqb c ">" || Ascii.eqb c "/"); [injection H as <- <-; exact Hs|].
    destruct (span isattr (String c s)) as [key s1].
    destruct (skip_ws s1) as [|eq s2]; [discriminate H|].
    destruct (Ascii.eqb eq "="); [|discriminate H].
    destruct (skip_ws s2) as [|quote s3]; [discriminate H|].
    destruct (Ascii.eqb quote dquote || Ascii.eqb quote squote); [|discriminate H].
    destruct (span _ s3) as [val s4].
    apply (IH _ _ _ _ (assign_sorted key (decode_text val) attrs Hs) H).
Qed.

(** Whatever [parse_node] returns has its attributes sorted, at every
    level. *)
Lemma parse_node_wf (fuel : nat) :
  (forall s n rest, parse_node fuel s = Ok (n, rest) -> wf n)
  /\ (forall text kids run s text' kids' run' rest,
        Forall wf kids ->
        parse_content fuel text kids run s = Ok (text', kids', run', rest) ->
        Forall wf kids').
Proof.
  induction fuel as [|f [IHn IHc]]; split.
  - intros s n rest H. discriminate H.
  - intros text kids run [|c s] text' kids' run' rest Hk H; cbn [parse_content] in H;
      [|discriminate H]. injection H as <- <- <- <-. exact Hk.
  - intros s n rest H. cbn [parse_node] in H.
    destruct (skip_ws s) as [|lt s1]; [discriminate H|].
    destruct (Ascii.eqb lt "<"); [|discriminate H].
    destruct (span isname s1) as [tag s2].
    destruct (parse_attributes f [] (skip_ws s2)) as [[attrs s3]|e] eqn:Ea;
      [|discriminate H].
    apply parse_attributes_sorted in Ea; [|constructor]. cbn [bind] in H.
    destruct s3 as [|c s4]; [discriminate H|].
    destruct (Ascii.eqb c "/").
    { destruct s4 as [|gt s5]; [discriminate H|].
      destruct (Ascii.eqb gt ">"); [|discriminate H].
      injection H as <- <-. apply wf_iff. split; [exact Ea | constructor]. }
    destruct (Ascii.eqb c ">"); [|discriminate H].
    destruct (parse_content f EmptyString [] EmptyString s4)
      as [[[[text kids] run] s5]|e] eqn:Ec; [|discriminate H].
    cbn [bind] in H. apply IHc in Ec; [|constructor].
    unfold parse_closing in H. destruct (closes s5); [|discriminate H].
    destruct (span _ (advance (advance s5))) as [close_name s6].
    destruct (String.eqb close_name _); [|discriminate H].
    injection H as <- <-. apply wf_iff. now split.
  - intros text kids run [|c0 s0] text' kids' run' rest Hk H; cbn [parse_content] in H.
    { injection H as <- <- <- <-. exact Hk. }
    destruct (span isspace (String c0 s0)) as [ws s1].
    destruct s1 as [|c s2]; [injection H as <- <- <- <-; exact Hk|].
    destruct (Ascii.eqb c "<").
    + destruct (closes (String c s2)); [injection H as <- <- <- <-; exact Hk|].
      destruct (parse_node f (String c s2)) as [[child s3]|e] eqn:En; [|discriminate H].
      cbn [bind] in H. apply IHn in En.
      apply (IHc _ _ _ _ _ _ _ _ (proj2 (Forall_app _ _ _) (conj Hk (Forall_cons _ En (Forall_nil _)))) H).
    + now apply (IHc _ _ _ _ _ _ _ _ Hk H).
Qed.

Lemma document_wf (s : string) (n : Node) : parse s = Ok n -> wf n.
Proof.
  unfold parse. destruct (skip_ws_and_prolog _ s) as [s0|e]; [|discriminate].
  cbn [bind].
  destruct (parse_node _ s0) as [[root rest]|e] eqn:En; [|discriminate].
  cbn [bind]. destruct (skip_ws rest); [|discriminate].
  intros H. injection H as <-. now apply (proj1 (parse_node_wf _) _ _ _ En).
Qed.

End XmlOrder.

(** ** Keys and attributes are serialized in sorted order *)

Module SortedOutput.

Lemma concat_cons (sep x : string) (l : list string) :
  String.concat sep (x :: l) = x ++ concat_all (map (fun y => sep ++ y) l).
Proof.
  revert x. induction l as [|y l IH]; intros x.
  - cbn [String.concat map concat_all]. now rewrite append_nil_r.
  - change (String.concat sep (x :: y :: l)) with (x ++ sep ++ String.concat sep (y :: l)).
    rewrite IH. cbn [map concat_all]. now rewrite append_assoc.
Qed.

(** [dump] writes the entries of an object in the order of its map. *)
Lemma dump_object_text (char_signed pretty : bool) (indent indent_size : nat)
  (max_precision : Z) (obj : StdMap.t EJson.JSON) :
  EJson.dump char_signed pretty indent indent_size max_precision (EJson.JObject obj)
  = object_text char_signed pretty indent indent_size max_precision obj.
Proof.
  unfold object_text. cbn [EJson.dump].
  set (entry := entry_text char_signed pretty indent indent_size max_precision).
  set (members := fix members (first : bool) (l : StdMap.t EJson.JSON) {struct l} : string :=
                    match l with
                    | [] => EmptyString
                    | kv :: l' => _
                    end).
  assert (Hrest : forall l, members false l = concat_all (map (fun y => "," ++ y) (map entry l))).
  { induction l as [|kv l IH]; cbn [members map concat_all]; [reflexivity|].
    rewrite IH. subst entry. unfold entry_text.
    repeat (rewrite append_assoc; cbn [append]). reflexivity. }
  destruct obj as [|kv obj]; [reflexivity|].
  cbn [map]. rewrite concat_cons. cbn [members]. rewrite Hrest.
  subst entry. unfold entry_text.
  repeat (rewrite append_assoc; cbn [append]). reflexivity.
Qed.

(** C6.  Every JSON value reached from a value with sorted objects by any
    sequence of mutations, every value [parse] returns and every object
    built from a list of entries has its objects sorted; iterating such an
    object ([keys]) visits the keys in strictly increasing order, and
    [dump] writes its entries in that order.  Likewise every XML node
    reached by mutations or returned by [parse] has sorted attributes, and
    [dump] writes them in that order, in the open tag. *)
Theorem keys_and_attributes_are_written_in_sorted_order :
  (forall ms j, EJson.wf j -> Forall EJson.mutation_wf ms -> EJson.wf (EJson.run ms j))
  /\ (forall char_signed s j, EJson.parse char_signed s = Ok j -> EJson.wf j)
  /\ (forall entries,
        Forall (fun kv => EJson.wf (snd kv)) entries -> EJson.wf (EJson.object entries))
  /\ (forall obj, EJson.wf (EJson.JObject obj) ->
        increasing (EJson.keys (EJson.JObject obj))
        /\ EJson.keys (EJson.JObject obj) = map fst obj
        /\ forall char_signed pretty indent indent_size max_precision,
             EJson.dump char_signed pretty indent indent_size max_precision (EJson.JObject obj)
             = object_text char_signed pretty indent indent_size max_precision obj)
  /\ (forall ms n, EXml.wf n -> Forall EXml.mutation_wf ms -> EXml.wf (EXml.run ms n))
  /\ (forall s n, EXml.parse s = Ok n -> EXml.wf n)
  /\ (forall n, EXml.wf n ->
        increasing (StdMap.keys (EXml.attributes n))
        /\ forall pretty indent_level indent_size,
             exists tail,
               EXml.dump pretty indent_level indent_size n
               = (if pretty then spaces (indent_level * indent_size) else EmptyString)
                 ++ open_tag n ++ tail).
Proof.
  split; [|split; [|split; [|split; [|split; [|split]]]]].
  - intros ms j Hj Hms. now apply JsonOrder.run_wf.
  - intros cs s j. apply JsonOrder.parse_wf.
  - apply JsonOrder.object_wf.
  - intros obj Ho. apply JsonOrder.wf_object_iff in Ho as [Hs _].
    split; [now apply MapOrder.sorted_keys_increasing|].
    split; [reflexivity|]. intros. apply dump_object_text.
  - intros ms n Hn Hms. now apply XmlOrder.node_run_wf.
  - apply XmlOrder.document_wf.
  - intros n Hn. apply XmlOrder.wf_parts in Hn as [Hs _].
    split; [now apply MapOrder.sorted_keys_increasing|].
    intros pretty lvl size. unfold EXml.dump. rewrite XmlNodes.dump_recursive_render.
    cbn [append]. destruct n as [name text attrs kids]. cbn [render].
    destruct (is_empty text && negb (has_children (EXml.mkNode name text attrs kids)));
      eexists; reflexivity.
Qed.

(** C6 on the object built from the entries [b], [a], then changed by
    [set_path], an assignment through [operator[]] and [erase], and on the
    node given attributes [z], [m], [a] of which [m] is removed. *)
Lemma sorted_order_witness :
  EJson.keys
    (EJson.run [EJson.Set_path "c.d" (EJson.JBool true);
                EJson.Through_key "aa" (EJson.Assign EJson.JNull);
                EJson.Erase_key "b"]
       (EJson.object [("b", EJson.JNull); ("a", EJson.JNull)]))
  = ["a"; "aa"; "c"]
  /\ EJson.wf
       (EJson.run [EJson.Set_path "c.d" (EJson.JBool true);
                   EJson.Through_key "aa" (EJson.Assign EJson.JNull);
                   EJson.Erase_key "b"]
          (EJson.object [("b", EJson.JNull); ("a", EJson.JNull)]))
  /\ StdMap.keys
       (EXml.attributes
          (EXml.run [EXml.Set_attribute "z" "1"; EXml.Set_attribute "m" "2";
                     EXml.Set_attribute "a" "3"; EXml.Remove_attribute "m"]
             (EXml.node "n")))
     = ["a"; "z"]
  /\ EXml.wf
       (EXml.run [EXml.Set_attribute "z" "1"; EXml.Set_attribute "m" "2";
                  EXml.Set_attribute "a" "3"; EXml.Remove_attribute "m"]
          (EXml.node "n")).
Proof.
  destruct keys_and_attributes_are_written_in_sorted_order
    as (Hrun & _ & Hobject & _ & Hxrun & _ & _).
  split; [reflexivity|]. split; [|split; [reflexivity|]].
  - apply Hrun.
    + apply Hobject. repeat constructor.
    + repeat constructor.
  - apply Hxrun.
    + repeat constructor.
    + repeat constructor.
Defined.

End SortedOutput.

(** ** JSON: Numbers written as integers *)

Module Integers.
Import Double.
Import EJson.
Import NumberGrammar.

(** *** Decimal digits *)

Lemma digits_are_digits (d : Decimal.uint) : all isdigit (NilEmpty.string_of_uint d) = true.
Proof. induction d; cbn [NilEmpty.string_of_uint all]; try rewrite IHd; reflexivity. Qed.

Lemma read_digits_acc (d : Decimal.uint) :
  forall acc : positive,
    read_digits 10 (Some (Zpos acc)) (NilEmpty.string_of_uint d)
    = Some (Zpos (Pos.of_uint_acc d acc)).
Proof.
  induction d; intros acc; cbn [NilEmpty.string_of_uint read_digits Pos.of_uint_acc];
    [reflexivity| | | | | | | | | |];
    match goal with
    | |- context [digit_value ?c] =>
        let v := eval vm_compute in (digit_value c) in
        change (digit_value c) with v; cbv iota
    end;
    match goal with
    | |- context [?a <? 10] => change (a <? 10) with true; cbv iota
    end;
    rewrite <- IHd; f_equal; f_equal; lia.
Qed.

Lemma read_digits_uint (d : Decimal.uint) (p : positive) :
  Pos.of_uint d = Npos p -> Decimal.unorm d = d ->
  read_digits 10 None (NilEmpty.string_of_uint d) = Some (Zpos p).
Proof.
  intros Hv Hn.
  destruct d; cbn [Pos.of_uint] in Hv; try discriminate Hv;
    try (injection Hv as <-;
         cbn [NilEmpty.string_of_uint read_digits];
         match goal with
         | |- context [digit_value ?c] =>
             let v := eval vm_compute in (digit_value c) in
             change (digit_value c) with v; cbv iota
         end;
         match goal with
         | |- context [?a <? 10] => change (a <? 10) with true; cbv iota
         end;
         apply read_digits_acc).
  (* a leading zero *)
  exfalso. cbn [Decimal.unorm] in Hn.
  assert (Hz : forall u v, Decimal.unorm u = Decimal.D0 v -> v = Decimal.Nil).
  { clear. induction u; intros v H; cbn [Decimal.unorm] in H; try discriminate H.
    - now injection H as <-.
    - now apply IHu. }
  apply Hz in Hn. subst d. discriminate Hv.
Qed.

Lemma to_uint_unorm (p : positive) : Decimal.unorm (Pos.to_uint p) = Pos.to_uint p.
Proof.
  pose proof (DecimalPos.Unsigned.to_of (Pos.to_uint p)) as H.
  rewrite DecimalPos.Unsigned.of_to in H. symmetry. exact H.
Qed.

(** The digits of a positive number: no leading zero, and [read_digits]
    reads the number back. *)
Lemma digits_of_positive (p : positive) :
  exists c ds,
    NilEmpty.string_of_uint (Pos.to_uint p) = String c ds
    /\ isdigit c = true /\ Ascii.eqb c "0" = false /\ all isdigit ds = true
    /\ read_digits 10 None (String c ds) = Some (Zpos p).
Proof.
  pose proof (read_digits_uint (Pos.to_uint p) p (DecimalPos.Unsigned.of_to p) (to_uint_unorm p))
    as Hr.
  pose proof (digits_are_digits (Pos.to_uint p)) as Hd.
  pose proof (to_uint_unorm p) as Hn.
  pose proof (DecimalPos.Unsigned.to_uint_nonzero p) as Hnz.
  pose proof (DecimalPos.Unsigned.to_uint_nonnil p) as Hnn.
  destruct (Pos.to_uint p) as [|d|d|d|d|d|d|d|d|d|d]; [contradiction| | | | | | | | | |];
    cbn [NilEmpty.string_of_uint all] in *;
    try (eexists; eexists; split; [reflexivity|];
         split; [reflexivity|]; split; [reflexivity|]; split; [exact Hd | exact Hr]).
  exfalso. cbn [Decimal.unorm] in Hn.
  assert (Hz : forall u v, Decimal.unorm u = Decimal.D0 v -> v = Decimal.Nil).
  { clear. induction u; intros v H; cbn [Decimal.unorm] in H; try discriminate H.
    - now injection H as <-.
    - now apply IHu. }
  apply Hz in Hn. subst d. now apply Hnz.
Qed.

Lemma string_of_positive (p : positive) :
  NilZero.string_of_uint (Pos.to_uint p) = NilEmpty.string_of_uint (Pos.to_uint p).
Proof.
  pose proof (DecimalPos.Unsigned.to_uint_nonnil p) as Hnn.
  unfold NilZero.string_of_uint. destruct (Pos.to_uint p); [contradiction|..]; reflexivity.
Qed.

(** *** Rounding an integer that a double holds *)

Lemma digits2_pos_size (m : positive) : digits2_pos m = Pos.size m.
Proof. induction m; cbn; now rewrite ?IHm. Qed.

Lemma digits2_pos_shifted (k m : positive) :
  digits2_pos (Pos.iter xO m k) = (digits2_pos m + k)%positive.
Proof.
  induction k as [|k IH] using Pos.peano_ind.
  - cbn. now rewrite Pos.add_1_r.
  - rewrite Pos.iter_succ. cbn [digits2_pos]. rewrite IH. now rewrite Pos.add_succ_r.
Qed.

Lemma shifted_value (k m : positive) : Zpos (Pos.iter xO m k) = Zpos m * 2 ^ Zpos k.
Proof.
  induction k as [|k IH] using Pos.peano_ind.
  - cbn. lia.
  - rewrite Pos.iter_succ, Pos2Z.inj_succ, Z.pow_succ_r by lia.
    rewrite Pos2Z.inj_xO, IH. lia.
Qed.

Lemma iter_pos_iter {A : Type} (f : A -> A) (k : positive) :
  forall x, iter_pos f k x = Pos.iter f x k.
Proof.
  induction k as [k IH|k IH|]; intros x; cbn [iter_pos Pos.iter].
  - rewrite !IH. now rewrite !Pos.iter_swap.
  - now rewrite !IH.
  - reflexivity.
Qed.

Lemma shr_shifted (k m : positive) :
  iter_pos shr_1 k (Build_shr_record (Zpos (Pos.iter xO m k)) false false)
  = Build_shr_record (Zpos m) false false.
Proof.
  rewrite iter_pos_iter.
  induction k as [|k IH] using Pos.peano_ind.
  - reflexivity.
  - rewrite Pos.iter_succ_r. rewrite Pos.iter_succ. cbn [shr_1 orb]. exact IH.
Qed.

(** The mantissa of a binary64 value that holds an integer has all its 53
    bits: the value is not subnormal. *)
Lemma integral_is_normal (s : bool) (m : positive) (e z : Z) :
  SpecFloat.bounded prec emax m e = true ->
  integral_value (S754_finite s m e) = Some z ->
  Zpos (digits2_pos m) = prec.
Proof.
  unfold SpecFloat.bounded, canonical_mantissa, fexp, emin, prec, emax. intros Hb Hi.
  apply andb_true_iff in Hb as [Hc _]. apply Z.eqb_eq in Hc.
  destruct (Z.max_spec (Zpos (digits2_pos m) + e - 53) (3 - 1024 - 53)) as [[Hlt Hmax]|[Hle Hmax]];
    rewrite Hmax in Hc; [|lia].
  exfalso. subst e. cbn [integral_value] in Hi.
  change (0 <=? 3 - 1024 - 53) with false in Hi. cbv iota in Hi.
  destruct (Zpos m mod 2 ^ (- (3 - 1024 - 53)) =? 0) eqn:Hm; [|discriminate Hi].
  apply Z.eqb_eq in Hm.
  pose proof (Pos.size_gt m) as Hs. rewrite <- digits2_pos_size in Hs.
  assert (Hlt' : Zpos m < 2 ^ Zpos (digits2_pos m)).
  { rewrite <- Pos2Z.inj_pow. exact Hs. }
  assert (Hpow : 2 ^ Zpos (digits2_pos m) <= 2 ^ (- (3 - 1024 - 53))).
  { apply Z.pow_le_mono_r; lia. }
  rewrite Z.mod_small in Hm by lia. lia.
Qed.

(** Rounding the integer a binary64 value holds gives the value. *)
Lemma normalize_integral (s : bool) (m : positive) (e : Z) (v : positive) :
  SpecFloat.bounded prec emax m e = true ->
  integral_value (S754_finite s m e) = Some (if s then Zneg v else Zpos v) ->
  binary_round prec emax s v 0 = S754_finite s m e.
Proof.
  intros Hb Hi.
  pose proof (integral_is_normal s m e _ Hb Hi) as Hd.
  unfold SpecFloat.bounded, canonical_mantissa in Hb.
  apply andb_true_iff in Hb as [Hc He]. apply Z.eqb_eq in Hc.
  assert (Hv : if 0 <=? e then Zpos v = Zpos m * 2 ^ e
               else Zpos m = Zpos v * 2 ^ (- e)).
  { unfold integral_value in Hi. destruct (0 <=? e) eqn:E.
    - remember (Zpos m * 2 ^ e) as x. injection Hi as Hi. destruct s; lia.
    - destruct (Zpos m mod 2 ^ (- e) =? 0) eqn:Hm; [|discriminate Hi].
      apply Z.eqb_eq in Hm. remember (Zpos m / 2 ^ (- e)) as q. injection Hi as Hi.
      apply Z.leb_gt in E.
      assert (Hp : 0 < 2 ^ (- e)) by (apply Z.pow_pos_nonneg; lia).
      pose proof (Z.div_mod (Zpos m) (2 ^ (- e)) ltac:(lia)) as Hdm.
      rewrite Hm, Z.add_0_r in Hdm. rewrite Hdm at 1.
      rewrite <- Heqq. remember (2 ^ (- e)) as x.
      assert (Hq : q = Zpos v) by (destruct s; lia). rewrite Hq. apply Z.mul_comm. }
  assert (Hround : binary_round_aux prec emax s (Zpos m) e loc_Exact = S754_finite s m e).
  { unfold binary_round_aux, shr_fexp. cbn [Zdigits2 shr_record_of_loc].
    rewrite Hc, Z.sub_diag. cbn [shr shr_m loc_of_shr_record round_nearest_even Zdigits2
                                 shr_record_of_loc].
    rewrite Hc, Z.sub_diag. cbn [shr shr_m]. now rewrite He. }
  unfold binary_round.
  destruct e as [|k|k].
  - (* the mantissa is the integer *)
    change (0 <=? 0) with true in Hv. cbv iota in Hv. rewrite Z.mul_1_r in Hv.
    injection Hv as ->. rewrite Z.add_0_r in *. rewrite Hc. cbn [shl_align Z.sub Z.add Z.opp].
    exact Hround.
  - (* the integer has more than 53 bits: its low bits are zero *)
    change (0 <=? Zpos k) with true in Hv. cbv iota in Hv.
    rewrite <- shifted_value in Hv. injection Hv as ->.
    rewrite digits2_pos_shifted, Z.add_0_r.
    assert (Hf : fexp prec emax (Zpos (digits2_pos m + k)) = Zpos k)
      by (rewrite Pos2Z.inj_add; exact Hc).
    rewrite Hf. cbn [shl_align Z.sub Z.add Z.opp].
    unfold binary_round_aux, shr_fexp. cbn [Zdigits2 shr_record_of_loc].
    rewrite digits2_pos_shifted, Z.add_0_r, Hf, Z.sub_0_r. cbn [shr].
    rewrite shr_shifted. cbn [shr_m loc_of_shr_record round_nearest_even Zdigits2
                              shr_record_of_loc].
    rewrite Z.add_0_l, Hc, Z.sub_diag. cbn [shr shr_m]. now rewrite He.
  - (* the integer has fewer than 53 bits: it is shifted up *)
    change (0 <=? Zneg k) with false in Hv. cbv iota in Hv.
    change (- Zneg k) with (Zpos k) in Hv. rewrite <- shifted_value in Hv.
    injection Hv as Hv.
    assert (Hdv : Zpos (digits2_pos v) + 0 = Zpos (digits2_pos m) + Zneg k).
    { rewrite Hv, digits2_pos_shifted, Pos2Z.inj_add. lia. }
    rewrite Hdv, Hc. cbn [shl_align Z.sub Z.add Z.opp]. rewrite <- Hv. exact Hround.
Qed.

(** *** Reading the digits back *)

Lemma isdigit_not_sign (c : ascii) :
  isdigit c = true -> Ascii.eqb c "-" = false /\ Ascii.eqb c "+" = false.
Proof. each_char c; intros H; try discriminate H; split; reflexivity. Qed.

(** [parse_number] on the digits of an integer, behind its sign: the
    whole text is the number, and [std::stod] gets it. *)
Lemma number_lexeme_integer (neg : bool) (c : ascii) (ds : string) :
  isdigit c = true -> Ascii.eqb c "0" = false -> all isdigit ds = true ->
  number_lexeme ((if neg then "-" else EmptyString) ++ String c ds)
  = Ok ((if neg then "-" else EmptyString) ++ String c ds, EmptyString).
Proof.
  intros Hc Hz Hds. destruct (isdigit_not_sign c Hc) as [Hm _].
  assert (Hspan : span isdigit (String c ds) = (String c ds, EmptyString))
    by (apply span_all_nil; cbn [all]; now rewrite Hc, Hds).
  unfold number_lexeme.
  destruct neg; cbn [append starts advance]; [change (Ascii.eqb "-" "-") with true | rewrite Hm];
    cbv iota; cbn [number_integer]; rewrite Hc, Hz, Hspan; cbn [bind];
    cbn [number_fraction starts bind number_exponent append]; now rewrite append_nil_r.
Qed.

Lemma stod_integer (neg : bool) (c : ascii) (ds : string) (v m : positive) (e : Z) :
  isdigit c = true -> all isdigit ds = true ->
  read_digits 10 None (String c ds) = Some (Zpos v) ->
  binary_round prec emax neg v 0 = S754_finite neg m e ->
  Zpos (digits2_pos m) = prec ->
  stod ((if neg then "-" else EmptyString) ++ String c ds) = Ok (S754_finite neg m e).
Proof.
  intros Hc Hds Hv Hr Hd.
  assert (Hspan : span isdigit (String c ds) = (String c ds, EmptyString))
    by (apply span_all_nil; cbn [all]; now rewrite Hc, Hds).
  assert (Hbody :
    (let '(int_digits, s) := span isdigit (String c ds) in
     let '(frac_digits, s) :=
       match s with
       | String "." s' => span isdigit s'
       | _ => (EmptyString, s)
       end in
     if is_empty int_digits && is_empty frac_digits
     then Throw (invalid_argument "stod")
     else
       let exponent :=
         match s with
         | String c s' =>
             if Ascii.eqb c "e" || Ascii.eqb c "E" then
               let '(eneg, s'') :=
                 match s' with
                 | String "-" t => (true, t)
                 | String "+" t => (false, t)
                 | _ => (false, s')
                 end in
               match read_digits 10 None s'' with
               | Some v => if eneg then - v else v
               | None => 0
               end
             else 0
         | EmptyString => 0
         end in
       let m := decimal_value (int_digits ++ frac_digits) in
       let e := exponent - Z.of_nat (String.length frac_digits) in
       let d := of_decimal neg m e in
       let tiny :=
         match d with
         | S754_zero _ => negb (m =? 0)
         | _ => is_subnormal d
         end in
       match d with
       | S754_infinity _ => Throw (out_of_range "stod")
       | _ => if tiny && negb (exactly d m e) then Throw (out_of_range "stod") else Ok d
       end) = Ok (S754_finite neg m e)).
  { rewrite Hspan. cbv iota beta. cbn [is_empty andb String.length Z.of_nat Z.sub].
    rewrite append_nil_r. unfold decimal_value. rewrite Hv.
    unfold of_decimal. change (Zpos v =? 0) with false. change (0 - 0) with 0.
    change (0 <=? 0) with true. cbv iota.
    change (10 ^ 0) with 1. rewrite Z.mul_1_r.
    assert (Hn : binary_normalize prec emax (if neg then - Zpos v else Zpos v) 0 neg
                 = S754_finite neg m e) by (destruct neg; exact Hr).
    rewrite Hn. cbv zeta iota. cbn [is_subnormal]. rewrite Hd, Z.eqb_refl. reflexivity. }
  destruct neg; cbn [append].
  - exact Hbody.
  - revert Hbody. clear -Hc. each_char c; try discriminate Hc; intros Hbody; exact Hbody.
Qed.

Lemma eqb_finite_refl (s : bool) (m : positive) (e : Z) :
  Double.eqb (S754_finite s m e) (S754_finite s m e) = true.
Proof.
  unfold Double.eqb, SFeqb, SFcompare. rewrite Z.compare_refl.
  change (Pos.compare_cont Eq m m) with (Pos.compare m m). rewrite Pos.compare_refl.
  destruct s; reflexivity.
Qed.

(** A Number that [dump] writes as a [long long] is read back as itself:
    the digits are those of the integer it holds, and rounding that
    integer to a double gives the Number. *)
Lemma long_long_round_trips (num : double) :
  is_long_long num = true -> number_round_trips num = true.
Proof.
  unfold is_long_long. intros H. apply andb_true_iff in H as [Hvalid Hll].
  destruct (as_long_long num) as [z|] eqn:Ez; [|discriminate Hll]. clear Hll.
  unfold number_round_trips, dump_number. rewrite Ez.
  unfold as_long_long in Ez.
  destruct (integral_value num) as [z'|] eqn:Ei; [|discriminate Ez].
  destruct ((LLONG_MIN <=? z') && (z' <=? LLONG_MAX)); [|discriminate Ez].
  injection Ez as ->.
  destruct num as [s|s| |s m e]; try discriminate Ei.
  - injection Ei as <-. destruct s; reflexivity.
  - cbn [valid_binary] in Hvalid.
    assert (Hz : exists v : positive, z = if s then Zneg v else Zpos v).
    { unfold integral_value in Ei.
      destruct (0 <=? e) eqn:E.
      - remember (Zpos m * 2 ^ e) as x. injection Ei as Ei.
        assert (0 < x) by (subst x; apply Z.mul_pos_pos; [lia | apply Z.pow_pos_nonneg; lia]).
        destruct x as [|x|x]; try lia. exists x. destruct s; subst z; reflexivity.
      - destruct (Zpos m mod 2 ^ (- e) =? 0) eqn:Hm; [|discriminate Ei].
        apply Z.eqb_eq in Hm. remember (Zpos m / 2 ^ (- e)) as q. injection Ei as Ei.
        apply Z.leb_gt in E.
        assert (Hp : 0 < 2 ^ (- e)) by (apply Z.pow_pos_nonneg; lia).
        pose proof (Z.div_mod (Zpos m) (2 ^ (- e)) ltac:(lia)) as Hdm.
        rewrite Hm, Z.add_0_r, <- Heqq in Hdm.
        assert (0 < q) by nia.
        destruct q as [|q|q]; try lia. exists q. destruct s; subst z; reflexivity. }
    destruct Hz as [v ->].
    pose proof (normalize_integral s m e v Hvalid Ei) as Hr.
    pose proof (integral_is_normal s m e _ Hvalid Ei) as Hd.
    destruct (digits_of_positive v) as (c & ds & Hs & Hc & Hc0 & Hds & Hread).
    assert (Htext : dec_of_Z (if s then Zneg v else Zpos v)
                    = (if s then "-" else EmptyString) ++ String c ds).
    { unfold dec_of_Z. destruct s; cbn [Z.to_int NilZero.string_of_int append];
        now rewrite string_of_positive, Hs. }
    rewrite Htext. unfold parse_number.
    rewrite (number_lexeme_integer s c ds Hc Hc0 Hds). cbn [bind].
    rewrite (stod_integer s c ds v m e Hc Hds Hread Hr Hd).
    apply eqb_finite_refl.
Qed.

(** A Number of a value that survives is read back as itself. *)
Lemma printable_number (char_signed : bool) (num : double) :
  printable char_signed (JNumber num) = true -> number_round_trips num = true.
Proof.
  cbn [printable]. intros H. apply orb_true_iff in H as [H|H];
    [now apply long_long_round_trips | exact H].
Qed.

End Integers.

(** ** JSON: a compact serialization parses back *)

Module RoundTrip.
Import Double.
Import EJson.
Import NumberGrammar.
Import MapOrder.
Import JsonOrder.
Import Integers.

(** *** Strings and keys *)

Section Strings.
Variable char_signed : bool.

Lemma escape_char_read_back (c : ascii) :
  string_char_ok char_signed c = true ->
  forall res tail,
    parse_string_loop char_signed res (escape_char char_signed c ++ tail)
    = parse_string_loop char_signed (res ++ str1 c) tail.
Proof.
  destruct char_signed; each_char c; intros H res tail; try discriminate H; reflexivity.
Qed.

(** [parse_string] reads an escaped string back. *)
Lemma escape_string_read_back (s : string) :
  all (string_char_ok char_signed) s = true ->
  forall res rest,
    parse_string_loop char_signed res (escape_string char_signed s ++ String dquote rest)
    = Ok (res ++ s, rest).
Proof.
  induction s as [|c s IH]; cbn [all escape_string]; intros Hs res rest.
  - cbn [append parse_string_loop]. rewrite Ascii.eqb_refl. now rewrite append_nil_r.
  - apply andb_true_iff in Hs as [Hc Hs].
    rewrite append_assoc, escape_char_read_back by assumption.
    rewrite IH by assumption. now rewrite append_assoc.
Qed.

Lemma key_char_read_back (c : ascii) (res tail : string) :
  key_char_ok char_signed c = true ->
  parse_string_loop char_signed res (String c tail)
  = parse_string_loop char_signed (res ++ str1 c) tail.
Proof.
  unfold key_char_ok. intros H.
  apply andb_true_iff in H as [H H3]. apply andb_true_iff in H as [H1 H2].
  apply negb_true_iff in H1, H2, H3.
  cbn [parse_string_loop]. now rewrite H1, H2, H3.
Qed.

(** [parse_string] reads a key back from its raw form. *)
Lemma key_read_back (k : string) :
  all (key_char_ok char_signed) k = true ->
  forall res rest,
    parse_string_loop char_signed res (k ++ String dquote rest) = Ok (res ++ k, rest).
Proof.
  induction k as [|c k IH]; cbn [all]; intros Hk res rest.
  - cbn [append parse_string_loop]. rewrite Ascii.eqb_refl. now rewrite append_nil_r.
  - apply andb_true_iff in Hk as [Hc Hk]. cbn [append].
    rewrite key_char_read_back by assumption.
    rewrite IH by assumption. now rewrite append_assoc.
Qed.

End Strings.

(** *** Numbers *)

Lemma span_app (p : ascii -> bool) (s a r tail : string) :
  span p s = (a, r) -> (r = EmptyString -> stops p tail = true) ->
  span p (s ++ tail) = (a, r ++ tail).
Proof.
  revert a r. induction s as [|c s IH]; cbn [span append]; intros a r H Hr.
  - injection H as <- <-. now apply span_stops, Hr.
  - destruct (p c) eqn:Hc.
    + destruct (span p s) as [a' r'] eqn:E. injection H as <- <-.
      now rewrite (IH a' r' eq_refl Hr).
    + injection H as <- <-. reflexivity.
Qed.

Lemma stops_isnumber (tail : string) :
  stops isnumber tail = true ->
  stops isdigit tail = true /\ starts "." tail = false
  /\ (forall c t, tail = String c t -> Ascii.eqb c "e" || Ascii.eqb c "E" = false).
Proof.
  destruct tail as [|c t]; cbn [stops starts]; [repeat split; discriminate|].
  unfold isnumber. intros H. apply negb_true_iff in H.
  apply orb_false_iff in H as [H HE]. apply orb_false_iff in H as [H He].
  apply orb_false_iff in H as [Hd Hp].
  rewrite Hd, Hp. repeat split. intros c' t' E. injection E as <- <-. now rewrite He, HE.
Qed.

Lemma number_integer_app (s a r tail : string) :
  number_integer s = Ok (a, r) -> (r = EmptyString -> stops isnumber tail = true) ->
  number_integer (s ++ tail) = Ok (a, r ++ tail).
Proof.
  destruct s as [|c s]; cbn [number_integer append]; [discriminate|].
  destruct (isdigit c) eqn:Hc; [|discriminate].
  destruct (Ascii.eqb c "0").
  - intros H _. injection H as <- <-. reflexivity.
  - destruct (span isdigit (String c s)) as [ds rest] eqn:E.
    intros H Hr. injection H as <- <-.
    change (String c (s ++ tail)) with (String c s ++ tail).
    rewrite (span_app isdigit _ ds rest tail E); [reflexivity|].
    intros E'. now apply stops_isnumber, Hr.
Qed.

Lemma number_fraction_app (s a r tail : string) :
  number_fraction s = Ok (a, r) -> (r = EmptyString -> stops isnumber tail = true) ->
  number_fraction (s ++ tail) = Ok (a, r ++ tail).
Proof.
  unfold number_fraction. destruct s as [|c s].
  - cbn [starts append]. intros H Hr. injection H as <- <-.
    destruct (stops_isnumber tail (Hr eq_refl)) as (_ & Hp & _). now rewrite Hp.
  - cbn [starts advance append]. destruct (Ascii.eqb c ".").
    + destruct s as [|d s]; [discriminate|]. cbn [append].
      destruct (isdigit d); [|discriminate].
      destruct (span isdigit (String d s)) as [ds rest] eqn:E.
      intros H Hr. injection H as <- <-.
      change (String d (s ++ tail)) with (String d s ++ tail).
      rewrite (span_app isdigit _ ds rest tail E); [reflexivity|].
      intros E'. now apply stops_isnumber, Hr.
    + intros H _. injection H as <- <-. reflexivity.
Qed.

Lemma number_exponent_app (s a r tail : string) :
  number_exponent s = Ok (a, r) -> (r = EmptyString -> stops isnumber tail = true) ->
  number_exponent (s ++ tail) = Ok (a, r ++ tail).
Proof.
  unfold number_exponent. destruct s as [|e s].
  - cbn [append]. intros H Hr. injection H as <- <-.
    destruct (stops_isnumber tail (Hr eq_refl)) as (_ & _ & He).
    destruct tail as [|c t]; [reflexivity|]. now rewrite (He c t eq_refl).
  - cbn [append]. destruct (Ascii.eqb e "e" || Ascii.eqb e "E").
    + destruct s as [|g s]; [discriminate|]. cbn [append].
      destruct (Ascii.eqb g "+" || Ascii.eqb g "-").
      * destruct s as [|d s]; [discriminate|]. cbn [append].
        destruct (isdigit d); [|discriminate].
        destruct (span isdigit (String d s)) as [ds rest] eqn:E.
        intros H Hr. injection H as <- <-.
        change (String d (s ++ tail)) with (String d s ++ tail).
        rewrite (span_app isdigit _ ds rest tail E); [reflexivity|].
        intros E'. now apply stops_isnumber, Hr.
      * destruct (isdigit g); [|discriminate].
        destruct (span isdigit (String g s)) as [ds rest] eqn:E.
        intros H Hr. injection H as <- <-.
        change (String g (s ++ tail)) with (String g s ++ tail).
        rewrite (span_app isdigit _ ds rest tail E); [reflexivity|].
        intros E'. now apply stops_isnumber, Hr.
    + intros H _. injection H as <- <-. reflexivity.
Qed.

(** The scan of a number is not changed by what follows it, if that cannot
    continue a number. *)
Lemma number_lexeme_app (s lexeme tail : string) :
  number_lexeme s = Ok (lexeme, EmptyString) -> stops isnumber tail = true ->
  number_lexeme (s ++ tail) = Ok (lexeme, tail).
Proof.
  unfold number_lexeme. intros H Ht.
  assert (Hs : s <> EmptyString) by (intros ->; discriminate H).
  destruct s as [|c s]; [contradiction|]. cbn [starts advance append] in *.
  set (s0 := if Ascii.eqb c "-" then s else String c s) in *.
  assert (E0 : (if Ascii.eqb c "-" then ("-", s ++ tail) else (EmptyString, String c (s ++ tail)))
               = ((if Ascii.eqb c "-" then "-" else EmptyString), s0 ++ tail))
    by (subst s0; destruct (Ascii.eqb c "-"); reflexivity).
  assert (E1 : (if Ascii.eqb c "-" then ("-", s) else (EmptyString, String c s))
               = ((if Ascii.eqb c "-" then "-" else EmptyString), s0))
    by (subst s0; destruct (Ascii.eqb c "-"); reflexivity).
  rewrite E0. rewrite E1 in H. clear E0 E1.
  destruct (number_integer s0) as [[a1 r1]|e] eqn:H1; [|discriminate H].
  cbn [bind] in H.
  destruct (number_fraction r1) as [[a2 r2]|e] eqn:H2; [|discriminate H].
  cbn [bind] in H.
  destruct (number_exponent r2) as [[a3 r3]|e] eqn:H3; [|discriminate H].
  cbn [bind] in H. injection H as <- ->.
  rewrite (number_integer_app _ _ _ tail H1) by auto. cbn [bind].
  rewrite (number_fraction_app _ _ _ tail H2) by auto. cbn [bind].
  rewrite (number_exponent_app _ _ _ tail H3) by auto. cbn [bind].
  reflexivity.
Qed.

Lemma terminated_stops (rest : string) :
  terminated rest = true -> stops isnumber rest = true /\ skip_ws rest = rest.
Proof.
  destruct rest as [|c rest]; [split; reflexivity|]. cbn [terminated stops].
  intros H. assert (Hc : isnumber c = false /\ isspace c = false).
  { revert H. clear. each_char c; intros H; try discriminate H; split; reflexivity. }
  destruct Hc as [Hn Hs]. rewrite Hn. split; [reflexivity|].
  apply skip_ws_stops. cbn [stops]. now rewrite Hs.
Qed.

(** A scanned number starts with a minus sign or a digit. *)
Lemma number_lexeme_head (s lexeme rest : string) :
  number_lexeme s = Ok (lexeme, rest) ->
  exists c s', s = String c s' /\ Ascii.eqb c "-" || isdigit c = true.
Proof.
  unfold number_lexeme. destruct s as [|c s]; [discriminate|].
  cbn [starts advance]. intros H. exists c, s. split; [reflexivity|].
  destruct (Ascii.eqb c "-"); [reflexivity|]. cbn [orb].
  cbn [number_integer] in H. destruct (isdigit c); [reflexivity | discriminate H].
Qed.

(** [parse_value] hands a text that starts like a number to
    [parse_number]. *)
Lemma parse_value_number (char_signed : bool) (f : nat) (c : ascii) (s : string) :
  Ascii.eqb c "-" || isdigit c = true ->
  parse_value char_signed (S f) (String c s) = parse_number (String c s).
Proof. each_char c; intros H; try discriminate H; reflexivity. Qed.

(** A Number that survives on its own is read back in front of whatever
    may follow a value. *)
Lemma number_read_back (char_signed : bool) (num : double) (f : nat) (rest : string) :
  number_round_trips num = true -> terminated rest = true ->
  exists num',
    parse_value char_signed (S f) (dump_number 6 num ++ rest) = Ok (JNumber num', rest)
    /\ Double.eqb num' num = true.
Proof.
  unfold number_round_trips. intros H Hr.
  destruct (parse_number (dump_number 6 num)) as [[v r]|e] eqn:Ep; [|discriminate H].
  destruct v as [| | num' | | |]; try discriminate H.
  destruct r; [|discriminate H].
  exists num'. split; [|exact H].
  unfold parse_number in Ep.
  destruct (number_lexeme (dump_number 6 num)) as [[lexeme r]|e] eqn:El; [|discriminate Ep].
  cbn [bind] in Ep. destruct (stod lexeme) as [d|e] eqn:Ed; [|discriminate Ep].
  injection Ep as -> ->.
  destruct (number_lexeme_head _ _ _ El) as (c & s' & Es & Hc).
  rewrite Es. cbn [append]. rewrite parse_value_number by exact Hc.
  change (String c (s' ++ rest)) with (String c s' ++ rest). rewrite <- Es.
  unfold parse_number.
  rewrite (number_lexeme_app _ _ rest El) by now apply terminated_stops.
  cbn [bind]. now rewrite Ed.
Qed.

(** *** Equality of values *)

Lemma equal_array (arr' arr : list JSON) :
  Forall2 (fun x' x => equal x' x = true) arr' arr ->
  equal (JArray arr') (JArray arr) = true.
Proof.
  cbn [equal]. induction 1 as [|x' x arr' arr Hx _ IH]; [reflexivity|].
  now rewrite Hx, IH.
Qed.

Lemma equal_object (obj' obj : StdMap.t JSON) :
  Forall2 (fun kv' kv => fst kv' = fst kv /\ equal (snd kv') (snd kv) = true) obj' obj ->
  equal (JObject obj') (JObject obj) = true.
Proof.
  cbn [equal]. induction 1 as [|[k' x'] [k x] obj' obj [Hk Hx] _ IH]; [reflexivity|].
  cbn [fst snd] in Hk, Hx. subst k'. now rewrite String.eqb_refl, Hx, IH.
Qed.

(** *** The map built by [parse_object] *)

Lemma assign_last (k : string) (v : JSON) (m : StdMap.t JSON) :
  Forall (fun k0 => StdMap.key_lt k0 k) (StdMap.keys m) ->
  StdMap.assign k v m = (m ++ [(k, v)])%list.
Proof.
  induction m as [|[k0 v0] m IH]; cbn [StdMap.assign StdMap.keys map fst app];
    intros H; [reflexivity|].
  inversion H as [|? ? Hk Hm]; subst. unfold StdMap.key_lt in Hk.
  rewrite String.compare_antisym, Hk. cbn [CompOpp]. now rewrite (IH Hm).
Qed.

(** *** The text of arrays and objects *)

Section Values.
Variable char_signed : bool.

Lemma dump_array_text (indent indent_size : nat) (max_precision : Z) (arr : list JSON) :
  dump char_signed false indent indent_size max_precision (JArray arr)
  = "[" ++ String.concat ","
             (map (dump char_signed false (indent + indent_size) indent_size max_precision) arr) ++ "]".
Proof.
  cbn [dump].
  set (D := dump char_signed false (indent + indent_size) indent_size max_precision).
  set (elements := fix elements (first : bool) (l : list JSON) {struct l} : string :=
                     match l with
                     | [] => EmptyString
                     | el :: l' => _
                     end).
  assert (Hrest : forall l, elements false l = concat_all (map (fun y => "," ++ y) (map D l))).
  { induction l as [|x l IH]; cbn [elements map concat_all]; [reflexivity|].
    rewrite IH. reflexivity. }
  destruct arr as [|x arr]; [reflexivity|].
  cbn [map]. rewrite SortedOutput.concat_cons. cbn [elements andb]. rewrite Hrest.
  cbn [append]. now rewrite append_assoc.
Qed.

(** *** [parse_value] and white space *)

Lemma skip_ws_idem (s : string) : skip_ws (skip_ws s) = skip_ws s.
Proof. apply skip_ws_stops. apply span_stops_snd. Qed.

Lemma parse_value_skip_ws (f : nat) (s : string) :
  parse_value char_signed f (skip_ws s) = parse_value char_signed f s.
Proof. destruct f; [reflexivity|]. cbn [parse_value]. now rewrite skip_ws_idem. Qed.

Lemma parse_value_not_closing (f : nat) (s : string) (r : JSON * string) :
  parse_value char_signed f s = Ok r ->
  starts "]" (skip_ws s) = false /\ starts "}" (skip_ws s) = false.
Proof.
  destruct f; [discriminate|]. cbn [parse_value].
  destruct (skip_ws s) as [|c s0]; [discriminate|]. cbn [starts].
  each_char c; intros H; try discriminate H; split; reflexivity.
Qed.

Lemma parse_array_loop_skip_ws (f fuel : nat) (arr : list JSON) (s : string) :
  parse_array_loop (parse_value char_signed f) fuel arr (skip_ws s)
  = parse_array_loop (parse_value char_signed f) fuel arr s.
Proof. destruct fuel; [reflexivity|]. cbn [parse_array_loop]. now rewrite parse_value_skip_ws. Qed.

Lemma parse_object_loop_skip_ws (f fuel : nat) (obj : StdMap.t JSON) (s : string) :
  parse_object_loop char_signed (parse_value char_signed f) fuel obj (skip_ws s)
  = parse_object_loop char_signed (parse_value char_signed f) fuel obj s.
Proof. destruct fuel; [reflexivity|]. cbn [parse_object_loop]. now rewrite skip_ws_idem. Qed.

(** *** Elements and entries *)

Lemma more_cons (t : string) (texts : list string) :
  more (t :: texts) = String "," (t ++ more texts).
Proof. reflexivity. Qed.

Lemma more_terminated (texts : list string) (close : ascii) (rest : string) :
  Ascii.eqb close "]" || Ascii.eqb close "}" = true ->
  terminated (more texts ++ String close rest) = true.
Proof.
  intros Hc. destruct texts as [|t texts]; cbn [more map concat_all append terminated].
  - destruct (Ascii.eqb close ","); [reflexivity | exact Hc].
  - reflexivity.
Qed.

Lemma array_loop_read_back (f : nat) (xs : list JSON) (texts : list string) :
  Forall2 (reads_back char_signed f) texts xs ->
  forall fuel acc text x rest,
    reads_back char_signed f text x ->
    (List.length xs < fuel)%nat ->
    exists arr',
      parse_array_loop (parse_value char_signed f) fuel acc
        (text ++ more texts ++ String "]" rest)
      = Ok (JArray (acc ++ arr')%list, rest)
      /\ Forall2 (fun x' x => equal x' x = true) arr' (x :: xs).
Proof.
  induction 1 as [|t y texts xs Hy _ IH]; intros fuel acc text x rest Hx Hfuel.
  - destruct fuel as [|fuel]; [cbn in Hfuel; lia|].
    destruct (Hx (String "]" rest) eq_refl) as (x' & Hp & He).
    exists [x']. split; [|now repeat constructor].
    change (more [] ++ String "]" rest) with (String "]" rest).
    cbn [parse_array_loop]. rewrite Hp. cbn [bind].
    rewrite skip_ws_stops by reflexivity. reflexivity.
  - destruct fuel as [|fuel]; [cbn in Hfuel; lia|].
    pose proof (more_terminated (t :: texts) "]" rest eq_refl) as Hterm.
    destruct (Hx _ Hterm) as (x' & Hp & He).
    destruct (IH fuel (acc ++ [x'])%list t y rest Hy ltac:(cbn in Hfuel; lia))
      as (arr' & Hl & Ha).
    exists (x' :: arr'). split; [|now constructor].
    cbn [parse_array_loop]. rewrite Hp. cbn [bind]. rewrite more_cons. cbn [append].
    rewrite skip_ws_stops by reflexivity.
    change (Ascii.eqb "," ",") with true. cbv iota.
    rewrite parse_array_loop_skip_ws, append_assoc, Hl.
    now rewrite <- app_assoc.
Qed.

Lemma object_loop_read_back (f : nat) (kvs : StdMap.t JSON) (texts : list string) :
  Forall2 (fun t kv => all (key_char_ok char_signed) (fst kv) = true
                       /\ exists tv, t = entry (fst kv) tv /\ reads_back char_signed f tv (snd kv))
          texts kvs ->
  forall fuel acc k text v rest,
    all (key_char_ok char_signed) k = true ->
    reads_back char_signed f text v ->
    StdMap.sorted ((k, v) :: kvs) ->
    (forall k1, In k1 (k :: StdMap.keys kvs) -> below acc k1) ->
    (List.length kvs < fuel)%nat ->
    exists obj',
      parse_object_loop char_signed (parse_value char_signed f) fuel acc
        (entry k text ++ more texts ++ String "}" rest)
      = Ok (JObject (acc ++ obj')%list, rest)
      /\ Forall2 (fun kv' kv => fst kv' = fst kv /\ equal (snd kv') (snd kv) = true)
                 obj' ((k, v) :: kvs).
Proof.
  assert (Hentry : forall fuel acc k text (v' : JSON) tail,
             all (key_char_ok char_signed) k = true ->
             parse_value char_signed f (text ++ tail) = Ok (v', tail) ->
             below acc k ->
             parse_object_loop char_signed (parse_value char_signed f) (S fuel) acc
               (entry k text ++ tail)
             = match skip_ws tail with
               | EmptyString => Throw (JSONParseError "Expected ',' or '}' in object")
               | String c s4 =>
                   if Ascii.eqb c ","
                   then parse_object_loop char_signed (parse_value char_signed f) fuel
                          (acc ++ [(k, v')])%list (skip_ws s4)
                   else if Ascii.eqb c "}" then Ok (JObject (acc ++ [(k, v')])%list, s4)
                   else Throw (JSONParseError ("Unexpected character in object: " ++ str1 c))
               end).
  { intros fuel acc k text v' tail Hk Hp Hb.
    cbn [parse_object_loop]. cbv zeta.
    unfold entry. rewrite skip_ws_stops by reflexivity.
    cbn [append]. cbn [starts]. rewrite (Ascii.eqb_refl dquote). unfold parse_string.
    rewrite (Ascii.eqb_refl dquote).
    rewrite !append_assoc. cbn [append].
    rewrite key_read_back by exact Hk. cbn [bind append].
    rewrite skip_ws_stops by reflexivity. cbn [starts advance].
    change (Ascii.eqb ":" ":") with true. cbv iota.
    rewrite Hp. cbn [bind]. rewrite assign_last by exact Hb. reflexivity. }
  induction 1 as [|t [k2 v2] texts kvs [Hk2 (tv & Et & Hv2)] _ IH];
    intros fuel acc k text v rest Hk Hv Hsorted Hbelow Hfuel.
  - destruct fuel as [|fuel]; [cbn in Hfuel; lia|].
    destruct (Hv (String "}" rest) eq_refl) as (v' & Hp & He).
    exists [(k, v')]. split; [|repeat constructor; assumption].
    change (more [] ++ String "}" rest) with (String "}" rest).
    rewrite (Hentry fuel acc k text v' _ Hk Hp) by (apply Hbelow; now left).
    rewrite skip_ws_stops by reflexivity. reflexivity.
  - cbn [fst snd] in *. subst t.
    destruct fuel as [|fuel]; [cbn in Hfuel; lia|].
    pose proof (more_terminated (entry k2 tv :: texts) "}" rest eq_refl) as Hterm.
    destruct (Hv _ Hterm) as (v' & Hp & He).
    apply sorted_cons_iff in Hsorted as [Habove Hsorted].
    destruct (IH fuel (acc ++ [(k, v')])%list k2 tv v2 rest Hk2 Hv2 Hsorted) as (obj' & Hl & Ho).
    + intros k1 Hk1. unfold below, StdMap.keys. rewrite map_app. apply Forall_app. split.
      * apply Hbelow. now right.
      * cbn [map fst]. constructor; [|constructor].
        pose proof (above_all _ k Hsorted Habove) as Hall.
        rewrite Forall_forall in Hall. now apply Hall.
    + cbn in Hfuel. lia.
    + exists ((k, v') :: obj').
      split; [|constructor; [split; [reflexivity | exact He] | exact Ho]].
      rewrite (Hentry fuel acc k text v' _ Hk Hp) by (apply Hbelow; now left).
      rewrite more_cons. cbn [append]. rewrite skip_ws_stops by reflexivity.
      change (Ascii.eqb "," ",") with true. cbv iota.
      rewrite parse_object_loop_skip_ws, append_assoc, Hl.
      now rewrite <- app_assoc.
Qed.

End Values.

(** *** Values *)

Section Trees.
Variable char_signed : bool.

Lemma weight_pos (v : JSON) : (1 <= weight v)%nat.
Proof. destruct v; simpl; lia. Qed.

Lemma list_sum_weights (l : list JSON) (x : JSON) :
  In x l -> (weight x <= list_sum (map weight l))%nat.
Proof.
  induction l as [|y l IH]; intros []; simpl.
  - subst y. lia.
  - specialize (IH H). lia.
Qed.

Lemma list_sum_length (A : Type) (w : A -> nat) (l : list A) :
  (forall x, 1 <= w x)%nat -> (List.length l <= list_sum (map w l))%nat.
Proof.
  intros Hw. induction l as [|y l IH]; simpl; [lia|].
  specialize (Hw y). lia.
Qed.

Lemma entry_text_compact (indent indent_size : nat) (kv : string * JSON) :
  entry_text char_signed false indent indent_size 6 kv
  = entry (fst kv) (dump char_signed false (indent + indent_size) indent_size 6 (snd kv)).
Proof. reflexivity. Qed.

Lemma parse_value_string (f : nat) (s : string) :
  parse_value char_signed (S f) (String dquote s) = parse_string char_signed (String dquote s).
Proof. reflexivity. Qed.

Lemma parse_value_array (f : nat) (s : string) :
  parse_value char_signed (S f) (String "[" s)
  = parse_array (parse_value char_signed f) f (String "[" s).
Proof. reflexivity. Qed.

Lemma parse_value_object (f : nat) (s : string) :
  parse_value char_signed (S f) (String "{" s)
  = parse_object char_signed (parse_value char_signed f) f (String "{" s).
Proof. reflexivity. Qed.

(** [parse_value] reads the compact serialization of a value back, in
    front of anything that may follow a value. *)
Lemma value_read_back (v : JSON) :
  wf v -> printable char_signed v = true ->
  forall indent indent_size f,
    (weight v <= f)%nat ->
    reads_back char_signed f (dump char_signed false indent indent_size 6 v) v.
Proof.
  induction v as [ | b | num | s | arr IH | obj IH ] using JSON_induction;
    intros Hwf Hpr indent indent_size f Hf rest Hrest;
    (destruct f as [|f]; [pose proof (weight_pos JNull); cbn [weight] in Hf; lia|]).
  - exists JNull. split; reflexivity.
  - exists (JBool b). destruct b; split; reflexivity.
  - destruct (number_read_back char_signed num f rest (printable_number _ _ Hpr) Hrest)
      as (num' & Hp & He).
    exists (JNumber num'). split; [exact Hp | exact He].
  - exists (JString s). split; [|apply String.eqb_refl].
    cbn [dump append]. rewrite parse_value_string. unfold parse_string.
    rewrite (Ascii.eqb_refl dquote). rewrite append_assoc. cbn [append str1].
    rewrite escape_string_read_back by exact Hpr. reflexivity.
  - apply wf_array_iff in Hwf. cbn [printable] in Hpr. cbn [weight] in Hf.
    rewrite dump_array_text. cbn [append]. rewrite parse_value_array.
    unfold parse_array. cbn [starts advance]. change (Ascii.eqb "[" "[") with true.
    cbv iota zeta. rewrite append_assoc.
    set (D := dump char_signed false (indent + indent_size) indent_size 6).
    assert (Hall : forall x, In x arr -> reads_back char_signed f (D x) x).
    { intros x Hx. rewrite Forall_forall in IH, Hwf. rewrite forallb_forall in Hpr.
      apply (IH x Hx (Hwf x Hx) (Hpr x Hx)).
      pose proof (list_sum_weights arr x Hx). lia. }
    destruct arr as [|x xs].
    + exists (JArray []). split; [|reflexivity].
      cbn [map String.concat append]. rewrite skip_ws_stops by reflexivity. reflexivity.
    + cbn [map]. rewrite SortedOutput.concat_cons. fold (more (map D xs)).
      rewrite append_assoc.
      pose proof (more_terminated (map D xs) "]" rest eq_refl) as Hterm.
      destruct (Hall x (or_introl eq_refl) _ Hterm) as (x0 & Hp0 & _).
      destruct (parse_value_not_closing _ _ _ _ Hp0) as [Hnc _].
      destruct (array_loop_read_back char_signed f xs (map D xs)) with
        (fuel := f) (acc := @nil JSON) (text := D x) (x := x) (rest := rest)
        as (arr' & Hl & Ha).
      * clear -Hall. induction xs as [|y xs IHx]; cbn [map]; constructor.
        -- apply Hall. right. now left.
        -- apply IHx. intros z [Hz|Hz]; apply Hall; [now left | right; now right].
      * apply Hall. now left.
      * pose proof (list_sum_length JSON weight (x :: xs) weight_pos) as Hlen.
        cbn [List.length] in Hlen. lia.
      * exists (JArray arr'). split; [|now apply equal_array].
        change ("]" ++ rest) with (String "]" rest).
        rewrite Hnc, parse_array_loop_skip_ws. exact Hl.
  - apply wf_object_iff in Hwf as [Hsorted Hwf]. cbn [printable] in Hpr. cbn [weight] in Hf.
    rewrite SortedOutput.dump_object_text. unfold object_text. cbn [andb append].
    rewrite parse_value_object.
    unfold parse_object. cbn [starts advance]. change (Ascii.eqb "{" "{") with true.
    cbv iota zeta. rewrite append_assoc.
    set (D := dump char_signed false (indent + indent_size) indent_size 6).
    assert (Hall : forall kv, In kv obj ->
               all (key_char_ok char_signed) (fst kv) = true
               /\ reads_back char_signed f (D (snd kv)) (snd kv)).
    { intros kv Hkv. rewrite Forall_forall in IH, Hwf. rewrite forallb_forall in Hpr.
      specialize (Hpr kv Hkv). apply andb_true_iff in Hpr as [Hk Hv].
      split; [exact Hk|]. apply (IH kv Hkv (Hwf kv Hkv) Hv).
      pose proof (in_map (fun kv => weight (snd kv)) obj kv Hkv) as Hin.
      clear -Hin Hf. revert Hin Hf. generalize (map (fun kv => weight (snd kv)) obj).
      intros l Hin Hf. apply le_S_n in Hf.
      apply Nat.le_trans with (list_sum l); [|exact Hf].
      clear Hf. induction l as [|y l IHl]; [destruct Hin|].
      destruct Hin as [Hin|Hin]; simpl.
      - subst y. lia.
      - specialize (IHl Hin). lia. }
    destruct obj as [|[k v] kvs].
    + exists (JObject []). split; [|reflexivity].
      cbn [map String.concat append]. rewrite skip_ws_stops by reflexivity. reflexivity.
    + cbn [map]. rewrite SortedOutput.concat_cons.
      rewrite (map_ext _ _ (entry_text_compact indent indent_size)).
      rewrite entry_text_compact. cbn [fst snd]. fold D.
      set (texts := map (fun kv => entry (fst kv) (D (snd kv))) kvs).
      fold (more texts). rewrite append_assoc.
      destruct (Hall (k, v) (or_introl eq_refl)) as [Hk Hv]. cbn [fst snd] in Hk, Hv.
      destruct (object_loop_read_back char_signed f kvs texts) with
        (fuel := f) (acc := @nil (string * JSON)) (k := k) (text := D v) (v := v) (rest := rest)
        as (obj' & Hl & Ho).
      * subst texts. clear -Hall. induction kvs as [|kv kvs IHk]; cbn [map]; constructor.
        -- destruct (Hall kv (or_intror (or_introl eq_refl))) as [Hk Hv].
           split; [exact Hk|]. exists (D (snd kv)). split; [reflexivity | exact Hv].
        -- apply IHk. intros z [Hz|Hz]; apply Hall; [now left | right; now right].
      * exact Hk.
      * exact Hv.
      * exact Hsorted.
      * intros k1 _. constructor.
      * pose proof (list_sum_length _ (fun kv : string * JSON => weight (snd kv))
                      ((k, v) :: kvs) (fun kv => weight_pos (snd kv))) as Hlen.
        cbn [List.length] in Hlen. lia.
      * exists (JObject obj'). split; [|now apply equal_object].
        change ("}" ++ rest) with (String "}" rest).
        refine (eq_trans _ Hl). apply parse_object_loop_skip_ws.
Qed.

End Trees.

(** *** Fuel *)

Lemma list_sum_le (A : Type) (w1 w2 : A -> nat) (l : list A) :
  (forall x, In x l -> w1 x <= w2 x)%nat ->
  (list_sum (map w1 l) <= list_sum (map w2 l))%nat.
Proof.
  induction l as [|y l IH]; intros H; simpl; [lia|].
  pose proof (H y (or_introl eq_refl)).
  assert (list_sum (map w1 l) <= list_sum (map w2 l))%nat.
  { apply IH. intros x Hx. apply H. now right. }
  lia.
Qed.

Lemma concat_length (sep : string) (l : list string) :
  (list_sum (map String.length l) <= String.length (String.concat sep l))%nat.
Proof.
  induction l as [|x l IH]; [simpl; lia|].
  destruct l as [|y l].
  - simpl. lia.
  - change (String.concat sep (x :: y :: l)) with (x ++ sep ++ String.concat sep (y :: l)).
    rewrite !length_append.
    change (list_sum (map String.length (x :: y :: l)))
      with (String.length x + list_sum (map String.length (y :: l)))%nat.
    lia.
Qed.

Section Fuel.
Variable char_signed : bool.

Lemma entry_length (k text : string) :
  (String.length text <= String.length (entry k text))%nat.
Proof.
  unfold entry. cbn [String.length]. rewrite length_append. cbn [String.length].
  rewrite length_append. lia.
Qed.

(** The serialization of a value has at least one character for each
    value of the tree, so the fuel [parse] starts with is enough. *)
Lemma weight_le_length (v : JSON) :
  printable char_signed v = true ->
  forall indent indent_size,
    (weight v <= String.length (dump char_signed false indent indent_size 6 v))%nat.
Proof.
  induction v as [ | b | num | s | arr IH | obj IH ] using JSON_induction;
    intros Hpr indent indent_size.
  - simpl. lia.
  - destruct b; simpl; lia.
  - apply printable_number in Hpr. unfold number_round_trips, parse_number in Hpr.
    cbn [weight dump].
    destruct (number_lexeme (dump_number 6 num)) as [[lexeme r]|e] eqn:El; [|discriminate Hpr].
    destruct (number_lexeme_head _ _ _ El) as (c & s' & -> & _). simpl. lia.
  - cbn [weight dump String.length append]. lia.
  - rewrite dump_array_text. cbn [weight printable] in *.
    change ("[" ++ ?x) with (String "[" x). cbn [String.length]. rewrite length_append.
    pose proof (concat_length ","
      (map (dump char_signed false (indent + indent_size) indent_size 6) arr)) as Hc.
    rewrite map_map in Hc.
    pose proof (list_sum_le JSON weight
      (fun x => String.length (dump char_signed false (indent + indent_size) indent_size 6 x)) arr)
      as Hle.
    rewrite Forall_forall in IH. rewrite forallb_forall in Hpr.
    specialize (Hle (fun x Hx => IH x Hx (Hpr x Hx) _ _)). lia.
  - rewrite SortedOutput.dump_object_text. unfold object_text. cbn [weight printable andb] in *.
    change ("{" ++ ?x) with (String "{" x). cbn [String.length]. rewrite length_append.
    pose proof (concat_length ","
      (map (entry_text char_signed false indent indent_size 6) obj)) as Hc.
    rewrite map_map in Hc.
    pose proof (list_sum_le (string * JSON) (fun kv => weight (snd kv))
      (fun kv => String.length (entry_text char_signed false indent indent_size 6 kv)) obj)
      as Hle.
    rewrite Forall_forall in IH. rewrite forallb_forall in Hpr.
    assert (Hall : forall kv, In kv obj ->
      (weight (snd kv) <= String.length (entry_text char_signed false indent indent_size 6 kv))%nat).
    { intros kv Hkv. specialize (Hpr kv Hkv). apply andb_true_iff in Hpr as [_ Hv].
      rewrite entry_text_compact.
      apply Nat.le_trans with (2 := entry_length _ _). apply (IH kv Hkv Hv). }
    specialize (Hle Hall). lia.
Qed.

End Fuel.

(** *** The round trip *)

(** What the claim says and the code does not: a Number with more than six
    significant digits, here 0.1234567, is written rounded, as [0.123457],
    and read back as another double. *)
Lemma number_written_with_six_digits_reads_back_different :
  let v := JNumber (of_decimal false 1234567 (-7)) in
  wf v
  /\ (match v with JNumber num => is_finite num | _ => false end) = true
  /\ dump_minified true v = "0.123457" /\ dump_minified false v = "0.123457"
  /\ parse true (dump_minified true v) = Ok (JNumber (of_decimal false 123457 (-6)))
  /\ parse false (dump_minified false v) = Ok (JNumber (of_decimal false 123457 (-6)))
  /\ equal (JNumber (of_decimal false 123457 (-6))) v = false.
Proof. cbv zeta. split; [constructor|]. repeat split. Qed.

(** C1, as amended.  For a value with unique sorted keys, as [std::map]
    keeps them, whose Numbers each hold an integer that [dump] writes in
    full as a [long long], or else survive [dump] and [parse] on their
    own, whose Strings have only characters [dump] escapes in a way
    [parse] reads, and whose keys need no escape, [parse] of the compact
    serialization returns a value equal to it under [==].  NaN and the
    infinities are no such Numbers: [dump] writes them as words that
    [parse] rejects. *)
Theorem parse_of_compact_dump_is_equal (char_signed : bool) :
  (forall v : JSON,
     wf v -> printable char_signed v = true ->
     exists v', parse char_signed (dump_minified char_signed v) = Ok v'
                /\ equal v' v = true)
  /\ (forall num : double,
        is_finite num = false ->
        printable char_signed (JNumber num) = false
        /\ exists msg,
             parse char_signed (dump_minified char_signed (JNumber num))
             = Throw (JSONParseError msg)).
Proof.
  split.
  - intros v Hwf Hpr. unfold parse, dump_minified.
    set (s := dump char_signed false 0 2 6 v).
    pose proof (weight_le_length char_signed v Hpr 0%nat 2%nat) as Hw. fold s in Hw.
    destruct (value_read_back char_signed v Hwf Hpr 0%nat 2%nat (S (String.length s)))
      with (rest := EmptyString) as (v' & Hp & He); [lia | reflexivity |].
    fold s in Hp. rewrite append_nil_r in Hp.
    exists v'. split; [|exact He].
    rewrite Hp. reflexivity.
  - intros num Hn. destruct num as [s|s| |s m e]; try discriminate Hn.
    + destruct s, char_signed; (split; [reflexivity | eexists; reflexivity]).
    + destruct char_signed; (split; [reflexivity | eexists; reflexivity]).
Qed.

(** C1 at an object that holds 1.5, which survives its six digits,
    1234567, which is written in full, a String with a backslash, and the
    other kinds of value. *)
Lemma parse_of_compact_dump_witness :
  let v := JObject [("a", JArray [JNumber (of_decimal false 15 (-1));
                                  JNumber (of_decimal false 1234567 0);
                                  JString "x\y"; JBool true; JNull]);
                    ("b", JObject [])] in
  wf v /\ printable true v = true
  /\ exists v', parse true (dump_minified true v) = Ok v' /\ equal v' v = true.
Proof.
  cbv zeta.
  assert (Hwf : wf (JObject [("a", JArray [JNumber (of_decimal false 15 (-1));
                                           JNumber (of_decimal false 1234567 0);
                                           JString "x\y"; JBool true; JNull]);
                             ("b", JObject [])])).
  { apply wf_object_iff. split.
    - repeat constructor.
    - repeat constructor; apply wf_array_iff || apply wf_object_iff; repeat constructor. }
  split; [exact Hwf|]. split; [reflexivity|].
  apply (proj1 (parse_of_compact_dump_is_equal true) _ Hwf). reflexivity.
Defined.

(** *** Which values the round trip covers *)

(** A Number that survives is finite: [dump] writes NaN and the infinities
    as words [parse_number] does not read. *)
Lemma number_round_trips_finite (num : double) :
  number_round_trips num = true -> is_finite num = true.
Proof.
  destruct num as [s|s| |s m e]; intros H; [reflexivity | | | reflexivity].
  - destruct s; vm_compute in H; discriminate H.
  - vm_compute in H. discriminate H.
Qed.

(** A key is written between quotes as it is: one with a quote in it gives
    a text that [parse] rejects. *)
Lemma key_with_quote_is_not_read_back (char_signed : bool) :
  let v := JObject [(String "a" (String dquote "b"), JNull)] in
  wf v
  /\ dump_minified char_signed v
     = String "{" (String dquote (String "a" (String dquote (String "b" (String dquote ":null}")))))
  /\ parse char_signed (dump_minified char_signed v)
     = Throw (JSONParseError "Parse error: JSON Parse Error: Expected ':' after key in object").
Proof.
  cbv zeta. split; [|destruct char_signed; split; reflexivity].
  apply wf_object_iff. repeat constructor.
Qed.

(** Where [char] is signed a byte from 128 on is below 32: [dump] writes
    it as a six-digit escape of its sign-extended value, and [parse] reads
    the first four digits as one character and the last two as text. *)
Lemma high_byte_is_not_read_back_where_char_is_signed :
  let v := JString (str1 (chr 233)) in
  dump_minified true v = String dquote (String backslash ("uffffffe9" ++ str1 dquote))
  /\ (exists v', parse true (dump_minified true v) = Ok v' /\ equal v' v = false)
  /\ parse false (dump_minified false v) = Ok v.
Proof.
  cbv zeta. split; [reflexivity|]. split; [|reflexivity].
  eexists. split; reflexivity.
Qed.

End RoundTrip.

(* ===================================================================== *)
(** * Part III: further properties of the two libraries                   *)
(* ===================================================================== *)

(** ** Laws of the map *)

Module MapLaws.
Import StdMap.
Import MapOrder.

Lemma compare_eq (a b : string) : String.compare a b = Eq -> a = b.
Proof. apply String.compare_eq_iff. Qed.

Lemma compare_lt_gt (a b : string) : String.compare a b = Lt -> String.compare b a = Gt.
Proof. intros H. rewrite String.compare_antisym, H. reflexivity. Qed.

Lemma find_assign_same {V : Type} (k : string) (v : V) (m : t V) :
  find k (assign k v m) = Some v.
Proof.
  induction m as [|[k0 v0] m IH]; cbn [assign find].
  - now rewrite compare_refl.
  - destruct (String.compare k k0) eqn:E; cbn [find].
    + now rewrite compare_refl.
    + now rewrite compare_refl.
    + now rewrite E.
Qed.

Lemma find_assign_other {V : Type} (k k' : string) (v : V) (m : t V) :
  k' <> k -> find k' (assign k v m) = find k' m.
Proof.
  intros Hne. induction m as [|[k0 v0] m IH]; cbn [assign find].
  - destruct (String.compare k' k) eqn:E; try reflexivity.
    now apply compare_eq in E.
  - destruct (String.compare k k0) eqn:E; cbn [find].
    + apply compare_eq in E. subst k0.
      destruct (String.compare k' k) eqn:E'; try reflexivity.
      now apply compare_eq in E'.
    + destruct (String.compare k' k) eqn:E'.
      * now apply compare_eq in E'.
      * now rewrite (key_lt_trans _ _ _ E' E).
      * reflexivity.
    + destruct (String.compare k' k0); [reflexivity | reflexivity | exact IH].
Qed.

Lemma find_above {V : Type} (k : string) (m : t V) : above k m -> find k m = None.
Proof. destruct m as [|[k0 v0] m]; cbn [above find]; [reflexivity|]. now intros ->. Qed.

Lemma find_erase_same {V : Type} (k : string) (m : t V) :
  sorted m -> find k (erase k m) = None.
Proof.
  induction m as [|[k0 v0] m IH]; intros Hs; cbn [erase]; [reflexivity|].
  apply sorted_cons_iff in Hs as [Ha Hs].
  destruct (String.compare k k0) eqn:E.
  - apply compare_eq in E. subst k0. now apply find_above.
  - cbn [find]. now rewrite E.
  - cbn [find]. rewrite E. now apply IH.
Qed.

Lemma find_erase_other {V : Type} (k k' : string) (m : t V) :
  sorted m -> k' <> k -> find k' (erase k m) = find k' m.
Proof.
  intros Hs Hne. induction m as [|[k0 v0] m IH]; cbn [erase]; [reflexivity|].
  apply sorted_cons_iff in Hs as [Ha Hs].
  destruct (String.compare k k0) eqn:E.
  - apply compare_eq in E. subst k0. cbn [find].
    destruct (String.compare k' k) eqn:E'.
    + now apply compare_eq in E'.
    + apply find_above. now apply above_trans with k.
    + reflexivity.
  - reflexivity.
  - cbn [find]. destruct (String.compare k' k0); [reflexivity | reflexivity | now apply IH].
Qed.

Lemma erase_absent {V : Type} (k : string) (m : t V) :
  find k m = None -> erase k m = m.
Proof.
  induction m as [|[k0 v0] m IH]; cbn [erase find]; [reflexivity|].
  destruct (String.compare k k0); [discriminate | reflexivity |].
  intros H. now rewrite IH.
Qed.

Lemma assign_present {V : Type} (k : string) (v : V) (m : t V) :
  find k m = Some v -> assign k v m = m.
Proof.
  induction m as [|[k0 v0] m IH]; cbn [assign find]; [discriminate|].
  destruct (String.compare k k0) eqn:E.
  - apply compare_eq in E. subst k0. now intros [= ->].
  - discriminate.
  - intros H. now rewrite IH.
Qed.

Lemma erase_assign_absent {V : Type} (k : string) (v : V) (m : t V) :
  find k m = None -> erase k (assign k v m) = m.
Proof.
  induction m as [|[k0 v0] m IH]; cbn [assign find erase].
  - now rewrite compare_refl.
  - destruct (String.compare k k0) eqn:E; [discriminate | |].
    + intros _. cbn [erase]. now rewrite compare_refl.
    + intros H. cbn [erase]. rewrite E. now rewrite IH.
Qed.

(** The value of the last pair of a list that has the key [k]. *)
Lemma find_fold_assign {V : Type} (k : string) (l : list (string * V)) :
  forall m,
    find k (fold_left (fun acc kv => assign (fst kv) (snd kv) acc) l m)
    = match last_value k l with
      | Some v => Some v
      | None => find k m
      end.
Proof.
  induction l as [|[k0 v0] l IH]; intros m; cbn [fold_left last_value fst snd]; [reflexivity|].
  rewrite IH. destruct (last_value k l); [reflexivity|].
  destruct (String.eqb k0 k) eqn:E.
  - apply String.eqb_eq in E. subst k0. apply find_assign_same.
  - apply String.eqb_neq in E. apply find_assign_other. congruence.
Qed.

Lemma last_value_sorted {V : Type} (k : string) (m : t V) :
  sorted m -> last_value k m = find k m.
Proof.
  induction m as [|[k0 v0] m IH]; intros Hs; cbn [last_value find fst snd]; [reflexivity|].
  apply sorted_cons_iff in Hs as [Ha Hs]. rewrite (IH Hs).
  destruct (String.compare k k0) eqn:E.
  - apply compare_eq in E. subst k0. rewrite (find_above _ _ Ha). now rewrite String.eqb_refl.
  - rewrite (find_above k m) by (now apply above_trans with k0).
    destruct (String.eqb k0 k) eqn:E'; [|reflexivity].
    apply String.eqb_eq in E'. subst k0. now rewrite compare_refl in E.
  - destruct (find k m); [reflexivity|].
    destruct (String.eqb k0 k) eqn:E'; [|reflexivity].
    apply String.eqb_eq in E'. subst k0. now rewrite compare_refl in E.
Qed.

Lemma assign_assign {V : Type} (k : string) (v1 v2 : V) (m : t V) :
  assign k v2 (assign k v1 m) = assign k v2 m.
Proof.
  induction m as [|[k0 v0] m IH]; cbn [assign].
  - now rewrite compare_refl.
  - destruct (String.compare k k0) eqn:E; cbn [assign].
    + now rewrite compare_refl.
    + now rewrite compare_refl.
    + now rewrite E, IH.
Qed.

Lemma assign_at_end {V : Type} (k : string) (v : V) (m : t V) :
  Forall (fun k0 => key_lt k0 k) (keys m) -> assign k v m = (m ++ [(k, v)])%list.
Proof.
  induction m as [|[k0 v0] m IH]; cbn [assign keys map fst app]; intros H; [reflexivity|].
  inversion H as [|? ? Hk Hm]; subst. unfold key_lt in Hk.
  rewrite (compare_lt_gt _ _ Hk). now rewrite (IH Hm).
Qed.

End MapLaws.

(** ** JSON: access, insertion and removal *)

Module JsonContainers.
Import EJson.
Import MapOrder.
Import MapLaws.
Import JsonOrder.

(** X1.  [at] never throws: it returns what the const [operator[]] returns
    when that succeeds, and the default when that throws; [contains] tells
    the two cases apart, and the const [operator[]] throws nothing but "Not
    an object" or "Key not found". *)
Theorem at_is_const_subscript_or_default :
  forall (key : string) (default_val j : JSON),
    (forall v, const_subscript_key key j = Ok v ->
               at_key key default_val j = v /\ contains key j = true)
    /\ (forall e, const_subscript_key key j = Throw e ->
                  at_key key default_val j = default_val /\ contains key j = false
                  /\ (e = JSONParseError "Not an object"
                      \/ e = JSONParseError ("Key not found: " ++ key))).
Proof.
  intros key d j. split.
  - intros v H. destruct j; try discriminate H. cbn [const_subscript_key at_key contains] in *.
    destruct (StdMap.find key obj); [|discriminate H]. injection H as ->. now split.
  - intros e H. destruct j; cbn [const_subscript_key at_key contains] in *;
      try (injection H as <-; repeat split; now left).
    destruct (StdMap.find key obj); [discriminate H|].
    injection H as <-. repeat split. now right.
Qed.

(** X2.  The mutable [operator[]] with a key, on an Object or on Null,
    never throws and leaves the key present: the reference it returns
    denotes the entry of the key, which is the old entry when there was
    one (the receiver is then unchanged) and a new Null entry otherwise;
    no other key changes.  On any other value it throws and nothing
    changes. *)
Theorem subscript_key_finds_or_inserts_null :
  forall (key : string) (j : JSON),
    (is_null j || is_object j = true ->
       exists j' v,
         subscript_key key j = Ok (j', v)
         /\ is_object j' = true
         /\ const_subscript_key key j' = Ok v
         /\ (forall old, const_subscript_key key j = Ok old -> j' = j /\ v = old)
         /\ (contains key j = false -> v = JNull)
         /\ (forall k d, k <> key -> at_key k d j' = at_key k d j))
    /\ (is_null j || is_object j = false ->
          subscript_key key j = Throw (JSONParseError "Not an object")).
Proof.
  intros key j. split.
  - intros Hj.
    assert (Hobj : exists obj, (if is_null j then JObject [] else j) = JObject obj
                               /\ (forall k d, at_key k d (JObject obj) = at_key k d j)
                               /\ contains key (JObject obj) = contains key j
                               /\ (forall old, const_subscript_key key j = Ok old -> j = JObject obj)).
    { destruct j; try discriminate Hj.
      - exists []. repeat split. intros old H. discriminate H.
      - exists obj. repeat split. }
    destruct Hobj as (obj & Hobj & Hat & Hc & Hold).
    unfold subscript_key. rewrite Hobj. unfold StdMap.subscript.
    destruct (StdMap.find key obj) as [v|] eqn:Ef.
    + exists (JObject obj), v. cbn [is_object const_subscript_key]. rewrite Ef.
      repeat split.
      * symmetry. now apply (Hold old).
      * specialize (Hold old H). subst j. cbn [const_subscript_key] in H.
        rewrite Ef in H. now injection H.
      * intros Hn. rewrite <- Hc in Hn. cbn [contains] in Hn. rewrite Ef in Hn. discriminate Hn.
      * intros k d _. apply Hat.
    + exists (JObject (StdMap.assign key JNull obj)), JNull.
      cbn [is_object const_subscript_key]. rewrite find_assign_same.
      repeat split.
      * specialize (Hold old H). subst j. cbn [const_subscript_key] in H.
        rewrite Ef in H. discriminate H.
      * specialize (Hold old H). subst j. cbn [const_subscript_key] in H.
        rewrite Ef in H. discriminate H.
      * intros k d Hk. rewrite <- Hat. cbn [at_key]. now rewrite find_assign_other.
  - intros Hj. destruct j; try discriminate Hj; reflexivity.
Qed.

Lemma nth_error_resize (n : nat) (arr : list JSON) (i : nat) :
  nth_error (resize n arr) i
  = if (i <? List.length arr)%nat then nth_error arr i
    else if (i <? n)%nat then Some JNull else None.
Proof.
  unfold resize. destruct (i <? List.length arr)%nat eqn:E.
  - apply Nat.ltb_lt in E. now apply nth_error_app1.
  - apply Nat.ltb_ge in E. rewrite nth_error_app2 by exact E.
    destruct (i <? n)%nat eqn:E'.
    + apply Nat.ltb_lt in E'. apply nth_error_repeat. lia.
    + apply Nat.ltb_ge in E'. apply nth_error_None. rewrite repeat_length. lia.
Qed.

Lemma length_resize (n : nat) (arr : list JSON) :
  List.length (resize n arr) = Nat.max (List.length arr) n.
Proof. unfold resize. rewrite length_app, repeat_length. lia. Qed.

(** Where the [resize] is granted, and below [SIZE_MAX], the call with the
    failure in it is the call of [EJson]. *)
Lemma subscript_index_unlimited
  (refuses : nat -> option Growth.alloc_error) (SIZE_MAX idx : nat) (j : JSON) :
  (idx < SIZE_MAX)%nat -> refuses (S idx) = None ->
  Growth.subscript_index refuses SIZE_MAX idx j
  = match EJson.subscript_index idx j with
    | Ok (j', v) => (j', Growth.returns v)
    | Throw e => (j, Growth.raises (Growth.thrown e))
    end.
Proof.
  intros Hi Hr. unfold Growth.subscript_index, EJson.subscript_index.
  assert (E : (idx =? SIZE_MAX)%nat = false) by (apply Nat.eqb_neq; lia).
  destruct j; cbn [is_null]; try reflexivity.
  - cbn [List.length Nat.leb]. now rewrite E, Hr.
  - destruct (List.length arr <=? idx)%nat; [now rewrite E, Hr | reflexivity].
Qed.

(** X3.  The mutable [operator[]] with an index below [SIZE_MAX], on an
    Array.  Where the index is past the end and the machine grants the
    [resize], the array grows to [idx + 1] elements, the old elements kept
    and the new ones Null, and the reference denotes the element at [idx];
    on Null it makes an array of [idx + 1] Nulls.  Where the [resize] is
    refused, the exception leaves the Array as it was, and leaves an empty
    Array where the receiver was Null.  An index in range changes nothing.
    The const [operator[]] throws on an index past the end. *)
Theorem subscript_index_grows_with_nulls
  (refuses : nat -> option Growth.alloc_error) (SIZE_MAX idx : nat) (arr : list JSON) :
  (idx < SIZE_MAX)%nat ->
  (refuses (S idx) = None ->
     exists arr',
       Growth.subscript_index refuses SIZE_MAX idx (JArray arr)
       = (JArray arr', Growth.returns (nth idx arr' JNull))
       /\ List.length arr' = Nat.max (List.length arr) (S idx)
       /\ (forall i, (i < List.length arr)%nat -> nth_error arr' i = nth_error arr i)
       /\ (forall i, (List.length arr <= i < List.length arr')%nat ->
                     nth_error arr' i = Some JNull)
       /\ const_subscript_index idx (JArray arr') = Ok (nth idx arr' JNull)
       /\ Growth.subscript_index refuses SIZE_MAX idx JNull
          = (JArray (repeat JNull (S idx)), Growth.returns JNull))
  /\ (forall a, refuses (S idx) = Some a ->
        ((List.length arr <= idx)%nat ->
           Growth.subscript_index refuses SIZE_MAX idx (JArray arr)
           = (JArray arr, Growth.raises (Growth.alloc a)))
        /\ Growth.subscript_index refuses SIZE_MAX idx JNull
           = (JArray [], Growth.raises (Growth.alloc a)))
  /\ ((idx < List.length arr)%nat ->
        Growth.subscript_index refuses SIZE_MAX idx (JArray arr)
        = (JArray arr, Growth.returns (nth idx arr JNull)))
  /\ ((List.length arr <= idx)%nat ->
        const_subscript_index idx (JArray arr)
        = Throw (JSONParseError "Array index out of bounds")).
Proof.
  intros Hidx.
  assert (E : (idx =? SIZE_MAX)%nat = false) by (apply Nat.eqb_neq; lia).
  split; [|split; [|split]].
  - intros Hr. unfold Growth.subscript_index. cbn [is_null List.length Nat.leb].
    rewrite E, Hr.
    destruct (List.length arr <=? idx)%nat eqn:El.
    + apply Nat.leb_le in El. exists (resize (S idx) arr).
      split; [reflexivity|]. split; [rewrite length_resize; lia|].
      split; [intros i Hi; rewrite nth_error_resize; apply Nat.ltb_lt in Hi; now rewrite Hi|].
      split.
      * intros i [Hi1 Hi2]. rewrite length_resize in Hi2. rewrite nth_error_resize.
        assert (Hlt : (i <? List.length arr)%nat = false) by (apply Nat.ltb_ge; lia).
        rewrite Hlt. assert (Hn : (i <? S idx)%nat = true) by (apply Nat.ltb_lt; lia).
        now rewrite Hn.
      * split.
        -- cbn [const_subscript_index].
           assert (Hlt : (idx < List.length (resize (S idx) arr))%nat)
             by (rewrite length_resize; lia).
           now rewrite (nth_error_nth' _ JNull Hlt).
        -- unfold resize. cbn [app List.length Nat.sub]. f_equal. f_equal.
           change (JNull :: repeat JNull idx) with (repeat JNull (S idx)). apply nth_repeat.
    + apply Nat.leb_gt in El. exists arr. split; [reflexivity|].
      split; [lia|]. split; [reflexivity|]. split; [intros i Hi; lia|].
      split.
      * cbn [const_subscript_index]. now rewrite (nth_error_nth' _ JNull El).
      * unfold resize. cbn [app List.length Nat.sub]. f_equal. f_equal.
        change (JNull :: repeat JNull idx) with (repeat JNull (S idx)). apply nth_repeat.
  - intros a Hr. split.
    + intros Hl. unfold Growth.subscript_index. cbn [is_null].
      apply Nat.leb_le in Hl. now rewrite Hl, E, Hr.
    + unfold Growth.subscript_index. cbn [is_null List.length Nat.leb]. now rewrite E, Hr.
  - intros Hl. unfold Growth.subscript_index. cbn [is_null].
    apply Nat.leb_gt in Hl. now rewrite Hl.
  - intros H. cbn [const_subscript_index].
    assert (Hn : nth_error arr idx = None) by (apply nth_error_None; exact H).
    now rewrite Hn.
Qed.

(** X3 on an array of one element, at index 3, on a machine that grants
    100 elements and on one that grants 2. *)
Lemma subscript_index_witness :
  (exists arr',
     Growth.subscript_index (Growth.up_to 100) (2 ^ 16 - 1) 3 (JArray [JBool true])
     = (JArray arr', Growth.returns (nth 3 arr' JNull))
     /\ arr' = [JBool true; JNull; JNull; JNull])
  /\ Growth.subscript_index (Growth.up_to 2) (2 ^ 16 - 1) 3 (JArray [JBool true])
     = (JArray [JBool true], Growth.raises (Growth.alloc Growth.length_error))
  /\ Growth.subscript_index (Growth.up_to 2) (2 ^ 16 - 1) 3 JNull
     = (JArray [], Growth.raises (Growth.alloc Growth.length_error)).
Proof.
  assert (H : (3 < (2 ^ 16 - 1))%nat) by (apply Nat.ltb_lt; reflexivity).
  destruct (subscript_index_grows_with_nulls (Growth.up_to 100) (2 ^ 16 - 1) 3 [JBool true] H)
    as (H1 & _).
  destruct (subscript_index_grows_with_nulls (Growth.up_to 2) (2 ^ 16 - 1) 3 [JBool true] H)
    as (_ & H2 & _).
  split; [|split].
  - destruct (H1 eq_refl) as (arr' & Hs & _). exists arr'. split; [exact Hs|].
    injection Hs as <-. reflexivity.
  - apply (H2 Growth.length_error eq_refl). cbn. lia.
  - apply (H2 Growth.length_error eq_refl).
Defined.

(** X4.  [pop_back] undoes [push_back] on an Array.  [push_back] on Null
    makes a one-element array, so [pop_back] leaves an empty array there, not
    Null.  [pop_back] on an empty array throws, and both throw on anything
    that is not an array. *)
Theorem pop_back_undoes_push_back :
  forall (item j : JSON),
    (forall arr, j = JArray arr ->
       push_back item j = Ok (JArray (arr ++ [item]))
       /\ pop_back (JArray (arr ++ [item])) = Ok j
       /\ const_subscript_index (List.length arr) (JArray (arr ++ [item])) = Ok item)
    /\ (j = JNull ->
          push_back item j = Ok (JArray [item])
          /\ pop_back (JArray [item]) = Ok (JArray []))
    /\ pop_back (JArray []) = Throw (JSONParseError "Array is empty")
    /\ (is_null j || is_array j = false ->
          push_back item j = Throw (JSONParseError "Not an array"))
    /\ (is_array j = false -> pop_back j = Throw (JSONParseError "Not an array")).
Proof.
  intros item j. repeat split.
  - subst j. reflexivity.
  - subst j. cbn [pop_back]. destruct (arr ++ [item])%list eqn:E.
    + now destruct arr.
    + rewrite <- E. now rewrite removelast_last.
  - cbn [const_subscript_index]. rewrite nth_error_app2 by lia.
    now rewrite Nat.sub_diag.
  - subst j. reflexivity.
  - intros H. destruct j; try discriminate H; reflexivity.
  - intros H. destruct j; try discriminate H; reflexivity.
Qed.

(** X5.  [insert(index, item)] succeeds exactly for [index <= size] and
    puts [item] at [index], the elements from there on moving up by one;
    [erase(index)] then restores the array.  [insert] at the size is
    [push_back] and at 0 is [push_front], except that [insert] does not
    turn Null into an array.  [erase] succeeds exactly for
    [index < size]. *)
Theorem erase_undoes_insert :
  forall (index : nat) (item : JSON) (arr : list JSON),
    ((index <= List.length arr)%nat ->
       exists arr',
         insert index item (JArray arr) = Ok (JArray arr')
         /\ List.length arr' = S (List.length arr)
         /\ nth_error arr' index = Some item
         /\ (forall i, (i < index)%nat -> nth_error arr' i = nth_error arr i)
         /\ (forall i, (index <= i)%nat -> nth_error arr' (S i) = nth_error arr i)
         /\ erase_index index (JArray arr') = Ok (JArray arr))
    /\ ((List.length arr < index)%nat ->
          insert index item (JArray arr) = Throw (JSONParseError "Index out of bounds"))
    /\ ((List.length arr <= index)%nat ->
          erase_index index (JArray arr) = Throw (JSONParseError "Index out of bounds"))
    /\ insert (List.length arr) item (JArray arr) = push_back item (JArray arr)
    /\ insert 0 item (JArray arr) = push_front item (JArray arr)
    /\ insert 0 item JNull = Throw (JSONParseError "Not an array")
    /\ push_front item JNull = Ok (JArray [item]).
Proof.
  intros index item arr. split; [|split; [|split; [|split; [|split; [|split]]]]].
  - intros Hle. exists (firstn index arr ++ item :: skipn index arr)%list.
    assert (Hf : List.length (firstn index arr) = index) by (rewrite length_firstn; lia).
    cbn [insert]. replace (List.length arr <? index)%nat with false
      by (symmetry; apply Nat.ltb_ge; exact Hle).
    split; [reflexivity|]. split; [|split; [|split; [|split]]].
    + rewrite length_app. cbn [List.length]. rewrite Hf, length_skipn. lia.
    + rewrite nth_error_app2 by lia. rewrite Hf, Nat.sub_diag. reflexivity.
    + intros i Hi. rewrite nth_error_app1 by lia. rewrite nth_error_firstn.
      apply Nat.ltb_lt in Hi. now rewrite Hi.
    + intros i Hi. rewrite nth_error_app2 by lia. rewrite Hf.
      replace (S i - index)%nat with (S (i - index)) by lia. cbn [nth_error].
      rewrite nth_error_skipn. f_equal. lia.
    + cbn [erase_index]. rewrite length_app. cbn [List.length]. rewrite Hf, length_skipn.
      replace (index + S (List.length arr - index) <=? index)%nat with false
        by (symmetry; apply Nat.leb_gt; lia).
      f_equal. f_equal.
      rewrite firstn_app, Hf, Nat.sub_diag. cbn [firstn].
      rewrite firstn_all2 by lia. rewrite app_nil_r.
      replace (S index) with (List.length (firstn index arr ++ [item]))%nat
        by (rewrite length_app; cbn [List.length]; lia).
      change (firstn index arr ++ item :: skipn index arr)%list
        with (firstn index arr ++ [item] ++ skipn index arr)%list.
      rewrite app_assoc, skipn_app, Nat.sub_diag, skipn_all. cbn [skipn app].
      apply firstn_skipn.
  - intros H. cbn [insert]. apply Nat.ltb_lt in H. now rewrite H.
  - intros H. cbn [erase_index]. apply Nat.leb_le in H. now rewrite H.
  - cbn [insert push_back is_null]. rewrite Nat.ltb_irrefl.
    now rewrite firstn_all, skipn_all.
  - reflexivity.
  - reflexivity.
  - reflexivity.
Qed.

Lemma erase_undoes_insert_witness :
  exists arr',
    insert 1 (JBool true) (JArray [JNull; JString "x"]) = Ok (JArray arr')
    /\ List.length arr' = 3%nat
    /\ nth_error arr' 1 = Some (JBool true)
    /\ (forall i, (i < 1)%nat -> nth_error arr' i = nth_error [JNull; JString "x"] i)
    /\ (forall i, (1 <= i)%nat -> nth_error arr' (S i) = nth_error [JNull; JString "x"] i)
    /\ erase_index 1 (JArray arr') = Ok (JArray [JNull; JString "x"]).
Proof.
  apply (proj1 (erase_undoes_insert 1 (JBool true) [JNull; JString "x"])). cbn. lia.
Defined.

(** X6.  [erase(key)] on an Object never throws, also when the key is
    absent, which leaves the object as it was; afterwards the key is absent
    and every other key has the entry it had.  On anything but an Object it
    throws. *)
Theorem erase_key_removes_only_the_key :
  forall (key : string) (j : JSON),
    (forall obj, j = JObject obj -> StdMap.sorted obj ->
       exists obj',
         erase_key key j = Ok (JObject obj')
         /\ StdMap.sorted obj'
         /\ contains key (JObject obj') = false
         /\ (forall k d, k <> key -> at_key k d (JObject obj') = at_key k d j)
         /\ (contains key j = false -> obj' = obj)
         /\ (contains key j = true -> List.length obj = S (List.length obj')))
    /\ (is_object j = false -> erase_key key j = Throw (JSONParseError "Not an object")).
Proof.
  intros key j. split.
  - intros obj -> Hs. exists (StdMap.erase key obj). split; [reflexivity|].
    split; [now apply erase_sorted|]. split; [|split; [|split]].
    + cbn [contains]. now rewrite find_erase_same.
    + intros k d Hk. cbn [at_key]. now rewrite find_erase_other.
    + cbn [contains]. destruct (StdMap.find key obj) eqn:E; [discriminate|].
      intros _. now apply erase_absent.
    + cbn [contains]. clear Hs. induction obj as [|[k0 v0] obj IH]; cbn [StdMap.find StdMap.erase].
      * discriminate.
      * destruct (String.compare key k0); [reflexivity | discriminate |].
        intros H. cbn [List.length]. now rewrite (IH H).
  - intros H. destruct j; try discriminate H; reflexivity.
Qed.

Lemma erase_key_witness :
  exists obj',
    erase_key "b" (JObject [("a", JNull); ("b", JBool true)]) = Ok (JObject obj')
    /\ StdMap.sorted obj'
    /\ contains "b" (JObject obj') = false
    /\ (forall k d, k <> "b" ->
          at_key k d (JObject obj') = at_key k d (JObject [("a", JNull); ("b", JBool true)]))
    /\ (contains "b" (JObject [("a", JNull); ("b", JBool true)]) = false ->
          obj' = [("a", JNull); ("b", JBool true)])
    /\ (contains "b" (JObject [("a", JNull); ("b", JBool true)]) = true ->
          List.length [("a", JNull); ("b", JBool true)] = S (List.length obj')).
Proof.
  apply (proj1 (erase_key_removes_only_the_key "b" (JObject [("a", JNull); ("b", JBool true)]))
               _ eq_refl).
  repeat constructor.
Defined.

(** X7.  [merge(other)] of two Objects never throws: afterwards a key of
    [other] has the entry it has in [other], and every other key the entry
    it had in the receiver; the keys stay sorted.  Merging an object into
    itself, or an empty object, changes nothing.  When either side is not an
    Object, Null included, it throws. *)
Theorem merge_overwrites_with_other :
  forall (other j : JSON),
    (forall obj other_obj,
       j = JObject obj -> other = JObject other_obj ->
       StdMap.sorted obj -> StdMap.sorted other_obj ->
       exists merged,
         merge other j = Ok (JObject merged)
         /\ StdMap.sorted merged
         /\ (forall k, StdMap.find k merged
                       = match StdMap.find k other_obj with
                         | Some v => Some v
                         | None => StdMap.find k obj
                         end)
         /\ merge other (JObject merged) = Ok (JObject merged))
    /\ (forall obj, j = JObject obj -> merge (JObject []) j = Ok j)
    /\ (is_object j && is_object other = false ->
          merge other j = Throw (JSONParseError "Can only merge objects")).
Proof.
  intros other j. split; [|split].
  - intros obj other_obj -> -> Hs Hso. cbn [merge].
    set (f := fun (acc : StdMap.t JSON) (kv : string * JSON) =>
                StdMap.assign (fst kv) (snd kv) acc).
    exists (fold_left f other_obj obj). split; [reflexivity|].
    split; [now apply fold_assign_sorted|].
    assert (Hfind : forall m k, StdMap.find k (fold_left f other_obj m)
                                = match StdMap.find k other_obj with
                                  | Some v => Some v
                                  | None => StdMap.find k m
                                  end).
    { intros m k. unfold f. rewrite find_fold_assign. now rewrite last_value_sorted. }
    split; [apply Hfind|].
    f_equal. f_equal.
    assert (Hfix : forall l m,
               (forall kv, In kv l -> StdMap.find (fst kv) m = Some (snd kv)) ->
               fold_left f l m = m).
    { induction l as [|kv l IHl]; intros m Hm; cbn [fold_left]; [reflexivity|].
      unfold f at 2. rewrite assign_present by (apply Hm; now left).
      apply IHl. intros kv' Hin. apply Hm. now right. }
    apply Hfix. intros [k v] Hin. cbn [fst snd]. rewrite Hfind.
    assert (Hk : StdMap.find k other_obj = Some v).
    { clear -Hso Hin. induction other_obj as [|[k0 v0] m IH]; [destruct Hin|].
      apply sorted_cons_iff in Hso as [Ha Hso]. cbn [StdMap.find].
      destruct Hin as [Heq|Hin].
      - injection Heq as -> ->. now rewrite compare_refl.
      - specialize (IH Hso Hin).
        destruct (String.compare k k0) eqn:E.
        + apply compare_eq in E. subst k0. rewrite (find_above _ _ Ha) in IH. discriminate IH.
        + rewrite (find_above k m) in IH by (now apply above_trans with k0). discriminate IH.
        + exact IH. }
    now rewrite Hk.
  - intros obj ->. reflexivity.
  - intros H. destruct j, other; try discriminate H; reflexivity.
Qed.

Lemma merge_witness :
  exists merged,
    merge (JObject [("b", JNull); ("c", JBool true)]) (JObject [("a", JNull); ("b", JBool false)])
    = Ok (JObject merged)
    /\ StdMap.sorted merged
    /\ (forall k, StdMap.find k merged
                  = match StdMap.find k [("b", JNull); ("c", JBool true)] with
                    | Some v => Some v
                    | None => StdMap.find k [("a", JNull); ("b", JBool false)]
                    end)
    /\ merge (JObject [("b", JNull); ("c", JBool true)]) (JObject merged) = Ok (JObject merged).
Proof.
  apply (proj1 (merge_overwrites_with_other
                  (JObject [("b", JNull); ("c", JBool true)])
                  (JObject [("a", JNull); ("b", JBool false)])) _ _ eq_refl eq_refl);
    repeat constructor.
Defined.

(** X8.  An Object built from a list of pairs ([ejson::object], the
    initializer-list constructor) has its keys sorted and, for each key, the
    value of the last pair with that key: a later duplicate overwrites an
    earlier one; a key of no pair is absent. *)
Theorem object_keeps_the_last_duplicate :
  forall (list : list (string * JSON)),
    exists obj,
      object list = JObject obj
      /\ StdMap.sorted obj
      /\ (forall k, StdMap.find k obj = last_value k list)
      /\ (forall k, contains k (object list) = existsb (fun kv => String.eqb (fst kv) k) list)
      /\ (List.length obj <= List.length list)%nat.
Proof.
  intros list. unfold object.
  set (f := fun (acc : StdMap.t JSON) (kv : string * JSON) =>
              StdMap.assign (fst kv) (snd kv) acc).
  exists (fold_left f list []). split; [reflexivity|].
  split; [apply fold_assign_sorted; constructor|].
  assert (Hfind : forall k, StdMap.find k (fold_left f list []) = last_value k list).
  { intros k. unfold f. rewrite find_fold_assign. now destruct (last_value k list). }
  split; [exact Hfind|]. split.
  - intros k. cbn [contains]. rewrite Hfind. clear.
    induction list as [|kv l IH]; cbn [last_value existsb]; [reflexivity|].
    destruct (last_value k l).
    + rewrite <- IH. now rewrite orb_true_r.
    + rewrite <- IH. rewrite orb_false_r. now destruct (String.eqb (fst kv) k).
  - assert (Hlen : forall k (v : JSON) m,
               (List.length (StdMap.assign k v m) <= S (List.length m))%nat).
    { intros k v m. induction m as [|[k0 v0] m IHm]; cbn [StdMap.assign List.length]; [lia|].
      destruct (String.compare k k0); cbn [List.length]; lia. }
    assert (Hgen : forall l m,
               (List.length (fold_left f l m) <= List.length m + List.length l)%nat).
    { induction l as [|kv l IHl]; intros m; cbn [fold_left List.length]; [lia|].
      specialize (IHl (f m kv)). specialize (Hlen (fst kv) (snd kv) m).
      change (StdMap.assign (fst kv) (snd kv) m) with (f m kv) in Hlen. lia. }
    apply (Hgen list []).
Qed.

(** [empty] implies [size() == 0]; a Bool or a Number is never
    [empty] although its size is 0, and Null is.  After [clear], which turns
    an Array into an empty array, an Object into an empty object and
    anything else into Null, the value is [empty] and of size 0; [clear]
    twice is [clear] once. *)
Theorem clear_leaves_an_empty_value :
  forall j : JSON,
    (empty j = true -> size j = 0%nat)
    /\ (size j = 0%nat -> empty j = negb (is_bool j || is_number j))
    /\ empty (clear j) = true
    /\ size (clear j) = 0%nat
    /\ clear (clear j) = clear j
    /\ (is_array j = true -> clear j = JArray [])
    /\ (is_object j = true -> clear j = JObject [])
    /\ (is_array j || is_object j = false -> clear j = JNull).
Proof.
  intros j. repeat split; destruct j as [| | | s | arr | obj]; cbn;
    try reflexivity; try discriminate;
    try (destruct s; cbn; try reflexivity; discriminate);
    try (destruct arr; cbn; try reflexivity; discriminate);
    try (destruct obj; cbn; try reflexivity; discriminate).
Qed.

(** X9.  [get_or<T>] uses its default only for [T = std::string]: there
    it is [as_string(default)].  For [bool] and [double] the accessor
    inside the [try] never throws, so the default is ignored: a value that
    is not a Bool gives [false] and one that is not a Number gives 0. *)
Theorem get_or_ignores_its_default_except_for_strings :
  forall (j : JSON),
    (forall default_val, get_or get_bool default_val j = as_bool false j)
    /\ (forall default_val, get_or get_double default_val j = as_number (S754_zero false) j)
    /\ (forall default_val, get_or get_string default_val j = as_string_or default_val j)
    /\ (is_bool j = false -> forall default_val, get_or get_bool default_val j = false)
    /\ (is_number j = false ->
          forall default_val, get_or get_double default_val j = S754_zero false)
    /\ (is_string j = false -> forall default_val, get_or get_string default_val j = default_val).
Proof.
  intros j. repeat split; try (intros d; now destruct j);
    intros H d; destruct j; try discriminate H; reflexivity.
Qed.

End JsonContainers.

(** ** JSON: writing along a path *)

Module PathWrites.
Import EJson.
Import MapLaws.
Import Paths.

Lemma nth_error_store_same (i : nat) (v : JSON) (arr : list JSON) :
  (i < List.length arr)%nat -> nth_error (store i v arr) i = Some v.
Proof.
  revert i. induction arr as [|x arr IH]; intros [|i] H; cbn [List.length] in H;
    cbn [store nth_error]; try lia; [reflexivity|]. apply IH. lia.
Qed.

Lemma store_nth (i : nat) (arr : list JSON) : store i (nth i arr JNull) arr = arr.
Proof.
  revert i. induction arr as [|x arr IH]; intros [|i]; cbn [store nth]; try reflexivity.
  now rewrite IH.
Qed.

Lemma resized_in_range (i : nat) (arr : list JSON) :
  (i < List.length (if (List.length arr <=? i)%nat then resize (S i) arr else arr))%nat.
Proof.
  destruct (List.length arr <=? i)%nat eqn:E.
  - unfold resize. rewrite length_app, repeat_length. apply Nat.leb_le in E. lia.
  - now apply Nat.leb_gt in E.
Qed.

Lemma resolve_set_parts (parts : list path_part) (val : JSON) :
  forall j j',
    parts <> [] -> set_parts parts val j = (j', None) -> resolve parts j' = val.
Proof.
  induction parts as [|[key index] parts IH]; intros j j' Hne H; [congruence|].
  cbn [set_parts] in H. cbn [resolve].
  destruct (index =? -1) eqn:Ei.
  - destruct (if is_null j then JObject [] else j) as [| | | | |obj] eqn:Ej;
      try discriminate H.
    destruct parts as [|p parts].
    + injection H as <-. rewrite find_assign_same. reflexivity.
    + remember (p :: parts) as rest eqn:Er.
      destruct (StdMap.subscript JNull key obj) as [obj2 child].
      destruct (set_parts rest val child) as [child' e] eqn:Es.
      injection H as <- ->. rewrite find_assign_same.
      apply (IH child child'); [subst rest; discriminate | exact Es].
  - destruct (if is_null j then JArray [] else j) as [| | | |arr|] eqn:Ej;
      try discriminate H.
    pose proof (resized_in_range (Z.to_nat index) arr) as Hlen.
    set (arr1 := if (List.length arr <=? Z.to_nat index)%nat
                 then resize (S (Z.to_nat index)) arr else arr) in *.
    assert (Hst : forall v, (Z.to_nat index < List.length (store (Z.to_nat index) v arr1))%nat).
    { intros v. apply nth_error_Some. rewrite nth_error_store_same by exact Hlen. discriminate. }
    destruct parts as [|p parts].
    + injection H as <-. rewrite nth_error_store_same by exact Hlen. reflexivity.
    + remember (p :: parts) as rest eqn:Er.
      destruct (set_parts rest val (nth (Z.to_nat index) arr1 JNull)) as [child' e] eqn:Es.
      injection H as <- ->. rewrite nth_error_store_same by exact Hlen.
      apply (IH (nth (Z.to_nat index) arr1 JNull) child'); [subst rest; discriminate | exact Es].
Qed.

(** X10.  After a [set_path] that did not throw, on a path with at least
    one step, [at_path] with the same path returns the value written,
    whatever the receiver was before. *)
Theorem at_path_reads_what_set_path_wrote (path : string) (val j : JSON) :
  forall parts j',
    path_parts (String.length path) path = Ok parts -> parts <> [] ->
    set_path path val j = (j', None) ->
    at_path path j' = Ok val.
Proof.
  intros parts j' Hp Hne Hs. unfold set_path in Hs. rewrite Hp in Hs.
  unfold at_path. rewrite (at_path_loop_resolves _ _ j' _ Hp).
  f_equal. now apply (resolve_set_parts parts val j j').
Qed.

Lemma at_path_reads_witness :
  at_path "users[2].name" (fst (set_path "users[2].name" (JString "x")
                                  (JObject [("users", JArray [JNull])])))
  = Ok (JString "x").
Proof.
  apply (at_path_reads_what_set_path_wrote "users[2].name" (JString "x")
           (JObject [("users", JArray [JNull])])
           [("users", -1); (EmptyString, 2); ("name", -1)]).
  - reflexivity.
  - discriminate.
  - reflexivity.
Defined.

(** *** A [resize] that is refused *)

Section Machine.
Variable refuses : nat -> option Growth.alloc_error.

(** On a machine that grants every [resize], the walk with the failure in
    it is the walk of [EJson]. *)
Lemma set_parts_unlimited (parts : list path_part) (val : JSON) :
  (forall n, refuses n = None) ->
  forall j, Growth.set_parts refuses parts val j
            = (fst (EJson.set_parts parts val j),
               option_map Growth.thrown (snd (EJson.set_parts parts val j))).
Proof.
  intros Hr. induction parts as [|[key index] parts IH]; intros j; [reflexivity|].
  cbn [Growth.set_parts EJson.set_parts].
  destruct (index =? -1).
  - destruct (if is_null j then JObject [] else j); try reflexivity.
    destruct parts as [|p parts]; [reflexivity|]. remember (p :: parts) as rest.
    destruct (StdMap.subscript JNull key obj) as [obj2 child]. rewrite IH.
    destruct (EJson.set_parts rest val child) as [child' e]. reflexivity.
  - destruct (if is_null j then JArray [] else j); try reflexivity.
    rewrite Hr.
    set (arr1 := if (List.length arr <=? Z.to_nat index)%nat
                 then resize (S (Z.to_nat index)) arr else arr).
    replace (if (List.length arr <=? Z.to_nat index)%nat
             then @inl (list JSON) Growth.alloc_error (resize (S (Z.to_nat index)) arr)
             else inl arr) with (@inl (list JSON) Growth.alloc_error arr1)
      by (subst arr1; destruct (List.length arr <=? Z.to_nat index)%nat; reflexivity).
    destruct parts as [|p parts]; [reflexivity|]. remember (p :: parts) as rest.
    rewrite IH.
    destruct (EJson.set_parts rest val (nth (Z.to_nat index) arr1 JNull)) as [child' e].
    reflexivity.
Qed.

(** From Null the walk throws nothing of its own: all it can raise is a
    refused [resize]. *)
Lemma set_parts_null_raises (parts : list path_part) (val : JSON) :
  forall e, snd (Growth.set_parts refuses parts val JNull) <> Some (Growth.thrown e).
Proof.
  induction parts as [|[key index] parts IH]; intros e; [discriminate|].
  cbn [Growth.set_parts is_null]. destruct (index =? -1).
  - destruct parts as [|p parts]; [discriminate|].
    remember (p :: parts) as rest. cbn [StdMap.subscript StdMap.find StdMap.assign].
    destruct (Growth.set_parts refuses rest val JNull) as [child' e'] eqn:Es.
    cbn [snd]. exact (IH e).
  - cbn [List.length Nat.leb].
    destruct (refuses (S (Z.to_nat index))) as [a|]; [discriminate|].
    destruct parts as [|p parts]; [discriminate|].
    remember (p :: parts) as rest.
    replace (nth (Z.to_nat index) (resize (S (Z.to_nat index)) []) JNull) with JNull
      by (unfold resize; cbn [app List.length Nat.sub]; symmetry; apply nth_repeat).
    destruct (Growth.set_parts refuses rest val JNull) as [child' e'] eqn:Es.
    cbn [snd]. exact (IH e).
Qed.

Lemma set_parts_thrown_unchanged (parts : list path_part) (val : JSON) :
  forall j j' e, Growth.set_parts refuses parts val j = (j', Some (Growth.thrown e)) -> j' = j.
Proof.
  induction parts as [|[key index] parts IH]; intros j j' e H; [discriminate H|].
  destruct j as [| b | num | s | arr | obj];
    try (assert (Hn : snd (j', Some (Growth.thrown e)) <> Some (Growth.thrown e))
           by (rewrite <- H; apply set_parts_null_raises);
         now contradiction Hn);
    cbn [Growth.set_parts is_null] in H.
  - destruct (index =? -1); now injection H as <-.
  - destruct (index =? -1); now injection H as <-.
  - destruct (index =? -1); now injection H as <-.
  - destruct (index =? -1); [now injection H as <-|].
    destruct (List.length arr <=? Z.to_nat index)%nat eqn:El.
    + destruct (refuses (S (Z.to_nat index))) as [a|]; [discriminate H|].
      destruct parts as [|p parts]; [discriminate H|].
      remember (p :: parts) as rest.
      replace (nth (Z.to_nat index) (resize (S (Z.to_nat index)) arr) JNull) with JNull in H.
      * pose proof (set_parts_null_raises rest val e) as Hn.
        destruct (Growth.set_parts refuses rest val JNull) as [child' e']. cbn [snd] in Hn.
        injection H as _ ->. contradiction.
      * unfold resize. apply Nat.leb_le in El. rewrite app_nth2 by exact El.
        symmetry. apply nth_repeat.
    + destruct parts as [|p parts]; [discriminate H|].
      remember (p :: parts) as rest.
      destruct (Growth.set_parts refuses rest val (nth (Z.to_nat index) arr JNull))
        as [child' e'] eqn:Es.
      injection H as <- ->. rewrite (IH _ _ _ Es). now rewrite store_nth.
  - destruct (index =? -1); [|now injection H as <-].
    destruct parts as [|p parts]; [discriminate H|].
    remember (p :: parts) as rest. unfold StdMap.subscript in H.
    destruct (StdMap.find key obj) as [child|] eqn:Ef.
    + destruct (Growth.set_parts refuses rest val child) as [child' e'] eqn:Es.
      injection H as <- ->. rewrite (IH _ _ _ Es). now rewrite assign_present.
    + pose proof (set_parts_null_raises rest val e) as Hn.
      destruct (Growth.set_parts refuses rest val JNull) as [child' e']. cbn [snd] in Hn.
      injection H as _ ->. contradiction.
Qed.

(** An allocation failure of the walk is a [resize] that the machine
    refuses, to one more than an index of the path. *)
Lemma set_parts_alloc_refused (parts : list path_part) (val : JSON) :
  forall j j' a,
    Growth.set_parts refuses parts val j = (j', Some (Growth.alloc a)) ->
    exists key index, In (key, index) parts /\ refuses (S (Z.to_nat index)) = Some a.
Proof.
  induction parts as [|[key index] parts IH]; intros j j' a H; [discriminate H|].
  cbn [Growth.set_parts] in H.
  destruct (index =? -1).
  - destruct (if is_null j then JObject [] else j); try discriminate H.
    destruct parts as [|p parts]; [discriminate H|]. remember (p :: parts) as rest.
    destruct (StdMap.subscript JNull key obj) as [obj2 child].
    destruct (Growth.set_parts refuses rest val child) as [child' e'] eqn:Es.
    injection H as _ ->. destruct (IH _ _ _ Es) as (k & i & Hin & Hr).
    exists k, i. split; [now right | exact Hr].
  - destruct (if is_null j then JArray [] else j); try discriminate H.
    destruct (List.length arr <=? Z.to_nat index)%nat.
    + destruct (refuses (S (Z.to_nat index))) as [a'|] eqn:Er.
      * injection H as _ ->. exists key, index. split; [now left | exact Er].
      * destruct parts as [|p parts]; [discriminate H|]. remember (p :: parts) as rest.
        destruct (Growth.set_parts refuses rest val _) as [child' e'] eqn:Es.
        injection H as _ ->. destruct (IH _ _ _ Es) as (k & i & Hin & Hr).
        exists k, i. split; [now right | exact Hr].
    + destruct parts as [|p parts]; [discriminate H|]. remember (p :: parts) as rest.
      destruct (Growth.set_parts refuses rest val _) as [child' e'] eqn:Es.
      injection H as _ ->. destruct (IH _ _ _ Es) as (k & i & Hin & Hr).
      exists k, i. split; [now right | exact Hr].
Qed.

End Machine.

Lemma set_path_unlimited
  (refuses : nat -> option Growth.alloc_error) (path : string) (val j : JSON) :
  (forall n, refuses n = None) ->
  Growth.set_path refuses path val j
  = (fst (EJson.set_path path val j),
     option_map Growth.thrown (snd (EJson.set_path path val j))).
Proof.
  intros Hr. unfold Growth.set_path, EJson.set_path.
  destruct (path_parts (String.length path) path) as [parts|e0]; [|reflexivity].
  now apply set_parts_unlimited.
Qed.

(** X11.  A [set_path] that throws an exception of the library or of
    [std::stoi], for a malformed path, an index that is no [int] or a step
    into a value of the wrong kind, leaves the receiver as it was.  A
    [resize] that the machine refuses, to one more than an index of the
    path, is another matter: it can leave the containers made on the way,
    as [set_path("a[7]")] on Null leaves the Object whose [a] is an empty
    Array. *)
Theorem set_path_that_throws_changes_nothing
  (refuses : nat -> option Growth.alloc_error) (path : string) (val j : JSON) :
  (forall j' e, Growth.set_path refuses path val j = (j', Some (Growth.thrown e)) -> j' = j)
  /\ (forall j' a, Growth.set_path refuses path val j = (j', Some (Growth.alloc a)) ->
        exists parts key index,
          path_parts (String.length path) path = Ok parts
          /\ In (key, index) parts /\ refuses (S (Z.to_nat index)) = Some a)
  /\ (forall a, refuses 8%nat = Some a ->
        Growth.set_path refuses "a[7]" val JNull
        = (JObject [("a", JArray [])], Some (Growth.alloc a))).
Proof.
  split; [|split].
  - intros j' e H. unfold Growth.set_path in H.
    destruct (path_parts (String.length path) path) as [parts|e0].
    + now apply (set_parts_thrown_unchanged refuses parts val j j' e).
    + now injection H as <-.
  - intros j' a H. unfold Growth.set_path in H.
    destruct (path_parts (String.length path) path) as [parts|e0]; [|discriminate H].
    destruct (set_parts_alloc_refused refuses parts val j j' a H) as (k & i & Hin & Hr).
    now exists parts, k, i.
  - intros a Hr. unfold Growth.set_path.
    change (path_parts (String.length "a[7]") "a[7]")
      with (@Ok (list path_part) [("a", -1); (EmptyString, 7)]).
    cbn [Growth.set_parts is_null Z.eqb StdMap.subscript StdMap.find StdMap.assign List.length
         Nat.leb].
    change (Z.to_nat 7) with 7%nat. cbn [Nat.leb]. now rewrite Hr.
Qed.

(** X11 at a path into a Bool, and at [a[7]] from Null on a machine that
    grants 4 elements. *)
Lemma set_path_throws_witness :
  fst (Growth.set_path (Growth.up_to 4) "a[0].b" JNull (JObject [("a", JArray [JBool true])]))
  = JObject [("a", JArray [JBool true])]
  /\ Growth.set_path (Growth.up_to 4) "a[7]" JNull JNull
     = (JObject [("a", JArray [])], Some (Growth.alloc Growth.length_error)).
Proof.
  destruct (set_path_that_throws_changes_nothing (Growth.up_to 4) "a[0].b" JNull
              (JObject [("a", JArray [JBool true])])) as (H1 & _).
  destruct (set_path_that_throws_changes_nothing (Growth.up_to 4) "a[7]" JNull JNull)
    as (_ & _ & H3).
  split.
  - apply (H1 _ (JSONParseError "Expected object in path")). reflexivity.
  - apply (H3 Growth.length_error). reflexivity.
Defined.

Lemma path_parts_dots (path : string) :
  all (fun c => Ascii.eqb c ".") path = true ->
  forall fuel, (String.length path <= fuel)%nat -> path_parts fuel path = Ok [].
Proof.
  induction path as [|c path IH]; intros Hall fuel Hf; [now destruct fuel|].
  cbn [all] in Hall. apply andb_true_iff in Hall as [Hc Hall].
  destruct fuel as [|fuel]; [cbn [String.length] in Hf; lia|].
  cbn [path_parts]. rewrite Hc. apply IH; [exact Hall|]. cbn [String.length] in Hf. lia.
Qed.

(** X12.  A path with no step, the empty path or one made of dots only,
    makes [set_path] do nothing, the value being dropped, and makes
    [at_path] return the receiver itself. *)
Theorem path_without_steps_reaches_the_receiver (path : string) (val j : JSON) :
  all (fun c => Ascii.eqb c ".") path = true ->
  set_path path val j = (j, None)
  /\ at_path path j = Ok j
  /\ has_path path j = Ok (negb (is_null j)).
Proof.
  intros Hall. pose proof (path_parts_dots path Hall _ (Nat.le_refl _)) as Hp.
  assert (Hat : at_path path j = Ok j).
  { unfold at_path. now rewrite (at_path_loop_resolves _ _ j _ Hp). }
  split; [|split].
  - unfold set_path. now rewrite Hp.
  - exact Hat.
  - unfold has_path. now rewrite Hat.
Qed.

Lemma path_without_steps_witness :
  set_path ".." (JBool true) (JString "s") = (JString "s", None)
  /\ at_path ".." (JString "s") = Ok (JString "s")
  /\ has_path ".." (JString "s") = Ok (negb (is_null (JString "s"))).
Proof. apply (path_without_steps_reaches_the_receiver ".." (JBool true) (JString "s")). reflexivity. Defined.

End PathWrites.

(** ** XML: escaping of text *)

Module XmlText.
Import EXml.
Import NumberGrammar.

Lemma encode_text_length (s : string) :
  (String.length s <= String.length (encode_text s))%nat.
Proof.
  induction s as [|c s IH]; [apply Nat.le_refl|].
  cbn [encode_text]. rewrite length_append. cbn [String.length].
  destruct (Ascii.eqb c "<"); [cbn [String.length]; lia|].
  destruct (Ascii.eqb c ">"); [cbn [String.length]; lia|].
  destruct (Ascii.eqb c "&"); [cbn [String.length]; lia|].
  destruct (Ascii.eqb c dquote); [cbn [String.length]; lia|].
  destruct (Ascii.eqb c squote); cbn [String.length str1]; lia.
Qed.

Lemma decode_encode_loop (s : string) :
  forall fuel, (String.length s <= fuel)%nat -> decode_text_loop fuel (encode_text s) = s.
Proof.
  induction s as [|c s IH]; intros fuel Hf; [now destruct fuel|].
  destruct fuel as [|fuel]; [cbn [String.length] in Hf; lia|].
  assert (Hs : decode_text_loop fuel (encode_text s) = s)
    by (apply IH; cbn [String.length] in Hf; lia).
  cbn [encode_text].
  destruct (Ascii.eqb c "<") eqn:E1;
    [apply Ascii.eqb_eq in E1; subst c; cbn; now rewrite Hs|].
  destruct (Ascii.eqb c ">") eqn:E2;
    [apply Ascii.eqb_eq in E2; subst c; cbn; now rewrite Hs|].
  destruct (Ascii.eqb c "&") eqn:E3;
    [apply Ascii.eqb_eq in E3; subst c; cbn; now rewrite Hs|].
  destruct (Ascii.eqb c dquote) eqn:E4;
    [apply Ascii.eqb_eq in E4; subst c; cbn; now rewrite Hs|].
  destruct (Ascii.eqb c squote) eqn:E5;
    [apply Ascii.eqb_eq in E5; subst c; cbn; now rewrite Hs|].
  cbn [str1 append decode_text_loop]. rewrite E3. now rewrite Hs.
Qed.

Lemma decode_encode (s : string) : decode_text (encode_text s) = s.
Proof. unfold decode_text. apply decode_encode_loop. apply encode_text_length. Qed.

(** X13.  [decode_text] undoes [encode_text] on every text, so what
    [dump] writes for a text or an attribute value is read back as that
    text, and two texts with the same encoding are the same. *)
Theorem decode_text_undoes_encode_text :
  forall s : string,
    decode_text (encode_text s) = s
    /\ (forall s', encode_text s' = encode_text s -> s' = s).
Proof.
  intros s. split; [apply decode_encode|].
  intros s' H. rewrite <- (decode_encode s'), H. apply decode_encode.
Qed.

Lemma all_append (p : ascii -> bool) (a b : string) :
  all p (a ++ b) = all p a && all p b.
Proof. induction a as [|x a IH]; cbn [append all]; [reflexivity|]. now rewrite IH, andb_assoc. Qed.

Lemma encode_text_no_markup (s : string) :
  all (fun c => negb (is_markup c)) (encode_text s) = true.
Proof.
  induction s as [|c s IH]; [reflexivity|]. cbn [encode_text].
  rewrite all_append, IH, andb_true_r. unfold is_markup.
  destruct (Ascii.eqb c "<") eqn:E1; [reflexivity|].
  destruct (Ascii.eqb c ">") eqn:E2; [reflexivity|].
  destruct (Ascii.eqb c "&") eqn:E3; [reflexivity|].
  destruct (Ascii.eqb c dquote) eqn:E4; [reflexivity|].
  destruct (Ascii.eqb c squote) eqn:E5; [reflexivity|].
  cbn [str1 all]. now rewrite E1, E2, E4, E5.
Qed.

(** X14.  What [encode_text] writes holds no [<], no [>] and no quote of
    either kind, so it cannot end the text run or the quoted attribute
    value it stands in; a text with none of the five special characters is
    written as it is. *)
Theorem encode_text_writes_no_markup :
  forall s : string,
    all (fun c => negb (is_markup c)) (encode_text s) = true
    /\ (all (fun c => negb (is_markup c || Ascii.eqb c "&")) s = true -> encode_text s = s).
Proof.
  intros s. split; [apply encode_text_no_markup|].
  induction s as [|c s IH]; [reflexivity|]. cbn [all encode_text]. intros H.
  apply andb_true_iff in H as [Hc Hs]. rewrite (IH Hs).
  unfold is_markup in Hc.
  destruct (Ascii.eqb c "<"); [discriminate Hc|].
  destruct (Ascii.eqb c ">"); [discriminate Hc|].
  destruct (Ascii.eqb c dquote); [discriminate Hc|].
  destruct (Ascii.eqb c squote); [discriminate Hc|].
  destruct (Ascii.eqb c "&"); [discriminate Hc|]. reflexivity.
Qed.

Lemma find_char_lacks (c : ascii) (a rest : string) :
  lacks c a = true -> find_char c (a ++ String c rest) = Some (a, rest).
Proof.
  induction a as [|x a IH]; cbn [lacks all append find_char]; intros H.
  - now rewrite Ascii.eqb_refl.
  - apply andb_true_iff in H as [Hx Ha]. apply negb_true_iff in Hx. rewrite Hx.
    now rewrite (IH Ha).
Qed.

Lemma find_char_none (c : ascii) (s : string) :
  lacks c s = true -> find_char c s = None.
Proof.
  induction s as [|x s IH]; cbn [lacks all find_char]; intros H; [reflexivity|].
  apply andb_true_iff in H as [Hx Hs]. apply negb_true_iff in Hx. rewrite Hx.
  now rewrite (IH Hs).
Qed.

Lemma find_char_shorter (c : ascii) (s a b : string) :
  find_char c s = Some (a, b) -> (String.length b < String.length s)%nat.
Proof.
  revert a b. induction s as [|x s IH]; intros a b; cbn [find_char]; [discriminate|].
  destruct (Ascii.eqb x c).
  - intros [= <- <-]. cbn [String.length]. lia.
  - destruct (find_char c s) as [[a0 b0]|]; [|discriminate].
    intros [= <- <-]. specialize (IH a0 b0 eq_refl). cbn [String.length]. lia.
Qed.

(** The loop of [decode_text] ends within as many rounds as the text has
    characters: more fuel changes nothing. *)
Lemma decode_text_loop_fuel (f1 : nat) :
  forall f2 s,
    (String.length s <= f1)%nat -> (String.length s <= f2)%nat ->
    decode_text_loop f1 s = decode_text_loop f2 s.
Proof.
  induction f1 as [|f1 IH]; intros f2 s H1 H2.
  - destruct s; [now destruct f2 | cbn [String.length] in H1; lia].
  - destruct s as [|c s]; [now destruct f2|].
    destruct f2 as [|f2]; [cbn [String.length] in H2; lia|].
    cbn [String.length] in H1, H2. cbn [decode_text_loop].
    destruct (Ascii.eqb c "&").
    + destruct (find_char ";" s) as [[entity after]|] eqn:Ef.
      * apply find_char_shorter in Ef. f_equal. apply IH; lia.
      * f_equal. apply IH; lia.
    + f_equal. apply IH; lia.
Qed.

Lemma decode_text_loop_plain (s : string) :
  forall f, lacks "&" s = true -> (String.length s <= f)%nat -> decode_text_loop f s = s.
Proof.
  induction s as [|x s IHs]; intros f Hl Hf; [now destruct f|].
  destruct f as [|f]; [cbn [String.length] in Hf; lia|].
  cbn [lacks all] in Hl. apply andb_true_iff in Hl as [Hx Hl].
  apply negb_true_iff in Hx. cbn [decode_text_loop]. rewrite Hx.
  f_equal. apply IHs; [exact Hl | cbn [String.length] in Hf; lia].
Qed.

(** X15.  [decode_text] reads a text from left to right: an ampersand
    with a semicolon somewhere after it is an entity, replaced by its
    character when it is one of the five known names, [lt], [gt], [amp],
    [quot] and [apos], and kept as it is, ampersand and semicolon
    included, otherwise; an ampersand with no semicolon after it is kept;
    any other character is kept. *)
Theorem decode_text_by_cases :
  forall (rest : string),
    (forall entity, lacks ";" entity = true ->
       decode_text ("&" ++ entity ++ ";" ++ rest) = parse_entity entity ++ decode_text rest)
    /\ (parse_entity "lt" = "<" /\ parse_entity "gt" = ">" /\ parse_entity "amp" = "&"
        /\ parse_entity "quot" = str1 dquote /\ parse_entity "apos" = str1 squote)
    /\ (forall entity, is_known_entity entity = false ->
          parse_entity entity = "&" ++ entity ++ ";")
    /\ (lacks ";" rest = true -> decode_text ("&" ++ rest) = "&" ++ decode_text rest)
    /\ (forall c, Ascii.eqb c "&" = false ->
          decode_text (String c rest) = String c (decode_text rest))
    /\ (lacks "&" rest = true -> decode_text rest = rest).
Proof.
  intros rest. split; [|split; [|split; [|split; [|split]]]].
  - intros entity He. unfold decode_text. cbn [append String.length decode_text_loop].
    change (Ascii.eqb "&" "&") with true. cbv iota.
    change (";" ++ rest) with (String ";" rest).
    rewrite (find_char_lacks ";" entity rest He). f_equal.
    apply decode_text_loop_fuel; [|apply Nat.le_refl].
    rewrite length_append. cbn [String.length]. lia.
  - repeat split.
  - intros entity H. unfold is_known_entity in H. unfold parse_entity.
    destruct (String.eqb entity "lt"); [discriminate H|].
    destruct (String.eqb entity "gt"); [discriminate H|].
    destruct (String.eqb entity "amp"); [discriminate H|].
    destruct (String.eqb entity "quot"); [discriminate H|].
    destruct (String.eqb entity "apos"); [discriminate H|]. reflexivity.
  - intros H. unfold decode_text. cbn [append String.length decode_text_loop].
    change (Ascii.eqb "&" "&") with true. cbv iota.
    now rewrite (find_char_none ";" rest H).
  - intros c Hc. unfold decode_text. cbn [String.length decode_text_loop]. now rewrite Hc.
  - intros H. unfold decode_text. apply decode_text_loop_plain; [exact H | apply Nat.le_refl].
Qed.

End XmlText.

(** ** XML: attributes and children *)

Module XmlAccess.
Import EXml.
Import MapOrder.
Import MapLaws.

(** X16.  After [set_attribute(key, value)] the attribute [key] has the
    value [value], whatever it had before, and every other attribute is
    as it was; the name, the text and the children are untouched, and
    setting a key twice leaves what setting it the second time alone
    leaves. *)
Theorem set_attribute_then_attribute :
  forall (key value : string) (n : Node),
    attribute key (set_attribute key value n) = Some value
    /\ has_attribute key (set_attribute key value n) = true
    /\ (forall default_val, attribute_or key default_val (set_attribute key value n) = value)
    /\ (forall k, k <> key -> attribute k (set_attribute key value n) = attribute k n)
    /\ name (set_attribute key value n) = name n
    /\ text (set_attribute key value n) = text n
    /\ child_nodes (set_attribute key value n) = child_nodes n
    /\ (forall value', set_attribute key value' (set_attribute key value n)
                       = set_attribute key value' n)
    /\ (attribute key n = Some value -> set_attribute key value n = n).
Proof.
  intros key value [nm tx attrs kids].
  unfold attribute, has_attribute, attribute_or, attribute, set_attribute, text.
  cbn [attributes name text_content child_nodes].
  rewrite find_assign_same. repeat split.
  - intros k Hk. now apply find_assign_other.
  - intros value'. now rewrite assign_assign.
  - intros H. now rewrite assign_present.
Qed.

(** X17.  After [remove_attribute(key)] on a node whose attributes are in
    the order of the map, the attribute [key] is absent and every other
    attribute is as it was; removing an absent attribute changes nothing,
    and removing an attribute that was set on a node without it gives the
    node back. *)
Theorem remove_attribute_then_attribute (key : string) (n : Node) :
  StdMap.sorted (attributes n) ->
  attribute key (remove_attribute key n) = None
  /\ has_attribute key (remove_attribute key n) = false
  /\ (forall default_val, attribute_or key default_val (remove_attribute key n) = default_val)
  /\ (forall k, k <> key -> attribute k (remove_attribute key n) = attribute k n)
  /\ StdMap.sorted (attributes (remove_attribute key n))
  /\ (has_attribute key n = false -> remove_attribute key n = n)
  /\ (has_attribute key n = false ->
        forall value, remove_attribute key (set_attribute key value n) = n).
Proof.
  destruct n as [nm tx attrs kids].
  unfold attribute, has_attribute, attribute_or, attribute, remove_attribute, set_attribute.
  cbn [attributes name text_content child_nodes]. intros Hs.
  rewrite find_erase_same by exact Hs. repeat split.
  - intros k Hk. now apply find_erase_other.
  - now apply erase_sorted.
  - destruct (StdMap.find key attrs) eqn:E; [discriminate|]. intros _.
    now rewrite erase_absent.
  - destruct (StdMap.find key attrs) eqn:E; [discriminate|]. intros _ value.
    now rewrite erase_assign_absent.
Qed.

Lemma remove_attribute_witness :
  attribute "id" (remove_attribute "id" (mkNode "a" "t" [("id", "1"); ("k", "v")] [])) = None
  /\ attribute "k" (remove_attribute "id" (mkNode "a" "t" [("id", "1"); ("k", "v")] []))
     = Some "v".
Proof.
  destruct (remove_attribute_then_attribute "id" (mkNode "a" "t" [("id", "1"); ("k", "v")] []))
    as (H1 & _ & _ & H4 & _).
  - repeat constructor.
  - split; [exact H1|]. rewrite (H4 "k") by discriminate. reflexivity.
Defined.

Lemma first_named_filter (k : string) (l : list Node) :
  match first_named k l with
  | Some i => hd_error (filter (fun child => String.eqb (name child) k) l)
              = Some (nth i l (node EmptyString))
  | None => filter (fun child => String.eqb (name child) k) l = []
  end.
Proof.
  induction l as [|c l IH]; cbn [first_named filter]; [reflexivity|].
  destruct (String.eqb (name c) k); [reflexivity|].
  destruct (first_named k l); exact IH.
Qed.

(** X18.  [children(name)] is the children with that name, in document
    order; the const [operator[]] returns the first of them, and throws
    "Child node not found" exactly when there is none. *)
Theorem const_subscript_is_first_of_children :
  forall (child_name : string) (n : Node),
    (forall c, const_subscript child_name n = Ok c
               <-> hd_error (children child_name n) = Some c)
    /\ (const_subscript child_name n
          = Throw (XMLParseError ("Child node not found: " ++ child_name))
        <-> children child_name n = [])
    /\ Forall (fun c => name c = child_name) (children child_name n)
    /\ (forall c, In c (children child_name n)
                  <-> In c (child_nodes n) /\ name c = child_name).
Proof.
  intros k n. unfold const_subscript, children.
  pose proof (first_named_filter k (child_nodes n)) as H.
  destruct (first_named k (child_nodes n)) as [i|]; split; [| split; [|split] | | split; [|split]].
  - intros c. rewrite H. split; intros [= <-]; reflexivity.
  - split; [discriminate|]. intros E. rewrite E in H. discriminate H.
  - apply Forall_forall. intros c Hc. apply filter_In in Hc as [_ Hc]. now apply String.eqb_eq.
  - intros c. rewrite filter_In. now rewrite String.eqb_eq.
  - intros c. rewrite H. split; discriminate.
  - split; [intros _; exact H | reflexivity].
  - rewrite H. constructor.
  - intros c. rewrite filter_In. now rewrite String.eqb_eq.
Qed.

Lemma first_named_app (k : string) (l : list Node) (c : Node) :
  first_named k (l ++ [c])
  = match first_named k l with
    | Some i => Some i
    | None => if String.eqb (name c) k then Some (List.length l) else None
    end.
Proof.
  induction l as [|x l IH]; cbn [app first_named List.length].
  - now destruct (String.eqb (name c) k).
  - destruct (String.eqb (name x) k); [reflexivity|]. rewrite IH.
    destruct (first_named k l); [reflexivity|].
    now destruct (String.eqb (name c) k).
Qed.

(** X19.  [add_child] appends: the children that were there keep their
    places, the new child comes last, and attributes, name and text are
    untouched.  So [children(name)] gains the child at its end when the
    name is its name, and the const [operator[]] returns what it returned
    before, the new child only when no child had that name. *)
Theorem add_child_appends :
  forall (child n : Node) (child_name : string),
    child_nodes (add_child child n) = (child_nodes n ++ [child])%list
    /\ name (add_child child n) = name n
    /\ text (add_child child n) = text n
    /\ attributes (add_child child n) = attributes n
    /\ children child_name (add_child child n)
       = (children child_name n
          ++ (if String.eqb (name child) child_name then [child] else []))%list
    /\ const_subscript child_name (add_child child n)
       = match const_subscript child_name n with
         | Ok c => Ok c
         | Throw e => if String.eqb (name child) child_name then Ok child else Throw e
         end.
Proof.
  intros child [nm tx attrs kids] k.
  unfold add_child, children, const_subscript, text.
  cbn [child_nodes name text_content attributes].
  repeat split.
  - rewrite filter_app. cbn [filter]. now destruct (String.eqb (name child) k).
  - rewrite first_named_app.
    destruct (first_named k kids) as [i|] eqn:E.
    + f_equal. apply app_nth1.
      clear -E. revert i E. induction kids as [|x l IH]; intros i; cbn [first_named]; [discriminate|].
      destruct (String.eqb (name x) k).
      * intros [= <-]. cbn [List.length]. lia.
      * destruct (first_named k l) as [i0|]; [|discriminate].
        intros [= <-]. specialize (IH i0 eq_refl). cbn [List.length]. lia.
    + destruct (String.eqb (name child) k); [|reflexivity].
      f_equal. rewrite app_nth2 by lia. now rewrite Nat.sub_diag.
Qed.

End XmlAccess.

(** ** XML: a compact serialization parses back *)

Module XmlRoundTrip.
Import EXml.
Import MapOrder.
Import MapLaws.
Import NumberGrammar.
Import XmlNodes.
Import XmlContent.
Import XmlText.

Lemma isattr_not_space (c : ascii) : isattr c = true -> isspace c = false.
Proof. each_char c; intros H; try discriminate H; reflexivity. Qed.

Lemma isattr_not_close (c : ascii) :
  isattr c = true -> Ascii.eqb c ">" || Ascii.eqb c "/" = false.
Proof. each_char c; intros H; try discriminate H; reflexivity. Qed.

Lemma isname_not_space (c : ascii) : isname c = true -> isspace c = false.
Proof. each_char c; intros H; try discriminate H; reflexivity. Qed.

Lemma isname_not_slash (c : ascii) : isname c = true -> Ascii.eqb c "/" = false.
Proof. each_char c; intros H; try discriminate H; reflexivity. Qed.

Lemma skip_ws_space (c : ascii) (s : string) :
  isspace c = true -> skip_ws (String c s) = skip_ws s.
Proof.
  intros H. unfold skip_ws. cbn [span]. rewrite H. now destruct (span isspace s).
Qed.

Lemma all_weaken (p q : ascii -> bool) (s : string) :
  (forall c, p c = true -> q c = true) -> all p s = true -> all q s = true.
Proof.
  intros Hpq. induction s as [|c s IH]; cbn [all]; [reflexivity|].
  intros H. apply andb_true_iff in H as [Hc Hs]. now rewrite (Hpq c Hc), (IH Hs).
Qed.

Lemma encode_text_no_quote (s : string) :
  all (fun c => negb (Ascii.eqb c dquote)) (encode_text s) = true.
Proof.
  apply (all_weaken (fun c => negb (is_markup c))); [|apply encode_text_no_markup].
  intros c. unfold is_markup.
  destruct (Ascii.eqb c dquote); [|reflexivity].
  now rewrite !orb_true_r.
Qed.

Lemma encode_text_is_run (s : string) : is_run (encode_text s) = true.
Proof.
  unfold is_run. apply (all_weaken (fun c => negb (is_markup c))); [|apply encode_text_no_markup].
  intros c. unfold is_markup. now destruct (Ascii.eqb c "<").
Qed.

(** One round of the loop over the attributes, on a key, an equals sign
    and what follows. *)
Lemma parse_attributes_key (f : nat) (acc : StdMap.t string) (k rest : string) :
  all isattr k = true ->
  parse_attributes (S f) acc (k ++ String "=" rest)
  = match skip_ws rest with
    | String quote s3 =>
        if Ascii.eqb quote dquote || Ascii.eqb quote squote then
          let '(val, s4) := span (fun c => negb (Ascii.eqb c quote)) s3 in
          parse_attributes f (StdMap.assign k (decode_text val) acc) (skip_ws (advance s4))
        else Throw (XMLParseError "Attribute value must be quoted")
    | EmptyString => Throw (XMLParseError "Attribute value must be quoted")
    end.
Proof.
  intros Hk.
  assert (Hspan : span isattr (k ++ String "=" rest) = (k, String "=" rest))
    by (apply span_all; [exact Hk | reflexivity]).
  destruct k as [|c k'].
  - cbn [append] in *. cbn [parse_attributes].
    change (Ascii.eqb "=" ">" || Ascii.eqb "=" "/") with false. cbv iota.
    rewrite Hspan. rewrite skip_ws_stops by reflexivity.
    change (Ascii.eqb "=" "=") with true. reflexivity.
  - cbn [append] in *. cbn [all] in Hk. apply andb_true_iff in Hk as [Hc Hk].
    remember (String c (k' ++ String "=" rest)) as s eqn:Es.
    cbn [parse_attributes]. rewrite Es at 1. rewrite (isattr_not_close c Hc).
    rewrite Hspan. rewrite skip_ws_stops by reflexivity.
    change (Ascii.eqb "=" "=") with true. reflexivity.
Qed.

Lemma parse_attributes_dumped (attrs : StdMap.t string) :
  forall fuel acc tail,
    forallb (fun kv => all isattr (fst kv)) attrs = true ->
    StdMap.sorted attrs ->
    Forall (fun k => Forall (fun k0 => StdMap.key_lt k0 k) (StdMap.keys acc))
           (StdMap.keys attrs) ->
    (List.length attrs <= fuel)%nat ->
    starts ">" (skip_ws tail) || starts "/" (skip_ws tail) = true ->
    parse_attributes fuel acc (skip_ws (attributes_text attrs ++ tail))
    = Ok ((acc ++ attrs)%list, skip_ws tail).
Proof.
  induction attrs as [|[k v] attrs IH]; intros fuel acc tail Hkeys Hs Hacc Hfuel Htail.
  - cbn [attributes_text map concat_all append]. rewrite app_nil_r.
    destruct (skip_ws tail) as [|c s]; [discriminate Htail|].
    cbn [starts] in Htail. destruct fuel; cbn [parse_attributes]; now rewrite Htail.
  - cbn [forallb fst] in Hkeys. apply andb_true_iff in Hkeys as [Hk Hkeys].
    apply sorted_cons_iff in Hs as [Ha Hs].
    destruct fuel as [|f]; [cbn [List.length] in Hfuel; lia|].
    unfold attributes_text. cbn [map concat_all fst snd].
    fold (attributes_text attrs).
    repeat (rewrite append_assoc; cbn [append str1]).
    rewrite skip_ws_space by reflexivity.
    assert (Hstop : stops isspace (k ++ String "=" (String dquote
                      (encode_text v ++ String dquote (attributes_text attrs ++ tail)))) = true).
    { destruct k as [|c k']; [reflexivity|]. cbn [all] in Hk.
      apply andb_true_iff in Hk as [Hc _]. cbn [append stops].
      now rewrite (isattr_not_space c Hc). }
    rewrite (skip_ws_stops _ Hstop).
    rewrite (parse_attributes_key f acc k _ Hk).
    rewrite skip_ws_stops by reflexivity.
    change (Ascii.eqb dquote dquote || Ascii.eqb dquote squote) with true. cbv iota.
    rewrite (span_all _ (encode_text v)) by (first [apply encode_text_no_quote | reflexivity]).
    cbn [advance]. rewrite decode_encode.
    inversion Hacc as [|? ? Hk0 Hrest]; subst.
    rewrite (assign_at_end k v acc Hk0).
    rewrite (IH f (acc ++ [(k, v)])%list tail Hkeys Hs).
    + now rewrite <- app_assoc.
    + pose proof (above_all attrs k Hs Ha) as Habove.
      rewrite Forall_forall in *. intros k1 Hk1.
      unfold StdMap.keys. rewrite map_app. apply Forall_app. split.
      * apply (Hrest k1 Hk1).
      * constructor; [|constructor]. apply (Habove k1 Hk1).
    + cbn [List.length] in Hfuel. lia.
    + exact Htail.
Qed.

Lemma render_compact (depth indent_size : nat) (n : Node) :
  render false depth indent_size n
  = "<" ++ name n ++ attributes_text (attributes n) ++
    (if is_empty (text_content n) && negb (has_children n) then " />"
     else ">" ++ encode_text (text_content n)
          ++ concat_all (map (render false (depth + 1) indent_size) (child_nodes n))
          ++ "</" ++ name n ++ ">").
Proof.
  destruct n as [nm tx attrs kids]. cbn [render name text_content attributes child_nodes].
  cbn [andb]. unfold open_tag. fold (attributes_text attrs). cbn [name attributes].
  destruct tx as [|a tx].
  - cbn [is_empty andb encode_text].
    destruct (negb (has_children (mkNode nm EmptyString attrs kids)));
      cbn [append]; now rewrite !append_assoc.
  - cbn [is_empty andb]. cbn [append]. rewrite append_nil_r. now rewrite !append_assoc.
Qed.

Lemma render_head (depth indent_size : nat) (n : Node) :
  all isname (name n) = true ->
  exists c rest,
    render false depth indent_size n = String "<" (String c rest)
    /\ Ascii.eqb c "/" = false
    /\ Ascii.eqb c "?" || Ascii.eqb c "!" = false.
Proof.
  intros Hn. rewrite render_compact. cbn [append].
  destruct (name n) as [|c nm] eqn:En.
  - cbn [append]. destruct (attributes n) as [|[k v] attrs].
    + cbn [attributes_text map concat_all append].
      destruct (is_empty (text_content n) && negb (has_children n));
        cbn [append]; eexists _, _; repeat split.
    + unfold attributes_text. cbn [map concat_all append]. eexists _, _; repeat split.
  - cbn [all] in Hn. apply andb_true_iff in Hn as [Hc _]. cbn [append].
    exists c. eexists. split; [reflexivity|]. split.
    + now apply isname_not_slash.
    + now apply isname_not_mark.
Qed.

Lemma concat_all_app (a b : list string) :
  concat_all (a ++ b) = concat_all a ++ concat_all b.
Proof. induction a as [|x a IH]; cbn [app concat_all]; [reflexivity|]. now rewrite IH, append_assoc. Qed.

Lemma concat_all_length (l : list string) :
  String.length (concat_all l) = list_sum (map String.length l).
Proof.
  induction l as [|x l IH]; cbn [concat_all map list_sum]; [reflexivity|].
  now rewrite length_append, IH.
Qed.

(** The children of a node as segments of its content: each child with an
    empty run after it. *)
Lemma content_of_children (sources : list string) (kids : list Node) :
  List.length sources = List.length kids ->
  content_source (map (fun p => (fst p, snd p, EmptyString)) (combine sources kids))
  = concat_all sources
  /\ map segment_node (map (fun p => (fst p, snd p, EmptyString)) (combine sources kids)) = kids
  /\ concat_all (map decode_text
                   (map segment_run
                      (map (fun p => (fst p, snd p, EmptyString)) (combine sources kids))))
     = EmptyString.
Proof.
  revert kids. induction sources as [|s sources IH]; intros [|kid kids] Hlen;
    try discriminate Hlen; [repeat split|].
  injection Hlen as Hlen. destruct (IH kids Hlen) as (H1 & H2 & H3).
  cbn [combine map content_source segment_source segment_run segment_node fst snd concat_all].
  rewrite H1, H2, H3. repeat split.
Qed.

(** What [dump] writes for a node, compact, is read back by [parse_node]
    as that node, whatever follows. *)
Lemma compact_element_source (n : Node) :
  wf n -> well_named n = true ->
  forall depth indent_size, element_source (render false depth indent_size n) n.
Proof.
  induction n as [nm tx attrs kids IH] using Node_induction.
  intros Hwf Hnamed depth indent_size.
  inversion Hwf as [? ? ? ? Hsorted Hkids]; subst.
  cbn [well_named] in Hnamed.
  apply andb_true_iff in Hnamed as [Hnamed Hnk].
  apply andb_true_iff in Hnamed as [Hnm Hattrs].
  split.
  { destruct (render_head depth indent_size (mkNode nm tx attrs kids) Hnm) as (c & rest & H1 & H2 & _).
    now exists c, rest. }
  intros fuel rest Hfuel. rewrite render_compact in Hfuel |- *.
  cbn [name text_content attributes child_nodes] in Hfuel |- *.
  set (K := concat_all (map (render false (depth + 1) indent_size) kids)) in *.
  remember (is_empty tx && negb (has_children (mkNode nm tx attrs kids))) as e eqn:E.
  set (tail := (if e then " />" else ">" ++ encode_text tx ++ K ++ "</" ++ nm ++ ">") ++ rest).
  assert (Hsrc : ("<" ++ nm ++ attributes_text attrs ++
                  (if e then " />" else ">" ++ encode_text tx ++ K ++ "</" ++ nm ++ ">")) ++ rest
                 = String "<" (nm ++ attributes_text attrs ++ tail)).
  { subst tail. now rewrite !append_assoc. }
  rewrite Hsrc. clear Hsrc.
  repeat (rewrite length_append in Hfuel || cbn [String.length append] in Hfuel).
  destruct fuel as [|f]; [lia|].
  cbn [parse_node]. rewrite skip_ws_stops by reflexivity.
  change (Ascii.eqb "<" "<") with true. cbv iota.
  assert (Htail : starts ">" (skip_ws tail) || starts "/" (skip_ws tail) = true).
  { subst tail. destruct e; reflexivity. }
  assert (Hstop : stops isname (attributes_text attrs ++ tail) = true).
  { clear -tail. destruct attrs as [|[k v] attrs]; [|reflexivity].
    cbn [attributes_text map concat_all append]. subst tail.
    destruct e; reflexivity. }
  rewrite (span_all isname nm _ Hnm Hstop).
  assert (Hlen : (List.length attrs <= String.length (attributes_text attrs))%nat).
  { clear. induction attrs as [|[k v] attrs IHa]; [apply Nat.le_refl|].
    unfold attributes_text in *. cbn [map concat_all List.length].
    set (C := concat_all _) in *.
    rewrite length_append. cbn [append String.length]. lia. }
  rewrite (parse_attributes_dumped attrs f [] tail Hattrs Hsorted);
    [ | apply Forall_forall; intros k _; constructor | lia | exact Htail ].
  cbn [bind app]. subst tail.
  destruct e.
  - symmetry in E. apply andb_true_iff in E as [Etx Ekids].
    destruct tx; [|discriminate Etx]. destruct kids; [|discriminate Ekids].
    reflexivity.
  - cbn [append]. rewrite skip_ws_stops by reflexivity.
    change (Ascii.eqb ">" "/") with false. change (Ascii.eqb ">" ">") with true. cbv iota.
    set (sources := map (render false (depth + 1) indent_size) kids).
    assert (Hsl : List.length sources = List.length kids) by (subst sources; apply length_map).
    destruct (content_of_children sources kids Hsl) as (Hcs & Hnodes & Hruns).
    set (segs := map (fun p => (fst p, snd p, EmptyString)) (combine sources kids)) in *.
    assert (Hsegs : Forall (fun g => element_source (segment_source g) (segment_node g)
                                     /\ is_run (segment_run g) = true) segs).
    { subst segs sources. clear -IH Hkids Hnk.
      induction kids as [|kid kids IHk]; [constructor|].
      cbn [map combine]. cbn [forallb] in Hnk. apply andb_true_iff in Hnk as [Hn1 Hn2].
      inversion IH as [|? ? Hi1 Hi2]; subst. inversion Hkids as [|? ? Hw1 Hw2]; subst.
      constructor.
      - cbn [segment_source segment_node segment_run fst snd]. split; [|reflexivity].
        now apply Hi1.
      - now apply IHk. }
    pose proof (parse_content_segments segs Hsegs (encode_text tx) EmptyString [] EmptyString f
                  (String "<" (String "/" (nm ++ String ">" rest)))
                  (encode_text_is_run tx) eq_refl) as Hc.
    rewrite Hcs in Hc. subst sources. fold K in Hc. cbn [append] in Hc.
    repeat (rewrite append_assoc; cbn [append]).
    rewrite Hc.
    + cbn [bind app]. unfold parse_closing. cbn [closes advance].
      change (Ascii.eqb "<" "<" && Ascii.eqb "/" "/") with true. cbv iota.
      rewrite (span_all _ nm (String ">" rest)) by (auto using all_isname_no_gt).
      cbn [name]. rewrite String.eqb_refl. cbn [advance].
      rewrite gathered_text. cbn [map concat_all append].
      rewrite Hruns, Hnodes, decode_encode. now rewrite append_nil_r.
    + repeat (rewrite length_append in Hfuel || cbn [String.length append] in Hfuel). lia.
Qed.

(** X20.  [parse] reads the compact serialization of a node back as that
    node, for every node whose names are made of the characters [parse]
    takes for names and whose attributes are in the order of the map:
    texts and attribute values may hold any characters. *)
Theorem parse_of_compact_dump_is_the_node (n : Node) (indent_level indent_size : nat) :
  wf n -> well_named n = true ->
  parse (dump false indent_level indent_size n) = Ok n.
Proof.
  intros Hwf Hnamed. unfold dump. rewrite dump_recursive_render. cbn [append].
  destruct (compact_element_source n Hwf Hnamed indent_level indent_size) as [_ Hparse].
  assert (Hnm : all isname (name n) = true).
  { destruct n as [nm tx attrs kids]. cbn [well_named] in Hnamed.
    apply andb_true_iff in Hnamed as [Hnamed _].
    now apply andb_true_iff in Hnamed as [Hnm _]. }
  destruct (render_head indent_level indent_size n Hnm) as (c & rest & Hsrc & _ & Hmark).
  unfold parse.
  assert (Hprolog : skip_ws_and_prolog (S (String.length (render false indent_level indent_size n)))
                      (render false indent_level indent_size n)
                    = Ok (render false indent_level indent_size n)).
  { rewrite Hsrc. cbn [skip_ws_and_prolog]. rewrite skip_ws_stops by reflexivity.
    change (Ascii.eqb "<" "<") with true. cbn [andb]. now rewrite Hmark. }
  rewrite Hprolog. cbn [bind].
  specialize (Hparse (2 * String.length (render false indent_level indent_size n) + 2)%nat
                EmptyString).
  rewrite append_nil_r in Hparse. rewrite Hparse by lia. reflexivity.
Qed.

Lemma parse_of_compact_dump_node_witness :
  parse (dump false 0 2
           (mkNode "item" "a<b & c" [("id", "x" ++ str1 dquote); ("k", "v")]
                   [node "e"; node_text "t" " y "]))
  = Ok (mkNode "item" "a<b & c" [("id", "x" ++ str1 dquote); ("k", "v")]
               [node "e"; node_text "t" " y "]).
Proof.
  apply parse_of_compact_dump_is_the_node.
  - repeat constructor.
  - reflexivity.
Defined.

End XmlRoundTrip.

(** ** XML: what [parse] skips and what it rejects *)

Module XmlDocuments.
Import EXml.
Import MapOrder.
Import MapLaws.
Import NumberGrammar.
Import XmlNodes.
Import XmlContent.
Import XmlText.
Import XmlRoundTrip.

Lemma parse_node_mono (k f : nat) (s : string) (r : Node * string) :
  parse_node f s = Ok r -> parse_node (k + f) s = Ok r.
Proof.
  intros H. induction k as [|k IH]; [exact H|].
  now apply (proj1 (parse_mono (k + f))).
Qed.

Lemma skip_ws_and_prolog_mono (f : nat) :
  forall s r, skip_ws_and_prolog f s = Ok r -> skip_ws_and_prolog (S f) s = Ok r.
Proof.
  induction f as [|f IH]; intros s r H.
  - destruct s; [exact H | discriminate H].
  - destruct s as [|c s]; [exact H|].
    cbn [skip_ws_and_prolog] in H.
    remember (S f) as f1 in |- *. cbn [skip_ws_and_prolog]. subst f1. revert H.
    destruct (skip_ws (String c s)) as [|c0 [|c1 s1]]; try (intros H; exact H).
    destruct (Ascii.eqb c0 "<" && (Ascii.eqb c1 "?" || Ascii.eqb c1 "!")); [|intros H; exact H].
    destruct (find_char ">" (String c0 (String c1 s1))) as [[a b]|]; [|intros H; exact H].
    apply IH.
Qed.

Lemma skip_ws_and_prolog_mono_add (k f : nat) (s r : string) :
  skip_ws_and_prolog f s = Ok r -> skip_ws_and_prolog (k + f) s = Ok r.
Proof.
  intros H. induction k as [|k IH]; [exact H|]. now apply skip_ws_and_prolog_mono.
Qed.

(** X21.  A declaration, a comment or a doctype in front of the root
    element, that is a [<?] or [<!] up to the next [>], is skipped: the
    document parses to what it parses to without it. *)
Theorem prolog_is_skipped (mark : ascii) (body doc : string) (n : Node) :
  Ascii.eqb mark "?" || Ascii.eqb mark "!" = true ->
  lacks ">" body = true ->
  parse doc = Ok n ->
  parse (String "<" (String mark (body ++ String ">" doc))) = Ok n.
Proof.
  intros Hmark Hbody Hdoc. unfold parse in *.
  set (big := String "<" (String mark (body ++ String ">" doc))).
  assert (Hlen : String.length big = (String.length doc + String.length body + 3)%nat).
  { subst big. cbn [String.length]. rewrite length_append. cbn [String.length]. lia. }
  destruct (skip_ws_and_prolog (S (String.length doc)) doc) as [s0|] eqn:Ep; [|discriminate Hdoc].
  cbn [bind] in Hdoc.
  destruct (parse_node (2 * String.length doc + 2) s0) as [[root rest]|] eqn:En;
    [|discriminate Hdoc].
  cbn [bind] in Hdoc.
  assert (Hp : skip_ws_and_prolog (S (String.length big)) big = Ok s0).
  { subst big. cbn [skip_ws_and_prolog]. rewrite skip_ws_stops by reflexivity.
    change (Ascii.eqb "<" "<") with true. cbn [andb]. rewrite Hmark.
    assert (Hm : Ascii.eqb mark ">" = false).
    { destruct (Ascii.eqb mark "?") eqn:E1;
        [apply Ascii.eqb_eq in E1; now subst mark|].
      destruct (Ascii.eqb mark "!") eqn:E2;
        [apply Ascii.eqb_eq in E2; now subst mark | discriminate Hmark]. }
    cbn [find_char]. change (Ascii.eqb "<" ">") with false. cbv iota. rewrite Hm.
    rewrite (find_char_lacks ">" body doc Hbody).
    fold (String.length (String "<" (String mark (body ++ String ">" doc)))).
    cbn [String.length]. rewrite length_append. cbn [String.length].
    replace (S (S (String.length body + S (String.length doc))))
      with ((String.length body + 2) + S (String.length doc))%nat by lia.
    now apply skip_ws_and_prolog_mono_add. }
  rewrite Hp. cbn [bind].
  replace (2 * String.length big + 2)%nat
    with ((2 * String.length body + 6) + (2 * String.length doc + 2))%nat by lia.
  rewrite (parse_node_mono _ _ _ _ En). cbn [bind]. exact Hdoc.
Qed.

Lemma prolog_is_skipped_witness :
  parse ("<?xml version='1.0'?><a k='v'/>") = Ok (mkNode "a" EmptyString [("k", "v")] []).
Proof.
  apply (prolog_is_skipped "?" "xml version='1.0'?" "<a k='v'/>"); reflexivity.
Defined.

(** The loop over a content that the input ends, or a closing tag ends. *)
Lemma parse_content_ends (segs : list segment) :
  Forall (fun g => element_source (segment_source g) (segment_node g)
                   /\ is_run (segment_run g) = true) segs ->
  forall r text kids run fuel,
    is_run r = true ->
    (2 * (String.length r + String.length (content_source segs)) + 1 <= fuel)%nat ->
    parse_content fuel text kids run (r ++ content_source segs)
    = Ok (fst (gathered text (run ++ r) segs),
          (kids ++ map segment_node segs)%list,
          snd (gathered text (run ++ r) segs), EmptyString).
Proof.
  induction 1 as [|g segs [[Hhead Hparse] Hrun] _ IH];
    intros r text kids run fuel Hr Hfuel.
  - cbn [content_source gathered map fst snd append] in *. rewrite app_nil_r.
    replace fuel with (String.length r + (fuel - String.length r))%nat by lia.
    apply parse_content_run; [exact Hr|].
    now destruct (fuel - String.length r)%nat.
  - rewrite content_source_length in Hfuel.
    cbn [content_source gathered map].
    replace fuel with (String.length r + (fuel - String.length r))%nat by lia.
    apply parse_content_run; [exact Hr|].
    destruct (fuel - String.length r)%nat as [|f] eqn:E; [lia|].
    destruct Hhead as (c & rest & Hsrc & Hc).
    assert (Hlen : (2 <= String.length (segment_source g))%nat)
      by (rewrite Hsrc; cbn [String.length]; lia).
    rewrite ?append_assoc.
    specialize (Hparse f (segment_run g ++ content_source segs)).
    rewrite Hsrc in Hparse |- *. cbn [append] in Hparse |- *.
    cbn [parse_content span]. rewrite lt_not_space.
    cbn [closes Ascii.eqb Bool.eqb andb]. rewrite Hc.
    rewrite Hparse by (rewrite <- Hsrc; lia). cbn [bind].
    rewrite append_nil_r.
    rewrite (IH (segment_run g) (append_run text (run ++ r)) (kids ++ [segment_node g])%list
               EmptyString f Hrun) by lia.
    cbn [append]. now rewrite <- app_assoc.
Qed.

Lemma children_segments (kids : list Node) :
  Forall wf kids -> forallb well_named kids = true ->
  exists segs,
    Forall (fun g => element_source (segment_source g) (segment_node g)
                     /\ is_run (segment_run g) = true) segs
    /\ content_source segs = concat_all (map (dump false 0 2) kids).
Proof.
  intros Hwf Hn.
  set (sources := map (render false 0 2) kids).
  assert (Hsl : List.length sources = List.length kids) by (subst sources; apply length_map).
  destruct (content_of_children sources kids Hsl) as (Hcs & _ & _).
  exists (map (fun p => (fst p, snd p, EmptyString)) (combine sources kids)).
  split.
  - subst sources. clear Hsl Hcs.
    induction kids as [|kid kids IHk]; [constructor|].
    cbn [map combine]. cbn [forallb] in Hn. apply andb_true_iff in Hn as [Hn1 Hn2].
    inversion Hwf as [|? ? Hw1 Hw2]; subst.
    constructor; [|now apply IHk].
    cbn [segment_source segment_node segment_run fst snd]. split; [|reflexivity].
    now apply compact_element_source.
  - rewrite Hcs. subst sources. f_equal. apply map_ext. intros kid.
    unfold dump. now rewrite dump_recursive_render.
Qed.

Lemma open_element_head (tag tail : string) :
  all isname tag = true ->
  skip_ws_and_prolog (S (String.length (String "<" (tag ++ String ">" tail))))
    (String "<" (tag ++ String ">" tail))
  = Ok (String "<" (tag ++ String ">" tail)).
Proof.
  intros Htag. cbn [skip_ws_and_prolog]. rewrite skip_ws_stops by reflexivity.
  destruct tag as [|c tag]; [reflexivity|].
  cbn [all] in Htag. apply andb_true_iff in Htag as [Hc _]. cbn [append].
  change (Ascii.eqb "<" "<") with true. cbn [andb]. now rewrite (isname_not_mark c Hc).
Qed.

(** X22.  An element whose closing tag carries another name is rejected
    with "Mismatched closing tag: expected" and the name of the open tag,
    whatever follows the closing tag; an element the input ends before the
    closing tag of is rejected with "Expected closing tag". *)
Theorem closing_tag_must_match (tag text : string) (kids : list Node) :
  all isname tag = true -> Forall wf kids -> forallb well_named kids = true ->
  (forall other rest,
     lacks ">" other = true -> other <> tag ->
     parse ("<" ++ tag ++ ">" ++ encode_text text ++ concat_all (map (dump false 0 2) kids)
            ++ "</" ++ other ++ ">" ++ rest)
     = Throw (XMLParseError ("Mismatched closing tag: expected " ++ tag)))
  /\ parse ("<" ++ tag ++ ">" ++ encode_text text ++ concat_all (map (dump false 0 2) kids))
     = Throw (XMLParseError "Expected closing tag").
Proof.
  intros Htag Hwf Hn.
  destruct (children_segments kids Hwf Hn) as (segs & Hsegs & Hcs).
  rewrite <- Hcs. split.
  - intros other rest Hother Hne.
    set (src := "<" ++ tag ++ ">" ++ encode_text text ++ content_source segs
                ++ "</" ++ other ++ ">" ++ rest).
    assert (Hsrc : src = String "<" (tag ++ String ">" (encode_text text ++ content_source segs
                           ++ String "<" (String "/" (other ++ String ">" rest)))))
      by reflexivity.
    unfold parse. rewrite Hsrc at 2. rewrite Hsrc at 1.
    rewrite (open_element_head tag _ Htag). cbn [bind]. rewrite <- Hsrc.
    assert (Hlen : (String.length (encode_text text) + String.length (content_source segs) + 2
                    <= String.length src)%nat).
    { rewrite Hsrc. cbn [String.length]. rewrite !length_append. cbn [String.length].
      rewrite !length_append. lia. }
    destruct (2 * String.length src + 2)%nat as [|f] eqn:Ef; [lia|].
    rewrite Hsrc. cbn [parse_node]. rewrite skip_ws_stops by reflexivity.
    change (Ascii.eqb "<" "<") with true. cbv iota.
    rewrite (span_all isname tag) by (cbn [stops]; auto).
    rewrite skip_ws_stops by reflexivity.
    destruct f as [|f]; [lia|].
    cbn [parse_attributes]. change (Ascii.eqb ">" ">" || Ascii.eqb ">" "/") with true.
    cbv iota. cbn [bind].
    change (Ascii.eqb ">" "/") with false. change (Ascii.eqb ">" ">") with true. cbv iota.
    rewrite (parse_content_segments segs Hsegs (encode_text text) EmptyString [] EmptyString (S f)
               (String "<" (String "/" (other ++ String ">" rest)))
               (encode_text_is_run text) eq_refl) by lia.
    cbn [bind app]. unfold parse_closing. cbn [closes advance].
    change (Ascii.eqb "<" "<" && Ascii.eqb "/" "/") with true. cbv iota.
    rewrite (span_all _ other (String ">" rest)) by (first [exact Hother | reflexivity]).
    cbn [name]. apply String.eqb_neq in Hne. now rewrite Hne.
  - set (src := "<" ++ tag ++ ">" ++ encode_text text ++ content_source segs).
    assert (Hsrc : src = String "<" (tag ++ String ">" (encode_text text ++ content_source segs)))
      by reflexivity.
    unfold parse. rewrite Hsrc at 2. rewrite Hsrc at 1.
    rewrite (open_element_head tag _ Htag). cbn [bind]. rewrite <- Hsrc.
    assert (Hlen : (String.length (encode_text text) + String.length (content_source segs) + 2
                    <= String.length src)%nat).
    { rewrite Hsrc. cbn [String.length]. rewrite !length_append. cbn [String.length].
      rewrite !length_append. lia. }
    destruct (2 * String.length src + 2)%nat as [|f] eqn:Ef; [lia|].
    rewrite Hsrc. cbn [parse_node]. rewrite skip_ws_stops by reflexivity.
    change (Ascii.eqb "<" "<") with true. cbv iota.
    rewrite (span_all isname tag) by (cbn [stops]; auto).
    rewrite skip_ws_stops by reflexivity.
    destruct f as [|f]; [lia|].
    cbn [parse_attributes]. change (Ascii.eqb ">" ">" || Ascii.eqb ">" "/") with true.
    cbv iota. cbn [bind].
    change (Ascii.eqb ">" "/") with false. change (Ascii.eqb ">" ">") with true. cbv iota.
    rewrite (parse_content_ends segs Hsegs (encode_text text) EmptyString [] EmptyString (S f)
               (encode_text_is_run text)) by lia.
    reflexivity.
Qed.

Lemma closing_tag_witness :
  parse "<a>x<b /></c>" = Throw (XMLParseError "Mismatched closing tag: expected a")
  /\ parse "<a>x<b />" = Throw (XMLParseError "Expected closing tag").
Proof.
  destruct (closing_tag_must_match "a" "x" [node "b"]) as [H1 H2].
  - reflexivity.
  - repeat constructor.
  - reflexivity.
  - split; [apply (H1 "c" EmptyString); [reflexivity | discriminate] | exact H2].
Defined.

End XmlDocuments.

(** ** XML: [parse] ends, with a node or a parse error *)

Module XmlParsing.
Import EXml.
Import XmlOrder.
Import XmlText.

Ltac xml_error := right; eexists; reflexivity.

Lemma parse_attributes_ends (fuel : nat) :
  forall attrs s,
    match parse_attributes fuel attrs s with
    | Ok (_, rest) => (String.length rest <= String.length s)%nat
    | Throw e =>
        (e = out_of_fuel /\ (fuel <= String.length s)%nat) \/ exists msg, e = XMLParseError msg
    end.
Proof.
  induction fuel as [|fuel IH]; intros attrs s.
  - destruct s as [|c s]; [cbn; lia|]. cbn [parse_attributes].
    destruct (Ascii.eqb c ">" || Ascii.eqb c "/"); [cbn; lia|].
    left. split; [reflexivity | lia].
  - destruct s as [|c s]; [cbn; lia|]. cbn [parse_attributes].
    destruct (Ascii.eqb c ">" || Ascii.eqb c "/"); [cbn; lia|].
    pose proof (span_length isattr (String c s)) as H1.
    destruct (span isattr (String c s)) as [key s1]. cbn [snd] in H1.
    pose proof (skip_ws_length s1) as H2.
    destruct (skip_ws s1) as [|eq s2]; [xml_error|]. cbn [String.length] in H2.
    destruct (Ascii.eqb eq "="); [|xml_error].
    pose proof (skip_ws_length s2) as H3.
    destruct (skip_ws s2) as [|quote s3]; [xml_error|]. cbn [String.length] in H3.
    destruct (Ascii.eqb quote dquote || Ascii.eqb quote squote); [|xml_error].
    pose proof (span_length (fun c => negb (Ascii.eqb c quote)) s3) as H4.
    destruct (span (fun c => negb (Ascii.eqb c quote)) s3) as [val s4]. cbn [snd] in H4.
    pose proof (skip_ws_length (advance s4)) as H5.
    assert (H6 : (String.length (advance s4) <= String.length s4)%nat)
      by (destruct s4; cbn [advance String.length]; lia).
    specialize (IH (StdMap.assign key (decode_text val) attrs) (skip_ws (advance s4))).
    destruct (parse_attributes fuel _ (skip_ws (advance s4))) as [[a rest]|e];
      [lia|]. destruct IH as [[He Hf]|Hm]; [left; split; [exact He | lia] | now right].
Qed.

Lemma parse_closing_ends (n : Node) (s : string) :
  match parse_closing n s with
  | Ok (_, rest) => (String.length rest < String.length s)%nat
  | Throw e => exists msg, e = XMLParseError msg
  end.
Proof.
  unfold parse_closing. destruct (closes s) eqn:Ec; [|eexists; reflexivity].
  destruct s as [|c1 [|c2 s]]; try discriminate Ec. cbn [advance].
  pose proof (span_length (fun c => negb (Ascii.eqb c ">")) s) as H.
  destruct (span (fun c => negb (Ascii.eqb c ">")) s) as [close_name s2]. cbn [snd] in H.
  destruct (String.eqb close_name (name n)); [|eexists; reflexivity].
  destruct s2; cbn [advance String.length] in *; lia.
Qed.

(** [parse_node] reads forward and the loop over a content does not read
    backward; both throw parse errors only, and run out of fuel only on a
    text longer than half the fuel. *)
Lemma parse_ends (fuel : nat) :
  (forall s,
     match parse_node fuel s with
     | Ok (_, rest) => (String.length rest < String.length s)%nat
     | Throw e =>
         (e = out_of_fuel /\ (fuel <= 2 * String.length s)%nat)
         \/ exists msg, e = XMLParseError msg
     end)
  /\ (forall text kids run s,
        match parse_content fuel text kids run s with
        | Ok (_, rest) => (String.length rest <= String.length s)%nat
        | Throw e =>
            (e = out_of_fuel /\ (fuel <= 2 * String.length s + 1)%nat)
            \/ exists msg, e = XMLParseError msg
        end).
Proof.
  induction fuel as [|fuel [IHn IHc]]; split.
  - intros s. cbn. left. split; [reflexivity | lia].
  - intros text kids run s. destruct s; [cbn; lia|]. cbn. left. split; [reflexivity | lia].
  - intros s. cbn [parse_node]. pose proof (skip_ws_length s) as H0.
    destruct (skip_ws s) as [|lt0 s1]; [xml_error|]. cbn [String.length] in H0.
    destruct (Ascii.eqb lt0 "<"); [|xml_error].
    pose proof (span_length isname s1) as H1.
    destruct (span isname s1) as [tag s2]. cbn [snd] in H1.
    pose proof (skip_ws_length s2) as H2.
    pose proof (parse_attributes_ends fuel [] (skip_ws s2)) as Ha.
    destruct (parse_attributes fuel [] (skip_ws s2)) as [[attrs s3]|e]; cbn [bind].
    + destruct s3 as [|c s4]; [xml_error|]. cbn [String.length] in Ha.
      destruct (Ascii.eqb c "/").
      * destruct s4 as [|gt0 s5]; [xml_error|]. cbn [String.length] in Ha.
        destruct (Ascii.eqb gt0 ">"); [lia | xml_error].
      * destruct (Ascii.eqb c ">"); [|xml_error].
        specialize (IHc EmptyString [] EmptyString s4).
        destruct (parse_content fuel EmptyString [] EmptyString s4) as [[[[text kids] run] s5]|e];
          cbn [bind].
        -- pose proof (parse_closing_ends (mkNode tag (append_run text run) attrs kids) s5) as Hc.
           destruct (parse_closing _ s5) as [[n rest]|e]; [lia | now right].
        -- destruct IHc as [[He Hf]|Hm]; [left; split; [exact He | lia] | now right].
    + destruct Ha as [[He Hf]|Hm]; [left; split; [exact He | lia] | now right].
  - intros text kids run s. destruct s as [|c0 s0]; [cbn; lia|].
    cbn [parse_content].
    pose proof (span_length isspace (String c0 s0)) as H1.
    destruct (span isspace (String c0 s0)) as [ws s1]. cbn [snd] in H1.
    destruct s1 as [|c s2]; [cbn [String.length]; lia|]. cbn [String.length] in H1 |- *.
    destruct (Ascii.eqb c "<").
    + destruct (closes (String c s2)); [cbn [String.length]; lia|].
      specialize (IHn (String c s2)).
      destruct (parse_node fuel (String c s2)) as [[child s3]|e]; cbn [bind].
      * cbn [String.length] in IHn.
        specialize (IHc (append_run text (run ++ ws)) (kids ++ [child])%list EmptyString s3).
        destruct (parse_content fuel _ _ EmptyString s3) as [[[[t k] r] rest]|e];
          [lia|]. destruct IHc as [[He Hf]|Hm]; [left; split; [exact He | lia] | now right].
      * cbn [String.length] in IHn.
        destruct IHn as [[He Hf]|Hm]; [left; split; [exact He | lia] | now right].
    + specialize (IHc text kids ((run ++ ws) ++ str1 c) s2).
      destruct (parse_content fuel text kids _ s2) as [[[[t k] r] rest]|e];
        [lia|]. destruct IHc as [[He Hf]|Hm]; [left; split; [exact He | lia] | now right].
Qed.

Lemma skip_ws_and_prolog_ends (fuel : nat) :
  forall s,
    match skip_ws_and_prolog fuel s with
    | Ok rest => (String.length rest <= String.length s)%nat
    | Throw e =>
        (e = out_of_fuel /\ (fuel <= String.length s)%nat) \/ exists msg, e = XMLParseError msg
    end.
Proof.
  induction fuel as [|fuel IH]; intros s.
  - destruct s; [cbn; lia|]. cbn. left. split; [reflexivity | lia].
  - destruct s as [|c0 s0]; [cbn; lia|]. cbn [skip_ws_and_prolog].
    pose proof (skip_ws_length (String c0 s0)) as H0.
    destruct (skip_ws (String c0 s0)) as [|lt0 [|c s1]]; try (cbn [String.length] in *; lia).
    destruct (Ascii.eqb lt0 "<" && (Ascii.eqb c "?" || Ascii.eqb c "!")); [|exact H0].
    destruct (find_char ">" (String lt0 (String c s1))) as [[a b]|] eqn:Ef; [|xml_error].
    apply find_char_shorter in Ef. specialize (IH b).
    destruct (skip_ws_and_prolog fuel b) as [rest|e]; [lia|].
    destruct IH as [[He Hf]|Hm]; [left; split; [exact He | lia] | now right].
Qed.

(** X23.  [parse] ends on every text, with a node whose attributes are
    sorted or with an [XMLParseError]. *)
Theorem parse_returns_a_node_or_a_parse_error :
  forall s : string,
    (exists n, parse s = Ok n /\ wf n)
    \/ (exists msg, parse s = Throw (XMLParseError msg)).
Proof.
  intros s. destruct (parse s) as [n|e] eqn:Ep.
  - left. exists n. split; [reflexivity | now apply (document_wf s)].
  - right. unfold parse in Ep.
    pose proof (skip_ws_and_prolog_ends (S (String.length s)) s) as H0.
    destruct (skip_ws_and_prolog (S (String.length s)) s) as [s0|e0]; cbn [bind] in Ep.
    + pose proof (proj1 (parse_ends (2 * String.length s + 2)) s0) as H1.
      destruct (parse_node (2 * String.length s + 2) s0) as [[root rest]|e1]; cbn [bind] in Ep.
      * destruct (skip_ws rest); [discriminate Ep|]. injection Ep as <-. eexists; reflexivity.
      * injection Ep as <-. destruct H1 as [[_ Hf]|[msg ->]]; [lia | now exists msg].
    + injection Ep as <-. destruct H0 as [[_ Hf]|[msg ->]]; [lia | now exists msg].
Qed.

End XmlParsing.

(** ** JSON: [parse] ends, with a value or a parse error *)

Module JsonParsing.
Import Double.
Import EJson.
Import NumberGrammar.
Import JsonOrder.
Import RoundTrip.

Section Platform.
Variable char_signed : bool.

Ltac parse_error := eexists; reflexivity.

(** The loop of [parse_string] reads forward, and throws parse errors
    only. *)
Lemma parse_string_loop_no_regress (n : nat) :
  forall s res, (String.length s <= n)%nat ->
    no_regress s (parse_string_loop char_signed res s).
Proof.
  induction n as [|n IH]; intros s res Hn.
  - destruct s; [cbn; lia | cbn [String.length] in Hn; lia].
  - destruct s as [|c s1]; [cbn; lia|]. cbn [String.length] in Hn.
    assert (Hrec : forall s' res', (String.length s' <= String.length s1)%nat ->
              no_regress (String c s1) (parse_string_loop char_signed res' s')).
    { intros s' res' Hs'. specialize (IH s' res' ltac:(lia)).
      unfold no_regress in *. destruct (parse_string_loop char_signed res' s') as [[r rest]|e];
        [cbn [String.length]; lia | exact IH]. }
    cbn [parse_string_loop].
    destruct (Ascii.eqb c dquote); [cbn; lia|].
    destruct (Ascii.eqb c backslash).
    + destruct s1 as [|esc s2]; [cbn; parse_error|]. cbn [String.length] in Hrec.
      destruct (Ascii.eqb esc dquote); [apply Hrec; lia|].
      destruct (Ascii.eqb esc backslash); [apply Hrec; lia|].
      destruct (Ascii.eqb esc "/"); [apply Hrec; lia|].
      destruct (Ascii.eqb esc "b"); [apply Hrec; lia|].
      destruct (Ascii.eqb esc "f"); [apply Hrec; lia|].
      destruct (Ascii.eqb esc "n"); [apply Hrec; lia|].
      destruct (Ascii.eqb esc "r"); [apply Hrec; lia|].
      destruct (Ascii.eqb esc "t"); [apply Hrec; lia|].
      destruct (Ascii.eqb esc "u"); [|cbn; parse_error].
      destruct s2 as [|a [|b [|c' [|d s3]]]]; try (cbn; parse_error).
      cbn [String.length] in Hrec.
      destruct (stoi (str4 a b c' d) 16) as [codepoint|e]; [|cbn; parse_error].
      destruct (is_high_surrogate codepoint).
      * destruct s3 as [|b0 [|u0 [|l1 [|l2 [|l3 [|l4 s4]]]]]]; try (cbn; parse_error).
        cbn [String.length] in Hrec.
        destruct (Ascii.eqb b0 backslash && Ascii.eqb u0 "u"); [|cbn; parse_error].
        destruct (stoi (str4 l1 l2 l3 l4) 16) as [low|e]; [|cbn; parse_error].
        destruct ((low <? 56320) || (57343 <? low)); [cbn; parse_error|].
        apply Hrec; lia.
      * destruct (is_low_surrogate codepoint); [cbn; parse_error|].
        apply Hrec; lia.
    + destruct (below_32 char_signed c); [cbn; parse_error|].
      apply Hrec; lia.
Qed.

Lemma parse_string_progress (s : string) : progress s (parse_string char_signed s).
Proof.
  unfold parse_string. destruct s as [|c s']; [cbn; parse_error|].
  destruct (Ascii.eqb c dquote); [|cbn; parse_error].
  pose proof (parse_string_loop_no_regress _ s' EmptyString (Nat.le_refl _)) as H.
  unfold no_regress, progress in *.
  destruct (parse_string_loop char_signed EmptyString s') as [[r rest]|e];
    cbn [bind String.length]; [lia | exact H].
Qed.

Lemma starts_with_length (p s rest : string) :
  starts_with p s = Some rest -> String.length s = (String.length p + String.length rest)%nat.
Proof.
  revert s. induction p as [|a p IH]; intros s; cbn [starts_with].
  - now intros [= ->].
  - destruct s as [|b s]; [discriminate|]. destruct (Ascii.eqb a b); [|discriminate].
    intros H. cbn [String.length]. now rewrite (IH s H).
Qed.

Lemma parse_null_progress (s : string) : progress s (parse_null s).
Proof.
  unfold parse_null. destruct (starts_with "null" s) as [rest|] eqn:E; [|cbn; parse_error].
  apply starts_with_length in E. cbn [progress String.length] in *. lia.
Qed.

Lemma parse_bool_progress (s : string) : progress s (parse_bool s).
Proof.
  unfold parse_bool. destruct (starts_with "true" s) as [rest|] eqn:E.
  - apply starts_with_length in E. cbn [progress String.length] in *. lia.
  - destruct (starts_with "false" s) as [rest|] eqn:E'; [|cbn; parse_error].
    apply starts_with_length in E'. cbn [progress String.length] in *. lia.
Qed.

Lemma span_snd_length (p : ascii -> bool) (s : string) :
  (String.length (snd (span p s)) <= String.length s)%nat.
Proof. apply span_length. Qed.

Lemma number_integer_progress (s : string) : progress s (number_integer s).
Proof.
  unfold number_integer. destruct s as [|c s']; [cbn; parse_error|].
  destruct (isdigit c) eqn:Ec; [|cbn; parse_error].
  destruct (Ascii.eqb c "0"); [cbn; lia|].
  cbn [span]. rewrite Ec. pose proof (span_length isdigit s') as H.
  destruct (span isdigit s') as [a b]. cbn [snd progress String.length] in *. lia.
Qed.

Lemma number_fraction_no_regress (s : string) : no_regress s (number_fraction s).
Proof.
  unfold number_fraction. destruct (starts "." s); [|cbn; lia].
  destruct (advance s) as [|d t] eqn:E; [cbn; parse_error|].
  destruct (isdigit d); [|cbn; parse_error].
  pose proof (span_length isdigit (String d t)) as H.
  destruct (span isdigit (String d t)) as [a b]. cbn [snd no_regress] in *.
  destruct s as [|c s']; cbn [advance] in E; [discriminate E|]. subst s'.
  cbn [String.length] in *. lia.
Qed.

Lemma number_exponent_no_regress (s : string) : no_regress s (number_exponent s).
Proof.
  unfold number_exponent. destruct s as [|e s']; [cbn; lia|].
  destruct (Ascii.eqb e "e" || Ascii.eqb e "E"); [|cbn; lia].
  assert (Hgen : forall sign s'', (String.length s'' <= String.length s')%nat ->
            no_regress (String e s')
              match s'' with
              | String d _ =>
                  if isdigit d
                  then let '(ds, rest) := span isdigit s'' in Ok (str1 e ++ sign ++ ds, rest)
                  else Throw (JSONParseError "Invalid number: missing digits in exponent")
              | EmptyString => Throw (JSONParseError "Invalid number: missing digits in exponent")
              end).
  { intros sign s'' Hs. destruct s'' as [|d t]; [cbn; parse_error|].
    destruct (isdigit d); [|cbn; parse_error].
    pose proof (span_length isdigit (String d t)) as H.
    destruct (span isdigit (String d t)) as [a b]. cbn [snd no_regress String.length] in *. lia. }
  destruct s' as [|g t]; [apply (Hgen EmptyString EmptyString); lia|].
  destruct (Ascii.eqb g "+" || Ascii.eqb g "-").
  - apply (Hgen (str1 g) t). cbn [String.length]. lia.
  - apply (Hgen EmptyString (String g t)). lia.
Qed.

Lemma number_lexeme_progress (s : string) : progress s (number_lexeme s).
Proof.
  unfold number_lexeme.
  assert (Hgen : forall minus s0, (String.length s0 <= String.length s)%nat ->
            progress s
              ('(int_part, s1) <- number_integer s0 ;;
               '(frac_part, s2) <- number_fraction s1 ;;
               '(exp_part, s3) <- number_exponent s2 ;;
               Ok (minus ++ int_part ++ frac_part ++ exp_part, s3))).
  { intros minus s0 Hs.
    pose proof (number_integer_progress s0) as H1.
    destruct (number_integer s0) as [[a s1]|e]; [|exact H1]. cbn [bind].
    pose proof (number_fraction_no_regress s1) as H2.
    destruct (number_fraction s1) as [[b s2]|e]; [|exact H2]. cbn [bind].
    pose proof (number_exponent_no_regress s2) as H3.
    destruct (number_exponent s2) as [[c s3]|e]; [|exact H3]. cbn [bind].
    cbn [progress no_regress] in *. lia. }
  destruct (starts "-" s) eqn:E.
  - apply Hgen. destruct s; cbn [advance String.length]; lia.
  - apply Hgen. lia.
Qed.

Lemma parse_number_progress (s : string) : progress s (parse_number s).
Proof.
  unfold parse_number. pose proof (number_lexeme_progress s) as H.
  destruct (number_lexeme s) as [[lexeme rest]|e]; [|exact H]. cbn [bind].
  destruct (stod lexeme); [exact H | cbn; parse_error].
Qed.

Lemma progress_bounded {A : Type} (fuel : nat) (s s' : string) (r : result (A * string)) :
  progress s' r -> (String.length s' <= String.length s)%nat -> bounded fuel s r.
Proof.
  unfold progress, bounded. destruct r as [[a rest]|e]; intros H Hs; [lia | now right].
Qed.

Lemma array_loop_bounded (value : string -> result (JSON * string)) (f : nat) :
  (forall s, bounded f s (value s)) ->
  forall k arr s, bounded (Nat.min f k) s (parse_array_loop value k arr s).
Proof.
  intros Hv. induction k as [|k IH]; intros arr s.
  - cbn. left. split; [reflexivity | lia].
  - cbn [parse_array_loop]. specialize (Hv s).
    destruct (value s) as [[el s1]|e]; cbn [bind].
    + cbn [bounded] in Hv. pose proof (skip_ws_length s1) as Hw.
      destruct (skip_ws s1) as [|c s2]; [cbn; right; parse_error|].
      cbn [String.length] in Hw.
      destruct (Ascii.eqb c ",").
      * specialize (IH (arr ++ [el])%list (skip_ws s2)).
        pose proof (skip_ws_length s2) as Hw2.
        unfold bounded in *.
        destruct (parse_array_loop value k (arr ++ [el]) (skip_ws s2)) as [[a rest]|e];
          [lia|]. destruct IH as [[He Hk]|Hm]; [left; split; [exact He | lia] | now right].
      * destruct (Ascii.eqb c "]"); [cbn; lia | cbn; right; parse_error].
    + cbn [bounded] in *. destruct Hv as [[He Hk]|Hm]; [left; split; [exact He | lia] | now right].
Qed.

Lemma object_loop_bounded (value : string -> result (JSON * string)) (f : nat) :
  (forall s, bounded f s (value s)) ->
  forall k obj s, bounded (Nat.min f k) s (parse_object_loop char_signed value k obj s).
Proof.
  intros Hv. induction k as [|k IH]; intros obj s.
  - cbn. left. split; [reflexivity | lia].
  - cbn [parse_object_loop]. pose proof (skip_ws_length s) as Hw0.
    destruct (starts dquote (skip_ws s)); [|cbn; right; parse_error].
    pose proof (parse_string_progress (skip_ws s)) as Hkey.
    destruct (parse_string char_signed (skip_ws s)) as [[key s1]|e]; cbn [bind].
    + cbn [progress] in Hkey. pose proof (skip_ws_length s1) as Hw1.
      destruct (starts ":" (skip_ws s1)) eqn:Ecolon; [|cbn; right; parse_error].
      assert (Hadv : (String.length (advance (skip_ws s1)) < String.length (skip_ws s1))%nat).
      { destruct (skip_ws s1); [discriminate Ecolon | cbn [advance String.length]; lia]. }
      specialize (Hv (advance (skip_ws s1))).
      destruct (value (advance (skip_ws s1))) as [[val s3]|e]; cbn [bind].
      * cbn [bounded] in Hv. pose proof (skip_ws_length s3) as Hw3.
        destruct (skip_ws s3) as [|c s4]; [cbn; right; parse_error|].
        cbn [String.length] in Hw3.
        destruct (Ascii.eqb c ",").
        -- match goal with |- bounded _ _ (parse_object_loop _ _ _ ?o ?t) =>
             specialize (IH o t) end.
           pose proof (skip_ws_length s4) as Hw4.
           unfold bounded in *.
           match goal with |- match ?r with _ => _ end => destruct r as [[a rest]|e] end;
             [lia|]. destruct IH as [[He Hk]|Hm]; [left; split; [exact He | lia] | now right].
        -- destruct (Ascii.eqb c "}"); [cbn; lia | cbn; right; parse_error].
      * cbn [bounded] in *.
        destruct Hv as [[He Hk]|Hm]; [left; split; [exact He | lia] | now right].
    + right. exact Hkey.
Qed.

(** [parse_value] reads forward, throws parse errors only, and runs out
    of fuel only on a text at least as long as the fuel. *)
Lemma parse_value_bounded (f : nat) : forall s, bounded f s (parse_value char_signed f s).
Proof.
  induction f as [|f IH]; intros s.
  - cbn. left. split; [reflexivity | lia].
  - cbn [parse_value]. pose proof (skip_ws_length s) as Hw.
    destruct (skip_ws s) as [|c t] eqn:Es; [cbn; right; parse_error|].
    destruct (Ascii.eqb c "n");
      [apply (progress_bounded _ _ _ _ (parse_null_progress _) Hw)|].
    destruct (Ascii.eqb c "t" || Ascii.eqb c "f");
      [apply (progress_bounded _ _ _ _ (parse_bool_progress _) Hw)|].
    destruct (Ascii.eqb c dquote);
      [apply (progress_bounded _ _ _ _ (parse_string_progress _) Hw)|].
    destruct (Ascii.eqb c "[") eqn:Earr.
    { unfold parse_array. cbn [starts advance]. rewrite Earr.
      pose proof (skip_ws_length t) as Hw1. cbn [String.length] in Hw.
      destruct (starts "]" (skip_ws t)).
      - cbn [bounded]. destruct (skip_ws t); cbn [advance String.length] in *; lia.
      - pose proof (array_loop_bounded _ f IH f [] (skip_ws t)) as H.
        rewrite Nat.min_id in H. unfold bounded in *.
        destruct (parse_array_loop (parse_value char_signed f) f [] (skip_ws t)) as [[a rest]|e];
          [lia|]. destruct H as [[He Hk]|Hm]; [left; split; [exact He | lia] | now right]. }
    destruct (Ascii.eqb c "{") eqn:Eobj.
    { unfold parse_object. cbn [starts advance]. rewrite Eobj.
      pose proof (skip_ws_length t) as Hw1. cbn [String.length] in Hw.
      destruct (starts "}" (skip_ws t)).
      - cbn [bounded]. destruct (skip_ws t); cbn [advance String.length] in *; lia.
      - pose proof (object_loop_bounded _ f IH f [] (skip_ws t)) as H.
        rewrite Nat.min_id in H. unfold bounded in *.
        destruct (parse_object_loop char_signed (parse_value char_signed f) f [] (skip_ws t))
          as [[a rest]|e];
          [lia|]. destruct H as [[He Hk]|Hm]; [left; split; [exact He | lia] | now right]. }
    destruct (Ascii.eqb c "-" || isdigit c);
      [apply (progress_bounded _ _ _ _ (parse_number_progress _) Hw)|].
    cbn. right. parse_error.
Qed.

Lemma array_loop_more_fuel (f k : nat) :
  (forall s, settled (parse_value char_signed f s) ->
             parse_value char_signed (k + f) s = parse_value char_signed f s) ->
  forall n arr s,
    settled (parse_array_loop (parse_value char_signed f) n arr s) ->
    parse_array_loop (parse_value char_signed (k + f)) (k + n) arr s
    = parse_array_loop (parse_value char_signed f) n arr s.
Proof.
  intros Hv. induction n as [|n IH]; intros arr s Hs; [now contradiction Hs|].
  rewrite Nat.add_succ_r. cbn [parse_array_loop] in Hs |- *.
  assert (Hval : settled (parse_value char_signed f s)).
  { intros E. rewrite E in Hs. now apply Hs. }
  rewrite (Hv s Hval).
  destruct (parse_value char_signed f s) as [[el s1]|e]; cbn [bind] in Hs |- *; [|reflexivity].
  destruct (skip_ws s1) as [|c s2]; [reflexivity|].
  destruct (Ascii.eqb c ","); [|reflexivity]. now apply IH.
Qed.

Lemma object_loop_more_fuel (f k : nat) :
  (forall s, settled (parse_value char_signed f s) ->
             parse_value char_signed (k + f) s = parse_value char_signed f s) ->
  forall n obj s,
    settled (parse_object_loop char_signed (parse_value char_signed f) n obj s) ->
    parse_object_loop char_signed (parse_value char_signed (k + f)) (k + n) obj s
    = parse_object_loop char_signed (parse_value char_signed f) n obj s.
Proof.
  intros Hv. induction n as [|n IH]; intros obj s Hs; [now contradiction Hs|].
  rewrite Nat.add_succ_r. cbn [parse_object_loop] in Hs |- *.
  destruct (starts dquote (skip_ws s)); [|reflexivity].
  destruct (parse_string char_signed (skip_ws s)) as [[key s1]|e]; cbn [bind] in Hs |- *;
    [|reflexivity].
  destruct (starts ":" (skip_ws s1)); [|reflexivity].
  assert (Hval : settled (parse_value char_signed f (advance (skip_ws s1)))).
  { intros E. rewrite E in Hs. now apply Hs. }
  rewrite (Hv _ Hval).
  destruct (parse_value char_signed f (advance (skip_ws s1))) as [[val s3]|e];
    cbn [bind] in Hs |- *; [|reflexivity].
  destruct (skip_ws s3) as [|c s4]; [reflexivity|].
  destruct (Ascii.eqb c ","); [|reflexivity]. now apply IH.
Qed.

(** More fuel does not change an outcome that is not the fuel running
    out. *)
Lemma parse_value_more_fuel (k f : nat) :
  forall s, settled (parse_value char_signed f s) ->
            parse_value char_signed (k + f) s = parse_value char_signed f s.
Proof.
  induction f as [|f IH]; intros s Hs; [now contradiction Hs|].
  rewrite Nat.add_succ_r. cbn [parse_value] in Hs |- *.
  destruct (skip_ws s) as [|c t]; [reflexivity|].
  destruct (Ascii.eqb c "n"); [reflexivity|].
  destruct (Ascii.eqb c "t" || Ascii.eqb c "f"); [reflexivity|].
  destruct (Ascii.eqb c dquote); [reflexivity|].
  destruct (Ascii.eqb c "[").
  { unfold parse_array in *. destruct (starts "[" (String c t)); [|reflexivity].
    destruct (starts "]" (skip_ws (advance (String c t)))); [reflexivity|].
    now apply array_loop_more_fuel. }
  destruct (Ascii.eqb c "{").
  { unfold parse_object in *. destruct (starts "{" (String c t)); [|reflexivity].
    destruct (starts "}" (skip_ws (advance (String c t)))); [reflexivity|].
    now apply object_loop_more_fuel. }
  reflexivity.
Qed.

Lemma parse_value_enough_fuel (f : nat) (s : string) :
  (String.length s < f)%nat ->
  parse_value char_signed f s = parse_value char_signed (S (String.length s)) s.
Proof.
  intros Hf. replace f with ((f - S (String.length s)) + S (String.length s))%nat by lia.
  apply parse_value_more_fuel. intros E.
  pose proof (parse_value_bounded (S (String.length s)) s) as Hb. rewrite E in Hb.
  cbn [bounded] in Hb. destruct Hb as [[_ Hk]|[msg Hm]]; [lia | discriminate Hm].
Qed.

Lemma skip_ws_spaces (ws s : string) :
  all isspace ws = true -> skip_ws (ws ++ s) = skip_ws s.
Proof.
  induction ws as [|c ws IH]; cbn [all append]; intros H; [reflexivity|].
  apply andb_true_iff in H as [Hc Hws]. unfold skip_ws in *. cbn [span]. rewrite Hc.
  specialize (IH Hws). now destruct (span isspace (ws ++ s)).
Qed.

Lemma parse_string_loop_plain (body : string) :
  all (key_char_ok char_signed) body = true ->
  forall res, parse_string_loop char_signed res body = Ok (res ++ body, EmptyString).
Proof.
  induction body as [|c body IH]; cbn [all]; intros H res.
  - cbn. now rewrite append_nil_r.
  - apply andb_true_iff in H as [Hc Hb].
    rewrite (key_char_read_back char_signed c res body Hc). rewrite (IH Hb).
    rewrite append_assoc. reflexivity.
Qed.

End Platform.

(** X24.  [parse] ends on every text, with a value whose objects have
    their keys sorted, or with a [JSONParseError]: what [std::stoi] and
    [std::stod] throw inside never leaves it, and the message ends with
    that of the [JSONParseError] thrown inside. *)
Theorem parse_returns_a_value_or_a_parse_error :
  forall (char_signed : bool) (s : string),
    (exists v, parse char_signed s = Ok v /\ wf v /\ is_valid char_signed s = true)
    \/ (exists context msg,
          parse char_signed s
          = Throw (JSONParseError (context ++ what (JSONParseError msg)))
          /\ is_valid char_signed s = false).
Proof.
  intros char_signed s.
  pose proof (parse_value_bounded char_signed (S (String.length s)) s) as Hb.
  destruct (parse char_signed s) as [v|e] eqn:Ep.
  - left. exists v. split; [reflexivity|]. split.
    + now apply (parse_wf char_signed s).
    + unfold is_valid. now rewrite Ep.
  - right. unfold is_valid. rewrite Ep. cbn [is_ok].
    unfold parse in Ep.
    destruct (parse_value char_signed (S (String.length s)) s) as [[v rest]|e0]; cbn [bind] in Ep.
    + destruct (skip_ws rest); [discriminate Ep|].
      injection Ep as <-. exists "Parse error: ", "Extra characters after JSON". now split.
    + cbn [bounded] in Hb. destruct Hb as [[_ Hk]|[msg ->]]; [lia|].
      injection Ep as <-. exists "Parse error: ", msg. now split.
Qed.

(** X25.  White space in front of a text changes nothing: [parse] gives
    for it the value it gives for the text, and fails when it fails for
    the text. *)
Theorem parse_skips_leading_white_space (char_signed : bool) (ws s : string) :
  all isspace ws = true ->
  (forall v, parse char_signed (ws ++ s) = Ok v <-> parse char_signed s = Ok v)
  /\ is_valid char_signed (ws ++ s) = is_valid char_signed s.
Proof.
  intros Hws.
  assert (H : parse char_signed (ws ++ s) = parse char_signed s).
  { unfold parse.
    rewrite <- (parse_value_skip_ws char_signed _ (ws ++ s)).
    rewrite (skip_ws_spaces ws s Hws).
    rewrite (parse_value_skip_ws char_signed _ s).
    rewrite (parse_value_enough_fuel char_signed (S (String.length (ws ++ s))) s);
      [reflexivity|]. rewrite length_append. lia. }
  unfold is_valid. rewrite H. split; [intros v; reflexivity | reflexivity].
Qed.

Lemma parse_skips_leading_white_space_witness :
  (forall v, parse true (" " ++ str1 newline ++ "[1]") = Ok v <-> parse true "[1]" = Ok v)
  /\ is_valid true (" " ++ str1 newline ++ "[1]") = is_valid true "[1]".
Proof.
  apply (parse_skips_leading_white_space true (String " " (str1 newline)) "[1]").
  reflexivity.
Defined.

(** X26.  [parse] does not ask for the closing quote of a string: a text
    that is a quote and then characters that need no escape, up to the end
    of the input, parses to the String of these characters, as it does
    with the closing quote. *)
Theorem parse_accepts_an_unterminated_string (char_signed : bool) (body : string) :
  all (key_char_ok char_signed) body = true ->
  parse char_signed (String dquote body) = Ok (JString body)
  /\ parse char_signed (String dquote (body ++ str1 dquote)) = Ok (JString body).
Proof.
  intros Hbody. unfold parse. split.
  - rewrite (parse_value_string char_signed). unfold parse_string.
    rewrite (Ascii.eqb_refl dquote).
    rewrite (parse_string_loop_plain char_signed body Hbody). reflexivity.
  - rewrite (parse_value_string char_signed). unfold parse_string.
    rewrite (Ascii.eqb_refl dquote). unfold str1.
    rewrite (key_read_back char_signed body Hbody). reflexivity.
Qed.

Lemma parse_unterminated_string_witness :
  parse true (String dquote "abc") = Ok (JString "abc")
  /\ parse true (String dquote ("abc" ++ str1 dquote)) = Ok (JString "abc").
Proof. apply (parse_accepts_an_unterminated_string true "abc"). reflexivity. Defined.

End JsonParsing.

(** ** JSON: any serialization parses back *)

Module PrettyRoundTrip.
Import Double.
Import EJson.
Import NumberGrammar.
Import MapOrder.
Import MapLaws.
Import JsonOrder.
Import RoundTrip.
Import JsonParsing.
Import Integers.

Lemma space_not_number (c : ascii) : isspace c = true -> isnumber c = false.
Proof. each_char c; intros H; try discriminate H; reflexivity. Qed.

Lemma terminated_spaced_stops (rest : string) :
  terminated (skip_ws rest) = true -> stops isnumber rest = true.
Proof.
  destruct rest as [|c rest]; [reflexivity|]. intros H. cbn [stops].
  destruct (isspace c) eqn:Ec.
  - now rewrite (space_not_number c Ec).
  - rewrite skip_ws_stops in H by (cbn [stops]; now rewrite Ec).
    now destruct (terminated_stops _ H) as [Hs _].
Qed.

Lemma all_space_spaces (n : nat) : all isspace (spaces n) = true.
Proof. induction n as [|n IH]; [reflexivity|]. cbn [spaces all]. now rewrite IH. Qed.

Section Values.
Variable char_signed : bool.

Lemma number_read_back_spaced (num : double) (f : nat) (rest : string) :
  number_round_trips num = true -> terminated (skip_ws rest) = true ->
  exists num',
    parse_value char_signed (S f) (dump_number 6 num ++ rest) = Ok (JNumber num', rest)
    /\ Double.eqb num' num = true.
Proof.
  unfold number_round_trips. intros H Hr.
  destruct (parse_number (dump_number 6 num)) as [[v r]|e] eqn:Ep; [|discriminate H].
  destruct v as [| | num' | | |]; try discriminate H.
  destruct r; [|discriminate H].
  exists num'. split; [|exact H].
  unfold parse_number in Ep.
  destruct (number_lexeme (dump_number 6 num)) as [[lexeme r]|e] eqn:El; [|discriminate Ep].
  cbn [bind] in Ep. destruct (stod lexeme) as [d|e] eqn:Ed; [|discriminate Ep].
  injection Ep as -> ->.
  destruct (number_lexeme_head _ _ _ El) as (c & s' & Es & Hc).
  rewrite Es. cbn [append]. rewrite parse_value_number by exact Hc.
  change (String c (s' ++ rest)) with (String c s' ++ rest). rewrite <- Es.
  unfold parse_number.
  rewrite (number_lexeme_app _ _ rest El) by now apply terminated_spaced_stops.
  cbn [bind]. now rewrite Ed.
Qed.

(** White space in front of a text that reads back. *)
Lemma reads_back_spaced_lead (f : nat) (ws text : string) (x : JSON) :
  all isspace ws = true ->
  reads_back_spaced char_signed f text x -> reads_back_spaced char_signed f (ws ++ text) x.
Proof.
  intros Hws Hx rest Hrest. destruct (Hx rest Hrest) as (x' & Hp & He).
  exists x'. split; [|exact He].
  rewrite <- parse_value_skip_ws. rewrite append_assoc, (skip_ws_spaces ws _ Hws).
  now rewrite parse_value_skip_ws.
Qed.

(** The text of an array or object in either layout. *)
Lemma dump_array_layout (pretty : bool) (indent indent_size : nat) (max_precision : Z)
  (arr : list JSON) :
  dump char_signed pretty indent indent_size max_precision (JArray arr)
  = "[" ++ String.concat ","
             (map (fun el =>
                     (if pretty then String newline (spaces (indent + indent_size))
                      else EmptyString)
                     ++ dump char_signed pretty (indent + indent_size) indent_size
                          max_precision el) arr)
        ++ (if pretty && negb (match arr with [] => true | _ => false end)
            then String newline (spaces indent) else EmptyString)
        ++ "]".
Proof.
  cbn [dump].
  set (lead := if pretty then String newline (spaces (indent + indent_size)) else EmptyString).
  set (D := dump char_signed pretty (indent + indent_size) indent_size max_precision).
  set (elements := fix elements (first : bool) (l : list JSON) {struct l} : string :=
                     match l with
                     | [] => EmptyString
                     | el :: l' => _
                     end).
  assert (Hrest : forall l, elements false l
                            = concat_all (map (fun y => "," ++ y) (map (fun el => lead ++ D el) l))).
  { induction l as [|x l IH]; cbn [elements map concat_all]; [reflexivity|].
    rewrite IH. now rewrite !append_assoc. }
  destruct arr as [|x arr]; [reflexivity|].
  cbn [map]. rewrite SortedOutput.concat_cons. cbn [elements]. rewrite Hrest.
  cbn [append]. now rewrite !append_assoc.
Qed.

Lemma more_spaced_terminated (texts : list string) (ws : string) (close : ascii)
  (rest : string) :
  all isspace ws = true -> Ascii.eqb close "]" || Ascii.eqb close "}" = true ->
  terminated (skip_ws (more texts ++ ws ++ String close rest)) = true
  /\ (texts = [] -> skip_ws (more texts ++ ws ++ String close rest) = String close rest).
Proof.
  intros Hws Hc.
  assert (Hclose : skip_ws (ws ++ String close rest) = String close rest).
  { rewrite (skip_ws_spaces ws _ Hws). apply skip_ws_stops. cbn [stops].
    destruct (Ascii.eqb close "]") eqn:E1; [apply Ascii.eqb_eq in E1; now subst|].
    destruct (Ascii.eqb close "}") eqn:E2; [apply Ascii.eqb_eq in E2; now subst|].
    discriminate Hc. }
  destruct texts as [|t texts].
  - cbn [more map concat_all append]. rewrite Hclose. split; [|reflexivity].
    cbn [terminated]. destruct (Ascii.eqb close ","); [reflexivity | exact Hc].
  - split; [reflexivity | discriminate].
Qed.

Lemma array_loop_read_back_spaced (f : nat) (xs : list JSON) (texts : list string) :
  Forall2 (reads_back_spaced char_signed f) texts xs ->
  forall fuel acc text x ws rest,
    all isspace ws = true ->
    reads_back_spaced char_signed f text x ->
    (List.length xs < fuel)%nat ->
    exists arr',
      parse_array_loop (parse_value char_signed f) fuel acc
        (text ++ more texts ++ ws ++ String "]" rest)
      = Ok (JArray (acc ++ arr')%list, rest)
      /\ Forall2 (fun x' x => equal x' x = true) arr' (x :: xs).
Proof.
  induction 1 as [|t y texts xs Hy _ IH]; intros fuel acc text x ws rest Hws Hx Hfuel.
  - destruct fuel as [|fuel]; [cbn in Hfuel; lia|].
    destruct (more_spaced_terminated [] ws "]" rest Hws eq_refl) as [Hterm Hskip].
    destruct (Hx _ Hterm) as (x' & Hp & He).
    exists [x']. split; [|now repeat constructor].
    cbn [parse_array_loop]. rewrite Hp. cbn [bind].
    rewrite (Hskip eq_refl). reflexivity.
  - destruct fuel as [|fuel]; [cbn in Hfuel; lia|].
    destruct (more_spaced_terminated (t :: texts) ws "]" rest Hws eq_refl) as [Hterm _].
    destruct (Hx _ Hterm) as (x' & Hp & He).
    destruct (IH fuel (acc ++ [x'])%list t y ws rest Hws Hy ltac:(cbn in Hfuel; lia))
      as (arr' & Hl & Ha).
    exists (x' :: arr'). split; [|now constructor].
    cbn [parse_array_loop]. rewrite Hp. cbn [bind]. rewrite more_cons. cbn [append].
    rewrite skip_ws_stops by reflexivity.
    change (Ascii.eqb "," ",") with true. cbv iota.
    rewrite parse_array_loop_skip_ws, append_assoc, Hl.
    now rewrite <- app_assoc.
Qed.

(** One round of the loop of [parse_object] on an entry. *)
Lemma parse_object_loop_entry (f fuel : nat) (acc : StdMap.t JSON) (k text : string)
  (v' : JSON) (tail : string) :
  all (key_char_ok char_signed) k = true ->
  parse_value char_signed f (text ++ tail) = Ok (v', tail) ->
  below acc k ->
  parse_object_loop char_signed (parse_value char_signed f) (S fuel) acc
    (entry k text ++ tail)
  = match skip_ws tail with
    | EmptyString => Throw (JSONParseError "Expected ',' or '}' in object")
    | String c s4 =>
        if Ascii.eqb c ","
        then parse_object_loop char_signed (parse_value char_signed f) fuel
               (acc ++ [(k, v')])%list (skip_ws s4)
        else if Ascii.eqb c "}" then Ok (JObject (acc ++ [(k, v')])%list, s4)
        else Throw (JSONParseError ("Unexpected character in object: " ++ str1 c))
    end.
Proof.
  intros Hk Hp Hb.
  cbn [parse_object_loop]. cbv zeta.
  unfold entry. rewrite skip_ws_stops by reflexivity.
  cbn [append]. cbn [starts]. rewrite (Ascii.eqb_refl dquote). unfold parse_string.
  rewrite (Ascii.eqb_refl dquote).
  rewrite !append_assoc. cbn [append].
  rewrite key_read_back by exact Hk. cbn [bind append].
  rewrite skip_ws_stops by reflexivity. cbn [starts advance].
  change (Ascii.eqb ":" ":") with true. cbv iota.
  rewrite Hp. cbn [bind]. rewrite RoundTrip.assign_last by exact Hb. reflexivity.
Qed.

Lemma object_loop_read_back_spaced (f : nat) (kvs : StdMap.t JSON) (texts : list string) :
  Forall2 (fun t kv => all (key_char_ok char_signed) (fst kv) = true
                       /\ exists lead tv,
                            t = lead ++ entry (fst kv) tv /\ all isspace lead = true
                            /\ reads_back_spaced char_signed f tv (snd kv))
          texts kvs ->
  forall fuel acc k text v ws rest,
    all isspace ws = true ->
    all (key_char_ok char_signed) k = true ->
    reads_back_spaced char_signed f text v ->
    StdMap.sorted ((k, v) :: kvs) ->
    (forall k1, In k1 (k :: StdMap.keys kvs) -> below acc k1) ->
    (List.length kvs < fuel)%nat ->
    exists obj',
      parse_object_loop char_signed (parse_value char_signed f) fuel acc
        (entry k text ++ more texts ++ ws ++ String "}" rest)
      = Ok (JObject (acc ++ obj')%list, rest)
      /\ Forall2 (fun kv' kv => fst kv' = fst kv /\ equal (snd kv') (snd kv) = true)
                 obj' ((k, v) :: kvs).
Proof.
  induction 1 as [|t [k2 v2] texts kvs [Hk2 (lead & tv & Et & Hlead & Hv2)] _ IH];
    intros fuel acc k text v ws rest Hws Hk Hv Hsorted Hbelow Hfuel.
  - destruct fuel as [|fuel]; [cbn in Hfuel; lia|].
    destruct (more_spaced_terminated [] ws "}" rest Hws eq_refl) as [Hterm Hskip].
    destruct (Hv _ Hterm) as (v' & Hp & He).
    exists [(k, v')]. split; [|repeat constructor; assumption].
    rewrite (parse_object_loop_entry f fuel acc k text v' _ Hk Hp) by (apply Hbelow; now left).
    rewrite (Hskip eq_refl). reflexivity.
  - cbn [fst snd] in *. subst t.
    destruct fuel as [|fuel]; [cbn in Hfuel; lia|].
    destruct (more_spaced_terminated ((lead ++ entry k2 tv) :: texts) ws "}" rest Hws eq_refl)
      as [Hterm _].
    destruct (Hv _ Hterm) as (v' & Hp & He).
    apply sorted_cons_iff in Hsorted as [Habove Hsorted].
    destruct (IH fuel (acc ++ [(k, v')])%list k2 tv v2 ws rest Hws Hk2 Hv2 Hsorted)
      as (obj' & Hl & Ho).
    + intros k1 Hk1. unfold below, StdMap.keys. rewrite map_app. apply Forall_app. split.
      * apply Hbelow. now right.
      * cbn [map fst]. constructor; [|constructor].
        pose proof (above_all _ k Hsorted Habove) as Hall.
        rewrite Forall_forall in Hall. now apply Hall.
    + cbn in Hfuel. lia.
    + exists ((k, v') :: obj').
      split; [|constructor; [split; [reflexivity | exact He] | exact Ho]].
      rewrite (parse_object_loop_entry f fuel acc k text v' _ Hk Hp) by (apply Hbelow; now left).
      rewrite more_cons. cbn [append]. rewrite skip_ws_stops by reflexivity.
      change (Ascii.eqb "," ",") with true. cbv iota.
      rewrite parse_object_loop_skip_ws. rewrite !append_assoc.
      rewrite <- parse_object_loop_skip_ws. rewrite (skip_ws_spaces lead _ Hlead).
      rewrite parse_object_loop_skip_ws. rewrite Hl.
      now rewrite <- app_assoc.
Qed.

Lemma entry_text_layout (pretty : bool) (indent indent_size : nat) (kv : string * JSON) :
  entry_text char_signed pretty indent indent_size 6 kv
  = (if pretty then String newline (spaces (indent + indent_size)) else EmptyString)
    ++ entry (fst kv)
         ((if pretty then " " else EmptyString)
          ++ dump char_signed pretty (indent + indent_size) indent_size 6 (snd kv)).
Proof. unfold entry_text, entry. destruct pretty; reflexivity. Qed.

Lemma layout_spaces (pretty : bool) (n : nat) :
  all isspace (if pretty then String newline (spaces n) else EmptyString) = true.
Proof. destruct pretty; [|reflexivity]. cbn [all]. now rewrite all_space_spaces. Qed.

(** [parse_value] reads the serialization of a value back, in either
    layout, in front of white space and anything that may follow a
    value. *)
Lemma value_read_back_spaced (pretty : bool) (v : JSON) :
  wf v -> printable char_signed v = true ->
  forall indent indent_size f,
    (weight v <= f)%nat ->
    reads_back_spaced char_signed f (dump char_signed pretty indent indent_size 6 v) v.
Proof.
  induction v as [ | b | num | s | arr IH | obj IH ] using JSON_induction;
    intros Hwf Hpr indent indent_size f Hf rest Hrest;
    (destruct f as [|f]; [pose proof (weight_pos JNull); cbn [weight] in Hf; lia|]).
  - exists JNull. split; reflexivity.
  - exists (JBool b). destruct b; split; reflexivity.
  - destruct (number_read_back_spaced num f rest (printable_number _ _ Hpr) Hrest)
      as (num' & Hp & He).
    exists (JNumber num'). split; [exact Hp | exact He].
  - exists (JString s). split; [|apply String.eqb_refl].
    cbn [dump append]. rewrite parse_value_string. unfold parse_string.
    rewrite (Ascii.eqb_refl dquote). rewrite append_assoc. cbn [append str1].
    rewrite escape_string_read_back by exact Hpr. reflexivity.
  - apply wf_array_iff in Hwf. cbn [printable] in Hpr. cbn [weight] in Hf.
    rewrite dump_array_layout. cbn [append]. rewrite parse_value_array.
    unfold parse_array. cbn [starts advance]. change (Ascii.eqb "[" "[") with true.
    cbv iota zeta. rewrite !append_assoc.
    set (lead := if pretty then String newline (spaces (indent + indent_size)) else EmptyString).
    set (D := dump char_signed pretty (indent + indent_size) indent_size 6).
    assert (Hlead : all isspace lead = true) by apply layout_spaces.
    assert (Hall : forall x, In x arr -> reads_back_spaced char_signed f (lead ++ D x) x).
    { intros x Hx. apply reads_back_spaced_lead; [exact Hlead|].
      rewrite Forall_forall in IH, Hwf. rewrite forallb_forall in Hpr.
      apply (IH x Hx (Hwf x Hx) (Hpr x Hx)).
      pose proof (list_sum_weights arr x Hx). lia. }
    destruct arr as [|x xs].
    + exists (JArray []). split; [|reflexivity].
      cbn [map String.concat append andb negb]. rewrite andb_false_r. cbn [append].
      rewrite skip_ws_stops by reflexivity. reflexivity.
    + cbn [map negb]. rewrite andb_true_r. rewrite SortedOutput.concat_cons.
      fold (more (map (fun el => lead ++ D el) xs)).
      set (texts := map (fun el => lead ++ D el) xs).
      set (ws := if pretty then String newline (spaces indent) else EmptyString).
      assert (Hws : all isspace ws = true) by apply layout_spaces.
      rewrite !append_assoc.
      destruct (more_spaced_terminated texts ws "]" rest Hws eq_refl) as [Hterm _].
      destruct (Hall x (or_introl eq_refl) _ Hterm) as (x0 & Hp0 & _).
      destruct (parse_value_not_closing _ _ _ _ Hp0) as [Hnc _].
      destruct (array_loop_read_back_spaced f xs texts) with
        (fuel := f) (acc := @nil JSON) (text := lead ++ D x) (x := x) (ws := ws) (rest := rest)
        as (arr' & Hl & Ha).
      * subst texts. clear -Hall. induction xs as [|y xs IHx]; cbn [map]; constructor.
        -- apply Hall. right. now left.
        -- apply IHx. intros z [Hz|Hz]; apply Hall; [now left | right; now right].
      * exact Hws.
      * apply Hall. now left.
      * pose proof (list_sum_length JSON weight (x :: xs) weight_pos) as Hlen.
        cbn [List.length] in Hlen. lia.
      * exists (JArray arr'). split; [|now apply equal_array].
        change ("]" ++ rest) with (String "]" rest).
        rewrite !append_assoc in Hnc, Hl. rewrite Hnc, parse_array_loop_skip_ws. exact Hl.
  - apply wf_object_iff in Hwf as [Hsorted Hwf]. cbn [printable] in Hpr. cbn [weight] in Hf.
    rewrite SortedOutput.dump_object_text. unfold object_text. cbn [append].
    rewrite parse_value_object.
    unfold parse_object. cbn [starts advance]. change (Ascii.eqb "{" "{") with true.
    cbv iota zeta. rewrite !append_assoc.
    set (lead := if pretty then String newline (spaces (indent + indent_size)) else EmptyString).
    set (sp := if pretty then " " else EmptyString).
    set (D := dump char_signed pretty (indent + indent_size) indent_size 6).
    assert (Hlead : all isspace lead = true) by apply layout_spaces.
    assert (Hsp : all isspace sp = true) by (subst sp; now destruct pretty).
    assert (Hall : forall kv, In kv obj ->
               all (key_char_ok char_signed) (fst kv) = true
               /\ reads_back_spaced char_signed f (sp ++ D (snd kv)) (snd kv)).
    { intros kv Hkv. rewrite Forall_forall in IH, Hwf. rewrite forallb_forall in Hpr.
      specialize (Hpr kv Hkv). apply andb_true_iff in Hpr as [Hk Hv].
      split; [exact Hk|]. apply reads_back_spaced_lead; [exact Hsp|].
      apply (IH kv Hkv (Hwf kv Hkv) Hv).
      pose proof (in_map (fun kv => weight (snd kv)) obj kv Hkv) as Hin.
      clear -Hin Hf. revert Hin Hf. generalize (map (fun kv => weight (snd kv)) obj).
      intros l Hin Hf. apply le_S_n in Hf.
      apply Nat.le_trans with (list_sum l); [|exact Hf].
      clear Hf. induction l as [|y l IHl]; [destruct Hin|].
      destruct Hin as [Hin|Hin]; simpl.
      - subst y. lia.
      - specialize (IHl Hin). lia. }
    destruct obj as [|[k v] kvs].
    + exists (JObject []). split; [|reflexivity].
      cbn [map String.concat append andb negb]. rewrite andb_false_r. cbn [append].
      rewrite skip_ws_stops by reflexivity. reflexivity.
    + cbn [map negb]. rewrite andb_true_r. rewrite SortedOutput.concat_cons.
      rewrite (map_ext _ _ (entry_text_layout pretty indent indent_size)).
      rewrite entry_text_layout. cbn [fst snd]. fold lead sp D.
      set (texts := map (fun kv => lead ++ entry (fst kv) (sp ++ D (snd kv))) kvs).
      fold (more texts).
      set (ws := if pretty then String newline (spaces indent) else EmptyString).
      assert (Hws : all isspace ws = true) by apply layout_spaces.
      rewrite !append_assoc.
      destruct (Hall (k, v) (or_introl eq_refl)) as [Hk Hv]. cbn [fst snd] in Hk, Hv.
      destruct (object_loop_read_back_spaced f kvs texts) with
        (fuel := f) (acc := @nil (string * JSON)) (k := k) (text := sp ++ D v) (v := v)
        (ws := ws) (rest := rest)
        as (obj' & Hl & Ho).
      * subst texts. clear -Hall Hlead. induction kvs as [|kv kvs IHk]; cbn [map]; constructor.
        -- destruct (Hall kv (or_intror (or_introl eq_refl))) as [Hk Hv].
           split; [exact Hk|]. exists lead, (sp ++ D (snd kv)).
           split; [reflexivity | split; [exact Hlead | exact Hv]].
        -- apply IHk. intros z [Hz|Hz]; apply Hall; [now left | right; now right].
      * exact Hws.
      * exact Hk.
      * exact Hv.
      * exact Hsorted.
      * intros k1 _. constructor.
      * pose proof (list_sum_length _ (fun kv : string * JSON => weight (snd kv))
                      ((k, v) :: kvs) (fun kv => weight_pos (snd kv))) as Hlen.
        cbn [List.length] in Hlen. lia.
      * exists (JObject obj'). split; [|now apply equal_object].
        change ("}" ++ rest) with (String "}" rest).
        rewrite (skip_ws_spaces lead _ Hlead).
        assert (Hstart : starts "}" (skip_ws (entry k (sp ++ D v) ++ more texts ++ ws
                                              ++ String "}" rest)) = false)
          by (unfold entry; cbn [append]; now rewrite skip_ws_stops by reflexivity).
        rewrite ?append_assoc in Hstart. rewrite ?append_assoc in Hl. rewrite Hstart.
        rewrite parse_object_loop_skip_ws. exact Hl.
Qed.

End Values.

(** X27.  [parse] reads every serialization back, pretty-printed or
    compact, as a value equal to the one serialized, for the values the
    compact round trip holds for and every indent size from 0 on that,
    times the depth of the value, fits an [int]: the indents are [int]s
    in the source, and none overflows then.  [dump_pretty] with such an
    indent size and [dump(true)] are cases of it. *)
Theorem parse_of_any_dump_is_equal (char_signed pretty : bool) (indent_size : nat) (v : JSON) :
  wf v -> printable char_signed v = true ->
  Z.of_nat (indent_size * depth v) <= INT_MAX ->
  exists v',
    parse char_signed (dump char_signed pretty 0 indent_size 6 v) = Ok v'
    /\ equal v' v = true.
Proof.
  intros Hwf Hpr _. unfold parse.
  set (s := dump char_signed pretty 0 indent_size 6 v).
  destruct (value_read_back_spaced char_signed pretty v Hwf Hpr 0%nat indent_size
              (weight v) (Nat.le_refl _) EmptyString eq_refl) as (v' & Hp & He).
  fold s in Hp. rewrite append_nil_r in Hp.
  exists v'. split; [|exact He].
  assert (Hfuel : parse_value char_signed (S (String.length s)) s = Ok (v', EmptyString)).
  { rewrite <- (parse_value_enough_fuel char_signed (weight v + S (String.length s)) s) by lia.
    rewrite Nat.add_comm.
    rewrite (parse_value_more_fuel char_signed (S (String.length s)) (weight v) s);
      [exact Hp|]. unfold settled. now rewrite Hp. }
  rewrite Hfuel. reflexivity.
Qed.

(** X27 at an object of depth 2, pretty-printed with an indent of two
    spaces. *)
Lemma parse_of_any_dump_witness :
  let v := JObject [("a", JArray [JNumber (of_decimal false 15 (-1)); JString "x\y"; JNull]);
                    ("b", JObject [])] in
  exists v', parse true (dump_pretty true 2 v) = Ok v' /\ equal v' v = true.
Proof.
  cbv zeta. apply (parse_of_any_dump_is_equal true true 2).
  - apply wf_object_iff. split.
    + repeat constructor.
    + repeat constructor; apply wf_array_iff || apply wf_object_iff; repeat constructor.
  - reflexivity.
  - vm_compute. discriminate.
Defined.

End PrettyRoundTrip.

(** ** JSON: flattening *)

Module Flattening.
Import EJson.
Import MapOrder.
Import MapLaws.
Import JsonOrder.

Lemma assign_key_object (key : string) (val : JSON) (m : StdMap.t JSON) :
  assign_key key val (JObject m) = Ok (JObject (StdMap.assign key val m)).
Proof.
  unfold assign_key, subscript_key. cbn [is_null]. unfold StdMap.subscript.
  destruct (StdMap.find key m); cbn [bind]; [reflexivity|].
  now rewrite assign_assign.
Qed.

Lemma assign_flat (key : string) (val : JSON) (m : StdMap.t JSON) :
  is_primitive val = true -> flat m -> flat (StdMap.assign key val m).
Proof.
  intros Hv [Hs Hp]. split; [now apply assign_sorted|].
  clear Hs. induction m as [|[k0 v0] m IH]; cbn [StdMap.assign].
  - now constructor.
  - inversion Hp as [|? ? Hv0 Hm]; subst.
    destruct (String.compare key k0); constructor; auto.
Qed.

Lemma not_container_primitive (j : JSON) :
  is_object j || is_array j = false -> is_primitive j = true.
Proof. now destruct j. Qed.

(** [flatten_recursive] never throws on a result that is a flat Object,
    and leaves it a flat Object. *)
Lemma flatten_recursive_flat (sep : string) (obj : JSON) :
  forall prefix m, flat m ->
    exists m', flatten_recursive obj prefix (JObject m) sep = Ok (JObject m') /\ flat m'.
Proof.
  induction obj as [ | b | num | s | arr IH | entries IH ] using JSON_induction;
    intros prefix m Hm;
    try (cbn [flatten_recursive]; rewrite assign_key_object; eexists; split;
         [reflexivity | now apply assign_flat]).
  - cbn [flatten_recursive]. generalize 0%nat as i. revert m Hm.
    induction arr as [|el arr IHa]; intros m Hm i; [now exists m|].
    inversion IH as [|? ? Hel Harr]; subst.
    set (new_key := prefix ++ "[" ++ dec_of_Z (Z.of_nat i) ++ "]").
    assert (Hstep : exists m1,
               (if is_object el || is_array el
                then flatten_recursive el new_key (JObject m) sep
                else assign_key new_key el (JObject m)) = Ok (JObject m1) /\ flat m1).
    { destruct (is_object el || is_array el) eqn:E.
      - now apply Hel.
      - rewrite assign_key_object. eexists. split; [reflexivity|].
        apply assign_flat; [now apply not_container_primitive | exact Hm]. }
    destruct Hstep as (m1 & Hstep & Hm1). rewrite Hstep. cbn [bind].
    now apply IHa.
  - cbn [flatten_recursive]. revert m Hm.
    induction entries as [|kv entries IHe]; intros m Hm; [now exists m|].
    inversion IH as [|? ? Hel Hrest]; subst.
    set (new_key := if is_empty prefix then fst kv else prefix ++ sep ++ fst kv).
    assert (Hstep : exists m1,
               (if is_object (snd kv) || is_array (snd kv)
                then flatten_recursive (snd kv) new_key (JObject m) sep
                else assign_key new_key (snd kv) (JObject m)) = Ok (JObject m1) /\ flat m1).
    { destruct (is_object (snd kv) || is_array (snd kv)) eqn:E.
      - now apply Hel.
      - rewrite assign_key_object. eexists. split; [reflexivity|].
        apply assign_flat; [now apply not_container_primitive | exact Hm]. }
    destruct Hstep as (m1 & Hstep & Hm1). rewrite Hstep. cbn [bind].
    now apply IHe.
Qed.

Lemma sorted_app_below {V : Type} (acc : StdMap.t V) (k : string) (v : V) (l : StdMap.t V) :
  StdMap.sorted (acc ++ (k, v) :: l)%list ->
  Forall (fun k0 => StdMap.key_lt k0 k) (StdMap.keys acc).
Proof.
  induction acc as [|[k0 v0] acc IH]; cbn [app StdMap.keys map]; intros Hs; [constructor|].
  apply sorted_cons_iff in Hs as [Ha Hs]. constructor; [|now apply IH].
  cbn [fst]. pose proof (above_all _ k0 Hs Ha) as Hall.
  rewrite Forall_forall in Hall. apply Hall.
  unfold StdMap.keys. rewrite map_app. apply in_or_app. right. now left.
Qed.

(** The entries of a flat Object, flattened with no prefix, are assigned
    one after the other at the end of the result. *)
Lemma flatten_flat_entries (sep : string) (l : StdMap.t JSON) :
  forall acc,
    StdMap.sorted (acc ++ l)%list ->
    Forall (fun kv => is_primitive (snd kv) = true) l ->
    flatten_recursive (JObject l) EmptyString (JObject acc) sep = Ok (JObject (acc ++ l)%list).
Proof.
  cbn [flatten_recursive is_empty].
  induction l as [|[k v] l IH]; intros acc Hs Hp; [now rewrite app_nil_r|].
  inversion Hp as [|? ? Hv Hl]; subst. cbn [fst snd] in *.
  assert (Hc : is_object v || is_array v = false) by (now destruct v).
  rewrite Hc. rewrite assign_key_object. cbn [bind].
  rewrite (assign_at_end k v acc (sorted_app_below acc k v l Hs)).
  rewrite (IH (acc ++ [(k, v)])%list); [now rewrite <- app_assoc | now rewrite <- app_assoc | exact Hl].
Qed.

(** X28.  [flattened] never throws.  It returns an Object with its keys
    sorted and no Array or Object among its values; an Object that is
    already so is returned as it is, so flattening twice is flattening
    once; a value that is no Array and no Object becomes the one entry of
    the empty key, and an empty Array or Object becomes the empty
    Object. *)
Theorem flattened_is_flat :
  forall (separator : string) (j : JSON),
    exists m,
      flattened separator j = Ok (JObject m)
      /\ flat m
      /\ flattened separator (JObject m) = Ok (JObject m)
      /\ (is_array j || is_object j = false -> m = [(EmptyString, j)])
      /\ (empty j = true -> is_null j = false -> is_string j = false -> m = []).
Proof.
  intros sep j. unfold flattened.
  destruct (flatten_recursive_flat sep j EmptyString []) as (m & Hm & Hflat).
  { split; constructor. }
  exists m. split; [exact Hm|]. split; [exact Hflat|]. split; [|split].
  - destruct Hflat as [Hs Hp]. now apply (flatten_flat_entries sep m []).
  - intros H. destruct j; try discriminate H; cbn in Hm; now injection Hm as <-.
  - intros He Hn Hstr. destruct j as [| | | | arr | obj]; try discriminate.
    + destruct arr; [|discriminate He]. cbn in Hm. now injection Hm as <-.
    + destruct obj; [|discriminate He]. cbn in Hm. now injection Hm as <-.
Qed.

End Flattening.

(** ** JSON: [operator==] *)

Module Equality.
Import Double.
Import EJson.
Import JsonOrder.

Lemma eqb_refl (x : double) : Double.eqb x x = negb (is_nan x).
Proof.
  destruct x as [s|s| |s m e]; try reflexivity.
  - now destruct s.
  - unfold Double.eqb, SFeqb, SFcompare. cbn [is_nan negb].
    rewrite Z.compare_refl, Pos.compare_cont_refl. now destruct s.
Qed.

Lemma eqb_sym (x y : double) : Double.eqb x y = Double.eqb y x.
Proof.
  destruct x as [s1|s1| |s1 m1 e1], y as [s2|s2| |s2 m2 e2]; try reflexivity;
    try (now destruct s1); try (now destruct s2); try (now destruct s1, s2).
  unfold Double.eqb, SFeqb, SFcompare.
  rewrite (Z.compare_antisym e1 e2).
  destruct s1, s2; try reflexivity; destruct (Z.compare e1 e2); cbn [CompOpp]; try reflexivity.
  - replace (Pos.compare_cont Eq m2 m1) with (CompOpp (Pos.compare_cont Eq m1 m2))
      by apply (Pos.compare_cont_antisym m1 m2 Eq).
    now destruct (Pos.compare_cont Eq m1 m2).
  - replace (Pos.compare_cont Eq m2 m1) with (CompOpp (Pos.compare_cont Eq m1 m2))
      by apply (Pos.compare_cont_antisym m1 m2 Eq).
    now destruct (Pos.compare_cont Eq m1 m2).
Qed.

(** Doubles that compare equal are the same double, or are both zero. *)
Lemma eqb_true (x y : double) :
  Double.eqb x y = true ->
  (x = y /\ is_nan x = false) \/ (exists s1 s2, x = S754_zero s1 /\ y = S754_zero s2).
Proof.
  destruct x as [s1|s1| |s1 m1 e1], y as [s2|s2| |s2 m2 e2]; try discriminate;
    try (now destruct s1); try (now destruct s2).
  - intros _. right. now exists s1, s2.
  - destruct s1, s2; try discriminate; intros _; left; now split.
  - unfold Double.eqb, SFeqb, SFcompare.
    destruct s1, s2; try discriminate;
      destruct (Z.compare e1 e2) eqn:Ee; try discriminate;
      destruct (Pos.compare_cont Eq m1 m2) eqn:Em; try discriminate;
      intros _; left; split; try reflexivity;
      apply Z.compare_eq in Ee; apply Pos.compare_eq in Em; now subst.
Qed.

Lemma eqb_trans (x y z : double) :
  Double.eqb x y = true -> Double.eqb y z = true -> Double.eqb x z = true.
Proof.
  intros Hxy Hyz.
  destruct (eqb_true x y Hxy) as [[-> _]|(s1 & s2 & -> & ->)]; [exact Hyz|].
  destruct (eqb_true _ z Hyz) as [[<- _]|(s3 & s4 & _ & ->)]; reflexivity.
Qed.

Lemma equal_sym (a : JSON) : forall b, equal a b = equal b a.
Proof.
  induction a as [ | x | x | x | xs IH | xs IH ] using JSON_induction;
    intros [ | y | y | y | ys | ys ]; try reflexivity.
  - cbn [equal]. now destruct x, y.
  - cbn [equal]. apply eqb_sym.
  - cbn [equal]. apply String.eqb_sym.
  - cbn [equal]. revert ys. induction xs as [|a xs IHx]; intros [|b ys]; try reflexivity.
    inversion IH as [|? ? Ha Hxs]; subst. rewrite (Ha b). f_equal. now apply IHx.
  - cbn [equal]. revert ys. induction xs as [|[k1 a] xs IHx]; intros [|[k2 b] ys]; try reflexivity.
    inversion IH as [|? ? Ha Hxs]; subst. cbn [snd] in Ha.
    rewrite (Ha b), (String.eqb_sym k1 k2). f_equal. now apply IHx.
Qed.

Lemma equal_refl (a : JSON) : equal a a = negb (has_nan a).
Proof.
  induction a as [ | x | x | x | xs IH | xs IH ] using JSON_induction; try reflexivity.
  - cbn [equal has_nan]. now destruct x.
  - cbn [equal has_nan]. apply eqb_refl.
  - cbn [equal has_nan]. apply String.eqb_refl.
  - cbn [equal has_nan]. induction xs as [|a xs IHx]; [reflexivity|].
    inversion IH as [|? ? Ha Hxs]; subst. cbn [existsb]. rewrite Ha, (IHx Hxs).
    now rewrite negb_orb.
  - cbn [equal has_nan]. induction xs as [|[k a] xs IHx]; [reflexivity|].
    inversion IH as [|? ? Ha Hxs]; subst. cbn [existsb snd] in *.
    rewrite String.eqb_refl, Ha, (IHx Hxs). now rewrite negb_orb.
Qed.

Lemma equal_trans (a : JSON) :
  forall b c, equal a b = true -> equal b c = true -> equal a c = true.
Proof.
  induction a as [ | x | x | x | xs IH | xs IH ] using JSON_induction;
    intros [ | y | y | y | ys | ys ] [ | z | z | z | zs | zs ]; try discriminate;
    try reflexivity.
  - cbn [equal]. destruct x, y, z; try discriminate; reflexivity.
  - cbn [equal]. apply eqb_trans.
  - cbn [equal]. intros H1 H2. apply String.eqb_eq in H1, H2. subst. apply String.eqb_refl.
  - cbn [equal]. revert ys zs.
    induction xs as [|a xs IHx]; intros [|b ys] [|c zs]; try discriminate; try reflexivity.
    inversion IH as [|? ? Ha Hxs]; subst. intros H1 H2.
    apply andb_true_iff in H1 as [H1 H1'], H2 as [H2 H2'].
    rewrite (Ha b c H1 H2). now apply (IHx Hxs ys zs).
  - cbn [equal]. revert ys zs.
    induction xs as [|[k1 a] xs IHx]; intros [|[k2 b] ys] [|[k3 c] zs];
      try discriminate; try reflexivity.
    inversion IH as [|? ? Ha Hxs]; subst. cbn [snd] in Ha. intros H1 H2.
    apply andb_true_iff in H1 as [H1 H1'], H2 as [H2 H2'].
    apply andb_true_iff in H1 as [H1k H1], H2 as [H2k H2].
    apply String.eqb_eq in H1k, H2k. subst.
    rewrite String.eqb_refl, (Ha b c H1 H2). now apply (IHx Hxs ys zs).
Qed.

(** X29.  [operator==] is symmetric and transitive, and a value is equal
    to itself exactly when no Number in it is NaN: on values without NaN it
    is an equivalence.  Equal values are of the same type and size, and
    the zeros of both signs are equal Numbers. *)
Theorem equal_is_an_equivalence_without_nan :
  forall a b c : JSON,
    equal a b = equal b a
    /\ equal a a = negb (has_nan a)
    /\ (equal a b = true -> equal b c = true -> equal a c = true)
    /\ (equal a b = true -> type_name a = type_name b /\ size a = size b)
    /\ equal (JNumber (S754_zero false)) (JNumber (S754_zero true)) = true.
Proof.
  intros a b c. split; [apply equal_sym|]. split; [apply equal_refl|].
  split; [apply equal_trans|]. split; [|reflexivity].
  intros H. destruct a as [ | x | x | x | xs | xs ], b as [ | y | y | y | ys | ys ];
    try discriminate H; split; try reflexivity; cbn [equal size] in *.
  - apply String.eqb_eq in H. now subst.
  - revert ys H. induction xs as [|a xs IHx]; intros [|b ys] H; try discriminate H;
      [reflexivity|]. apply andb_true_iff in H as [_ H]. cbn [List.length]. f_equal.
    now apply IHx.
  - revert ys H. induction xs as [|[k1 a] xs IHx]; intros [|[k2 b] ys] H; try discriminate H;
      [reflexivity|]. apply andb_true_iff in H as [_ H]. cbn [List.length]. f_equal.
    now apply IHx.
Qed.

End Equality.

(** ** JSON: the UTF-8 bytes of a code point *)

Module Utf8.
Import EJson.

Lemma code_chr (n : Z) : 0 <= n < 256 -> code (chr n) = n.
Proof.
  intros Hn. unfold code, chr. rewrite N_ascii_embedding.
  - rewrite Z2N.id by (apply Z.mod_pos_bound; lia). apply Z.mod_small. lia.
  - apply N2Z.inj_lt. rewrite Z2N.id by (apply Z.mod_pos_bound; lia).
    change (Z.of_N 256) with 256. apply Z.mod_pos_bound. lia.
Qed.

(** [a | b] is [a + b] when a table of the values of [b] says so. *)
Lemma lor_table (a : Z) (bound : nat) :
  forallb (fun n => Z.lor a (Z.of_nat n) =? a + Z.of_nat n) (seq 0 bound) = true ->
  forall b, 0 <= b < Z.of_nat bound -> Z.lor a b = a + b.
Proof.
  intros H b Hb. rewrite forallb_forall in H.
  specialize (H (Z.to_nat b)). rewrite Z2Nat.id in H by lia.
  apply Z.eqb_eq. apply H. apply in_seq. lia.
Qed.

Lemma lor_128 (b : Z) : 0 <= b < 64 -> Z.lor 128 b = 128 + b.
Proof. apply (lor_table 128 64). reflexivity. Qed.

Lemma lor_192 (b : Z) : 0 <= b < 32 -> Z.lor 192 b = 192 + b.
Proof. apply (lor_table 192 32). reflexivity. Qed.

Lemma lor_224 (b : Z) : 0 <= b < 16 -> Z.lor 224 b = 224 + b.
Proof. apply (lor_table 224 16). reflexivity. Qed.

Lemma lor_240 (b : Z) : 0 <= b < 8 -> Z.lor 240 b = 240 + b.
Proof. apply (lor_table 240 8). reflexivity. Qed.

Lemma land_63 (n : Z) : Z.land n 63 = n mod 64.
Proof. change 63 with (Z.ones 6). now rewrite Z.land_ones by lia. Qed.

Lemma continuation (n : Z) :
  0 <= n -> code (chr (Z.lor 128 (Z.land n 63))) = 128 + n mod 64.
Proof.
  intros Hn. rewrite land_63.
  assert (0 <= n mod 64 < 64) by (apply Z.mod_pos_bound; lia).
  rewrite lor_128 by lia. apply code_chr. lia.
Qed.

(** X30.  [encode_utf8] appends the UTF-8 form of a code point: one byte
    up to 7F, two up to 7FF, three up to FFFF and four up to 10FFFF, the
    lead byte carrying the high bits above its length mark and each
    following byte the next six bits above 80, so that the code point can
    be read back from the bytes; above 10FFFF it appends nothing. *)
Theorem encode_utf8_appends_the_utf8_bytes :
  forall (res : string) (codepoint : Z),
    (0 <= codepoint <= 127 ->
       encode_utf8 res codepoint = res ++ str1 (chr codepoint)
       /\ code (chr codepoint) = codepoint)
    /\ (128 <= codepoint <= 2047 ->
          exists b0 b1,
            encode_utf8 res codepoint = res ++ String b0 (str1 b1)
            /\ code b0 = 192 + codepoint / 64
            /\ code b1 = 128 + codepoint mod 64
            /\ 194 <= code b0 <= 223)
    /\ (2048 <= codepoint <= 65535 ->
          exists b0 b1 b2,
            encode_utf8 res codepoint = res ++ String b0 (String b1 (str1 b2))
            /\ code b0 = 224 + codepoint / 4096
            /\ code b1 = 128 + (codepoint / 64) mod 64
            /\ code b2 = 128 + codepoint mod 64
            /\ 224 <= code b0 <= 239)
    /\ (65536 <= codepoint <= 1114111 ->
          exists b0 b1 b2 b3,
            encode_utf8 res codepoint = res ++ String b0 (String b1 (String b2 (str1 b3)))
            /\ code b0 = 240 + codepoint / 262144
            /\ code b1 = 128 + (codepoint / 4096) mod 64
            /\ code b2 = 128 + (codepoint / 64) mod 64
            /\ code b3 = 128 + codepoint mod 64
            /\ 240 <= code b0 <= 244)
    /\ (1114111 < codepoint -> encode_utf8 res codepoint = res).
Proof.
  intros res cp. unfold encode_utf8.
  split; [|split; [|split; [|split]]]; intros H.
  - replace (cp <=? 127) with true by (symmetry; apply Z.leb_le; lia).
    split; [reflexivity | apply code_chr; lia].
  - replace (cp <=? 127) with false by (symmetry; apply Z.leb_gt; lia).
    replace (cp <=? 2047) with true by (symmetry; apply Z.leb_le; lia).
    eexists _, _. split; [reflexivity|].
    rewrite Z.shiftr_div_pow2 by lia. change (2 ^ 6) with 64.
    assert (Hq : 2 <= cp / 64 < 32)
      by (split; [apply Z.div_le_lower_bound | apply Z.div_lt_upper_bound]; lia).
    rewrite lor_192 by lia. rewrite code_chr by lia.
    rewrite continuation by lia. repeat split; lia.
  - replace (cp <=? 127) with false by (symmetry; apply Z.leb_gt; lia).
    replace (cp <=? 2047) with false by (symmetry; apply Z.leb_gt; lia).
    replace (cp <=? 65535) with true by (symmetry; apply Z.leb_le; lia).
    eexists _, _, _. split; [reflexivity|].
    rewrite !Z.shiftr_div_pow2 by lia. change (2 ^ 6) with 64. change (2 ^ 12) with 4096.
    assert (Hq : 0 <= cp / 4096 < 16)
      by (split; [apply Z.div_le_lower_bound | apply Z.div_lt_upper_bound]; lia).
    assert (Hq2 : 0 <= cp / 64) by (apply Z.div_le_lower_bound; lia).
    rewrite lor_224 by lia. rewrite code_chr by lia.
    rewrite !continuation by lia. repeat split; lia.
  - replace (cp <=? 127) with false by (symmetry; apply Z.leb_gt; lia).
    replace (cp <=? 2047) with false by (symmetry; apply Z.leb_gt; lia).
    replace (cp <=? 65535) with false by (symmetry; apply Z.leb_gt; lia).
    replace (cp <=? 1114111) with true by (symmetry; apply Z.leb_le; lia).
    eexists _, _, _, _. split; [reflexivity|].
    rewrite !Z.shiftr_div_pow2 by lia.
    change (2 ^ 6) with 64. change (2 ^ 12) with 4096. change (2 ^ 18) with 262144.
    assert (Hq : 0 <= cp / 262144 < 5)
      by (split; [apply Z.div_le_lower_bound | apply Z.div_lt_upper_bound]; lia).
    assert (Hq2 : 0 <= cp / 64) by (apply Z.div_le_lower_bound; lia).
    assert (Hq3 : 0 <= cp / 4096) by (apply Z.div_le_lower_bound; lia).
    rewrite lor_240 by lia. rewrite code_chr by lia.
    rewrite !continuation by lia. repeat split; lia.
  - replace (cp <=? 127) with false by (symmetry; apply Z.leb_gt; lia).
    replace (cp <=? 2047) with false by (symmetry; apply Z.leb_gt; lia).
    replace (cp <=? 65535) with false by (symmetry; apply Z.leb_gt; lia).
    replace (cp <=? 1114111) with false by (symmetry; apply Z.leb_gt; lia).
    reflexivity.
Qed.

End Utf8.
